(* ===== verification/_CoqProject ===== *)
-Q . S2P
Prelude.v
Rust.v
Net.v
Stream.v
Protocol.v
ProtocolSpec.v
Acl.v
Wildcard.v
AclEngine.v
AclSpec.v
AclCrud.v
AclCrudSpec.v
AclFile.v
AclFileSpec.v
AclWatch.v
AclWatchSpec.v
AclApi.v
AclApiSpec.v
TokenBucket.v
Qos.v
QosSpec.v
Pool.v
PoolSpec.v
PoolRace.v
PoolRaceSpec.v
PoolUse.v
PoolUseSpec.v
Telemetry.v
TelemetrySpec.v
PoolLog.v
PoolLogSpec.v
Session.v
Manager.v
ManagerSpec.v
StatsSpec.v
SessionRace.v
SessionRaceSpec.v
NetSpec.v
Store.v
StoreSpec.v
PersistSpec.v
SessionsApi.v
SessionsApiSpec.v
Auth.v
AuthSpec.v
Proxy.v
ProxySpec.v
QosMetrics.v
QosMetricsSpec.v
Handler.v
HandlerSpec.v
Settings.v
SettingsSpec.v
Listener.v
ListenerSpec.v
DashboardAuth.v
DashboardAuthSpec.v
ApiServer.v
ApiServerSpec.v
Management.v
ManagementSpec.v
Diagnostics.v
DiagnosticsSpec.v
StoreOpen.v
StoreOpenSpec.v
SystemCheck.v
SystemCheckSpec.v
Udp.v
UdpSpec.v
Server.v
ServerSpec.v
