(* ===== verification/Prelude.v ===== *)
(** * RustSocks: a verification development

    RustSocks (src/src/, Rust) is a SOCKS4/4a/5 proxy server.  A client connects,
    is authenticated, asks for a destination, is allowed or refused by access
    rules, and is connected through a pool of upstream connections and relayed
    under per-user bandwidth limits, while a manager keeps a record of its
    session and a database keeps it over a restart.  A REST interface shows and
    changes all of this.  This library models the server, from the bytes on the
    client's stream to the rows of the database and the answers of the interface,
    and proves what makes it correct.

    ** The parts of the program and the files that model them

    A file [XSpec] holds the theorems about the definitions of [X].

    - [Prelude]: machine integers with their wrap-around and saturation, bytes,
      UTF-8, strings, stable insertion sort, the [result] monad, tactics and the
      hint database [rsocks].  [Rust]: the capacities and durations that the
      standard library and chrono refuse.  [Net], [NetSpec]: the textual forms and the order
      of internet addresses ([std::net]).  [Stream]: the errors of utils/error.rs
      and byte streams: an input with its end, an output, and a schedule of the
      writes that fail.
    - [Protocol]: protocol/types.rs and protocol/parser.rs.  Every parser is
      proved sound and complete against a grammar of its RFC ([parses m wire]):
      what is accepted, what is returned, how much is read.
    - [Acl], [Wildcard], [AclEngine], [AclSpec]: acl/types.rs, matcher.rs,
      engine.rs, loader.rs, watcher.rs, stats.rs.  Compilation of rules,
      evaluation, validation, hot reload.  The theorems characterise a verdict
      without the order of evaluation: block rules first, then priority; the
      unstable sort and the iteration order of hash maps do not matter.
      [AclCrud]: acl/crud.rs, the editing operations; what each changes and
      leaves alone, and which keep a configuration valid.  [AclFile]:
      acl/persistence.rs on a disk whose operations fail; what is left after a
      fault.  [AclApi]: api/handlers/acl_management.rs, the three together; every
      edit, and the update that two edits at once lose.
    - [Auth]: auth/mod.rs, pam.rs, groups.rs, gssapi.rs.  Whom each method takes
      a client for, with GSS-API by the tokens of which messages, and that its
      loop ends.
    - [TokenBucket], [Qos]: qos/token_bucket.rs, htb.rs, mod.rs, types.rs.
      Conservation of tokens, sequentially and for the compare-and-swap loop
      under every interleaving (Module [Cas]); the invariant of the engine;
      bounds of the fair shares; how far concurrent admissions overshoot the
      connection limits (Module [Limits]).  [QosMetrics]: qos/metrics.rs and
      where htb.rs and proxy.rs use it: the bytes counted as allocated are those
      the relay forwards, up to a buffer, and the gauge of the active users
      counts the users that are connected.
    - [Pool]: server/pool.rs.  No connection is handed out twice or to the wrong
      destination, the limits, and the counters in use, over all sequences of
      operations, refreshes and clean-ups.
    - [PoolRace]: the same pool at the steps where its operations let other
      threads in (the concurrent map and the counter of the idle connections are
      accessed one after the other).  What every interleaving keeps
      ([pool_race_safe]); the faults that two threads reach: a panic, a
      connection lost, a counter that is off for good ([pool_race_faults]); and,
      as a check of one model against the other, that a thread nobody interrupts
      does what [Pool] says, within eight steps ([pool_race_alone]).  [PoolUse]
      does the same for the three counts of the connections in use, with the
      connections that BIND gives to the pool uncounted and those that a handler
      drops: two counts are off by no more than these under every interleaving
      ([pool_use_bounded]), the one that the statistics show is not
      ([pool_use_undercount]).  [PoolLog]: the events that the pool writes to the
      log of [Telemetry]; they are what its counters of lost connections count.
    - [AclWatch]: watcher.rs again, and the handlers that save and reload, at the
      steps where the tasks let others in.  As long as no two of them are at work
      at once the engine follows the file ([hot_reload_serial]); otherwise the two
      that the watcher spawns can leave it with the rules of an older version, and
      it stays there ([hot_reload_stale]).
    - [Session], [Manager], [StatsSpec]: session/types.rs, batch.rs, history.rs,
      metrics.rs, manager.rs.  The life cycle of a session, the accounting of its
      traffic, the write-behind queue against an abstract sink, revocation when
      rules change, statistics.
    - [SessionRace]: the manager and the batch writer once more, at the steps
      between two accesses to their maps, locks and the queue; a session that was
      taken out of the map lives on for the threads that hold its handle.  What
      every interleaving keeps: a session is in one place, is ended once and
      counts every update ([session_race_safe]); that an enforcement of the rules
      reaches every session that was there when it began
      ([revocation_reaches_all]); what two threads can do that one cannot
      ([session_race_faults]); and, as a check of one model against the other, that
      an operation nobody interrupts does what [Manager] says
      ([session_race_alone]).
    - [Store], [PersistSpec]: session/store.rs, the rows and the statements.  The
      queries that are built piece by piece are lexed, parsed and evaluated
      (Module [Sql]): what a filter selects, that no value is read as SQL, that a
      session is read back as written; [PersistSpec] composes the manager, the
      batch and the store over a crash and a restart: which versions of the
      sessions reach the database when transactions fail ([crash_then_restart]).
      [StoreOpen]: the same file, the opening of the database: whatever fails,
      the text of the database file is kept, and a database that is opened is
      sound.
      [SessionsApi]: api/handlers/sessions.rs, on the manager and the store; when
      the two sources of the history agree.
    - [Proxy]: server/proxy.rs.  The two copying tasks, interleaved round by
      round: what is delivered, what is reported, how a relay ends.
      [Udp]: server/udp.rs.  The loop of the UDP relay refines a table of clients
      with their destinations.
    - [Handler]: server/handler.rs, resolver.rs, bind.rs.  A handler is a program
      over the calls it makes (to its client, to the other parts, to the
      network); [HandlerSpec] lets every call be answered arbitrarily, which
      covers every client, every network and every interference of other
      connections, and proves that the sequence of calls follows a protocol, an
      automaton.
    - [Settings], [Listener]: config/mod.rs, main.rs, server/listener.rs.  The
      settings with their defaults, what the validation accepts, and a start
      that panics on what was accepted only for the sizes that it allocates and
      the periods that it keeps.  [SystemCheck]: utils/system.rs.
    - [DashboardAuth]: api/auth.rs, the sessions of the dashboard against the
      table of the logins that are still open, and the proof of work.
      [ApiServer]: api/server.rs, the routes, the guard of the dashboard (and
      that it guards nothing) and the base path.  [Management]:
      api/handlers/management.rs with the writing of the configuration; which
      errors leave it alone.  [Telemetry]: telemetry.rs and its endpoint; what
      the log keeps.  [Diagnostics]: the endpoints of diagnostics.rs, pool.rs and
      system_resources.rs in api/handlers/, and server/stats.rs.
    - [Server]: the calls of the handler answered by the models of the other
      parts, composed as [ClientHandlerContext] composes them; the theorems
      follow a refused and a served connection from the first byte to the last.

    ** How the parts meet

    Interfaces are type classes, with the documented laws of code that is not
    part of the program: [AclDeps] (CIDR, regular expressions, lower-casing) and
    [RegexLaws] in [Acl] and [Wildcard]; [AuthDeps] (PAM, the name service,
    GSS-API) in [Auth]; [SessionSink] (the database behind the batch writer) in
    [Session], of which the store is an instance; [Chrono], [UuidText] and
    [SqlEngine] in [Store]; [SqlxDriver] in [StoreOpen]; [Toml] in [AclFile] and
    [ConfigToml] in [Management]; [TlsDeps] and [Startup] in [Listener]; [Crypto]
    (no laws) in [DashboardAuth]; [Axum] in [ApiServer]; [TimeDelta] and [Layout]
    in [Rust]; [UnstableSort] in this file and [IterOrder] in [Manager] are the
    freedom that [sort_unstable_by] and concurrent maps have.  Each class has an
    instance with which the witnesses compute.  Floating point is that of IEEE
    754, executed by the Standard Library's [SpecFloat].

    ** Conventions

    A definition has the name of what it models.  State is passed explicitly and
    an operation returns its result with the new state; [io] is the error monad
    over a client's stream, [M] the programs of the handler, [dio] the operations
    on a disk, [opening] those on a disk and a database engine.  Integers are [Z]
    with the wrap-around or saturation of the source written out.  Instants are
    nanoseconds; clocks, fresh identifiers, outcomes of system calls and orders
    of iteration are arguments.  Operations on concurrent maps are atomic steps;
    where the source's own steps are smaller and this matters, they are modelled
    as interleaved steps ([Cas], [Limits], [PoolRace], [PoolUse], [SessionRace],
    [AclWatch], the relay's rounds).

    Fuel: [establish] (GSS-API) takes one unit per message and is given one more
    than the bytes that are left, which is enough since a message has at least
    two ([establish_terminates]).  [connect] (the database) has fuel for two
    attempts, and always ends ([connect_keeps_database]).  The loop of a waiting
    [consume] takes the list of the instants at which it looks at the clock;
    [None] is a wait that is not over at the end of that list.  The other
    recursions are structural.

    ** What is not modelled

    The exhaustion of memory: an allocation that is within [isize::MAX] succeeds.
    Tracing and the text format of Prometheus; socket options; the select loop
    around [accept] and the handling of signals in listener.rs and main.rs; the
    process that a restart spawns; the deserialization of TOML and JSON; the
    constant documents of Swagger and OpenAPI in api/server.rs; panics of spawned
    tasks other than those of a start and of a request; the load test under
    examples/. *)

From Stdlib Require Export ZArith Lia Strings.Byte Strings.Ascii.
From Stdlib Require Strings.String.
From stdpp Require Export base list strings gmap numbers pretty sorting.

#[global] Set Default Goal Selector "!".
#[global] Open Scope Z_scope.

Abbreviation u8 := Byte.byte.

(** ** Machine integers *)

Definition u16_max : Z := 2 ^ 16 - 1.
Definition u32_max : Z := 2 ^ 32 - 1.
Definition u64_max : Z := 2 ^ 64 - 1.

(** [fetch_add]/[fetch_sub] on an [AtomicU64] or [AtomicUsize] wrap around. *)
Definition wrap64 (z : Z) : Z := z mod 2 ^ 64.
Definition wadd64 (a b : Z) : Z := wrap64 (a + b).
Definition wsub64 (a b : Z) : Z := wrap64 (a - b).

(** [saturating_add] and [saturating_sub] on [u64]. *)
Definition sat_add64 (a b : Z) : Z := Z.min (a + b) u64_max.
Definition sat_sub64 (a b : Z) : Z := Z.max 0 (a - b).

Definition is_u16 (z : Z) : Prop := 0 <= z <= u16_max.
Definition is_u64 (z : Z) : Prop := 0 <= z <= u64_max.

#[export] Instance is_u16_dec z : Decision (is_u16 z).
Proof. unfold is_u16. apply _. Defined.
#[export] Instance is_u64_dec z : Decision (is_u64 z).
Proof. unfold is_u64. apply _. Defined.

(** Case analysis on every [if] over a boolean comparison of integers,
    with the comparison turned into a proposition. *)
Ltac zcases :=
  repeat match goal with
  | |- context [if ?a <? ?b then _ else _] => destruct (Z.ltb_spec a b)
  | |- context [if ?a <=? ?b then _ else _] => destruct (Z.leb_spec a b)
  | |- context [if ?a =? ?b then _ else _] => destruct (Z.eqb_spec a b)
  | H : context [if ?a <? ?b then _ else _] |- _ => destruct (Z.ltb_spec a b)
  | H : context [if ?a <=? ?b then _ else _] |- _ => destruct (Z.leb_spec a b)
  | H : context [if ?a =? ?b then _ else _] |- _ => destruct (Z.eqb_spec a b)
  end.

(** Unfold the integer vocabulary and finish with [lia]. *)
Ltac zsolve :=
  unfold is_u16, is_u64, sat_add64, sat_sub64, u16_max, u32_max, u64_max in *; lia.

Create HintDb rsocks.
Create Rewrite HintDb rsocks.

Lemma wrap64_bound z : is_u64 (wrap64 z).
Proof.
  unfold is_u64, wrap64, u64_max. pose proof (Z.mod_pos_bound z (2 ^ 64)). lia.
Qed.

Lemma wrap64_id z : is_u64 z -> wrap64 z = z.
Proof. intros H. unfold wrap64. apply Z.mod_small. zsolve. Qed.

Lemma wadd64_wrap a b : wadd64 (wrap64 a) b = wrap64 (a + b).
Proof. unfold wadd64, wrap64. apply Zplus_mod_idemp_l. Qed.

Lemma wsub64_wrap a b : wsub64 (wrap64 a) b = wrap64 (a - b).
Proof. unfold wsub64, wrap64. apply Zminus_mod_idemp_l. Qed.

Lemma wadd64_id a b : is_u64 (a + b) -> wadd64 a b = a + b.
Proof. apply wrap64_id. Qed.

Lemma wsub64_id a b : is_u64 (a - b) -> wsub64 a b = a - b.
Proof. apply wrap64_id. Qed.

Lemma sat_add64_bound a b : 0 <= a -> 0 <= b -> is_u64 (sat_add64 a b).
Proof. zsolve. Qed.

#[export] Hint Resolve wrap64_bound sat_add64_bound : rsocks.
#[export] Hint Rewrite wadd64_wrap wsub64_wrap : rsocks.

(** ** Bytes *)

(** [u8_to_Z] is the value of a byte, [Z_to_u8] the cast [as u8]. *)
Definition u8_to_Z (b : u8) : Z := Z.of_N (Byte.to_N b).
Definition Z_to_u8 (z : Z) : u8 :=
  match Byte.of_N (Z.to_N (z mod 256)) with Some b => b | None => x00 end.

#[export] Instance byte_eq_dec : EqDecision u8 := Byte.byte_eq_dec.

Lemma u8_to_Z_bound b : 0 <= u8_to_Z b < 256.
Proof. unfold u8_to_Z. pose proof (Byte.to_N_bounded b). lia. Qed.

Lemma Z_to_u8_to_Z b : Z_to_u8 (u8_to_Z b) = b.
Proof.
  unfold Z_to_u8. rewrite Z.mod_small by apply u8_to_Z_bound.
  unfold u8_to_Z. by rewrite N2Z.id, Byte.of_to_N.
Qed.

Lemma u8_to_Z_of_Z z : u8_to_Z (Z_to_u8 z) = z mod 256.
Proof.
  unfold Z_to_u8. pose proof (Z.mod_pos_bound z 256 ltac:(lia)) as Hb.
  destruct (Byte.of_N (Z.to_N (z mod 256))) as [b|] eqn:E.
  - apply Byte.to_of_N in E. unfold u8_to_Z. rewrite E. by rewrite Z2N.id by lia.
  - apply Byte.of_N_None_iff in E. lia.
Qed.

#[export] Instance u8_to_Z_inj : Inj (=) (=) u8_to_Z.
Proof. intros a b H. by rewrite <- (Z_to_u8_to_Z a), H, Z_to_u8_to_Z. Qed.

(** [u16::to_be_bytes] and [u16::from_be_bytes]. *)
Definition to_be_bytes (p : Z) : list u8 := [Z_to_u8 (p / 256); Z_to_u8 p].
Definition from_be_bytes (hi lo : u8) : Z := u8_to_Z hi * 256 + u8_to_Z lo.

Lemma from_to_be_bytes p :
  is_u16 p -> from_be_bytes (Z_to_u8 (p / 256)) (Z_to_u8 p) = p.
Proof.
  intros Hp. unfold from_be_bytes. rewrite !u8_to_Z_of_Z.
  rewrite (Z.mod_small (p / 256)).
  - pose proof (Z_div_mod_eq_full p 256). lia.
  - split; [apply Z.div_pos; zsolve | apply Z.div_lt_upper_bound; zsolve].
Qed.

Lemma to_from_be_bytes hi lo : to_be_bytes (from_be_bytes hi lo) = [hi; lo].
Proof.
  unfold to_be_bytes, from_be_bytes.
  pose proof (u8_to_Z_bound hi). pose proof (u8_to_Z_bound lo).
  rewrite Z.div_add_l by lia. rewrite (Z.div_small (u8_to_Z lo)) by lia.
  rewrite Z.add_0_r, Z_to_u8_to_Z. f_equal.
  replace (Z_to_u8 (u8_to_Z hi * 256 + u8_to_Z lo)) with lo; [done|].
  apply (inj u8_to_Z). rewrite u8_to_Z_of_Z, Z.add_comm, Z.mod_add by lia.
  by rewrite Z.mod_small by lia.
Qed.

Lemma from_be_bytes_u16 hi lo : is_u16 (from_be_bytes hi lo).
Proof.
  unfold from_be_bytes. pose proof (u8_to_Z_bound hi). pose proof (u8_to_Z_bound lo).
  zsolve.
Qed.

#[export] Hint Resolve from_be_bytes_u16 u8_to_Z_bound : rsocks.
#[export] Hint Rewrite to_from_be_bytes Z_to_u8_to_Z : rsocks.

(** ** Strings

    A Rust [String] is a sequence of UTF-8 bytes; it is modelled by a Rocq
    [string] that holds those bytes, one character per byte. *)

Definition as_bytes (s : string) : list u8 := String.list_byte_of_string s.
Definition of_bytes (bs : list u8) : string := String.string_of_list_byte bs.

Lemma as_bytes_of_bytes bs : as_bytes (of_bytes bs) = bs.
Proof. apply String.list_byte_of_string_of_list_byte. Qed.
Lemma of_bytes_as_bytes s : of_bytes (as_bytes s) = s.
Proof. apply String.string_of_list_byte_of_string. Qed.

#[export] Instance as_bytes_inj : Inj (=) (=) as_bytes.
Proof. intros s t H. by rewrite <- (of_bytes_as_bytes s), H, of_bytes_as_bytes. Qed.

Lemma str_app_cons c s t : String c s +:+ t = String c (s +:+ t).
Proof. reflexivity. Qed.
Lemma str_app_assoc s t u : (s +:+ t) +:+ u = s +:+ (t +:+ u).
Proof. induction s as [|c s IH]; [done|]. by rewrite !str_app_cons, IH. Qed.
Lemma str_app_nil_r s : s +:+ "" = s.
Proof. induction s as [|c s IH]; [done|]. by rewrite str_app_cons, IH. Qed.
Lemma str_app_inj_l (s t u : string) : s +:+ t = s +:+ u -> t = u.
Proof. induction s as [|c s IH]; [done|]. rewrite !str_app_cons. intros [= H]. by apply IH. Qed.
Lemma list_ascii_app s t :
  String.list_ascii_of_string (s +:+ t) =
  String.list_ascii_of_string s ++ String.list_ascii_of_string t.
Proof. induction s as [|c s IH]; [done|]. rewrite str_app_cons. simpl. by rewrite IH. Qed.

(** [String::len]: the number of bytes. *)
Definition slen (s : string) : Z := Z.of_nat (length (as_bytes s)).

Definition in_range (lo hi : Z) (b : u8) : bool := (lo <=? u8_to_Z b) && (u8_to_Z b <=? hi).
Definition is_cont : u8 -> bool := in_range 128 191.

(** The well-formed byte sequences of UTF-8 (Unicode, table 3-7), which is
    what [String::from_utf8] accepts. *)
Fixpoint utf8_ok (bs : list u8) : bool :=
  match bs with
  | [] => true
  | b0 :: r0 =>
    if u8_to_Z b0 <? 128 then utf8_ok r0 else
    match r0 with
    | [] => false
    | b1 :: r1 =>
      if in_range 194 223 b0 then is_cont b1 && utf8_ok r1 else
      match r1 with
      | [] => false
      | b2 :: r2 =>
        if u8_to_Z b0 =? 224 then in_range 160 191 b1 && is_cont b2 && utf8_ok r2
        else if u8_to_Z b0 =? 237 then in_range 128 159 b1 && is_cont b2 && utf8_ok r2
        else if in_range 225 239 b0 then is_cont b1 && is_cont b2 && utf8_ok r2
        else
        match r2 with
        | [] => false
        | b3 :: r3 =>
          if u8_to_Z b0 =? 240 then in_range 144 191 b1 && is_cont b2 && is_cont b3 && utf8_ok r3
          else if in_range 241 243 b0 then is_cont b1 && is_cont b2 && is_cont b3 && utf8_ok r3
          else if u8_to_Z b0 =? 244 then in_range 128 143 b1 && is_cont b2 && is_cont b3 && utf8_ok r3
          else false
        end
      end
    end
  end.

Definition utf8_valid (s : string) : Prop := utf8_ok (as_bytes s) = true.

(** [String::from_utf8]. *)
Definition from_utf8 (bs : list u8) : option string :=
  if utf8_ok bs then Some (of_bytes bs) else None.

Lemma from_utf8_Some bs s : from_utf8 bs = Some s <-> bs = as_bytes s /\ utf8_valid s.
Proof.
  unfold from_utf8, utf8_valid. destruct (utf8_ok bs) eqn:E; split.
  - intros [= <-]. by rewrite as_bytes_of_bytes.
  - intros [-> _]. by rewrite of_bytes_as_bytes.
  - done.
  - intros [-> H]. congruence.
Qed.

Lemma from_utf8_as_bytes s : utf8_valid s -> from_utf8 (as_bytes s) = Some s.
Proof. intros H. by apply from_utf8_Some. Qed.

Lemma slen_nonneg s : 0 <= slen s.
Proof. unfold slen. lia. Qed.

#[export] Hint Resolve from_utf8_as_bytes slen_nonneg : rsocks.
#[export] Hint Rewrite as_bytes_of_bytes of_bytes_as_bytes : rsocks.

(** [str::to_ascii_lowercase] and [str::eq_ignore_ascii_case]. *)
Definition lower_char (c : ascii) : ascii :=
  let n := Ascii.N_of_ascii c in
  if (65 <=? n)%N && (n <=? 90)%N then Ascii.ascii_of_N (n + 32) else c.
Fixpoint to_ascii_lowercase (s : string) : string :=
  match s with
  | EmptyString => EmptyString
  | String c s' => String (lower_char c) (to_ascii_lowercase s')
  end.
Definition eq_ignore_ascii_case (s t : string) : bool :=
  bool_decide (to_ascii_lowercase s = to_ascii_lowercase t).

Lemma lower_char_idem c : lower_char (lower_char c) = lower_char c.
Proof. destruct c as [[] [] [] [] [] [] [] []]; reflexivity. Qed.

Lemma to_ascii_lowercase_idem s :
  to_ascii_lowercase (to_ascii_lowercase s) = to_ascii_lowercase s.
Proof. induction s as [|c s IH]; [done|]. simpl. by rewrite lower_char_idem, IH. Qed.

(** [str::contains] and [str::split] for a character pattern. *)
Fixpoint contains_char (c : ascii) (s : string) : bool :=
  match s with
  | EmptyString => false
  | String d s' => bool_decide (c = d) || contains_char c s'
  end.

Fixpoint split_char (c : ascii) (s : string) : list string :=
  match s with
  | EmptyString => [EmptyString]
  | String d s' =>
    if decide (c = d) then EmptyString :: split_char c s'
    else match split_char c s' with
         | [] => [String d EmptyString]
         | p :: ps => String d p :: ps
         end
  end.

Lemma split_char_free c s p : p ∈ split_char c s -> contains_char c p = false.
Proof.
  revert p. induction s as [|d s IH]; cbn; intros p Hp.
  { by apply list_elem_of_singleton in Hp as ->. }
  destruct (decide (c = d)) as [->|Hd].
  { apply elem_of_cons in Hp as [->|Hp]; [done|by apply IH]. }
  destruct (split_char c s) as [|q qs].
  { apply list_elem_of_singleton in Hp as ->. cbn. by rewrite bool_decide_eq_false_2. }
  apply elem_of_cons in Hp as [->|Hp]; [|apply IH; by right].
  cbn. rewrite bool_decide_eq_false_2 by done. apply IH. by left.
Qed.

Lemma split_char_none c l : contains_char c l = false -> split_char c l = [l].
Proof.
  induction l as [|d l IH]; simpl; [done|]. intros (Hd & Hl)%orb_false_iff.
  apply bool_decide_eq_false in Hd. rewrite decide_False by done. by rewrite IH.
Qed.

Lemma split_char_app c l s :
  contains_char c l = false -> split_char c (l +:+ String c s) = l :: split_char c s.
Proof.
  induction l as [|d l IH]; intros Hl; [simpl; by rewrite decide_True|].
  rewrite str_app_cons. simpl in *. apply orb_false_iff in Hl as (Hd & Hl).
  apply bool_decide_eq_false in Hd. rewrite decide_False by done. by rewrite IH.
Qed.

(** [char::is_whitespace] (the Unicode [White_Space] property) on the UTF-8
    encodings of one, two and three bytes, and [str::trim]. *)
Definition ws1 (a : u8) : bool := in_range 9 13 a || in_range 32 32 a.
Definition ws2 (a b : u8) : bool :=
  in_range 194 194 a && (in_range 133 133 b || in_range 160 160 b).
Definition ws3 (a b c : u8) : bool :=
  (in_range 225 225 a && in_range 154 154 b && in_range 128 128 c) ||
  (in_range 226 226 a && in_range 128 128 b &&
     (in_range 128 138 c || in_range 168 169 c || in_range 175 175 c)) ||
  (in_range 226 226 a && in_range 129 129 b && in_range 159 159 c) ||
  (in_range 227 227 a && in_range 128 128 b && in_range 128 128 c).

Fixpoint strip_ws (w2 : u8 -> u8 -> bool) (w3 : u8 -> u8 -> u8 -> bool)
    (bs : list u8) : list u8 :=
  match bs with
  | [] => []
  | a :: r1 =>
    if ws1 a then strip_ws w2 w3 r1 else
    match r1 with
    | [] => bs
    | b :: r2 =>
      if w2 a b then strip_ws w2 w3 r2 else
      match r2 with
      | [] => bs
      | c :: r3 => if w3 a b c then strip_ws w2 w3 r3 else bs
      end
    end
  end.
Definition trim (s : string) : string :=
  of_bytes (reverse (strip_ws (flip ws2) (fun a b c => ws3 c b a)
    (reverse (strip_ws ws2 ws3 (as_bytes s))))).

(** [str::replace]: every occurrence of [pat], from the left; [skip] characters
    of an occurrence are still to be passed. *)
Fixpoint replace_from (pat by_ : string) (skip : nat) (s : string) : string :=
  match s with
  | EmptyString => EmptyString
  | String c s' =>
    match skip with
    | S k => replace_from pat by_ k s'
    | O =>
      if String.prefix pat s then by_ +:+ replace_from pat by_ (String.length pat - 1) s'
      else String c (replace_from pat by_ 0 s')
    end
  end.
Definition str_replace (pat by_ s : string) : string := replace_from pat by_ 0 s.
(** [str::contains]. *)
Fixpoint str_contains (pat s : string) : bool :=
  String.prefix pat s || match s with EmptyString => false | String _ s' => str_contains pat s' end.

(** Decimal digits: [str::parse] at an unsigned type whose maximum is [max]
    (an optional [+], at least one digit, overflow is an error). *)
Definition digit_val (radix : Z) (c : ascii) : option Z :=
  let n := Z.of_N (Ascii.N_of_ascii c) in
  let d := if (48 <=? n) && (n <=? 57) then n - 48
           else if (97 <=? n) && (n <=? 122) then n - 87
           else if (65 <=? n) && (n <=? 90) then n - 55
           else radix in
  if d <? radix then Some d else None.

Fixpoint parse_digits (max acc : Z) (s : string) : option Z :=
  match s with
  | EmptyString => Some acc
  | String c s' =>
    match digit_val 10 c with
    | None => None
    | Some d => let acc' := acc * 10 + d in
                if acc' <=? max then parse_digits max acc' s' else None
    end
  end.
Definition parse_uint (max : Z) (s : string) : option Z :=
  match s with
  | EmptyString => None
  | String "+" EmptyString => None
  | String "+" s' => parse_digits max 0 s'
  | _ => parse_digits max 0 s
  end.
Definition parse_u16 : string -> option Z := parse_uint u16_max.

Lemma digit_val_bound r c d : digit_val r c = Some d -> 0 <= r -> 0 <= d < r.
Proof.
  unfold digit_val. intros H Hr. repeat case_match; simplify_eq; lia.
Qed.

Lemma parse_digits_bound max acc s v :
  0 <= acc <= max -> parse_digits max acc s = Some v -> 0 <= v <= max.
Proof.
  revert acc. induction s as [|c s IH]; intros acc Hacc; simpl; [intros; simplify_eq; lia|].
  destruct (digit_val 10 c) as [d|] eqn:E; [|done].
  apply digit_val_bound in E; [|lia]. zcases; [|done].
  apply IH. lia.
Qed.

Lemma parse_uint_bound max s v : 0 <= max -> parse_uint max s = Some v -> 0 <= v <= max.
Proof.
  intros Hm. unfold parse_uint. repeat case_match; try done;
    apply parse_digits_bound; lia.
Qed.

(** Decimal and two-digit hexadecimal rendering ([{}] and [{:02x}]). *)
Definition hex_digit (n : Z) : ascii :=
  Ascii.ascii_of_N (Z.to_N (if n <? 10 then 48 + n else 87 + n)).
Definition fmt_02x (b : u8) : string :=
  String (hex_digit (u8_to_Z b / 16)) (String (hex_digit (u8_to_Z b mod 16)) EmptyString).
Definition fmt_Z (z : Z) : string := pretty z.

(** ** Results *)

Inductive result (E A : Type) : Type :=
| Ok (a : A)
| Err (e : E).
Arguments Ok {E A} _.
Arguments Err {E A} _.

#[export] Instance result_ret E : MRet (result E) := fun A a => Ok a.
#[export] Instance result_bind E : MBind (result E) := fun A B f r =>
  match r with Ok a => f a | Err e => Err e end.
#[export] Instance result_fmap E : FMap (result E) := fun A B f r =>
  match r with Ok a => Ok (f a) | Err e => Err e end.

Definition is_ok {E A} (r : result E A) : bool := match r with Ok _ => true | _ => false end.
Definition ok_or {E A} (e : E) (o : option A) : result E A :=
  match o with Some a => Ok a | None => Err e end.

(** [iter().map(f).collect::<Result<Vec<_>, _>>()]: stops at the first error. *)
Fixpoint collect {E A B} (f : A -> result E B) (l : list A) : result E (list B) :=
  match l with
  | [] => Ok []
  | a :: l' => b ← f a; bs ← collect f l'; mret (b :: bs)
  end.

Lemma collect_Ok {E A B} (f : A -> result E B) l bs :
  collect f l = Ok bs <-> Forall2 (fun a b => f a = Ok b) l bs.
Proof.
  revert bs. induction l as [|a l IH]; intros bs; simpl; split.
  - intros [= <-]. constructor.
  - inversion 1; subst. done.
  - destruct (f a) as [b|e] eqn:Hb; simpl; [|done].
    destruct (collect f l) as [bs'|e]; simpl; [|done].
    intros [= <-]. constructor; [done|]. by apply IH.
  - inversion 1 as [|? b ? bs' Hb Hbs]; subst. rewrite Hb. simpl.
    apply IH in Hbs. by rewrite Hbs.
Qed.

(** ** Sorting

    [slice::sort_by] is stable: the result is the one of an insertion sort
    that never moves an element past an equal one.  [slice::sort_unstable_by]
    promises a sorted permutation and nothing about equal elements: it is the
    class [UnstableSort], which every theorem that depends on it assumes. *)

Section sorting.
Context {A : Type} (leb : A -> A -> bool).

Fixpoint insert_sorted (x : A) (l : list A) : list A :=
  match l with
  | [] => [x]
  | y :: l' => if leb x y then x :: l else y :: insert_sorted x l'
  end.
Definition sort_by (l : list A) : list A := foldr insert_sorted [] l.

Definition sorted (l : list A) : Prop := StronglySorted (fun x y => leb x y = true) l.

Lemma insert_sorted_perm x l : insert_sorted x l ≡ₚ x :: l.
Proof.
  induction l as [|y l IH]; simpl; [done|].
  destruct (leb x y); [done|]. rewrite IH. constructor.
Qed.

Lemma sort_by_perm l : sort_by l ≡ₚ l.
Proof.
  induction l as [|x l IH]; [done|]. simpl. by rewrite insert_sorted_perm, IH.
Qed.

Context (leb_total : forall x y, leb x y = true \/ leb y x = true).
Context (leb_trans : forall x y z, leb x y = true -> leb y z = true -> leb x z = true).

Lemma insert_sorted_sorted x l : sorted l -> sorted (insert_sorted x l).
Proof.
  induction l as [|y l IH]; intros Hs; simpl.
  - repeat constructor.
  - inversion Hs as [|? ? Hl Hy]; subst. destruct (leb x y) eqn:E.
    + constructor; [done|]. constructor; [done|].
      eapply Forall_impl; [exact Hy|]. intros z Hz. by apply (leb_trans x y z).
    + constructor; [by apply IH|]. rewrite insert_sorted_perm. constructor; [|done].
      destruct (leb_total x y); congruence.
Qed.

Lemma sort_by_sorted l : sorted (sort_by l).
Proof.
  induction l as [|x l IH]; simpl; [constructor|]. by apply insert_sorted_sorted.
Qed.
End sorting.

Class UnstableSort {A} (leb : A -> A -> bool) := {
  sort_unstable_by : list A -> list A;
  sort_unstable_perm : forall l, sort_unstable_by l ≡ₚ l;
  sort_unstable_sorted : forall l, sorted leb (sort_unstable_by l);
}.

(** In a sorted list, the first element with a property is a least one. *)
Lemma list_find_sorted {A} (leb : A -> A -> bool) (P : A -> Prop) `{!forall x, Decision (P x)}
    (Hrefl : forall x, leb x x = true) l i x y :
  sorted leb l -> list_find P l = Some (i, x) -> y ∈ l -> P y -> leb x y = true.
Proof.
  revert i. induction l as [|z l IH]; intros i Hs Hf Hy HP; [set_solver|].
  inversion Hs as [|? ? Hl Hz]; subst. simpl in Hf. destruct (decide (P z)) as [Hd|Hd].
  - simplify_eq. apply elem_of_cons in Hy as [->|Hy]; [apply Hrefl|].
    rewrite Forall_forall in Hz. by apply Hz.
  - apply elem_of_cons in Hy as [->|Hy]; [done|].
    destruct (list_find P l) as [[j w]|] eqn:E; simplify_eq/=. by apply (IH j).
Qed.

(** [Iterator::filter] with a boolean predicate is the filter of the Standard Library. *)
Lemma elem_of_bfilter {A} (f : A -> bool) l x : x ∈ List.filter f l <-> x ∈ l /\ f x = true.
Proof. by rewrite !list_elem_of_In, List.filter_In. Qed.

Lemma filter_true {A} (p : A -> bool) l : (forall a, p a = true) -> List.filter p l = l.
Proof. intros Hp. induction l as [|a l IH]; [done|]. cbn. by rewrite Hp, IH. Qed.
Lemma filter_ext_elem {A} (f g : A -> bool) l :
  (forall x, x ∈ l -> f x = g x) -> List.filter f l = List.filter g l.
Proof. intros H. apply List.filter_ext_in. intros x Hx%list_elem_of_In. by apply H. Qed.

(** [Iterator::any] with a boolean predicate is [existsb]. *)
Lemma existsb_elem {A} (f : A -> bool) l : existsb f l = true <-> exists x, x ∈ l /\ f x = true.
Proof.
  rewrite List.existsb_exists. split; intros (x & Hx & Hf); exists x; split; try done;
    by apply list_elem_of_In.
Qed.
