(* ===== verification/Rust.v ===== *)
(** * What the libraries of Rust refuse

    Capacities of the standard library and durations of chrono: where a value that
    the program passes on makes them panic, which is [None]. *)
From S2P Require Import Prelude.

(** Allocations are limited to [isize::MAX] bytes; a larger capacity panics. *)
Definition isize_max : Z := 2 ^ 63 - 1.

(** The sizes of what the program keeps in vectors of a configured capacity, as
    the compiler lays them out. *)
Class Layout := {
  size_of_session : Z;
  size_of_snapshot : Z;
  size_of_event : Z;
  size_of_session_pos : 0 < size_of_session;
  size_of_snapshot_pos : 0 < size_of_snapshot;
  size_of_event_pos : 0 < size_of_event;
}.

(** [Vec::with_capacity] and [VecDeque::with_capacity]. *)
Definition with_capacity (size n : Z) : option () :=
  if size * n <=? isize_max then Some tt else None.

Lemma with_capacity_is_Some size n : is_Some (with_capacity size n) <-> size * n <= isize_max.
Proof.
  unfold with_capacity. destruct (Z.leb_spec (size * n) isize_max) as [H|H].
  - split; [done|by eexists].
  - split; [by intros [? [=]]|lia].
Qed.

(** chrono.  A duration is nanoseconds here; chrono keeps it within [i64::MAX]
    milliseconds on either side and dates within a calendar. *)
Definition delta_fits (nanos : Z) : Prop := - isize_max * 10 ^ 6 <= nanos <= isize_max * 10 ^ 6.

Class TimeDelta := {
  delta_hours : Z -> option Z;
  delta_minutes : Z -> option Z;
  sub_delta : Z -> Z -> option Z;
  delta_hours_Some : forall h d, delta_hours h = Some d -> d = h * 3600 * 10 ^ 9;
  delta_hours_fits : forall h, is_Some (delta_hours h) <-> delta_fits (h * 3600 * 10 ^ 9);
  delta_minutes_Some : forall m d, delta_minutes m = Some d -> d = m * 60 * 10 ^ 9;
  sub_delta_Some : forall t d t', sub_delta t d = Some t' -> t' = t - d;
}.

(** ** Concrete limits *)

(** chrono's bounds: milliseconds within an [i64], dates within its calendar. *)
Program Definition demo_delta : TimeDelta := {|
  delta_hours h := if Z.abs (h * 3600 * 10 ^ 9) <=? isize_max * 10 ^ 6 then Some (h * 3600 * 10 ^ 9) else None;
  delta_minutes m := if Z.abs m <=? 153722867280912 then Some (m * 60 * 10 ^ 9) else None;
  sub_delta t d := if Z.abs (t - d) <=? 8 * 10 ^ 21 then Some (t - d) else None |}.
Next Obligation. intros h d. simpl. by case_match; intros [= <-]. Qed.
Next Obligation.
  intros h. unfold delta_fits. destruct (Z.leb_spec (Z.abs (h * 3600 * 10 ^ 9)) (isize_max * 10 ^ 6)); split; intros Hx.
  - lia.
  - by eexists.
  - by destruct Hx.
  - lia.
Qed.
Next Obligation. intros m d. simpl. by case_match; intros [= <-]. Qed.
Next Obligation. intros t d t'. simpl. by case_match; intros [= <-]. Qed.

Definition demo_layout : Layout := ltac:(refine {|
  size_of_session := 408; size_of_snapshot := 40; size_of_event := 120 |}; reflexivity).
