(* ===== verification/Net.v ===== *)
(** * Internet addresses

    The address types of [std::net] that the proxy uses, with the textual
    syntax that [FromStr] accepts and [Display] prints.  The parser follows
    [core::net::parser]: each reader takes the rest of the input and either
    fails, leaving it untouched, or returns a value and the new rest. *)
From S2P Require Import Prelude.

(** An address is its octets in network order; [wf_ip] fixes their number. *)
Inductive IpAddr : Type :=
| V4 (octets : list u8)
| V6 (octets : list u8).

Record SocketAddr : Type := mkSocketAddr { sa_ip : IpAddr; sa_port : Z }.

Definition wf_ip (ip : IpAddr) : Prop :=
  match ip with V4 o => length o = 4%nat | V6 o => length o = 16%nat end.

#[export] Instance IpAddr_eq_dec : EqDecision IpAddr.
Proof. solve_decision. Defined.
#[export] Instance SocketAddr_eq_dec : EqDecision SocketAddr.
Proof. solve_decision. Defined.

#[export] Instance byte_countable : Countable u8.
Proof.
  refine (inj_countable' Byte.to_N
    (fun n => match Byte.of_N n with Some b => b | None => x00 end) _).
  intros b. by rewrite Byte.of_to_N.
Defined.
#[export] Instance IpAddr_countable : Countable IpAddr.
Proof.
  refine (inj_countable' (fun ip => match ip with V4 o => inl o | V6 o => inr o end)
    (fun s => match s with inl o => V4 o | inr o => V6 o end) _).
  by intros [].
Defined.
#[export] Instance SocketAddr_countable : Countable SocketAddr.
Proof.
  refine (inj_countable' (fun a => (sa_ip a, sa_port a))
    (fun '(i, p) => mkSocketAddr i p) _).
  by intros [].
Defined.

(** ** Parsing ([core::net::parser]) *)

Definition parser (A : Type) : Type := string -> option (A * string).

Definition read_given_char (c : ascii) : parser unit := fun s =>
  match s with
  | String d s' => if decide (c = d) then Some (tt, s') else None
  | EmptyString => None
  end.

(** The inner parser, preceded by the separator except at index 0. *)
Definition read_separator {A} (sep : ascii) (index : nat) (inner : parser A) : parser A := fun s =>
  match index with
  | O => inner s
  | S _ => match read_given_char sep s with Some (_, s') => inner s' | None => None end
  end.

Fixpoint read_digits (radix : Z) (s : string) : list Z * string :=
  match s with
  | EmptyString => ([], EmptyString)
  | String c s' =>
    match digit_val radix c with
    | None => ([], s)
    | Some d => let '(ds, r) := read_digits radix s' in (d :: ds, r)
    end
  end.

Definition digits_value (radix : Z) (ds : list Z) : Z := fold_left (fun acc d => acc * radix + d) ds 0.

Definition read_number (radix : Z) (max_digits : nat) (allow_zero_prefix : bool) (max : Z) : parser Z :=
  fun s =>
    let '(ds, r) := read_digits radix s in
    if (max_digits <? length ds)%nat then None
    else match ds with
         | [] => None
         | d0 :: ds' =>
           if negb allow_zero_prefix && (d0 =? 0) && (0 <? length ds')%nat then None
           else let v := digits_value radix ds in
                if v <=? max then Some (v, r) else None
         end.

Definition read_octet (i : nat) : parser u8 := fun s =>
  match read_separator "." i (read_number 10 3 false 255) s with
  | Some (v, r) => Some (Z_to_u8 v, r)
  | None => None
  end.

Definition read_ipv4_addr : parser (list u8) := fun s =>
  '(a, s1) ← read_octet 0 s;
  '(b, s2) ← read_octet 1 s1;
  '(c, s3) ← read_octet 2 s2;
  '(d, s4) ← read_octet 3 s3;
  Some ([a; b; c; d], s4).

(** [read_groups]: [k] groups are left to read, the next one has index [i].
    The flag says that a trailing embedded IPv4 address ended the list. *)
Fixpoint read_groups (k i : nat) (s : string) : list u8 * bool * string :=
  match k with
  | O => ([], false, s)
  | S k' =>
    match (if (1 <? k)%nat then read_separator ":" i read_ipv4_addr s else None) with
    | Some (v4, r) => (v4, true, r)
    | None =>
      match read_separator ":" i (read_number 16 4 true u16_max) s with
      | Some (g, r) =>
        let '(gs, b, r') := read_groups k' (S i) r in (to_be_bytes g ++ gs, b, r')
      | None => ([], false, s)
      end
    end
  end.

(** [copy_from_slice] of the tail at the end of the sixteen zeroed octets. *)
Definition read_ipv6_addr : parser (list u8) := fun s =>
  let '(head, head_ipv4, s1) := read_groups 8 0 s in
  if (length head =? 16)%nat then Some (head, s1)
  else if head_ipv4 then None
  else
    '(_, s2) ← read_given_char ":" s1;
    '(_, s3) ← read_given_char ":" s2;
    let '(tail, _, s4) := read_groups (8 - (length head / 2 + 1))%nat 0 s3 in
    Some (head ++ replicate (16 - length head - length tail)%nat x00 ++ tail, s4).

(** [parse_with]: the whole input must be consumed. *)
Definition parse_with {A} (p : parser A) (s : string) : option A :=
  match p s with Some (a, EmptyString) => Some a | _ => None end.

(** [Ipv4Addr::from_str] refuses inputs longer than 15 bytes up front. *)
Definition parse_ipv4 (s : string) : option (list u8) :=
  if 15 <? slen s then None else parse_with read_ipv4_addr s.
Definition parse_ipv6 (s : string) : option (list u8) := parse_with read_ipv6_addr s.
Definition parse_ip (s : string) : option IpAddr :=
  parse_with (fun s =>
    match read_ipv4_addr s with
    | Some (o, r) => Some (V4 o, r)
    | None => match read_ipv6_addr s with Some (o, r) => Some (V6 o, r) | None => None end
    end) s.

(** [SocketAddr::from_str]; the scope of an IPv6 address is read and not kept. *)
Definition read_unbounded (max : Z) : parser Z := fun s => read_number 10 (String.length s) true max s.
Definition read_port : parser Z := fun s =>
  '(_, s1) ← read_given_char ":" s; read_unbounded u16_max s1.
Definition read_scope_id : parser Z := fun s =>
  '(_, s1) ← read_given_char "%" s; read_unbounded u32_max s1.
Definition read_socket_addr_v4 : parser SocketAddr := fun s =>
  '(ip, s1) ← read_ipv4_addr s; '(port, s2) ← read_port s1; Some (mkSocketAddr (V4 ip) port, s2).
Definition read_socket_addr_v6 : parser SocketAddr := fun s =>
  '(_, s1) ← read_given_char "[" s;
  '(ip, s2) ← read_ipv6_addr s1;
  let s3 := match read_scope_id s2 with Some (_, r) => r | None => s2 end in
  '(_, s4) ← read_given_char "]" s3;
  '(port, s5) ← read_port s4;
  Some (mkSocketAddr (V6 ip) port, s5).
Definition parse_socket_addr (s : string) : option SocketAddr :=
  parse_with (fun s =>
    match read_socket_addr_v4 s with Some r => Some r | None => read_socket_addr_v6 s end) s.

(** ** Printing ([Display]) *)

Definition dec_digit (n : Z) : ascii := Ascii.ascii_of_N (Z.to_N (48 + n)).
Definition fmt_u8 (b : u8) : string :=
  let n := u8_to_Z b in
  if n <? 10 then String (dec_digit n) EmptyString
  else if n <? 100 then String (dec_digit (n / 10)) (String (dec_digit (n mod 10)) EmptyString)
  else String (dec_digit (n / 100))
         (String (dec_digit (n / 10 mod 10)) (String (dec_digit (n mod 10)) EmptyString)).
Definition fmt_ipv4 (o : list u8) : string := String.concat "." (fmt_u8 <$> o).

(** [{:x}] of a group: no leading zeros. *)
Definition fmt_hex16 (g : Z) : string :=
  let d3 := g / 4096 in let d2 := g / 256 mod 16 in let d1 := g / 16 mod 16 in let d0 := g mod 16 in
  let s0 := String (hex_digit d0) EmptyString in
  if g <? 16 then s0
  else let s1 := String (hex_digit d1) s0 in
  if g <? 256 then s1
  else let s2 := String (hex_digit d2) s1 in
  if g <? 4096 then s2 else String (hex_digit d3) s2.

Fixpoint groups (o : list u8) : list Z :=
  match o with hi :: lo :: r => from_be_bytes hi lo :: groups r | _ => [] end.

(** The first longest run of zero groups, as a start and a length. *)
Fixpoint longest_zeros (gs : list Z) (i start len best_start best_len : nat) : nat * nat :=
  match gs with
  | [] => (best_start, best_len)
  | g :: gs' =>
    if g =? 0 then
      let start' := if (len =? 0)%nat then i else start in
      let len' := S len in
      if (best_len <? len')%nat then longest_zeros gs' (S i) start' len' start' len'
      else longest_zeros gs' (S i) start' len' best_start best_len
    else longest_zeros gs' (S i) 0 0 best_start best_len
  end.

Definition fmt_groups (gs : list Z) : string := String.concat ":" (fmt_hex16 <$> gs).

(** [to_ipv4_mapped]: the addresses of [::ffff:0:0/96]. *)
Definition to_ipv4_mapped (o : list u8) : option (list u8) :=
  if decide (take 12 o = replicate 10 x00 ++ [xff; xff]) then Some (drop 12 o) else None.

Definition fmt_ipv6 (o : list u8) : string :=
  match to_ipv4_mapped o with
  | Some v4 => "::ffff:" +:+ fmt_ipv4 v4
  | None =>
    let gs := groups o in
    let '(start, len) := longest_zeros gs 0 0 0 0 0 in
    if (1 <? len)%nat
    then fmt_groups (take start gs) +:+ "::" +:+ fmt_groups (drop (start + len) gs)
    else fmt_groups gs
  end.

Definition fmt_ip (ip : IpAddr) : string :=
  match ip with V4 o => fmt_ipv4 o | V6 o => fmt_ipv6 o end.

Definition fmt_socket_addr (a : SocketAddr) : string :=
  match sa_ip a with
  | V4 o => fmt_ipv4 o +:+ ":" +:+ fmt_Z (sa_port a)
  | V6 o => "[" +:+ fmt_ipv6 o +:+ "]:" +:+ fmt_Z (sa_port a)
  end.

Example parse_ipv4_ex : parse_ipv4 "192.168.1.1" = Some [xc0; xa8; x01; x01].
Proof. reflexivity. Qed.
Example parse_ipv4_leading_zero : parse_ipv4 "192.168.01.1" = None.
Proof. reflexivity. Qed.
Example parse_ip_v6_ex : parse_ip "fe80::1:2" =
  Some (V6 [xfe; x80; x00; x00; x00; x00; x00; x00; x00; x00; x00; x00; x00; x01; x00; x02]).
Proof. vm_compute. reflexivity. Qed.
Example fmt_ipv6_ex : option_map fmt_ipv6 (parse_ipv6 "2001:0DB8:0:0:1:0:0:1") = Some "2001:db8::1:0:0:1".
Proof. vm_compute. reflexivity. Qed.
Example fmt_ipv6_mapped_ex : option_map fmt_ipv6 (parse_ipv6 "::ffff:10.0.0.1") = Some "::ffff:10.0.0.1".
Proof. vm_compute. reflexivity. Qed.

(** ** The textual form of an IPv4 address is parsed back to it *)

Definition starts_digit (s : string) : bool :=
  match s with EmptyString => false | String c _ => bool_decide (is_Some (digit_val 10 c)) end.

Lemma read_digits_app radix s r :
  (read_digits radix s).2 = EmptyString ->
  read_digits radix (s +:+ r) =
    ((read_digits radix s).1 ++ (read_digits radix r).1, (read_digits radix r).2).
Proof.
  induction s as [|c s IH]; intros H; [by apply surjective_pairing|].
  rewrite str_app_cons. simpl in *.
  destruct (digit_val radix c); [|done].
  destruct (read_digits radix s) as [ds t]; simpl in *. by rewrite IH.
Qed.

Lemma read_digits_stop r : starts_digit r = false -> read_digits 10 r = ([], r).
Proof.
  intros Hr. destruct r as [|c r]; [done|]. simpl in *.
  destruct (digit_val 10 c); [|done].
  rewrite bool_decide_eq_false in Hr. by destruct Hr.
Qed.

Lemma read_number_fmt_u8 b r :
  starts_digit r = false ->
  read_number 10 3 false 255 (fmt_u8 b +:+ r) = Some (u8_to_Z b, r).
Proof.
  intros Hr. unfold read_number.
  rewrite read_digits_app by (destruct b; reflexivity).
  rewrite (read_digits_stop r Hr), app_nil_r.
  destruct b; reflexivity.
Qed.

Lemma read_octet_0_fmt b r :
  starts_digit r = false -> read_octet 0 (fmt_u8 b +:+ r) = Some (b, r).
Proof.
  intros Hr. unfold read_octet, read_separator.
  by rewrite read_number_fmt_u8, Z_to_u8_to_Z.
Qed.

Lemma read_octet_S_fmt i b r :
  starts_digit r = false -> read_octet (S i) (String "." (fmt_u8 b +:+ r)) = Some (b, r).
Proof. apply read_octet_0_fmt. Qed.

Lemma parse_fmt_ipv4 o : length o = 4%nat -> parse_with read_ipv4_addr (fmt_ipv4 o) = Some o.
Proof.
  intros Ho. destruct o as [|a [|b [|c [|d [|]]]]]; try done.
  unfold parse_with, read_ipv4_addr, fmt_ipv4.
  change (String.concat "." (fmt_u8 <$> [a; b; c; d])) with
    (fmt_u8 a +:+ String "." (fmt_u8 b +:+ String "." (fmt_u8 c +:+ String "." (fmt_u8 d)))).
  rewrite <- (str_app_nil_r (fmt_u8 d)).
  rewrite read_octet_0_fmt by done. cbn [mbind option_bind].
  rewrite !read_octet_S_fmt by done. cbn [mbind option_bind].
  rewrite !read_octet_S_fmt by done. cbn [mbind option_bind].
  by rewrite !read_octet_S_fmt by done.
Qed.

Lemma fmt_u8_len b : (1 <= String.length (fmt_u8 b) <= 3)%nat.
Proof. destruct b; simpl; lia. Qed.

Lemma slen_length s : slen s = Z.of_nat (String.length s).
Proof.
  unfold slen, as_bytes. f_equal. induction s as [|c s IH]; [done|].
  simpl. rewrite <- IH. done.
Qed.

Lemma str_length_app s t : String.length (s +:+ t) = (String.length s + String.length t)%nat.
Proof. induction s as [|c s IH]; [done|]. rewrite str_app_cons. cbn. by f_equal. Qed.

Lemma parse_ipv4_fmt o : length o = 4%nat -> parse_ipv4 (fmt_ipv4 o) = Some o.
Proof.
  intros Ho. unfold parse_ipv4. rewrite parse_fmt_ipv4 by done.
  destruct (Z.ltb_spec 15 (slen (fmt_ipv4 o))) as [Hl|]; [|done]. exfalso.
  destruct o as [|a [|b [|c [|d [|]]]]]; try done.
  rewrite slen_length in Hl. revert Hl. unfold fmt_ipv4. simpl String.concat.
  repeat (rewrite str_length_app; simpl String.length).
  pose proof (fmt_u8_len a). pose proof (fmt_u8_len b).
  pose proof (fmt_u8_len c). pose proof (fmt_u8_len d). lia.
Qed.

Lemma parse_ip_fmt_ipv4 o : length o = 4%nat -> parse_ip (fmt_ipv4 o) = Some (V4 o).
Proof.
  intros Ho. pose proof (parse_fmt_ipv4 o Ho) as H. unfold parse_ip, parse_with in *.
  destruct (read_ipv4_addr (fmt_ipv4 o)) as [[o' [|]]|]; by simplify_eq.
Qed.

#[export] Hint Rewrite parse_ipv4_fmt parse_ip_fmt_ipv4 using done : rsocks.
