(* ===== verification/Stream.v ===== *)
(** * Errors and byte streams

    [RustSocksError] (src/src/utils/error.rs) and the asynchronous streams the
    protocol code reads and writes.  A stream is the bytes its peer will still
    send, how the read side ends, the bytes written to the peer so far and a
    schedule of the outcomes of the coming write and flush operations: [None]
    is a success, [Some (k, e)] fails with the error kind [e] after [k] bytes;
    an exhausted schedule means success.  The code that runs on a stream is a
    state and error monad over it. *)
From S2P Require Import Prelude.

(** [std::io::ErrorKind], as far as the proxy looks at it. *)
Inductive ErrorKind : Type :=
| ConnectionRefused | ConnectionReset | ConnectionAborted | NotConnected
| AddrNotAvailable | BrokenPipe | TimedOut | UnexpectedEof | OtherKind.

Inductive RustSocksError : Type :=
| Io (kind : ErrorKind)
| Protocol (msg : string)
| AuthFailed (msg : string)
| Config (msg : string)
| ConnectionClosed
| UnsupportedCommand (b : u8)
| UnsupportedAddressType (b : u8)
| InvalidRequest.

#[export] Instance ErrorKind_eq_dec : EqDecision ErrorKind.
Proof. solve_decision. Defined.
#[export] Instance RustSocksError_eq_dec : EqDecision RustSocksError.
Proof. solve_decision. Defined.

Record stream : Type := mkStream {
  inp : list u8;
  inp_end : ErrorKind;
  outp : list u8;
  sched : list (option (nat * ErrorKind));
}.

Definition io (A : Type) : Type := stream -> result RustSocksError A * stream.

#[export] Instance io_ret : MRet io := fun A a s => (Ok a, s).
#[export] Instance io_bind : MBind io := fun A B f m s =>
  match m s with
  | (Ok a, s') => f a s'
  | (Err e, s') => (Err e, s')
  end.

Definition throw {A} (e : RustSocksError) : io A := fun s => (Err e, s).

(** [?] on a [Result] or an [Option] that was computed without I/O. *)
Definition lift {A} (r : result RustSocksError A) : io A := fun s => (r, s).

(** [read_exact]: at the end of input everything read so far is lost. *)
Definition read_exact (n : nat) : io (list u8) := fun s =>
  if (n <=? length (inp s))%nat
  then (Ok (take n (inp s)), mkStream (drop n (inp s)) (inp_end s) (outp s) (sched s))
  else (Err (Io (inp_end s)), mkStream [] (inp_end s) (outp s) (sched s)).

Definition read_u8 : io u8 := fun s =>
  match inp s with
  | b :: r => (Ok b, mkStream r (inp_end s) (outp s) (sched s))
  | [] => (Err (Io (inp_end s)), s)
  end.

Definition read_u16 : io Z :=
  bs ← read_exact 2;
  mret (match bs with [hi; lo] => from_be_bytes hi lo | _ => 0 end).

Definition write_all (bs : list u8) : io () := fun s =>
  match sched s with
  | Some (k, e) :: r => (Err (Io e), mkStream (inp s) (inp_end s) (outp s ++ take k bs) r)
  | None :: r => (Ok (), mkStream (inp s) (inp_end s) (outp s ++ bs) r)
  | [] => (Ok (), mkStream (inp s) (inp_end s) (outp s ++ bs) [])
  end.

Definition flush : io () := fun s =>
  match sched s with
  | Some (_, e) :: r => (Err (Io e), mkStream (inp s) (inp_end s) (outp s) r)
  | None :: r => (Ok (), mkStream (inp s) (inp_end s) (outp s) r)
  | [] => (Ok (), s)
  end.

(** The stream of a client that sends [bs] and reads every answer. *)
Definition client (bs : list u8) : stream := mkStream bs UnexpectedEof [] [].

(** ** Reading *)

Lemma bind_Ok {A B} (m : io A) (f : A -> io B) s b s' :
  (m ≫= f) s = (Ok b, s') -> exists a s1, m s = (Ok a, s1) /\ f a s1 = (Ok b, s').
Proof.
  unfold mbind, io_bind. destruct (m s) as [[a|e] s1]; [|done]. eauto.
Qed.

Lemma bind_step {A B} (m : io A) (f : A -> io B) s a s1 :
  m s = (Ok a, s1) -> (m ≫= f) s = f a s1.
Proof. intros H. unfold mbind, io_bind. by rewrite H. Qed.

Lemma read_u8_cons b r e o sc :
  read_u8 (mkStream (b :: r) e o sc) = (Ok b, mkStream r e o sc).
Proof. reflexivity. Qed.

Lemma read_exact_app bs r e o sc :
  read_exact (length bs) (mkStream (bs ++ r) e o sc) = (Ok bs, mkStream r e o sc).
Proof.
  unfold read_exact; simpl. rewrite length_app.
  destruct (Nat.leb_spec (length bs) (length bs + length r)); [|lia].
  by rewrite take_app_length, drop_app_length.
Qed.

Lemma read_exact_app' n bs r e o sc :
  length bs = n ->
  read_exact n (mkStream (bs ++ r) e o sc) = (Ok bs, mkStream r e o sc).
Proof. intros <-. apply read_exact_app. Qed.

Lemma read_exact_Ok n s bs s' :
  read_exact n s = (Ok bs, s') ->
  length bs = n /\ inp s = bs ++ inp s' /\ inp_end s' = inp_end s /\
  outp s' = outp s /\ sched s' = sched s.
Proof.
  unfold read_exact. destruct (Nat.leb_spec n (length (inp s))); [|done].
  intros [= <- <-]; simpl. rewrite take_drop, length_take. repeat split; lia.
Qed.

Lemma read_u16_be p r e o sc :
  is_u16 p -> read_u16 (mkStream (to_be_bytes p ++ r) e o sc) = (Ok p, mkStream r e o sc).
Proof.
  intros Hp. unfold read_u16.
  rewrite (bind_step _ _ _ _ _ (read_exact_app (to_be_bytes p) r e o sc)).
  unfold mret, io_ret, to_be_bytes. by rewrite from_to_be_bytes.
Qed.

(** ** Computations that only read *)

Definition reads_only {A} (m : io A) : Prop :=
  forall s, outp (m s).2 = outp s /\ sched (m s).2 = sched s /\ inp_end (m s).2 = inp_end s.

Lemma reads_only_bind {A B} (m : io A) (f : A -> io B) :
  reads_only m -> (forall a, reads_only (f a)) -> reads_only (m ≫= f).
Proof.
  intros Hm Hf s. specialize (Hm s). unfold mbind, io_bind.
  destruct (m s) as [[a|e] s1]; simpl in *; [|done].
  destruct (Hf a s1) as (H1 & H2 & H3). destruct Hm as (-> & -> & ->) || destruct Hm as (<- & <- & <-).
  done.
Qed.

Lemma reads_only_ret {A} (a : A) : reads_only (mret a).
Proof. done. Qed.
Lemma reads_only_throw {A} e : reads_only (@throw A e).
Proof. done. Qed.
Lemma reads_only_lift {A} (r : result RustSocksError A) : reads_only (lift r).
Proof. done. Qed.
Lemma reads_only_u8 : reads_only read_u8.
Proof. intros s. unfold read_u8. by destruct (inp s). Qed.
Lemma reads_only_exact n : reads_only (read_exact n).
Proof. intros s. unfold read_exact. by case_match. Qed.
Lemma reads_only_u16 : reads_only read_u16.
Proof.
  apply reads_only_bind; [apply reads_only_exact|]. intros; apply reads_only_ret.
Qed.

#[export] Hint Resolve reads_only_bind reads_only_ret reads_only_throw reads_only_lift
  reads_only_u8 reads_only_exact reads_only_u16 : rsocks.

(** ** Writing *)

(** Send a whole message: write it, then flush. *)
Definition send (bs : list u8) : io () := _ ← write_all bs; flush.

(** A send either delivers the whole message or fails having delivered a
    prefix of it; it never reads. *)
Lemma send_spec bs s r s' :
  send bs s = (r, s') ->
  inp s' = inp s /\ inp_end s' = inp_end s /\
  ((r = Ok () /\ outp s' = outp s ++ bs) \/
   (exists e k, r = Err (Io e) /\ outp s' = outp s ++ take k bs)).
Proof.
  unfold send, mbind, io_bind, write_all, flush.
  destruct s as [i ie o sc]; simpl.
  destruct sc as [|[[k e]|] sc]; simpl; intros; simplify_eq; simpl.
  - auto.
  - naive_solver.
  - destruct sc as [|[[k e]|] sc]; simplify_eq/=; [by auto| |by auto].
    split; [done|]. split; [done|]. right. exists e, (length bs). by rewrite firstn_all.
Qed.

Lemma send_clean bs i e o : send bs (mkStream i e o []) = (Ok (), mkStream i e (o ++ bs) []).
Proof. reflexivity. Qed.

(** ** Parsing against a grammar

    [parses m wire]: [m] returns [a] exactly when the input starts with some
    bytes [bs] with [wire a bs], and then it consumes those bytes and nothing
    else.  It is both soundness and completeness of the parser [m]. *)

Definition consumed (s s' : stream) (bs : list u8) : Prop :=
  inp s = bs ++ inp s' /\ inp_end s' = inp_end s /\ outp s' = outp s /\ sched s' = sched s.

Definition parses {A} (m : io A) (wire : A -> list u8 -> Prop) : Prop :=
  forall s a s', m s = (Ok a, s') <-> exists bs, wire a bs /\ consumed s s' bs.

Lemma consumed_app s s1 s2 b1 b2 :
  consumed s s1 b1 -> consumed s1 s2 b2 -> consumed s s2 (b1 ++ b2).
Proof.
  unfold consumed. intros (E1 & ? & ? & ?) (E2 & ? & ? & ?).
  rewrite E1, E2, <- (assoc_L (++)). repeat split; congruence.
Qed.

Lemma consumed_eq s s' : consumed s s' [] <-> s' = s.
Proof.
  unfold consumed. split; [|by intros ->].
  destruct s, s'; simpl. intros (? & ? & ? & ?). congruence.
Qed.

Lemma consumed_unique s s1 s2 b : consumed s s1 b -> consumed s s2 b -> s1 = s2.
Proof.
  unfold consumed. destruct s1, s2; simpl. intros (E1 & ? & ? & ?) (E2 & ? & ? & ?).
  rewrite E1 in E2. apply (inj (b ++.)) in E2. congruence.
Qed.

(** The stream that is left when a prefix of the input is consumed. *)
Lemma consumed_split s b1 b2 s' :
  consumed s s' (b1 ++ b2) -> exists s1, consumed s s1 b1 /\ consumed s1 s' b2.
Proof.
  unfold consumed. intros (H1 & H2 & H3 & H4).
  exists (mkStream (b2 ++ inp s') (inp_end s) (outp s) (sched s)); simpl.
  rewrite H1, <- (assoc_L (++)). repeat split; done.
Qed.

Lemma parses_bind {A B} (m : io A) (f : A -> io B) P Q :
  parses m P -> (forall a, parses (f a) (Q a)) ->
  parses (m ≫= f) (fun b bs => exists a b1 b2, P a b1 /\ Q a b b2 /\ bs = b1 ++ b2).
Proof.
  intros Hm Hf s b s'. split.
  - intros (a & s1 & H1 & H2)%bind_Ok.
    apply Hm in H1 as (b1 & HP & Hc1). apply Hf in H2 as (b2 & HQ & Hc2).
    exists (b1 ++ b2). split; [by eauto 10|]. by eapply consumed_app.
  - intros (bs & (a & b1 & b2 & HP & HQ & ->) & Hc).
    apply consumed_split in Hc as (s1 & Hc1 & Hc2).
    erewrite bind_step; [|apply Hm; eauto]. apply Hf. eauto.
Qed.

Lemma parses_iff {A} (m : io A) (P Q : A -> list u8 -> Prop) :
  parses m P -> (forall a bs, P a bs <-> Q a bs) -> parses m Q.
Proof. intros Hm HPQ s a s'. rewrite (Hm s a s'). by setoid_rewrite HPQ. Qed.

Lemma parses_ret {A} (a : A) : parses (mret a) (fun a' bs => a' = a /\ bs = []).
Proof.
  intros s a' s'. unfold mret, io_ret. split.
  - intros [= <- <-]. exists []. split; [done|]. by apply consumed_eq.
  - intros (bs & (-> & ->) & ->%consumed_eq). done.
Qed.

Lemma parses_throw {A} e : parses (@throw A e) (fun _ _ => False).
Proof. intros s a s'. unfold throw. split; [done|]. by intros (? & [] & _). Qed.

Lemma parses_lift {A} (r : result RustSocksError A) :
  parses (lift r) (fun a bs => r = Ok a /\ bs = []).
Proof.
  intros s a s'. unfold lift. split.
  - intros [= -> ->]. exists []. split; [done|]. by apply consumed_eq.
  - intros (bs & (-> & ->) & ->%consumed_eq). done.
Qed.

Lemma parses_u8 : parses read_u8 (fun b bs => bs = [b]).
Proof.
  intros s b s'. unfold read_u8, consumed. destruct s as [[|c r] e o sc]; simpl.
  - split; [done|]. naive_solver.
  - split; [intros [= <- <-]; simpl; eauto 10|].
    intros (bs & -> & H & ? & ? & ?). destruct s'; simplify_eq/=. done.
Qed.

Lemma parses_exact n : parses (read_exact n) (fun v bs => bs = v /\ length v = n).
Proof.
  intros s v s'. split.
  - intros (H1 & H2 & H3 & H4 & H5)%read_exact_Ok. unfold consumed. eauto 10.
  - intros (bs & (-> & <-) & H & ? & ? & ?). destruct s, s'; simplify_eq/=.
    apply read_exact_app.
Qed.

Lemma parses_u16 : parses read_u16 (fun p bs => is_u16 p /\ bs = to_be_bytes p).
Proof.
  intros s p s'. unfold read_u16. split.
  - intros (v & s1 & (? & Hl)%parses_exact & H2)%bind_Ok.
    destruct Hl as ((-> & Hl) & Hc). unfold mret, io_ret in H2. simplify_eq.
    destruct v as [|hi [|lo [|]]]; try done.
    exists [hi; lo]. split; [|done]. rewrite to_from_be_bytes. auto with rsocks.
  - intros (bs & (Hp & ->) & Hc & ? & ? & ?). destruct s, s'; simplify_eq/=.
    by apply read_u16_be.
Qed.

(** The grammar of a parser that never returns a value on some condition. *)
Lemma parses_if {A} (P : Prop) `{!Decision P} (m1 m2 : io A) Q1 Q2 :
  parses m1 Q1 -> parses m2 Q2 ->
  parses (if decide P then m1 else m2) (fun a bs => (P /\ Q1 a bs) \/ (~ P /\ Q2 a bs)).
Proof.
  intros H1 H2. case_decide; [eapply parses_iff; [exact H1|]|eapply parses_iff; [exact H2|]];
    naive_solver.
Qed.
