(* ===== verification/Protocol.v ===== *)
(** * The SOCKS wire formats

    src/src/protocol/types.rs and src/src/protocol/parser.rs: the message types
    of SOCKS4, SOCKS4a, SOCKS5, of its UDP relay and of its GSS-API
    sub-negotiation, with one definition per parser and serialiser of the code.
    The asynchronous ones run in the monad of Stream.v; [parse_udp_packet] works
    on a buffer with indices, and [None] is the panic of an index out of range. *)
From S2P Require Import Prelude Net Stream.

(** ** Message types (types.rs) *)

Definition SOCKS_VERSION : u8 := x05.
Definition SOCKS4_VERSION : u8 := x04.

Inductive AuthMethod : Type := NoAuth | Gssapi | UserPass | NoAcceptable.
Definition AuthMethod_to_u8 (m : AuthMethod) : u8 :=
  match m with NoAuth => x00 | Gssapi => x01 | UserPass => x02 | NoAcceptable => xff end.
Definition AuthMethod_from_u8 (b : u8) : AuthMethod :=
  match b with x00 => NoAuth | x01 => Gssapi | x02 => UserPass | _ => NoAcceptable end.

Inductive Command : Type := Connect | Bind | UdpAssociate.
Definition Command_to_u8 (c : Command) : u8 :=
  match c with Connect => x01 | Bind => x02 | UdpAssociate => x03 end.
Definition Command_try_from (b : u8) : result RustSocksError Command :=
  match b with
  | x01 => Ok Connect
  | x02 => Ok Bind
  | x03 => Ok UdpAssociate
  | _ => Err (UnsupportedCommand b)
  end.

(** The arrays [[u8; 4]] and [[u8; 16]] are lists; [wf_address] fixes their
    length and the encoding of a domain. *)
Inductive Address : Type :=
| IPv4 (octets : list u8)
| IPv6 (octets : list u8)
| Domain (domain : string).

Definition wf_address (a : Address) : Prop :=
  match a with
  | IPv4 o => length o = 4%nat
  | IPv6 o => length o = 16%nat
  | Domain d => utf8_valid d
  end.

(** A domain that fits the one-byte length of the wire format. *)
Definition short_address (a : Address) : Prop :=
  match a with Domain d => slen d <= 255 | _ => True end.

Definition Address_fmt (a : Address) : string :=
  match a with IPv4 o => fmt_ipv4 o | IPv6 o => fmt_ipv6 o | Domain d => d end.

Inductive ReplyCode : Type :=
| Succeeded | GeneralFailure | ConnectionNotAllowed | NetworkUnreachable | HostUnreachable
| ConnRefused | TtlExpired | CommandNotSupported | AddressTypeNotSupported.
Definition ReplyCode_to_u8 (r : ReplyCode) : u8 :=
  match r with
  | Succeeded => x00 | GeneralFailure => x01 | ConnectionNotAllowed => x02
  | NetworkUnreachable => x03 | HostUnreachable => x04 | ConnRefused => x05
  | TtlExpired => x06 | CommandNotSupported => x07 | AddressTypeNotSupported => x08
  end.

Inductive Socks4Reply : Type := Granted | Rejected | IdentdUnavailable | UserIdMismatch.
Definition Socks4Reply_to_u8 (r : Socks4Reply) : u8 :=
  match r with
  | Granted => x5a | Rejected => x5b | IdentdUnavailable => x5c | UserIdMismatch => x5d
  end.

Record ClientGreeting : Type := mkClientGreeting { methods : list AuthMethod }.
Record Socks5Request : Type := mkSocks5Request {
  s5_command : Command; s5_address : Address; s5_port : Z }.
Record Socks4Request : Type := mkSocks4Request {
  s4_command : Command; s4_address : Address; s4_port : Z; s4_user_id : option string }.

Record UdpHeader : Type := mkUdpHeader { frag : u8; uh_address : Address; uh_port : Z }.
Record UdpPacket : Type := mkUdpPacket { header : UdpHeader; data : list u8 }.

Inductive SocksProtocol : Type := SocksV4 | SocksV5.

Inductive GssApiMessageType : Type :=
| Authentication | ProtectionLevelNegotiation | Encapsulation | Abort_msg.
Definition GssApiMessageType_to_u8 (t : GssApiMessageType) : u8 :=
  match t with
  | Authentication => x01 | ProtectionLevelNegotiation => x02
  | Encapsulation => x03 | Abort_msg => xff
  end.
Definition GssApiMessageType_from_u8 (b : u8) : GssApiMessageType :=
  match b with
  | x01 => Authentication | x02 => ProtectionLevelNegotiation
  | x03 => Encapsulation | _ => Abort_msg
  end.
Record GssApiMessage : Type := mkGssApiMessage {
  gm_version : u8; gm_type : GssApiMessageType; gm_token : list u8 }.

Inductive GssApiProtectionLevel : Type := Integrity | Confidentiality | Selective.
Definition GssApiProtectionLevel_from_u8 (b : u8) : GssApiProtectionLevel :=
  match b with x01 => Integrity | x02 => Confidentiality | _ => Selective end.

#[export] Instance AuthMethod_eq_dec : EqDecision AuthMethod.
Proof. solve_decision. Defined.
#[export] Instance Command_eq_dec : EqDecision Command.
Proof. solve_decision. Defined.
#[export] Instance Address_eq_dec : EqDecision Address.
Proof. solve_decision. Defined.
#[export] Instance ReplyCode_eq_dec : EqDecision ReplyCode.
Proof. solve_decision. Defined.
#[export] Instance GssApiMessageType_eq_dec : EqDecision GssApiMessageType.
Proof. solve_decision. Defined.
#[export] Instance SocksProtocol_eq_dec : EqDecision SocksProtocol.
Proof. solve_decision. Defined.

(** ** Handshake parsers (parser.rs) *)

Definition utf8_or (msg : string) (bs : list u8) : io string :=
  lift (ok_or (Protocol msg) (from_utf8 bs)).

Definition parse_socks5_client_greeting (version : u8) : io ClientGreeting :=
  if decide (version ≠ SOCKS_VERSION)
  then throw (Protocol ("Unsupported SOCKS version: 0x" +:+ fmt_02x version))
  else
    nmethods ← read_u8;
    if decide (nmethods = x00)
    then throw (Protocol "No authentication methods provided")
    else
      methods_buf ← read_exact (Z.to_nat (u8_to_Z nmethods));
      mret (mkClientGreeting (AuthMethod_from_u8 <$> methods_buf)).

Definition send_server_choice (method : AuthMethod) : io () :=
  send [SOCKS_VERSION; AuthMethod_to_u8 method].

Definition parse_userpass_auth : io (string * string) :=
  version ← read_u8;
  if decide (version ≠ x01)
  then throw (Protocol ("Unsupported userpass version: 0x" +:+ fmt_02x version))
  else
    username_len ← read_u8;
    username_buf ← read_exact (Z.to_nat (u8_to_Z username_len));
    username ← utf8_or "Invalid username encoding" username_buf;
    password_len ← read_u8;
    password_buf ← read_exact (Z.to_nat (u8_to_Z password_len));
    password ← utf8_or "Invalid password encoding" password_buf;
    mret (username, password).

Definition send_auth_response (success : bool) : io () :=
  let status := if success then x00 else x01 in
  send [x01; status].

(** The address part of a request, [match address_type] of the code. *)
Definition parse_request_address (address_type : u8) : io Address :=
  match address_type with
  | x01 => addr ← read_exact 4; mret (IPv4 addr)
  | x03 =>
    domain_len ← read_u8;
    domain_buf ← read_exact (Z.to_nat (u8_to_Z domain_len));
    domain ← utf8_or "Invalid domain encoding" domain_buf;
    mret (Domain domain)
  | x04 => addr ← read_exact 16; mret (IPv6 addr)
  | _ => throw (UnsupportedAddressType address_type)
  end.

(** A non-zero reserved byte is only traced. *)
Definition parse_socks5_request : io Socks5Request :=
  buf ← read_exact 4;
  match buf with
  | [version; command; reserved; address_type] =>
    if decide (version ≠ SOCKS_VERSION)
    then throw (Protocol ("Unsupported SOCKS version: 0x" +:+ fmt_02x version))
    else
      command ← lift (Command_try_from command);
      address ← parse_request_address address_type;
      port ← read_u16;
      mret (mkSocks5Request command address port)
  | _ => throw InvalidRequest (* not reached: [read_exact 4] gives four bytes *)
  end.

Definition send_socks5_response (reply : ReplyCode) (bind_addr : Address) (bind_port : Z) : io () :=
  let buf := [SOCKS_VERSION; ReplyCode_to_u8 reply; x00] in
  match bind_addr with
  | IPv4 octets => send (buf ++ [x01] ++ octets ++ to_be_bytes bind_port)
  | IPv6 octets => send (buf ++ [x04] ++ octets ++ to_be_bytes bind_port)
  | Domain domain =>
    if 255 <? slen domain
    then throw (Protocol ("Domain name too long: " +:+ fmt_Z (slen domain) +:+ " octets (max 255)"))
    else send (buf ++ [x03; Z_to_u8 (slen domain)] ++ as_bytes domain ++ to_be_bytes bind_port)
  end.

(** The loop of [read_null_terminated_string]: every turn consumes one byte of
    the input, so it is a recursion on the bytes that are left. *)
Definition MAX_LEN : nat := 255.
Fixpoint read_nts_loop (e : ErrorKind) (input bytes : list u8) : result RustSocksError (list u8) * list u8 :=
  match input with
  | [] => (Err (Io e), [])
  | byte :: rest =>
    if decide (byte = x00) then (Ok bytes, rest)
    else if (MAX_LEN <=? length bytes)%nat
    then (Err (Protocol "SOCKS4 field exceeds maximum length"), rest)
    else read_nts_loop e rest (bytes ++ [byte])
  end.
Definition read_null_terminated_string : io string :=
  bytes ← (fun s => let '(r, rest) := read_nts_loop (inp_end s) (inp s) [] in
                    (r, mkStream rest (inp_end s) (outp s) (sched s)));
  utf8_or "Invalid string encoding" bytes.

Definition parse_socks4_request : io Socks4Request :=
  command_byte ← read_u8;
  command ← lift (Command_try_from command_byte);
  port ← read_u16;
  ip_octets ← read_exact 4;
  user_id ← read_null_terminated_string;
  let user_id := if decide (user_id = "") then None else Some user_id in
  address ← (match ip_octets with
             | [x00; x00; x00; o3] =>
               if decide (o3 ≠ x00) then
                 domain ← read_null_terminated_string;
                 if decide (domain = "")
                 then throw (Protocol "SOCKS4a domain name missing")
                 else mret (Domain domain)
               else mret (IPv4 ip_octets)
             | _ => mret (IPv4 ip_octets)
             end);
  mret (mkSocks4Request command address port user_id).

Definition send_socks4_response (reply : Socks4Reply) (bind_addr : list u8) (bind_port : Z) : io () :=
  send ([x00; Socks4Reply_to_u8 reply] ++ to_be_bytes bind_port ++ bind_addr).

(** ** UDP packets *)

(** [buf[a..b]]; out of range it panics. *)
Definition slice (buf : list u8) (a b : nat) : option (list u8) :=
  if (a <=? b)%nat && (b <=? length buf)%nat then Some (take (b - a) (drop a buf)) else None.

Definition udp_err (m : string) : option (result RustSocksError (Address * nat)) :=
  Some (Err (Protocol m)).

(** The address part: the address and the position after it. *)
Definition parse_udp_address (buf : list u8) (pos : nat) (address_type : u8)
    : option (result RustSocksError (Address * nat)) :=
  match address_type with
  | x01 =>
    if (length buf <? pos + 4)%nat then udp_err "Invalid IPv4 in UDP packet"
    else a ← buf !! pos; b ← buf !! (pos + 1)%nat; c ← buf !! (pos + 2)%nat; d ← buf !! (pos + 3)%nat;
         Some (Ok (IPv4 [a; b; c; d], pos + 4)%nat)
  | x03 =>
    if (length buf <? pos + 1)%nat then udp_err "Invalid domain in UDP packet"
    else
      b ← buf !! pos;
      let domain_len := Z.to_nat (u8_to_Z b) in
      let pos := (pos + 1)%nat in
      if (length buf <? pos + domain_len)%nat then udp_err "Invalid domain in UDP packet"
      else
        bytes ← slice buf pos (pos + domain_len);
        match from_utf8 bytes with
        | None => udp_err "Invalid domain encoding in UDP packet"
        | Some domain => Some (Ok (Domain domain, pos + domain_len)%nat)
        end
  | x04 =>
    if (length buf <? pos + 16)%nat then udp_err "Invalid IPv6 in UDP packet"
    else addr ← slice buf pos (pos + 16); Some (Ok (IPv6 addr, pos + 16)%nat)
  | _ => Some (Err (UnsupportedAddressType address_type))
  end.

Definition parse_udp_packet (buf : list u8) : option (result RustSocksError UdpPacket) :=
  let len := length buf in
  if (len <? 10)%nat then Some (Err (Protocol "UDP packet too short"))
  else
    (* the reserved bytes are read and, when not zero, traced *)
    _ ← buf !! 0%nat; _ ← buf !! 1%nat;
    let pos := 2%nat in
    if (len <? pos + 1)%nat then Some (Err (Protocol "Malformed UDP packet (missing frag byte)"))
    else
      frag ← buf !! pos;
      let pos := (pos + 1)%nat in
      if decide (frag ≠ x00)
      then Some (Err (Protocol "UDP fragmentation not supported - packet dropped per RFC 1928"))
      else if (len <? pos + 1)%nat then Some (Err (Protocol "Malformed UDP packet (missing address type)"))
      else
        address_type ← buf !! pos;
        let pos := (pos + 1)%nat in
        r ← parse_udp_address buf pos address_type;
        match r with
        | Err e => Some (Err e)
        | Ok (address, pos) =>
          if (len <? pos + 2)%nat then Some (Err (Protocol "Invalid port in UDP packet"))
          else
            hi ← buf !! pos; lo ← buf !! (pos + 1)%nat;
            let port := from_be_bytes hi lo in
            let pos := (pos + 2)%nat in
            if (len <? pos)%nat then Some (Err (Protocol "Malformed UDP packet (missing payload)"))
            else
              data ← slice buf pos len;
              Some (Ok (mkUdpPacket (mkUdpHeader frag address port) data))
        end.

Definition serialize_udp_address (a : Address) : list u8 :=
  match a with
  | IPv4 octets => [x01] ++ octets
  | IPv6 octets => [x04] ++ octets
  | Domain domain =>
    let domain_len := Z.min (slen domain) 255 in
    [x03; Z_to_u8 domain_len] ++ take (Z.to_nat domain_len) (as_bytes domain)
  end.
Definition serialize_udp_packet (p : UdpPacket) : list u8 :=
  [x00; x00] ++ [frag (header p)] ++ serialize_udp_address (uh_address (header p)) ++
  to_be_bytes (uh_port (header p)) ++ data p.

(** ** GSS-API framing (RFC 1961) *)

Definition parse_gssapi_message : io GssApiMessage :=
  version ← read_u8;
  if decide (version ≠ x01)
  then throw (Protocol ("Unsupported GSS-API message version: 0x" +:+ fmt_02x version))
  else
    mtyp ← read_u8;
    let message_type := GssApiMessageType_from_u8 mtyp in
    if decide (message_type = Abort_msg) then mret (mkGssApiMessage version message_type [])
    else
      token_len ← read_u16;
      token ← read_exact (Z.to_nat token_len);
      mret (mkGssApiMessage version message_type token).

(** [token.len() as u16] keeps the low sixteen bits of the length. *)
Definition send_gssapi_message (message_type : GssApiMessageType) (token : list u8) : io () :=
  send ([x01; GssApiMessageType_to_u8 message_type] ++
        (if decide (message_type ≠ Abort_msg)
         then to_be_bytes (Z.of_nat (length token) mod 65536) ++ token
         else [])).

Definition send_gssapi_abort : io () := send_gssapi_message Abort_msg [].
