(* ===== verification/ProtocolSpec.v ===== *)
(** * The wire grammars and the correctness of the SOCKS parsers

    The messages of RFC 1928, RFC 1929, RFC 1961 and of SOCKS4/4a as grammars,
    that is relations between a message and its bytes that do not mention the
    code, and the theorems that each parser of Protocol.v accepts exactly its
    grammar and that each serialiser produces it. *)
From S2P Require Import Prelude Net Stream Protocol.

Inductive wire_greeting : ClientGreeting -> list u8 -> Prop :=
| wire_greeting_intro n ms :
    n ≠ x00 -> Z.of_nat (length ms) = u8_to_Z n ->
    wire_greeting (mkClientGreeting (AuthMethod_from_u8 <$> ms)) (n :: ms).

(** A string preceded by its length in one byte. *)
Inductive wire_pstring : string -> list u8 -> Prop :=
| wire_pstring_intro s n :
    utf8_valid s -> u8_to_Z n = slen s -> wire_pstring s (n :: as_bytes s).

Inductive wire_userpass : string * string -> list u8 -> Prop :=
| wire_userpass_intro u p bu bp :
    wire_pstring u bu -> wire_pstring p bp -> wire_userpass (u, p) (x01 :: bu ++ bp).

Inductive wire_address : Address -> list u8 -> Prop :=
| wire_IPv4 o : length o = 4%nat -> wire_address (IPv4 o) (x01 :: o)
| wire_IPv6 o : length o = 16%nat -> wire_address (IPv6 o) (x04 :: o)
| wire_Domain d bs : wire_pstring d bs -> wire_address (Domain d) (x03 :: bs).

(** The reserved byte may be anything: the code only traces it. *)
Inductive wire_socks5_request : Socks5Request -> list u8 -> Prop :=
| wire_socks5_request_intro c a p rsv bs :
    wire_address a bs -> is_u16 p ->
    wire_socks5_request (mkSocks5Request c a p)
      (SOCKS_VERSION :: Command_to_u8 c :: rsv :: bs ++ to_be_bytes p).

(** A string ended by a null byte, of at most 255 bytes. *)
Inductive wire_cstring : string -> list u8 -> Prop :=
| wire_cstring_intro s :
    utf8_valid s -> (x00 ∉ as_bytes s) -> slen s <= 255 -> wire_cstring s (as_bytes s ++ [x00]).

(** The address 0.0.0.x with x not zero announces a domain (SOCKS4a). *)
Definition socks4a_marker (o : list u8) : Prop := exists x, x ≠ x00 /\ o = [x00; x00; x00; x].

Inductive wire_socks4_target (o : list u8) : Address -> list u8 -> Prop :=
| wire_socks4_ip : ~ socks4a_marker o -> wire_socks4_target o (IPv4 o) []
| wire_socks4_domain d bs :
    socks4a_marker o -> d ≠ "" -> wire_cstring d bs -> wire_socks4_target o (Domain d) bs.

Inductive wire_socks4_request : Socks4Request -> list u8 -> Prop :=
| wire_socks4_request_intro c a p o u bu ba :
    is_u16 p -> length o = 4%nat -> wire_cstring u bu -> wire_socks4_target o a ba ->
    wire_socks4_request
      (mkSocks4Request c a p (if decide (u = "") then None else Some u))
      (Command_to_u8 c :: to_be_bytes p ++ o ++ bu ++ ba).

Inductive wire_gssapi : GssApiMessage -> list u8 -> Prop :=
| wire_gssapi_abort t :
    GssApiMessageType_from_u8 t = Abort_msg ->
    wire_gssapi (mkGssApiMessage x01 Abort_msg []) [x01; t]
| wire_gssapi_token t tok :
    t ≠ Abort_msg -> Z.of_nat (length tok) <= u16_max ->
    wire_gssapi (mkGssApiMessage x01 t tok)
      (x01 :: GssApiMessageType_to_u8 t :: to_be_bytes (Z.of_nat (length tok)) ++ tok).

(** A UDP datagram: two reserved bytes, no fragment, address, port, payload. *)
Inductive wire_udp : UdpPacket -> list u8 -> Prop :=
| wire_udp_intro r0 r1 a ba p payload :
    wire_address a ba -> is_u16 p ->
    wire_udp (mkUdpPacket (mkUdpHeader x00 a p) payload)
      (r0 :: r1 :: x00 :: ba ++ to_be_bytes p ++ payload).

(** ** Basic parsers *)

Ltac parses_auto :=
  repeat first
    [ apply parses_u16 | apply parses_u8 | apply parses_exact
    | apply parses_bind; [|intros ?]
    | apply parses_ret | apply parses_throw | apply parses_lift
    | apply parses_if ].

Lemma Command_try_from_Ok b c : Command_try_from b = Ok c <-> b = Command_to_u8 c.
Proof. split; [destruct b; simpl; intros; by simplify_eq|]. intros ->. by destruct c. Qed.

Lemma GssApiMessageType_of_to b t :
  GssApiMessageType_from_u8 b = t -> t ≠ Abort_msg -> b = GssApiMessageType_to_u8 t.
Proof. intros <-. destruct b; done. Qed.

Lemma GssApiMessageType_to_of t :
  GssApiMessageType_from_u8 (GssApiMessageType_to_u8 t) = t.
Proof. by destruct t. Qed.

Lemma parses_utf8_or m bs :
  parses (utf8_or m bs) (fun s bs' => bs = as_bytes s /\ utf8_valid s /\ bs' = []).
Proof.
  eapply parses_iff; [apply parses_lift|]. intros s bs'; simpl. unfold ok_or.
  destruct (from_utf8 bs) as [t|] eqn:E.
  - apply from_utf8_Some in E as (-> & Hv). split.
    + intros ([= ->] & ->). done.
    + intros (H%(inj as_bytes) & ? & ->). by subst.
  - split; [by intros (? & _)|]. intros (-> & Hv & ->).
    rewrite from_utf8_as_bytes in E by done. done.
Qed.

(** [n ← read_u8; buf ← read_exact n; utf8_or m buf] *)
Lemma parses_pstring {A} m (f : string -> io A) Q :
  (forall s, parses (f s) (Q s)) ->
  parses (n ← read_u8; buf ← read_exact (Z.to_nat (u8_to_Z n)); s ← utf8_or m buf; f s)
    (fun a bs => exists s b1 b2, wire_pstring s b1 /\ Q s a b2 /\ bs = b1 ++ b2).
Proof.
  intros Hf. eapply parses_iff.
  { apply parses_bind; [apply parses_u8|]. intros n.
    apply parses_bind; [apply parses_exact|]. intros buf.
    apply parses_bind; [apply parses_utf8_or|]. exact Hf. }
  intros a bs; simpl. split.
  - intros (n & ? & ? & -> & (v & ? & ? & (-> & Hn) & (s & ? & b2 & (-> & Hv & ->) & HQ & ->) & ->) & ->).
    exists s, (n :: as_bytes s), b2. split; [|done].
    constructor; [done|]. unfold slen. rewrite Hn. pose proof (u8_to_Z_bound n). lia.
  - intros (s & ? & b2 & [s' n Hv Hn] & HQ & ->).
    exists n, [n], (as_bytes s' ++ b2). split; [done|]. split; [|done].
    exists (as_bytes s'), (as_bytes s'), b2. split.
    { split; [done|]. unfold slen in Hn. lia. }
    split; [|done]. exists s', [], b2. done.
Qed.

Lemma greeting_parses :
  parses (parse_socks5_client_greeting SOCKS_VERSION) wire_greeting.
Proof.
  unfold parse_socks5_client_greeting. rewrite decide_False by (intros H; by apply H).
  eapply parses_iff; [parses_auto|].
  intros g bs; simpl. split.
  - intros (n & ? & ? & -> & [(_ & [])|(Hn & ms & ? & ? & (-> & Hl) & (-> & ->) & ->)] & ->).
    rewrite app_nil_r. constructor; [done|]. rewrite Hl. pose proof (u8_to_Z_bound n). lia.
  - intros [n ms Hn Hl]. exists n, [n], ms. split; [done|]. split; [|done]. right.
    split; [done|]. exists ms, ms, []. rewrite app_nil_r. repeat split. lia.
Qed.

(** The greeting parser, given the version byte 5 that the caller already
    read, accepts exactly the greetings of RFC 1928: a non-zero number of
    methods followed by that many method bytes, and nothing after them. *)
Theorem parse_greeting_correct :
  parses (parse_socks5_client_greeting SOCKS_VERSION) wire_greeting.
Proof. exact greeting_parses. Qed.

(** The username/password parser accepts exactly the messages of RFC 1929:
    version 1, then two strings preceded by their length, both valid UTF-8. *)
Theorem parse_userpass_correct : parses parse_userpass_auth wire_userpass.
Proof.
  unfold parse_userpass_auth. eapply parses_iff.
  { apply parses_bind; [apply parses_u8|]. intros v.
    apply parses_if; [apply parses_throw|].
    apply parses_pstring. intros u. apply parses_pstring. intros p. apply parses_ret. }
  intros up bs; simpl. split.
  - intros (v & ? & ? & -> & [(_ & [])|(Hv & u & bu & ? & Hu & (p & bp & ? & Hp & (-> & ->) & ->) & ->)] & ->).
    apply dec_stable in Hv as ->. rewrite app_nil_r. by apply (wire_userpass_intro u p bu bp).
  - intros [u p bu bp Hu Hp]. exists x01, [x01], (bu ++ bp). split; [done|]. split; [|done].
    right. split; [naive_solver|]. exists u, bu, bp. split; [done|]. split; [|done].
    exists p, bp, []. rewrite app_nil_r. done.
Qed.

(** ** Requests *)

Lemma parses_address t :
  parses (parse_request_address t) (fun a bs => wire_address a (t :: bs)).
Proof.
  unfold parse_request_address.
  destruct t; try (eapply parses_iff; [apply parses_throw|];
                   intros a bs; split; [done|]; by inversion 1).
  - eapply parses_iff; [parses_auto|]. intros a bs; simpl. split.
    + intros (v & ? & ? & (-> & Hl) & (-> & ->) & ->). rewrite app_nil_r. by constructor.
    + inversion 1; subst. exists bs, bs, []. by rewrite app_nil_r.
  - eapply parses_iff; [apply parses_pstring; intros; apply parses_ret|].
    intros a bs; simpl. split.
    + intros (s & b1 & ? & Hs & (-> & ->) & ->). rewrite app_nil_r. by constructor.
    + inversion 1; subst. eexists _, bs, []. by rewrite app_nil_r.
  - eapply parses_iff; [parses_auto|]. intros a bs; simpl. split.
    + intros (v & ? & ? & (-> & Hl) & (-> & ->) & ->). rewrite app_nil_r. by constructor.
    + inversion 1; subst. exists bs, bs, []. by rewrite app_nil_r.
Qed.

Lemma socks5_request_parses : parses parse_socks5_request wire_socks5_request.
Proof.
  unfold parse_socks5_request. eapply parses_iff.
  { apply parses_bind with
      (Q := fun buf r bs => exists c rsv t ba p, buf = [SOCKS_VERSION; Command_to_u8 c; rsv; t] /\
        wire_address (s5_address r) (t :: ba) /\ is_u16 p /\
        r = mkSocks5Request c (s5_address r) p /\ bs = ba ++ to_be_bytes p);
      [apply parses_exact|]. intros buf.
    destruct buf as [|v [|c [|rsv [|t [|]]]]];
      try (eapply parses_iff; [apply parses_throw|]; intros r bs; split; [done|];
           by intros (? & ? & ? & ? & ? & ? & _)).
    eapply parses_iff.
    { apply parses_if; [apply parses_throw|].
      apply parses_bind; [apply parses_lift|]. intros c'.
      apply parses_bind; [apply parses_address|]. intros a. parses_auto. }
    intros r bs; simpl. split.
    - intros [(_ & [])|(Hv & c' & ? & ? & (Hc & ->) & (a & ba & ? & Ha & (p & ? & ? & (Hp & ->) & (-> & ->) & ->) & ->) & ->)].
      apply dec_stable in Hv as ->. apply Command_try_from_Ok in Hc as ->.
      by exists c', rsv, t, ba, p.
    - intros (c' & ? & ? & ba & p & [= -> -> <- <-] & Ha & Hp & Hr & ->). right.
      split; [naive_solver|]. exists c', [], (ba ++ to_be_bytes p).
      split; [by rewrite Command_try_from_Ok|]. split; [|done].
      exists (s5_address r), ba, (to_be_bytes p). split; [done|]. split; [|done].
      exists p, (to_be_bytes p), []. by rewrite app_nil_r. }
  intros [c a p] bs; simpl. split.
  - intros (buf & ? & ? & (-> & Hl) & (c' & rsv & t & ba & p' & -> & Ha & Hp & [= -> ->] & ->) & ->).
    by apply (wire_socks5_request_intro _ _ _ rsv (t :: ba)).
  - inversion 1 as [? ? ? rsv ba Ha Hp]; subst.
    destruct ba as [|t ba]; [by inversion Ha|].
    exists [SOCKS_VERSION; Command_to_u8 c; rsv; t], [SOCKS_VERSION; Command_to_u8 c; rsv; t].
    exists (ba ++ to_be_bytes p). split; [done|]. split; [|done]. by exists c, rsv, t, ba, p.
Qed.

(** C8: the SOCKS5 request parser accepts exactly the requests of RFC 1928 (a
    known command, any reserved byte, an IPv4, IPv6 or UTF-8 domain address and
    a big-endian port), returns their fields and consumes no byte after them. *)
Theorem parse_socks5_request_correct : parses parse_socks5_request wire_socks5_request.
Proof. exact socks5_request_parses. Qed.

Lemma read_nts_loop_Ok e input acc bs rest :
  (length acc <= 255)%nat ->
  read_nts_loop e input acc = (Ok bs, rest) <->
  exists w, bs = acc ++ w /\ input = w ++ (x00 :: rest) /\ (x00 ∉ w) /\ (length bs <= 255)%nat.
Proof.
  revert acc. induction input as [|b input IH]; intros acc Hacc; cbn [read_nts_loop].
  { split; [done|]. intros (w & _ & Hw & _). by destruct w. }
  destruct (decide (b = x00)) as [->|Hb].
  - split.
    + intros [= <- <-]. exists []. rewrite app_nil_r. set_solver.
    + intros ([|c w] & -> & Hw & Hn & _); simplify_eq/=; [by rewrite app_nil_r|]. set_solver.
  - unfold MAX_LEN. destruct (Nat.leb_spec 255 (length acc)) as [Hl|Hl].
    + split; [done|]. intros ([|c w] & -> & Hw & Hn & Hlen); simplify_eq/=.
      rewrite length_app in Hlen. simpl in Hlen. lia.
    + rewrite IH by (rewrite length_app; simpl; lia). split.
      * intros (w & -> & -> & Hn & Hlen). exists (b :: w). rewrite <- (assoc_L (++)) in *.
        set_solver.
      * intros ([|c w] & -> & Hw & Hn & Hlen); simplify_eq/=. exists w.
        rewrite <- (assoc_L (++)). set_solver.
Qed.

Lemma parses_cstring : parses read_null_terminated_string wire_cstring.
Proof.
  unfold read_null_terminated_string. eapply parses_iff.
  { apply parses_bind with
      (P := fun w bs => bs = w ++ [x00] /\ (x00 ∉ w) /\ (length w <= 255)%nat);
      [|intros w; apply parses_utf8_or].
    intros s w s'. destruct (read_nts_loop (inp_end s) (inp s) []) as [r rest] eqn:E. split.
    - intros [= -> <-]. apply read_nts_loop_Ok in E as (w' & -> & Hi & Hn & Hl); [|simpl; lia].
      exists (w' ++ [x00]). unfold consumed; simpl. rewrite <- (assoc_L (++)). done.
    - intros (bs & (-> & Hn & Hl) & Hi & ? & ? & ?). rewrite <- (assoc_L (++)) in Hi.
      assert (read_nts_loop (inp_end s) (inp s) [] = (Ok w, inp s')) as Hloop.
      { apply read_nts_loop_Ok; [simpl; lia|]. by exists w. }
      rewrite Hloop in E. destruct s, s'; simplify_eq/=. done. }
  intros s bs; simpl. split.
  - intros (w & ? & ? & (-> & Hn & Hl) & (-> & Hv & ->) & ->). rewrite app_nil_r.
    constructor; [done|done|]. unfold slen. lia.
  - intros [s' Hv Hn Hl]. exists (as_bytes s'), (as_bytes s' ++ [x00]), [].
    rewrite app_nil_r. unfold slen in Hl. repeat split; try done. lia.
Qed.

Lemma parses_socks4_target o :
  parses (match o with
          | [x00; x00; x00; o3] =>
            if decide (o3 ≠ x00) then
              domain ← read_null_terminated_string;
              if decide (domain = "")
              then throw (Stream.Protocol "SOCKS4a domain name missing")
              else mret (Domain domain)
            else mret (IPv4 o)
          | _ => mret (IPv4 o)
          end) (wire_socks4_target o).
Proof.
  assert (Hip : ~ socks4a_marker o -> parses (mret (IPv4 o)) (wire_socks4_target o)).
  { intros Hn. eapply parses_iff; [apply parses_ret|]. intros a bs. split.
    - intros (-> & ->). by constructor.
    - by inversion 1. }
  destruct (decide (take 3 o = [x00; x00; x00])) as [H3|H3].
  2: { assert (~ socks4a_marker o) as Hn by (intros (x & _ & ->); by apply H3).
       destruct o as [|a o]; [by apply Hip|]. destruct a; try by apply Hip.
       destruct o as [|a o]; [by apply Hip|]. destruct a; try by apply Hip.
       destruct o as [|a o]; [by apply Hip|]. destruct a; try by apply Hip.
       by destruct H3. }
  destruct o as [|? [|? [|? o]]]; simplify_eq/=.
  destruct o as [|o3 [|? ?]]; [apply Hip; by intros (? & _ & ?)| |apply Hip; by intros (? & _ & ?)].
  case_decide as Ho3; [|apply Hip; intros (? & ? & [= <-]); naive_solver].
  eapply parses_iff.
  { apply parses_bind; [apply parses_cstring|]. intros d.
    apply parses_if; [apply parses_throw|apply parses_ret]. }
  assert (socks4a_marker [x00; x00; x00; o3]) as Hm by by exists o3.
  intros a bs; simpl. split.
  - intros (d & b1 & ? & Hd & [(_ & [])|(Hne & -> & ->)] & ->). rewrite app_nil_r. by constructor.
  - inversion 1; subst; [done|]. eexists _, bs, []. rewrite app_nil_r. eauto 10.
Qed.

(** The SOCKS4/4a request parser accepts exactly the requests of the
    protocol: command, port, address, a null-terminated user id of at most 255
    bytes and, when the address is 0.0.0.x with x not zero, a non-empty
    null-terminated domain; an empty user id is reported as none. *)
Theorem parse_socks4_request_correct : parses parse_socks4_request wire_socks4_request.
Proof.
  unfold parse_socks4_request. eapply parses_iff.
  { apply parses_bind; [apply parses_u8|]. intros cb.
    apply parses_bind; [apply parses_lift|]. intros c.
    apply parses_bind; [apply parses_u16|]. intros p.
    apply parses_bind; [apply parses_exact|]. intros o.
    apply parses_bind; [apply parses_cstring|]. intros u.
    apply parses_bind; [apply parses_socks4_target|]. intros a. apply parses_ret. }
  intros r bs; simpl. split.
  - intros (cb & ? & ? & -> & (c & ? & ? & (Hc & ->) & (p & ? & ? & (Hp & ->) &
      (o & ? & ? & (-> & Ho) & (u & bu & ? & Hu & (a & ba & ? & Ha & (-> & ->) & ->) & ->) & ->) & ->) & ->) & ->).
    apply Command_try_from_Ok in Hc as ->. rewrite app_nil_r.
    by apply (wire_socks4_request_intro c a p o u bu ba).
  - intros [c a p o u bu ba Hp Ho Hu Ha].
    eexists _, [Command_to_u8 c], _. split; [done|]. split; [|done].
    eexists c, [], _. split; [by rewrite Command_try_from_Ok|]. split; [|done].
    eexists p, (to_be_bytes p), _. split; [done|]. split; [|done].
    eexists o, o, _. split; [done|]. split; [|done].
    eexists u, bu, _. split; [done|]. split; [|done].
    exists a, ba, []. by rewrite app_nil_r.
Qed.

(** The GSS-API frame parser accepts exactly the frames of RFC 1961: an
    abort (any unknown message type) has no length and no token, any other type
    carries a token of at most 65535 bytes preceded by its length. *)
Theorem parse_gssapi_correct : parses parse_gssapi_message wire_gssapi.
Proof.
  unfold parse_gssapi_message. eapply parses_iff; [parses_auto|].
  intros m bs; simpl. split.
  - intros (v & ? & ? & -> & [(_ & [])|(Hv & t & ? & ? & -> & [(Ht & -> & ->)|(Ht &
      l & ? & ? & (Hl & ->) & (tok & ? & ? & (-> & Hn) & (-> & ->) & ->) & ->)] & ->)] & ->);
      apply dec_stable in Hv as ->.
    + simpl. rewrite Ht. by constructor.
    + rewrite app_nil_r. assert (l = Z.of_nat (length tok)) as -> by (rewrite Hn; zsolve).
      rewrite (GssApiMessageType_of_to t _ eq_refl Ht) at 2.
      apply wire_gssapi_token; [done|zsolve].
  - intros [t Ht|t tok Ht Hl].
    + exists x01, [x01], [t]. split; [done|]. split; [|done]. right.
      split; [naive_solver|]. exists t, [t], []. split; [done|]. split; [|done].
      left. by rewrite Ht.
    + exists x01, [x01], (GssApiMessageType_to_u8 t :: to_be_bytes (Z.of_nat (length tok)) ++ tok).
      split; [done|]. split; [|done]. right. split; [naive_solver|].
      exists (GssApiMessageType_to_u8 t), [GssApiMessageType_to_u8 t].
      exists (to_be_bytes (Z.of_nat (length tok)) ++ tok). split; [done|]. split; [|done].
      right. rewrite GssApiMessageType_to_of. split; [done|].
      exists (Z.of_nat (length tok)), (to_be_bytes (Z.of_nat (length tok))), tok.
      split; [split; [zsolve|done]|]. split; [|done]. exists tok, tok, [].
      rewrite app_nil_r, Nat2Z.id. done.
Qed.

(** ** Replies *)

(** The SOCKS5 reply is the version, the reply code, a zero byte, the bound
    address in the wire grammar and the port, sent as one message; a domain of
    more than 255 bytes is an error, and then nothing is sent. *)
Theorem send_socks5_response_spec reply a p s :
  wf_address a ->
  (short_address a /\ exists bs, wire_address a bs /\
     send_socks5_response reply a p s =
     send (SOCKS_VERSION :: ReplyCode_to_u8 reply :: x00 :: bs ++ to_be_bytes p) s) \/
  (~ short_address a /\ exists m, send_socks5_response reply a p s = (Err (Stream.Protocol m), s)).
Proof.
  destruct a as [o|o|d]; intros Hwf; simpl in *.
  - left. split; [done|]. exists (x01 :: o). split; [by constructor|done].
  - left. split; [done|]. exists (x04 :: o). split; [by constructor|done].
  - destruct (Z.ltb_spec 255 (slen d)).
    + right. split; [lia|]. by eexists.
    + left. split; [lia|]. exists (x03 :: Z_to_u8 (slen d) :: as_bytes d). split; [|done].
      constructor. constructor; [done|]. rewrite u8_to_Z_of_Z.
      apply Z.mod_small. pose proof (slen_nonneg d). lia.
Qed.

Lemma send_socks5_response_spec_witness :
  wf_address (Domain "example.com") /\
  ((short_address (Domain "example.com") /\ exists bs, wire_address (Domain "example.com") bs /\
     send_socks5_response Succeeded (Domain "example.com") 443 (client []) =
     send (SOCKS_VERSION :: x00 :: x00 :: bs ++ to_be_bytes 443) (client [])) \/
  (~ short_address (Domain "example.com") /\ exists m,
     send_socks5_response Succeeded (Domain "example.com") 443 (client []) =
     (Err (Stream.Protocol m), client []))).
Proof.
  split; [reflexivity|].
  apply (send_socks5_response_spec Succeeded (Domain "example.com") 443 (client [])).
  reflexivity.
Defined.

(** A GSS-API token of at most 65535 bytes that one side sends is what the
    other side parses, with nothing of the stream left over or taken. *)
Theorem gssapi_roundtrip t tok i e o rest :
  t ≠ Abort_msg -> Z.of_nat (length tok) <= u16_max ->
  exists bs, send_gssapi_message t tok (mkStream i e o []) = (Ok (), mkStream i e (o ++ bs) []) /\
    parse_gssapi_message (client (bs ++ rest)) = (Ok (mkGssApiMessage x01 t tok), client rest).
Proof.
  intros Ht Hl. exists (x01 :: GssApiMessageType_to_u8 t :: to_be_bytes (Z.of_nat (length tok)) ++ tok).
  split.
  - unfold send_gssapi_message. rewrite decide_True by done.
    rewrite Z.mod_small by zsolve. apply send_clean.
  - unfold parse_gssapi_message. unfold client. rewrite <- !app_comm_cons. erewrite (bind_step read_u8); [|apply read_u8_cons].
    rewrite decide_False by (intros H; by apply H).
    erewrite (bind_step read_u8); [|apply read_u8_cons]. cbn zeta. rewrite GssApiMessageType_to_of.
    rewrite decide_False by done. rewrite <- (assoc_L (++)).
    erewrite bind_step; [|by apply read_u16_be; zsolve].
    rewrite Nat2Z.id. erewrite bind_step; [|apply read_exact_app]. done.
Qed.

Lemma gssapi_roundtrip_witness :
  Authentication ≠ Abort_msg /\ exists bs,
    send_gssapi_message Authentication [x41; x42] (client []) = (Ok (), mkStream [] UnexpectedEof ([] ++ bs) []) /\
    parse_gssapi_message (client (bs ++ [x07])) =
      (Ok (mkGssApiMessage x01 Authentication [x41; x42]), client [x07]).
Proof.
  split; [done|].
  apply (gssapi_roundtrip Authentication [x41; x42] [] UnexpectedEof [] [x07]); [done|].
  vm_compute. discriminate.
Defined.

(** A longer token is sent in full after the low sixteen bits of its length,
    so the peer takes a strict prefix of it and reads the rest as new frames. *)
Theorem gssapi_long_token t tok i e o rest :
  t ≠ Abort_msg -> u16_max < Z.of_nat (length tok) ->
  exists bs k, send_gssapi_message t tok (mkStream i e o []) = (Ok (), mkStream i e (o ++ bs) []) /\
    (k < length tok)%nat /\
    parse_gssapi_message (client (bs ++ rest)) =
      (Ok (mkGssApiMessage x01 t (take k tok)), client (drop k tok ++ rest)).
Proof.
  intros Ht Hl. set (n := Z.of_nat (length tok) mod 65536).
  assert (Hn : 0 <= n < 65536) by (apply Z.mod_pos_bound; lia).
  exists (x01 :: GssApiMessageType_to_u8 t :: to_be_bytes n ++ tok), (Z.to_nat n).
  assert (Hk : (Z.to_nat n < length tok)%nat) by zsolve.
  split_and!; [|done|].
  - unfold send_gssapi_message. rewrite decide_True by done. apply send_clean.
  - unfold parse_gssapi_message. unfold client. rewrite <- !app_comm_cons. erewrite (bind_step read_u8); [|apply read_u8_cons].
    rewrite decide_False by (intros H; by apply H).
    erewrite (bind_step read_u8); [|apply read_u8_cons]. cbn zeta. rewrite GssApiMessageType_to_of.
    rewrite decide_False by done. rewrite <- (assoc_L (++)).
    erewrite bind_step; [|by apply read_u16_be; zsolve].
    rewrite <- (take_drop (Z.to_nat n) tok) at 1. rewrite <- (assoc_L (++)).
    erewrite bind_step; [|apply read_exact_app'; rewrite length_take; lia]. done.
Qed.

Lemma gssapi_long_token_witness :
  exists bs k, send_gssapi_message Authentication (replicate (Z.to_nat 65540) x61) (client []) =
      (Ok (), mkStream [] UnexpectedEof ([] ++ bs) []) /\
    (k < length (replicate (Z.to_nat 65540) x61))%nat /\
    parse_gssapi_message (client (bs ++ [])) =
      (Ok (mkGssApiMessage x01 Authentication (take k (replicate (Z.to_nat 65540) x61))),
       client (drop k (replicate (Z.to_nat 65540) x61) ++ [])).
Proof.
  apply (gssapi_long_token Authentication (replicate (Z.to_nat 65540) x61) [] UnexpectedEof [] []);
    [done|].
  rewrite length_replicate, Z2Nat.id by lia. reflexivity.
Defined.

(** ** UDP datagrams *)

Lemma slice_app pre rest n :
  (n <= length rest)%nat ->
  slice (pre ++ rest) (length pre) (length pre + n) = Some (take n rest).
Proof.
  intros Hn. unfold slice. rewrite length_app.
  destruct (Nat.leb_spec (length pre) (length pre + n)); [|lia].
  destruct (Nat.leb_spec (length pre + n) (length pre + length rest)); [|lia]. simpl.
  rewrite drop_app_length. do 2 f_equal. lia.
Qed.

Lemma lookup_app_at {A} (pre rest : list A) n :
  (pre ++ rest) !! (length pre + n)%nat = rest !! n.
Proof. rewrite lookup_app_r by lia. f_equal. lia. Qed.

Lemma lookup_app_at0 {A} (pre rest : list A) : (pre ++ rest) !! (length pre) = rest !! 0%nat.
Proof. rewrite <- (lookup_app_at pre rest 0). f_equal. lia. Qed.

(** Whatever the bytes, the address part is parsed or refused without an index
    out of range; and it is parsed exactly when it is in the wire grammar. *)
Lemma parse_udp_address_total pre rest t :
  exists r, parse_udp_address (pre ++ rest) (length pre) t = Some r.
Proof.
  destruct t; simpl; unfold udp_err; rewrite ?length_app; eauto.
  - destruct (Nat.ltb_spec (length pre + length rest) (length pre + 4)); [eauto|].
    rewrite lookup_app_at0, !lookup_app_at.
    destruct rest as [|? [|? [|? [|]]]]; simpl in *; try lia; eauto.
  - destruct (Nat.ltb_spec (length pre + length rest) (length pre + 1)); [eauto|].
    rewrite lookup_app_at0. destruct rest as [|n rest]; simpl in *; [lia|].
    replace (length pre + S (length rest))%nat with (length (pre ++ [n]) + length rest)%nat
      by (rewrite length_app; simpl; lia).
    replace (length pre + 1)%nat with (length (pre ++ [n])) by (rewrite length_app; done).
    case_match eqn:E; [eauto|]. apply Nat.ltb_ge in E.
    rewrite (cons_middle n pre rest), (assoc_L (++)), slice_app by lia. simpl. case_match; eauto.
  - destruct (Nat.ltb_spec (length pre + length rest) (length pre + 16)); [eauto|].
    rewrite slice_app by lia. simpl. eauto.
Qed.

Lemma parse_udp_address_sound pre rest t a pos :
  parse_udp_address (pre ++ rest) (length pre) t = Some (Ok (a, pos)) ->
  exists ba rest', wire_address a (t :: ba) /\ rest = ba ++ rest' /\
    pos = (length pre + length ba)%nat.
Proof.
  destruct t; simpl; unfold udp_err; rewrite ?length_app; try done.
  - destruct (Nat.ltb_spec (length pre + length rest) (length pre + 4)); [done|].
    rewrite lookup_app_at0, !lookup_app_at.
    destruct rest as [|b0 [|b1 [|b2 [|b3 rest]]]]; simpl in *; try lia. intros [= <- <-].
    exists [b0; b1; b2; b3], rest. split; [by constructor|done].
  - destruct (Nat.ltb_spec (length pre + length rest) (length pre + 1)); [done|].
    rewrite lookup_app_at0. destruct rest as [|n rest]; simpl in *; [lia|].
    replace (length pre + S (length rest))%nat with (length (pre ++ [n]) + length rest)%nat
      by (rewrite length_app; simpl; lia).
    replace (length pre + 1)%nat with (length (pre ++ [n])) by (rewrite length_app; done).
    case_match eqn:E; [done|]. apply Nat.ltb_ge in E.
    rewrite (cons_middle n pre rest), (assoc_L (++)), slice_app by lia. simpl.
    case_match eqn:Hu; [|done]. intros [= <- <-].
    apply from_utf8_Some in Hu as (Ht & Hv). pose proof (u8_to_Z_bound n).
    exists (n :: as_bytes s), (drop (Z.to_nat (u8_to_Z n)) rest).
    assert (Hl : length (as_bytes s) = Z.to_nat (u8_to_Z n))
      by (rewrite <- Ht, length_take; lia).
    split_and!; [|rewrite <- Ht; simpl; by rewrite take_drop
      |rewrite length_app; simpl; rewrite Hl; lia].
    constructor. constructor; [done|]. unfold slen. lia.
  - destruct (Nat.ltb_spec (length pre + length rest) (length pre + 16)); [done|].
    rewrite slice_app by lia. cbn [mbind option_bind]. intros [= <- <-].
    exists (take 16 rest), (drop 16 rest). rewrite take_drop, length_take.
    split_and!; [|done|lia]. constructor. rewrite length_take. lia.
Qed.

Lemma parse_udp_address_complete pre ba rest' t a :
  wire_address a (t :: ba) ->
  parse_udp_address (pre ++ ba ++ rest') (length pre) t = Some (Ok (a, (length pre + length ba)%nat)).
Proof.
  intros Hw.
  inversion Hw as [o Ho|o Ho|d bs Hp]; subst; simpl; rewrite !length_app.
  - destruct (Nat.ltb_spec (length pre + (length ba + length rest')) (length pre + 4)); [lia|].
    rewrite lookup_app_at0, !lookup_app_at.
    destruct ba as [|b0 [|b1 [|b2 [|b3 [|]]]]]; simplify_eq/=. done.
  - destruct (Nat.ltb_spec (length pre + (length ba + length rest')) (length pre + 16)); [lia|].
    rewrite slice_app by (rewrite length_app; lia). cbn [mbind option_bind].
    by rewrite take_app_length', Ho.
  - inversion Hp as [d' n Hv Hn]; subst. simpl.
    destruct (Nat.ltb_spec (length pre + S (length (as_bytes d) + length rest')) (length pre + 1)); [lia|].
    rewrite lookup_app_at0. simpl. unfold slen in Hn.
    replace (Z.to_nat (u8_to_Z n)) with (length (as_bytes d)) by lia.
    replace (length pre + 1)%nat with (length (pre ++ [n])) by (rewrite length_app; done).
    destruct (Nat.ltb_spec (length pre + S (length (as_bytes d) + length rest'))
      (length (pre ++ [n]) + length (as_bytes d))) as [Hlt|_];
      [rewrite length_app in Hlt; simpl in Hlt; lia|].
    rewrite (cons_middle n pre (as_bytes d ++ rest')), (assoc_L (++)), slice_app by (rewrite length_app; lia). simpl.
    rewrite take_app_length, from_utf8_as_bytes by done. rewrite length_app. simpl.
    by rewrite <- Nat.add_assoc.
Qed.

Lemma parse_udp_address_Ok pre rest t a pos :
  parse_udp_address (pre ++ rest) (length pre) t = Some (Ok (a, pos)) <->
  exists ba rest', wire_address a (t :: ba) /\ rest = ba ++ rest' /\
    pos = (length pre + length ba)%nat.
Proof.
  split; [apply parse_udp_address_sound|].
  intros (ba & rest' & Hw & -> & ->). by apply parse_udp_address_complete.
Qed.

Lemma app3_length pre (b : u8) : length (pre ++ [b]) = S (length pre).
Proof. rewrite length_app. simpl. lia. Qed.

(** The part of [parse_udp_packet] after the address: port and payload. *)
Lemma udp_tail pre rest :
  (2 <= length rest)%nat ->
  exists hi lo payload, rest = hi :: lo :: payload /\
    (pre ++ rest) !! length pre = Some hi /\ (pre ++ rest) !! (length pre + 1)%nat = Some lo /\
    slice (pre ++ rest) (length pre + 2) (length (pre ++ rest)) = Some payload.
Proof.
  destruct rest as [|hi [|lo payload]]; simpl; [lia|lia|]. intros _.
  exists hi, lo, payload. split; [done|]. split; [by rewrite lookup_app_at0|].
  split; [by rewrite lookup_app_at|].
  replace (length pre + 2)%nat with (length (pre ++ [hi; lo])) by (rewrite length_app; simpl; lia).
  change (hi :: lo :: payload) with ([hi; lo] ++ payload). rewrite (assoc_L (++)).
  rewrite (length_app (pre ++ _) payload), slice_app by done. by rewrite firstn_all.
Qed.

(** The last part of [parse_udp_packet], on the result of the address parser. *)
Definition udp_finish (f : u8) (buf : list u8) (r : result RustSocksError (Address * nat))
    : option (result RustSocksError UdpPacket) :=
  match r with
  | Err e => Some (Err e)
  | Ok (a, pos) =>
    if (length buf <? pos + 2)%nat then Some (Err (Stream.Protocol "Invalid port in UDP packet"))
    else match drop pos buf with
         | hi :: lo :: payload =>
           Some (Ok (mkUdpPacket (mkUdpHeader f a (from_be_bytes hi lo)) payload))
         | _ => None
         end
  end.

Lemma parse_udp_packet_unfold r0 r1 t rest :
  (6 <= length rest)%nat ->
  parse_udp_packet (r0 :: r1 :: x00 :: t :: rest) =
  (r ← parse_udp_address ([r0; r1; x00; t] ++ rest) (length [r0; r1; x00; t]) t;
   udp_finish x00 ([r0; r1; x00; t] ++ rest) r).
Proof.
  intros Hl. unfold parse_udp_packet. set (buf := r0 :: r1 :: x00 :: t :: rest).
  assert (Hb : length buf = (4 + length rest)%nat) by done.
  rewrite Hb. change (buf !! 0%nat) with (Some r0). change (buf !! 1%nat) with (Some r1).
  cbn [mbind option_bind].
  destruct (Nat.ltb_spec (4 + length rest) 10); [lia|].
  destruct (Nat.ltb_spec (4 + length rest) (2 + 1)); [lia|].
  change (buf !! 2%nat) with (Some x00). cbn [mbind option_bind].
  rewrite decide_False by (intros H2; by apply H2).
  destruct (Nat.ltb_spec (4 + length rest) (2 + 1 + 1)); [lia|].
  change (buf !! (2 + 1)%nat) with (Some t). cbn [mbind option_bind].
  change ([r0; r1; x00; t] ++ rest) with buf. change (length [r0; r1; x00; t]) with (2 + 1 + 1)%nat.
  destruct (parse_udp_address buf (2 + 1 + 1) t) as [[[a pos]|e]|] eqn:E; cbn [mbind option_bind];
    [|done|done].
  unfold udp_finish. rewrite Hb. destruct (Nat.ltb_spec (4 + length rest) (pos + 2)); [done|].
  rewrite <- (take_drop pos buf). assert (length (take pos buf) = pos) as Hp
    by (rewrite length_take; lia).
  destruct (udp_tail (take pos buf) (drop pos buf)) as (hi & lo & payload & Hd & Hh & Hlo & Hs);
    [rewrite length_drop; lia|].
  rewrite Hp in Hh, Hlo, Hs. rewrite Hh, Hlo. cbn [mbind option_bind].
  destruct (Nat.ltb_spec (4 + length rest) (pos + 2)); [lia|].
  rewrite (take_drop pos buf), Hb in Hs. rewrite (take_drop pos buf), Hs, Hd. done.
Qed.

Lemma parse_udp_packet_frag r0 r1 f t rest :
  (6 <= length rest)%nat -> f ≠ x00 ->
  exists m, parse_udp_packet (r0 :: r1 :: f :: t :: rest) = Some (Err (Stream.Protocol m)).
Proof.
  intros Hl Hf. unfold parse_udp_packet. set (buf := r0 :: r1 :: f :: t :: rest).
  assert (Hb : length buf = (4 + length rest)%nat) by done. rewrite Hb.
  change (buf !! 0%nat) with (Some r0). change (buf !! 1%nat) with (Some r1).
  cbn [mbind option_bind].
  destruct (Nat.ltb_spec (4 + length rest) 10); [lia|].
  destruct (Nat.ltb_spec (4 + length rest) (2 + 1)); [lia|].
  change (buf !! 2%nat) with (Some f). cbn [mbind option_bind]. rewrite decide_True by done. eauto.
Qed.

Lemma udp_finish_total f pre ba rest' a :
  exists r, udp_finish f (pre ++ ba ++ rest') (Ok (a, (length pre + length ba)%nat)) = Some r.
Proof.
  unfold udp_finish. case_match eqn:E; [eauto|]. apply Nat.ltb_ge in E.
  rewrite !length_app in E. rewrite (assoc_L (++)), drop_app_length' by (by rewrite length_app).
  destruct rest' as [|hi [|lo payload]]; simpl in E; try lia. eauto.
Qed.

(** [parse_udp_packet] never indexes out of range, whatever datagram it is
    given: every buffer is either parsed or refused with an error. *)
Theorem parse_udp_packet_total buf : exists r, parse_udp_packet buf = Some r.
Proof.
  destruct (Nat.ltb_spec (length buf) 10) as [Hl|Hl].
  { unfold parse_udp_packet. destruct (Nat.ltb_spec (length buf) 10); [eauto|lia]. }
  destruct buf as [|r0 [|r1 [|f [|t rest]]]]; simpl in Hl; try lia.
  destruct (decide (f = x00)) as [->|Hf].
  - rewrite parse_udp_packet_unfold by lia.
    destruct (parse_udp_address_total [r0; r1; x00; t] rest t) as [[[a pos]|e] Hr]; rewrite Hr;
      cbn [mbind option_bind]; [|unfold udp_finish; eauto].
    apply parse_udp_address_Ok in Hr as (ba & rest' & Hw & -> & ->). apply udp_finish_total.
  - destruct (parse_udp_packet_frag r0 r1 f t rest) as (m & Hm); [lia|done|eauto].
Qed.

Lemma parse_udp_packet_Ok buf p :
  parse_udp_packet buf = Some (Ok p) <-> (10 <= length buf)%nat /\ wire_udp p buf.
Proof.
  split.
  - intros H. destruct (Nat.ltb_spec (length buf) 10) as [Hl|Hl].
    { unfold parse_udp_packet in H. destruct (Nat.ltb_spec (length buf) 10); [done|lia]. }
    split; [done|]. destruct buf as [|r0 [|r1 [|f [|t rest]]]]; simpl in Hl; try lia.
    destruct (decide (f = x00)) as [->|Hf].
    2: { destruct (parse_udp_packet_frag r0 r1 f t rest) as (m & Hm); [lia|done|congruence]. }
    rewrite parse_udp_packet_unfold in H by lia.
    destruct (parse_udp_address _ _ _) as [[[a pos]|e]|] eqn:Hr; cbn [mbind option_bind] in H;
      [|done|done].
    apply parse_udp_address_Ok in Hr as (ba & rest' & Hw & -> & ->).
    unfold udp_finish in H. case_match; [done|].
    rewrite (assoc_L (++)), drop_app_length' in H by (by rewrite length_app).
    destruct rest' as [|hi [|lo payload]]; simplify_eq.
    pose proof (wire_udp_intro r0 r1 a (t :: ba) (from_be_bytes hi lo) payload Hw
      (from_be_bytes_u16 hi lo)) as Hq.
    by rewrite to_from_be_bytes in Hq.
  - intros (Hl & Hw). inversion Hw as [r0 r1 a ba port payload Ha Hp]; subst.
    destruct ba as [|t ba]; [by inversion Ha|]. simpl in *.
    rewrite parse_udp_packet_unfold by lia.
    replace (parse_udp_address _ _ _) with
      (Some (@Ok RustSocksError _ (a, (length [r0; r1; x00; t] + length ba)%nat))).
    2: { symmetry. apply parse_udp_address_Ok. eauto. }
    cbn [mbind option_bind]. unfold udp_finish. case_match eqn:E.
    { apply Nat.ltb_lt in E. rewrite !length_app in E. simpl in E. lia. }
    rewrite (assoc_L (++)), drop_app_length' by (by rewrite length_app). simpl.
    by rewrite from_to_be_bytes.
Qed.

(** A datagram is accepted exactly when it is at least ten bytes long and is
    a datagram of the wire grammar, and then its fields are returned; so what the
    parser refuses of the grammar is precisely the datagrams under ten bytes. *)
Theorem parse_udp_packet_correct buf p :
  parse_udp_packet buf = Some (Ok p) <-> (10 <= length buf)%nat /\ wire_udp p buf.
Proof. apply parse_udp_packet_Ok. Qed.

Lemma serialize_udp_wire a p d :
  wf_address a -> short_address a -> is_u16 p ->
  wire_udp (mkUdpPacket (mkUdpHeader x00 a p) d)
    (serialize_udp_packet (mkUdpPacket (mkUdpHeader x00 a p) d)).
Proof.
  intros Hwf Hs Hp. unfold serialize_udp_packet; simpl.
  apply (wire_udp_intro x00 x00 a (serialize_udp_address a)); [|done].
  destruct a as [o|o|dom]; simpl in *; [by constructor|by constructor|].
  rewrite Z.min_l by done. unfold slen at 2. rewrite Nat2Z.id, firstn_all.
  do 2 constructor; [done|]. rewrite u8_to_Z_of_Z. apply Z.mod_small.
  pose proof (slen_nonneg dom). lia.
Qed.

(** C31: a relay datagram with an address that fits the wire format is parsed
    back to itself, unless the whole datagram is shorter than ten bytes; that
    happens exactly for a domain and payload of fewer than three bytes together,
    and then a well-formed datagram is refused as too short. *)
Theorem udp_packet_roundtrip a p d :
  wf_address a -> short_address a -> is_u16 p ->
  let pkt := mkUdpPacket (mkUdpHeader x00 a p) d in
  parse_udp_packet (serialize_udp_packet pkt) =
  match a with
  | Domain dom => if decide ((length (as_bytes dom) + length d < 3)%nat)
                  then Some (Err (Stream.Protocol "UDP packet too short")) else Some (Ok pkt)
  | _ => Some (Ok pkt)
  end.
Proof.
  intros Hwf Hs Hp pkt. pose proof (serialize_udp_wire a p d Hwf Hs Hp) as Hw.
  assert (Hlen : length (serialize_udp_packet pkt) =
    (6 + match a with IPv4 _ => 4 | IPv6 _ => 16 | Domain dom => 1 + length (as_bytes dom) end
       + length d)%nat).
  { unfold serialize_udp_packet, pkt. destruct a as [o|o|dom]; simpl in *;
      rewrite ?length_app, ?length_take; simpl; try lia.
    unfold slen in *. rewrite Z.min_l by lia. lia. }
  assert (Hok : (10 <= length (serialize_udp_packet pkt))%nat ->
    parse_udp_packet (serialize_udp_packet pkt) = Some (Ok pkt)).
  { intros ?. by apply parse_udp_packet_Ok. }
  destruct a as [o|o|dom]; [apply Hok; lia|apply Hok; lia|].
  case_decide; [|apply Hok; lia]. unfold parse_udp_packet.
  destruct (Nat.ltb_spec (length (serialize_udp_packet pkt)) 10); [done|lia].
Qed.

Lemma udp_packet_roundtrip_witness :
  is_u16 53 /\
  parse_udp_packet (serialize_udp_packet
    (mkUdpPacket (mkUdpHeader x00 (Domain "a") 53) [x07])) =
  Some (Err (Stream.Protocol "UDP packet too short")).
Proof.
  split; [vm_compute; split; discriminate|].
  apply (udp_packet_roundtrip (Domain "a") 53 [x07]); vm_compute; try split; done.
Defined.
