(* ===== verification/Acl.v ===== *)
(** * Access control: rules and their matchers

    src/src/acl/types.rs and src/src/acl/matcher.rs: the ACL configuration, the
    syntax of ports and destinations, and the compiled matchers.  The crates
    [regex] and [ipnet] and the Unicode case mapping are the parameters of the
    class [AclDeps].  The error strings of the code are the constructors of
    [AclError], with the arguments that the code formats into them. *)
From S2P Require Import Prelude Net Protocol.

(** ** Configuration (types.rs) *)

Inductive Action : Type := Allow | Block.
Inductive AclProtocol : Type := Tcp | Udp | Both.

#[export] Instance Action_eq_dec : EqDecision Action.
Proof. solve_decision. Defined.
#[export] Instance AclProtocol_eq_dec : EqDecision AclProtocol.
Proof. solve_decision. Defined.

Definition AclProtocol_matches (self other : AclProtocol) : bool :=
  match self, other with
  | Both, _ => true
  | _, Both => true
  | a, b => bool_decide (a = b)
  end.

Inductive AclError : Type :=
| InvalidPortRange (s : string)
| InvalidStartPort (s : string)
| InvalidEndPort (s : string)
| InvalidPortList (s : string)
| InvalidPort (s : string)
| InvalidWildcardPattern (s : string)
| DuplicateUser (user : string)
| DuplicateGroup (group : string)
| NonExistentGroup (user group : string)
| LoadFailed (reason : string).

(** The crates [ipnet] and [regex], and [str::to_lowercase]. *)
Class AclDeps : Type := {
  IpNet : Type;
  parse_ipnet : string -> option IpNet;
  ipnet_contains : IpNet -> IpAddr -> bool;
  Regex : Type;
  regex_new : string -> option Regex;
  is_match : Regex -> string -> bool;
  to_lowercase : string -> string;
}.

Inductive DestinationMatcher `{AclDeps} : Type :=
| DmIp (ip : IpAddr)
| DmCidr (cidr : IpNet)
| DmDomain (domain : string).

(** It never fails. *)
Definition DestinationMatcher_from_str `{AclDeps} (s : string) : DestinationMatcher :=
  if contains_char "*" s then DmDomain s
  else match parse_ip s with
       | Some ip => DmIp ip
       | None => match parse_ipnet s with Some cidr => DmCidr cidr | None => DmDomain s end
       end.

Inductive PortMatcher : Type :=
| Any
| Single (p : Z)
| Range (start end_ : Z)
| Multiple (ps : list Z).

Definition PortMatcher_from_str (s : string) : result AclError PortMatcher :=
  if decide (s = "*") then Ok Any
  else if contains_char "-" s then
    match split_char "-" s with
    | [p0; p1] =>
      start ← ok_or (InvalidStartPort p0) (parse_u16 p0);
      end_ ← ok_or (InvalidEndPort p1) (parse_u16 p1);
      mret (Range start end_)
    | _ => Err (InvalidPortRange s)
    end
  else if contains_char "," s then
    ports ← collect (fun p => ok_or (InvalidPortList s) (parse_u16 (trim p))) (split_char "," s);
    mret (Multiple ports)
  else
    p ← ok_or (InvalidPort s) (parse_u16 s);
    mret (Single p).

Record AclRule : Type := mkAclRule {
  ar_action : Action;
  ar_description : string;
  ar_destinations : list string;
  ar_ports : list string;
  ar_protocols : list AclProtocol;
  ar_priority : Z;
}.
Record UserAcl : Type := mkUserAcl {
  ua_username : string; ua_groups : list string; ua_rules : list AclRule }.
Record GroupAcl : Type := mkGroupAcl { ga_name : string; ga_rules : list AclRule }.
Record GlobalAclConfig : Type := mkGlobalAclConfig { default_policy : Action }.
Record AclConfig : Type := mkAclConfig {
  ac_global : GlobalAclConfig; ac_users : list UserAcl; ac_groups : list GroupAcl }.

Definition AclConfig_default : AclConfig := mkAclConfig (mkGlobalAclConfig Block) [] [].

#[export] Instance AclRule_eq_dec : EqDecision AclRule.
Proof. solve_decision. Defined.

Inductive AclDecision : Type := DecisionAllow | DecisionBlock.
Definition AclDecision_from (a : Action) : AclDecision :=
  match a with Allow => DecisionAllow | Block => DecisionBlock end.

#[export] Instance AclDecision_eq_dec : EqDecision AclDecision.
Proof. solve_decision. Defined.

(** ** Compiled matchers (matcher.rs) *)

Definition ends_with_char (c : ascii) (s : string) : bool :=
  match reverse (String.list_ascii_of_string s) with d :: _ => bool_decide (c = d) | [] => false end.

(** The characters a wildcard's text is escaped at. *)
Definition regex_special (c : ascii) : bool := contains_char c "[]{}()|^$+?.\".

(** All the special characters are ASCII, so escaping the bytes of a part is
    escaping its characters. *)
Fixpoint escape_part (s : string) : string :=
  match s with
  | EmptyString => EmptyString
  | String ch s' =>
    if regex_special ch then String "\" (String ch (escape_part s')) else String ch (escape_part s')
  end.

Definition push_part (regex part : string) : string :=
  let regex := if negb (ends_with_char "^" regex) then regex +:+ "\." else regex in
  if decide (part = "*") then regex +:+ "[^.]+" else regex +:+ escape_part part.

Definition wildcard_to_regex (pattern : string) : string :=
  foldl push_part "^" (split_char "." pattern) +:+ "$".

Section matchers.
Context `{AclDeps}.

Inductive CompiledDestinationMatcher : Type :=
| MatchAll
| Ip (ip : IpAddr)
| Cidr (cidr : IpNet)
| CDomain (domain : string)
| WildcardDomain (regex : Regex).

Definition CompiledDestinationMatcher_compile (s : string)
    : result AclError CompiledDestinationMatcher :=
  if decide (s = "*") then Ok MatchAll
  else if contains_char "*" s then
    regex ← ok_or (InvalidWildcardPattern s) (regex_new (wildcard_to_regex s));
    mret (WildcardDomain regex)
  else match parse_ip s with
  | Some ip => Ok (Ip ip)
  | None =>
    match parse_ipnet s with
    | Some cidr => Ok (Cidr cidr)
    | None => Ok (CDomain (to_lowercase s))
    end
  end.

Definition matcher_ip_eq (matcher candidate : IpAddr) : bool :=
  match matcher, candidate with
  | V4 expected, V4 actual => bool_decide (expected = actual)
  | V6 expected, V6 actual => bool_decide (expected = actual)
  | _, _ => false
  end.

Definition match_ip (ip : IpAddr) (addr : Address) : bool :=
  match ip, addr with
  | V4 matcher_ip, IPv4 octets => bool_decide (matcher_ip = octets)
  | V6 matcher_ip, IPv6 octets => bool_decide (matcher_ip = octets)
  | _, Domain domain =>
    match parse_ip domain with Some parsed => matcher_ip_eq ip parsed | None => false end
  | _, _ => false
  end.

Definition match_cidr (cidr : IpNet) (addr : Address) : bool :=
  match addr with
  | IPv4 octets => ipnet_contains cidr (V4 octets)
  | IPv6 octets => ipnet_contains cidr (V6 octets)
  | Domain domain =>
    match parse_ip domain with Some parsed => ipnet_contains cidr parsed | None => false end
  end.

Definition match_domain (domain : string) (addr : Address) : bool :=
  match addr with Domain addr_domain => eq_ignore_ascii_case domain addr_domain | _ => false end.

Definition match_wildcard (regex : Regex) (addr : Address) : bool :=
  match addr with Domain addr_domain => is_match regex (to_lowercase addr_domain) | _ => false end.

Definition CompiledDestinationMatcher_matches (self : CompiledDestinationMatcher)
    (addr : Address) : bool :=
  match self with
  | MatchAll => true
  | Ip ip => match_ip ip addr
  | Cidr cidr => match_cidr cidr addr
  | CDomain domain => match_domain domain addr
  | WildcardDomain pattern => match_wildcard pattern addr
  end.

(** The compiled port matcher has the constructors of [PortMatcher]. *)
Definition CompiledPortMatcher : Type := PortMatcher.
Definition CompiledPortMatcher_compile (s : string) : result AclError CompiledPortMatcher :=
  matcher_type ← PortMatcher_from_str s;
  mret (match matcher_type with
        | Any => Any
        | Single p => Single p
        | Range start end_ => Range start end_
        | Multiple ports => Multiple ports
        end).
Definition CompiledPortMatcher_matches (self : CompiledPortMatcher) (port : Z) : bool :=
  match self with
  | Any => true
  | Single p => port =? p
  | Range start end_ => (start <=? port) && (port <=? end_)
  | Multiple ports => bool_decide (port ∈ ports)
  end.

Record CompiledAclRule : Type := mkCompiledAclRule {
  cr_action : Action;
  cr_description : string;
  cr_destinations : list CompiledDestinationMatcher;
  cr_ports : list CompiledPortMatcher;
  cr_protocols : list AclProtocol;
  cr_priority : Z;
}.

Definition CompiledAclRule_compile (rule : AclRule) : result AclError CompiledAclRule :=
  destinations ← collect CompiledDestinationMatcher_compile (ar_destinations rule);
  ports ← collect CompiledPortMatcher_compile (ar_ports rule);
  mret (mkCompiledAclRule (ar_action rule) (ar_description rule) destinations ports
          (ar_protocols rule) (ar_priority rule)).

Definition CompiledAclRule_matches (self : CompiledAclRule) (addr : Address) (port : Z)
    (protocol : AclProtocol) : bool :=
  if negb (existsb (fun p => AclProtocol_matches p protocol) (cr_protocols self)) then false
  else
    let dest_match := existsb (fun d => CompiledDestinationMatcher_matches d addr)
                              (cr_destinations self) in
    let port_match := existsb (fun p => CompiledPortMatcher_matches p port) (cr_ports self) in
    dest_match && port_match.
End matchers.
