(* ===== verification/Wildcard.v ===== *)
(** * Wildcard destinations

    What [wildcard_to_regex] (src/src/acl/matcher.rs) denotes.  The part of the
    regular-expression language that it produces is modelled by the items of
    [item]; [RegexLaws] states that the [regex] crate reads them the documented
    way, and [wildcard_labels] that a pattern then matches label by label.
    [demo_deps] is a concrete instance of the dependencies. *)
From S2P Require Import Prelude Net Protocol Acl.

(** A literal byte, or one or more bytes other than a dot. *)
Inductive item : Type := RLit (c : ascii) | RNonDot.

Definition render_item (i : item) : string :=
  match i with
  | RLit c => if regex_special c then String "\" (String c "") else String c ""
  | RNonDot => "[^.]+"
  end.
Definition render (l : list item) : string := foldr (fun i s => render_item i +:+ s) "" l.

Fixpoint items_match (l : list item) (s : string) : bool :=
  match l with
  | [] => bool_decide (s = "")
  | RLit c :: l' =>
    match s with String d s' => bool_decide (c = d) && items_match l' s' | EmptyString => false end
  | RNonDot :: l' =>
    (fix nondot (s : string) : bool :=
       match s with
       | String d s' => negb (bool_decide (d = "."%char)) && (items_match l' s' || nondot s')
       | EmptyString => false
       end) s
  end.

(** ASCII, and not the repetition operator that the code leaves unescaped. *)
Definition plain_char (c : ascii) : bool :=
  (Ascii.N_of_ascii c <? 128)%N && negb (bool_decide (c = "*"%char)).
Definition wf_item (i : item) : Prop :=
  match i with RLit c => plain_char c = true | RNonDot => True end.

Class RegexLaws `{AclDeps} : Prop := {
  regex_items l : Forall wf_item l ->
    exists r, regex_new ("^" +:+ render l +:+ "$") = Some r /\
      forall s, utf8_valid s -> is_match r s = items_match l s;
}.

(** ** Labels *)

Definition lits (p : string) : list item := RLit <$> String.list_ascii_of_string p.
Definition part_items (p : string) : list item := if decide (p = "*") then [RNonDot] else lits p.
Fixpoint pattern_items (parts : list string) : list item :=
  match parts with
  | [] => []
  | [p] => part_items p
  | p :: ps => part_items p ++ RLit "." :: pattern_items ps
  end.

(** What a label of a pattern accepts. *)
Definition label_ok (p l : string) : Prop := if decide (p = "*") then l ≠ "" else l = p.

Definition plain_part (p : string) : Prop :=
  forall c, c ∈ String.list_ascii_of_string p -> plain_char c = true /\ c ≠ "^"%char.

Lemma render_app l1 l2 : render (l1 ++ l2) = render l1 +:+ render l2.
Proof.
  induction l1 as [|i l1 IH]; [done|]. simpl. by rewrite IH, <- str_app_assoc.
Qed.

Lemma render_lits p : render (lits p) = escape_part p.
Proof.
  induction p as [|c p IH]; [done|].
  change (render (lits (String c p))) with (render_item (RLit c) +:+ render (lits p)).
  rewrite IH. simpl. by destruct (regex_special c).
Qed.

Lemma items_match_lits p rest s :
  items_match (lits p ++ rest) s = true <-> exists s', s = p +:+ s' /\ items_match rest s' = true.
Proof.
  revert s. induction p as [|c p IH]; intros s.
  { simpl. split; [by exists s|]. by intros (s' & -> & ?). }
  change (lits (String c p)) with (RLit c :: lits p). simpl. destruct s as [|d s].
  { split; [done|]. intros (s' & H & _). by rewrite str_app_cons in H. }
  rewrite andb_true_iff, bool_decide_eq_true, IH. split.
  - intros (-> & s' & -> & ?). by exists s'.
  - intros (s' & H & ?). rewrite str_app_cons in H. simplify_eq. eauto.
Qed.

Lemma items_match_nondot rest s :
  items_match (RNonDot :: rest) s = true <->
  exists l s', l ≠ "" /\ contains_char "." l = false /\ s = l +:+ s' /\ items_match rest s' = true.
Proof.
  induction s as [|d s IH].
  { split; [done|]. intros (l & s' & Hl & _ & H & _). by destruct l. }
  simpl in *. rewrite andb_true_iff, orb_true_iff, IH, negb_true_iff, bool_decide_eq_false. split.
  - intros (Hd & [Hm|(l & s' & Hl & Hc & -> & Hm)]).
    + exists (String d ""), s. split_and!; [done| |done|done]. simpl. by rewrite bool_decide_false.
    + exists (String d l), s'. split_and!; [done| |done|done]. simpl. rewrite bool_decide_false by done.
      done.
  - intros (l & s' & Hl & Hc & H & Hm). destruct l as [|c l]; [done|].
    rewrite str_app_cons in H. simplify_eq. simpl in Hc. apply orb_false_iff in Hc as (Hc & Hcl).
    apply bool_decide_eq_false in Hc. split; [done|].
    destruct l as [|c' l]; [by left|]. right. by exists (String c' l), s'.
Qed.

(** ** Splitting a domain into labels *)

Lemma split_char_nil c s : split_char c s ≠ [].
Proof. destruct s; simpl; [done|]. case_decide; [done|]. by case_match. Qed.

Lemma split_char_cases c s :
  (contains_char c s = false) \/
  exists l s', contains_char c l = false /\ s = l +:+ String c s'.
Proof.
  induction s as [|d s IH]; [by left|]. destruct (decide (c = d)) as [->|Hd].
  - right. exists "", s. done.
  - destruct IH as [Hn|(l & s' & Hl & ->)].
    + left. simpl. by rewrite bool_decide_false.
    + right. exists (String d l), s'. simpl. by rewrite bool_decide_false.
Qed.

(** The parts of a pattern have no dots. *)
Lemma split_char_parts c s p : p ∈ split_char c s -> contains_char c p = false.
Proof.
  revert p. induction s as [|d s IH]; intros p; simpl; [set_solver|].
  case_decide as Hd; [set_solver|].
  destruct (split_char c s) as [|q qs] eqn:E; [by apply split_char_nil in E|].
  intros [->|Hp]%elem_of_cons; [|apply IH; set_solver].
  simpl. rewrite bool_decide_false by done. apply IH. set_solver.
Qed.

Lemma part_match p rest s :
  contains_char "." p = false ->
  items_match (part_items p ++ rest) s = true <->
  exists l s', label_ok p l /\ contains_char "." l = false /\ s = l +:+ s' /\ items_match rest s' = true.
Proof.
  intros Hp. unfold part_items, label_ok. case_decide as Hs.
  - apply items_match_nondot.
  - rewrite items_match_lits. naive_solver.
Qed.

Lemma pattern_match parts s :
  parts ≠ [] -> Forall (fun p => contains_char "." p = false) parts ->
  items_match (pattern_items parts) s = true <-> Forall2 label_ok parts (split_char "." s).
Proof.
  intros Hne Hp. revert s. induction Hp as [|p [|q ps] Hd Hps IH]; intros s; [done| |].
  - simpl. rewrite <- (app_nil_r (part_items p)), part_match by done. split.
    + intros (l & s' & Hl & Hn & -> & Hs'). apply bool_decide_eq_true in Hs' as ->.
      rewrite str_app_nil_r, split_char_none by done. by repeat constructor.
    + intros H. destruct (split_char_cases "." s) as [Hn|(l & s' & Hn & ->)].
      * rewrite split_char_none in H by done. inversion H as [|? ? ? ? Hl ?]; subst.
        exists s, "". by rewrite str_app_nil_r.
      * rewrite split_char_app in H by done. inversion H as [|? ? ? ? Hl Hr]; subst.
        apply Forall2_nil_inv_l in Hr. by apply split_char_nil in Hr.
  - change (pattern_items (p :: q :: ps)) with (part_items p ++ RLit "." :: pattern_items (q :: ps)).
    rewrite part_match by done. split.
    + intros (l & s' & Hl & Hn & -> & Hs'). destruct s' as [|d s']; [done|].
      change (bool_decide ("."%char = d) && items_match (pattern_items (q :: ps)) s' = true) in Hs'.
      apply andb_true_iff in Hs' as (Hd' & Hs'). apply bool_decide_eq_true in Hd' as <-.
      rewrite split_char_app by done. constructor; [done|]. by apply IH.
    + intros H. destruct (split_char_cases "." s) as [Hn|(l & s' & Hn & ->)].
      * rewrite split_char_none in H by done. inversion H as [|? ? ? ? ? Hr]; by inversion Hr.
      * rewrite split_char_app in H by done. inversion H as [|? ? ? ? Hl Hr]; subst.
        exists l, (String "." s'). split_and!; try done.
        change (bool_decide ("."%char = "."%char) && items_match (pattern_items (q :: ps)) s' = true).
        rewrite bool_decide_true by done. by apply IH.
Qed.

(** ** The regular expression of a pattern *)

Definition ends_hat (s : string) : bool := ends_with_char "^" s.

Lemma ends_with_app c s d t :
  ends_with_char c (s +:+ String d t) = ends_with_char c (String d t).
Proof.
  unfold ends_with_char. rewrite list_ascii_app, reverse_app. simpl.
  rewrite reverse_cons. by destruct (reverse (String.list_ascii_of_string t)).
Qed.

Lemma ends_with_cons c d e t :
  ends_with_char c (String d (String e t)) = ends_with_char c (String e t).
Proof. apply (ends_with_app c (String d "") e t). Qed.

Lemma escape_no_hat p d t :
  plain_part p -> ends_with_char "^" (String d t) = false ->
  ends_with_char "^" (String d t +:+ escape_part p) = false.
Proof.
  intros Hp. revert d t. induction p as [|c p IH]; intros d t Ht; [by rewrite str_app_nil_r|].
  assert (Hc : c ≠ "^"%char) by (apply (Hp c); left).
  assert (Hpp : plain_part p) by (intros c' Hc'; apply (Hp c'); by right).
  assert (Hone : ends_with_char "^" (String c "") = false).
  { unfold ends_with_char. simpl. by rewrite bool_decide_false by congruence. }
  simpl. destruct (regex_special c).
  - change (String "\" (String c (escape_part p))) with (String "\" (String c "") +:+ escape_part p).
    rewrite <- str_app_assoc. rewrite (str_app_cons d t (String "\" (String c ""))).
    apply IH; [done|]. rewrite <- str_app_cons, ends_with_app, ends_with_cons. done.
  - change (String c (escape_part p)) with (String c "" +:+ escape_part p).
    rewrite <- str_app_assoc, (str_app_cons d t (String c "")). apply IH; [done|].
    by rewrite <- str_app_cons, ends_with_app.
Qed.

Lemma render_part p : render (part_items p) = if decide (p = "*") then "[^.]+" else escape_part p.
Proof. unfold part_items. case_decide; [done|apply render_lits]. Qed.

(** The text after a part never ends with the anchor again. *)
Lemma after_part d t p :
  (p = "*" \/ plain_part p) -> ends_with_char "^" (String d t) = false ->
  ends_with_char "^" (String d t +:+ render (part_items p)) = false.
Proof.
  intros Hp Ht. rewrite render_part. case_decide as Hs.
  - by rewrite (ends_with_app "^" (String d t) "[" "^.]+").
  - destruct Hp as [?|Hp]; [done|]. by apply escape_no_hat.
Qed.

Lemma foldl_push_part d t ps :
  Forall (fun p => p = "*" \/ plain_part p) ps -> ends_with_char "^" (String d t) = false ->
  foldl push_part (String d t) ps =
  String d t +:+ render (flat_map (fun p => RLit "." :: part_items p) ps).
Proof.
  intros Hps. revert d t. induction Hps as [|p ps Hp Hps IH]; intros d t Ht.
  { simpl. by rewrite str_app_nil_r. }
  simpl. unfold push_part at 2. rewrite Ht. cbn [negb].
  assert (Hpush : (if decide (p = "*") then (String d t +:+ "\.") +:+ "[^.]+"
                   else (String d t +:+ "\.") +:+ escape_part p) =
                  String d (t +:+ "\." +:+ render (part_items p))).
  { rewrite render_part. rewrite !str_app_assoc. by case_decide. }
  rewrite Hpush, IH.
  - rewrite render_app, !str_app_cons. f_equal. rewrite !str_app_assoc. done.
  - rewrite <- str_app_assoc, <- str_app_cons.
    apply after_part; [done|]. by rewrite <- str_app_cons, ends_with_app.
Qed.

Lemma pattern_items_cons p ps :
  pattern_items (p :: ps) = part_items p ++ flat_map (fun p => RLit "." :: part_items p) ps.
Proof.
  revert p. induction ps as [|q ps IH]; intros p; [simpl; by rewrite app_nil_r|].
  change (pattern_items (p :: q :: ps)) with (part_items p ++ RLit "." :: pattern_items (q :: ps)).
  by rewrite IH.
Qed.

Lemma wildcard_render pattern p ps :
  split_char "." pattern = p :: ps -> p ≠ "" ->
  Forall (fun p => p = "*" \/ plain_part p) (p :: ps) ->
  wildcard_to_regex pattern = "^" +:+ render (pattern_items (p :: ps)) +:+ "$".
Proof.
  intros Hs Hp0 (Hp & Hps)%Forall_cons. unfold wildcard_to_regex. rewrite Hs. simpl foldl.
  rewrite pattern_items_cons, render_app.
  assert (Hpush : push_part "^" p = "^" +:+ render (part_items p)).
  { unfold push_part. change (ends_with_char "^" "^") with true. cbn [negb].
    rewrite render_part. by case_decide. }
  rewrite Hpush, str_app_cons, foldl_push_part; [|done|].
  { rewrite <- str_app_cons, <- !str_app_assoc. done. }
  rewrite render_part. case_decide as Hst; [done|]. destruct Hp as [?|Hp]; [done|].
  destruct p as [|c p]; [done|]. simpl.
  assert (Hc : c ≠ "^"%char) by (apply (Hp c); left).
  assert (Hpp : plain_part p) by (intros c' Hc'; apply (Hp c'); by right).
  assert (Hone : ends_with_char "^" (String c "") = false).
  { unfold ends_with_char. simpl. by rewrite bool_decide_false by congruence. }
  destruct (regex_special c).
  - apply (escape_no_hat p "^" (String "\" (String c ""))); [done|].
    by rewrite !ends_with_cons.
  - apply (escape_no_hat p "^" (String c "")); [done|]. by rewrite ends_with_cons.
Qed.

(** A wildcard destination matches label by label: over the labels that the
    dots separate, a star stands for one whole non-empty label and any other
    label for itself, and the numbers of labels agree.  It holds for patterns of
    ASCII labels that are a lone star or contain neither star nor caret and whose
    first label is not empty; the domain is lowercased, the pattern is not. *)
Theorem wildcard_labels `{RegexLaws} pattern p ps :
  pattern ≠ "*" -> contains_char "*" pattern = true ->
  split_char "." pattern = p :: ps -> p ≠ "" ->
  Forall (fun p => p = "*" \/ plain_part p) (p :: ps) ->
  exists m, CompiledDestinationMatcher_compile pattern = Ok m /\
    forall d, utf8_valid (to_lowercase d) ->
      CompiledDestinationMatcher_matches m (Domain d) = true <->
      Forall2 label_ok (p :: ps) (split_char "." (to_lowercase d)).
Proof.
  intros Hn Hstar Hs Hp Hps.
  destruct (regex_items (pattern_items (p :: ps))) as (r & Hr & Hm).
  { clear -Hps. rewrite pattern_items_cons, Forall_app.
    assert (Hpart : forall q, q = "*" \/ plain_part q -> Forall wf_item (part_items q)).
    { intros q Hq. unfold part_items. case_decide; [by repeat constructor|].
      destruct Hq as [?|Hq]; [done|]. unfold lits. rewrite Forall_fmap, Forall_forall.
      intros c Hc. by apply (Hq c). }
    apply Forall_cons in Hps as (Hp & Hps). split; [by apply Hpart|].
    induction Hps as [|q qs Hq _ IH]; simpl; [constructor|]. constructor; [done|].
    rewrite Forall_app. auto. }
  exists (WildcardDomain r). split.
  - unfold CompiledDestinationMatcher_compile. rewrite decide_False, Hstar by done.
    by rewrite (wildcard_render pattern p ps), Hr.
  - intros d Hd. simpl. rewrite Hm by done. apply pattern_match; [done|].
    rewrite <- Hs, Forall_forall. apply split_char_parts.
Qed.

(** ** A concrete instance of the dependencies *)

(** The rendered items back from a pattern between the anchors. *)
Fixpoint read_items (s : string) : option (list item) :=
  match s with
  | "$"%string => Some []
  | String "\" (String c s') => cons (RLit c) <$> read_items s'
  | String "[" (String "^" (String "." (String "]" (String "+" s')))) => cons RNonDot <$> read_items s'
  | String c s' => cons (RLit c) <$> read_items s'
  | EmptyString => None
  end.
Definition demo_regex_new (s : string) : option (list item) :=
  match s with String "^" s' => read_items s' | _ => None end.

(** An IPv4 network: its octets and prefix length. *)
Definition be_value (o : list u8) : Z := foldl (fun z b => z * 256 + u8_to_Z b) 0 o.
Definition demo_parse_ipnet (s : string) : option (list u8 * Z) :=
  match split_char "/" s with
  | [a; n] => o ← parse_ipv4 a; n ← parse_uint 32 n; Some (o, n)
  | _ => None
  end.
Definition demo_ipnet_contains (net : list u8 * Z) (ip : IpAddr) : bool :=
  match ip with
  | V4 o => Z.shiftr (be_value o) (32 - net.2) =? Z.shiftr (be_value net.1) (32 - net.2)
  | V6 _ => false
  end.

#[export] Instance demo_deps : AclDeps := {|
  parse_ipnet := demo_parse_ipnet;
  ipnet_contains := demo_ipnet_contains;
  regex_new := demo_regex_new;
  is_match := items_match;
  to_lowercase := to_ascii_lowercase;
|}.

Lemma read_items_lit c s :
  plain_char c = true -> read_items (render_item (RLit c) +:+ s) = cons (RLit c) <$> read_items s.
Proof.
  intros Hc. destruct c as [[] [] [] [] [] [] [] []]; try discriminate Hc; reflexivity.
Qed.

Lemma read_items_nondot s : read_items ("[^.]+" +:+ s) = cons RNonDot <$> read_items s.
Proof. reflexivity. Qed.

#[export] Instance demo_regex_laws : RegexLaws.
Proof.
  split. intros l Hl. exists l. split; [|done]. change (read_items (render l +:+ "$") = Some l).
  induction Hl as [|i l Hi Hl IH]; [done|].
  change (render (i :: l)) with (render_item i +:+ render l). rewrite str_app_assoc.
  destruct i as [c|]; [rewrite read_items_lit by done|simpl render_item; rewrite read_items_nondot];
    by rewrite IH.
Qed.

Lemma wildcard_labels_witness :
  exists m, CompiledDestinationMatcher_compile "*.example.com" = Ok m /\
    forall d, utf8_valid (to_lowercase d) ->
      CompiledDestinationMatcher_matches m (Domain d) = true <->
      Forall2 label_ok ["*"; "example"; "com"] (split_char "." (to_lowercase d)).
Proof.
  apply (wildcard_labels "*.example.com" "*" ["example"; "com"]); [done|done|done|done|].
  constructor; [by left|].
  constructor; [right|constructor; [right|constructor]];
    intros c Hc; repeat (apply elem_of_cons in Hc as [->|Hc]; [split; [reflexivity|done]|]);
    by apply elem_of_nil in Hc.
Defined.
