(* ===== verification/AclEngine.v ===== *)
(** * Access control: the engine

    src/src/acl/engine.rs, src/src/acl/stats.rs, src/src/acl/loader.rs and the
    reload of src/src/acl/watcher.rs: compilation of the configuration into the
    indexed form, collection of the rules that apply to a user, evaluation in
    priority order, validation, hot reload and the decision counters.  The lock
    around the compiled configuration is the explicit state [AclEngine]. *)
From S2P Require Import Prelude Net Protocol Acl.

(** ** Ordering of rules *)

Section engine.
Context `{AclDeps}.

(** [a] may stand before [b] for the comparator of [sort_by]: block rules
    before allow rules, then by descending priority. *)
Definition rule_leb (a b : CompiledAclRule) : bool :=
  match cr_action a, cr_action b with
  | Block, Allow => true
  | Allow, Block => false
  | _, _ => cr_priority b <=? cr_priority a
  end.

Record CompiledUserAcl : Type := mkCompiledUserAcl {
  cu_username : string; cu_groups : list string; cu_rules : list CompiledAclRule }.
Record CompiledGroupAcl : Type := mkCompiledGroupAcl {
  cg_name : string; cg_rules : list CompiledAclRule }.
Record CompiledAclConfig : Type := mkCompiledAclConfig {
  cc_global : GlobalAclConfig;
  cc_users : gmap string CompiledUserAcl;
  cc_groups : gmap string CompiledGroupAcl;
  cc_groups_by_lowercase : gmap string CompiledGroupAcl;
}.
Record AclEngine : Type := mkAclEngine { ae_config : CompiledAclConfig }.

Definition compile_rules (rules : list AclRule) : result AclError (list CompiledAclRule) :=
  compiled_rules ← collect CompiledAclRule_compile rules;
  mret (sort_by rule_leb compiled_rules).

Definition compile_user (users : gmap string CompiledUserAcl) (user_acl : UserAcl)
    : result AclError (gmap string CompiledUserAcl) :=
  compiled_rules ← compile_rules (ua_rules user_acl);
  mret (<[ua_username user_acl :=
          mkCompiledUserAcl (ua_username user_acl) (ua_groups user_acl) compiled_rules]> users).

Definition compile_group
    (gs : gmap string CompiledGroupAcl * gmap string CompiledGroupAcl) (group_acl : GroupAcl)
    : result AclError (gmap string CompiledGroupAcl * gmap string CompiledGroupAcl) :=
  compiled_rules ← compile_rules (ga_rules group_acl);
  let compiled_group := mkCompiledGroupAcl (ga_name group_acl) compiled_rules in
  mret (<[ga_name group_acl := compiled_group]> gs.1,
        <[to_ascii_lowercase (ga_name group_acl) := compiled_group]> gs.2).

(** A [for] loop whose body may return early with an error. *)
Fixpoint for_each {A S} (body : S -> A -> result AclError S) (l : list A) (s : S)
    : result AclError S :=
  match l with
  | [] => Ok s
  | a :: l' => s' ← body s a; for_each body l' s'
  end.

Definition compile_config (config : AclConfig) : result AclError CompiledAclConfig :=
  users ← for_each compile_user (ac_users config) ∅;
  gs ← for_each compile_group (ac_groups config) (∅, ∅);
  mret (mkCompiledAclConfig (ac_global config) users gs.1 gs.2).

Definition AclEngine_new (config : AclConfig) : result AclError AclEngine :=
  compiled ← compile_config config; mret (mkAclEngine compiled).

(** ** Evaluation *)

Context `{!UnstableSort rule_leb}.

Definition collect_rules (config : CompiledAclConfig) (user : string) : list CompiledAclRule :=
  let all_rules :=
    match cc_users config !! user with
    | Some user_acl =>
      cu_rules user_acl ++
      flat_map (fun group_name =>
        match cc_groups config !! group_name with
        | Some group_acl => cg_rules group_acl
        | None => []
        end) (cu_groups user_acl)
    | None => []
    end in
  sort_unstable_by all_rules.

Definition collect_rules_from_groups (config : CompiledAclConfig) (user : string)
    (user_groups : list string) : list CompiledAclRule :=
  let user_rules :=
    match cc_users config !! user with Some user_acl => cu_rules user_acl | None => [] end in
  let group_rules :=
    flat_map (fun ldap_group =>
      match cc_groups_by_lowercase config !! to_ascii_lowercase ldap_group with
      | Some group_acl => cg_rules group_acl
      | None => []
      end) user_groups in
  sort_unstable_by (user_rules ++ group_rules).

Definition evaluate_rules (empty_reason : string) (all_rules : list CompiledAclRule)
    (default_policy : Action) (dest : Address) (port : Z) (protocol : AclProtocol)
    : AclDecision * option string :=
  match all_rules with
  | [] => (AclDecision_from default_policy, Some empty_reason)
  | _ =>
    match List.find (fun rule => CompiledAclRule_matches rule dest port protocol) all_rules with
    | Some rule => (AclDecision_from (cr_action rule), Some (cr_description rule))
    | None => (AclDecision_from default_policy, Some "Default policy")
    end
  end.

Definition evaluate (self : AclEngine) (user : string) (dest : Address) (port : Z)
    (protocol : AclProtocol) : AclDecision * option string :=
  let rules := collect_rules (ae_config self) user in
  evaluate_rules "Default policy" rules (default_policy (cc_global (ae_config self)))
    dest port protocol.

Definition evaluate_with_groups (self : AclEngine) (user : string) (user_groups : list string)
    (dest : Address) (port : Z) (protocol : AclProtocol) : AclDecision * option string :=
  let rules := collect_rules_from_groups (ae_config self) user user_groups in
  evaluate_rules "Default policy (no matching groups)" rules
    (default_policy (cc_global (ae_config self))) dest port protocol.

Definition get_matched_groups (config : CompiledAclConfig) (user_groups : list string)
    : list string :=
  List.filter (fun ldap_group =>
    match cc_groups_by_lowercase config !! to_ascii_lowercase ldap_group with
    | Some _ => true
    | None => false
    end) user_groups.

(** ** Validation and reload *)

(** The [HashSet::insert] loops: the first name that was already seen. *)
Fixpoint first_duplicate (seen : gset string) (names : list string) : option string :=
  match names with
  | [] => None
  | n :: names' => if decide (n ∈ seen) then Some n else first_duplicate ({[n]} ∪ seen) names'
  end.

Definition missing_group (config : AclConfig) (user : UserAcl) : option AclError :=
  match List.find (fun group_name =>
          negb (existsb (fun g => bool_decide (ga_name g = group_name)) (ac_groups config)))
          (ua_groups user) with
  | Some group_name => Some (NonExistentGroup (ua_username user) group_name)
  | None => None
  end.

Fixpoint first_some {A B} (f : A -> option B) (l : list A) : option B :=
  match l with
  | [] => None
  | a :: l' => match f a with Some b => Some b | None => first_some f l' end
  end.

(** The last loop only warns about rules without matchers. *)
Definition validate (self : AclConfig) : result AclError () :=
  match first_duplicate ∅ (ua_username <$> ac_users self) with
  | Some u => Err (DuplicateUser u)
  | None =>
    match first_duplicate ∅ (ga_name <$> ac_groups self) with
    | Some g => Err (DuplicateGroup g)
    | None =>
      match first_some (missing_group self) (ac_users self) with
      | Some e => Err e
      | None => Ok ()
      end
    end
  end.

Definition reload (new_config : AclConfig) (self : AclEngine) : result AclError () * AclEngine :=
  match validate new_config with
  | Err e => (Err e, self)
  | Ok _ =>
    match compile_config new_config with
    | Err e => (Err e, self)
    | Ok compiled => (Ok (), mkAclEngine compiled)
    end
  end.

Definition get_user_count (self : AclEngine) : nat := size (cc_users (ae_config self)).
Definition get_group_count (self : AclEngine) : nat := size (cc_groups (ae_config self)).

(** ** Loading and watching the file

    The file at the configured path is a parameter of every step: its
    fingerprint, [None] when it cannot be examined, and the outcome of
    reading and parsing it with the [toml] crate. *)

Record FileFingerprint : Type := mkFileFingerprint { modified : option Z; len : Z }.
#[export] Instance FileFingerprint_eq_dec : EqDecision FileFingerprint.
Proof. solve_decision. Defined.

Record config_file : Type := mkConfigFile {
  cf_fingerprint : option FileFingerprint;
  cf_parsed : result string AclConfig;
}.

Definition load_acl_config (file : config_file) : result AclError AclConfig :=
  match cf_parsed file with
  | Err e => Err (LoadFailed e)
  | Ok config => match validate config with Err e => Err e | Ok _ => Ok config end
  end.

(** The result says whether the new rules are enforced on the sessions. *)
Definition handle_reload_event (file : config_file) (engine : AclEngine) : bool * AclEngine :=
  match load_acl_config file with
  | Err _ => (false, engine)
  | Ok new_config =>
    match reload new_config engine with
    | (Ok _, engine') => (true, engine')
    | (Err _, engine') => (false, engine')
    end
  end.

Record watcher_state : Type := mkWatcher {
  w_engine : AclEngine; last_fingerprint : option FileFingerprint }.

(** The fingerprint is stored whether or not the reload succeeded. *)
Definition maybe_reload (file : config_file) (w : watcher_state) : bool * watcher_state :=
  match cf_fingerprint file with
  | None => (false, w)
  | Some current_fp =>
    if decide (last_fingerprint w = Some current_fp) then (false, w)
    else
      let '(b, engine) := handle_reload_event file (w_engine w) in
      (b, mkWatcher engine (Some current_fp))
  end.

(** [start]: the initial fingerprint, if it can be taken. *)
Definition watcher_start (file : config_file) (w : watcher_state) : watcher_state :=
  match cf_fingerprint file with
  | Some fp => mkWatcher (w_engine w) (Some fp)
  | None => w
  end.
End engine.

(** ** Decision counters (stats.rs) *)

Record UserAclStats : Type := mkUserAclStats { us_allowed : Z; us_blocked : Z }.
Record AclStats : Type := mkAclStats {
  total_allowed : Z; total_blocked : Z; per_user : gmap string UserAclStats }.
Record AclStatsSnapshot : Type := mkAclStatsSnapshot { allowed : Z; blocked : Z }.

Definition AclStats_new : AclStats := mkAclStats 0 0 ∅.

Definition record_allow (user : string) (self : AclStats) : AclStats :=
  mkAclStats (wadd64 (total_allowed self) 1) (total_blocked self)
    (<[user := match per_user self !! user with
               | Some stats => mkUserAclStats (wadd64 (us_allowed stats) 1) (us_blocked stats)
               | None => mkUserAclStats 1 0
               end]> (per_user self)).

Definition record_block (user : string) (self : AclStats) : AclStats :=
  mkAclStats (total_allowed self) (wadd64 (total_blocked self) 1)
    (<[user := match per_user self !! user with
               | Some stats => mkUserAclStats (us_allowed stats) (wadd64 (us_blocked stats) 1)
               | None => mkUserAclStats 0 1
               end]> (per_user self)).

Definition snapshot (self : AclStats) : AclStatsSnapshot :=
  mkAclStatsSnapshot (total_allowed self) (total_blocked self).

Definition user_snapshot (self : AclStats) (user : string) : option AclStatsSnapshot :=
  (fun stats => mkAclStatsSnapshot (us_allowed stats) (us_blocked stats)) <$> per_user self !! user.
