(* ===== verification/AclSpec.v ===== *)
(** * Access control: correctness

    The declarative meaning of a set of rules ([verdict]), the rules of the
    source configuration that apply to a user, and the theorems that the
    compiled, sorted and indexed engine computes exactly that; validation, hot
    reload, counters and wildcards. *)
From S2P Require Import Prelude Net Protocol Acl Wildcard AclEngine.

(** ** Order of rules *)

Section order.
Context `{AclDeps}.

Lemma rule_leb_refl r : rule_leb r r = true.
Proof. unfold rule_leb. destruct (cr_action r); apply Z.leb_refl. Qed.

Lemma rule_leb_total a b : rule_leb a b = true \/ rule_leb b a = true.
Proof. unfold rule_leb. destruct (cr_action a), (cr_action b); lia. Qed.

Lemma rule_leb_trans a b c :
  rule_leb a b = true -> rule_leb b c = true -> rule_leb a c = true.
Proof. unfold rule_leb. destruct (cr_action a), (cr_action b), (cr_action c); lia. Qed.

(** A stable sort is one possible unstable sort. *)
Definition stable_unstable_sort : UnstableSort rule_leb := {|
  sort_unstable_by := sort_by rule_leb;
  sort_unstable_perm := sort_by_perm rule_leb;
  sort_unstable_sorted := sort_by_sorted rule_leb rule_leb_total rule_leb_trans;
|}.
End order.

(** ** The meaning of a set of rules *)

Section verdict.
Context `{AclDeps}.
Context (dest : Address) (port : Z) (protocol : AclProtocol).

Definition matching (r : CompiledAclRule) : Prop :=
  CompiledAclRule_matches r dest port protocol = true.

(** [r] matches, has action [a] and no rule like it has a higher priority. *)
Definition top (R : CompiledAclRule -> Prop) (a : Action) (r : CompiledAclRule) : Prop :=
  R r /\ matching r /\ cr_action r = a /\
  forall r', R r' -> matching r' -> cr_action r' = a -> cr_priority r' <= cr_priority r.

(** Block rules win over allow rules; the answer names a matching rule of
    highest priority; the default policy decides when nothing matches. *)
Inductive verdict (R : CompiledAclRule -> Prop) (policy : Action) (empty_reason : string)
    : AclDecision * option string -> Prop :=
| verdict_block r :
    top R Block r -> verdict R policy empty_reason (DecisionBlock, Some (cr_description r))
| verdict_allow r :
    top R Allow r -> (forall r', R r' -> matching r' -> cr_action r' ≠ Block) ->
    verdict R policy empty_reason (DecisionAllow, Some (cr_description r))
| verdict_default r :
    R r -> (forall r', R r' -> ~ matching r') ->
    verdict R policy empty_reason (AclDecision_from policy, Some "Default policy")
| verdict_empty :
    (forall r', ~ R r') ->
    verdict R policy empty_reason (AclDecision_from policy, Some empty_reason).

Lemma verdict_ext R R' policy reason v :
  (forall r, R r <-> R' r) -> verdict R policy reason v -> verdict R' policy reason v.
Proof.
  intros HR Hv. unfold top in *. destruct Hv as [r Ht|r Ht Hn|r Hr Hn|Hn];
    [apply verdict_block|apply verdict_allow|apply (verdict_default _ _ _ r)|apply verdict_empty];
    unfold top in *; naive_solver.
Qed.

(** The decision is a function of the set of rules. *)
Lemma verdict_decision R policy reason v v' :
  verdict R policy reason v -> verdict R policy reason v' -> v.1 = v'.1.
Proof.
  unfold top. intros Hv Hv'. destruct Hv, Hv'; unfold top in *; simpl; try done;
    exfalso; naive_solver.
Qed.

Lemma find_sorted_top a rules r :
  sorted rule_leb rules ->
  List.find (fun r => CompiledAclRule_matches r dest port protocol) rules = Some r ->
  cr_action r = a ->
  top (.∈ rules) a r /\ (a = Allow -> forall r', r' ∈ rules -> matching r' -> cr_action r' ≠ Block).
Proof.
  intros Hs Hf Ha. apply List.find_some in Hf as Hr. destruct Hr as (Hin & Hm).
  assert (Hleb : forall r', r' ∈ rules -> matching r' -> rule_leb r r' = true).
  { clear -Hs Hf. induction Hs as [|x l Hl IH Hx]; intros r' Hr' Hm'; [set_solver|].
    simpl in Hf. destruct (CompiledAclRule_matches x dest port protocol) eqn:E.
    - simplify_eq. apply elem_of_cons in Hr' as [->|Hr']; [apply rule_leb_refl|].
      rewrite Forall_forall in Hx. by apply Hx.
    - apply elem_of_cons in Hr' as [->|Hr']; [unfold matching in *; congruence|]. by apply IH. }
  split.
  - split_and!; [by apply list_elem_of_In|done|done|]. intros r' Hr' Hm' Ha'.
    specialize (Hleb r' Hr' Hm'). unfold rule_leb in Hleb. rewrite Ha, Ha' in Hleb.
    destruct a; lia.
  - intros -> r' Hr' Hm' Hb. specialize (Hleb r' Hr' Hm'). unfold rule_leb in Hleb.
    by rewrite Ha, Hb in Hleb.
Qed.

Lemma evaluate_rules_verdict reason rules policy :
  sorted rule_leb rules ->
  verdict (.∈ rules) policy reason (evaluate_rules reason rules policy dest port protocol).
Proof.
  intros Hs. unfold evaluate_rules. destruct rules as [|r0 rules0] eqn:E.
  { apply verdict_empty. set_solver. }
  rewrite <- E in *. destruct (List.find _ rules) as [r|] eqn:Hf.
  - destruct (find_sorted_top _ rules r Hs Hf eq_refl) as (Ht & Hn).
    destruct (cr_action r) eqn:Ha; simpl; [apply verdict_allow|apply verdict_block]; auto.
  - apply (verdict_default _ _ _ r0); [subst; set_solver|].
    intros r' Hr' Hm. apply list_elem_of_In in Hr'.
    pose proof (List.find_none _ _ Hf r' Hr') as Hfn. unfold matching in Hm. simpl in Hfn. congruence.
Qed.
End verdict.

(** ** Compilation of the configuration *)

Section compile.
Context `{AclDeps}.

(** Insertion of the elements of a list into a map under a key. *)
Definition index_by {A B} (k : A -> string) (f : A -> result AclError B)
    (m : gmap string B) (a : A) : result AclError (gmap string B) :=
  b ← f a; mret (<[k a := b]> m).

Lemma index_lookup {A B} (k : A -> string) (f : A -> result AclError B) l m m' u b :
  NoDup (k <$> l) -> for_each (index_by k f) l m = Ok m' ->
  m' !! u = Some b <->
  (exists a, a ∈ l /\ k a = u /\ f a = Ok b) \/ ((u ∉ k <$> l) /\ m !! u = Some b).
Proof.
  revert m. induction l as [|a l IH]; intros m Hnd Hm; simpl in Hm.
  { simplify_eq. split; [by right; split; [set_solver|]|]. intros [(? & ?%elem_of_nil & _)|(_ & ?)]; done. }
  apply NoDup_cons in Hnd as (Hna & Hnd). unfold index_by in Hm at 2.
  destruct (f a) as [b0|] eqn:Hb; cbn in Hm; [|done].
  rewrite (IH _ Hnd Hm), lookup_insert_Some, fmap_cons, not_elem_of_cons.
  split.
  - intros [(a' & Ha' & Hk & Hf)|(Hu & [(Hk & ->)|(Hk & Hl)])].
    + left. exists a'. split; [by right|done].
    + left. exists a. split; [by left|done].
    + right. naive_solver.
  - intros [(a' & [->|Ha']%elem_of_cons & Hk & Hf)|((Hk & Hu) & Hl)].
    + right. rewrite Hf in Hb. naive_solver.
    + left. eauto.
    + naive_solver.
Qed.

Lemma for_each_ext {A S} (b1 b2 : S -> A -> result AclError S) l s :
  (forall s a, b1 s a = b2 s a) -> for_each b1 l s = for_each b2 l s.
Proof.
  intros Hb. revert s. induction l as [|a l IH]; intros s; simpl; [done|].
  rewrite Hb. destruct (b2 s a); simpl; [apply IH|done].
Qed.

Lemma for_each_groups l m1 m2 p :
  for_each compile_group l (m1, m2) = Ok p ->
  for_each (index_by ga_name (fun g => mkCompiledGroupAcl (ga_name g) <$> compile_rules (ga_rules g)))
    l m1 = Ok p.1 /\
  for_each (index_by (fun g => to_ascii_lowercase (ga_name g))
    (fun g => mkCompiledGroupAcl (ga_name g) <$> compile_rules (ga_rules g))) l m2 = Ok p.2.
Proof.
  revert m1 m2. induction l as [|g l IH]; intros m1 m2 Hl; simpl in *; [by simplify_eq|].
  unfold compile_group in Hl at 2. unfold index_by at 2 4.
  destruct (compile_rules (ga_rules g)) as [rs|e]; simpl in *; [|done]. by apply IH.
Qed.

Lemma compile_rules_elem rules crs cr :
  compile_rules rules = Ok crs ->
  cr ∈ crs <-> exists r, r ∈ rules /\ CompiledAclRule_compile r = Ok cr.
Proof.
  unfold compile_rules. destruct (collect _ rules) as [l|e] eqn:E; simpl; [|done].
  intros [= <-]. rewrite sort_by_perm. apply collect_Ok in E. split.
  - intros Hc. apply list_elem_of_lookup in Hc as (i & Hi).
    destruct (Forall2_lookup_r _ _ _ _ _ E Hi) as (r & Hr & Hf). exists r.
    split; [by eapply list_elem_of_lookup_2|done].
  - intros (r & Hr & Hf). apply list_elem_of_lookup in Hr as (i & Hi).
    destruct (Forall2_lookup_l _ _ _ _ _ E Hi) as (cr' & Hcr & Hf').
    rewrite Hf in Hf'. simplify_eq. by eapply list_elem_of_lookup_2.
Qed.

Lemma compile_config_users cfg cc u cu :
  NoDup (ua_username <$> ac_users cfg) -> compile_config cfg = Ok cc ->
  cc_users cc !! u = Some cu <->
  exists ua rs, ua ∈ ac_users cfg /\ ua_username ua = u /\
    compile_rules (ua_rules ua) = Ok rs /\ cu = mkCompiledUserAcl u (ua_groups ua) rs.
Proof.
  intros Hnd. unfold compile_config.
  rewrite (for_each_ext compile_user (index_by ua_username (fun ua =>
    mkCompiledUserAcl (ua_username ua) (ua_groups ua) <$> compile_rules (ua_rules ua)))).
  2: { intros m ua. unfold compile_user, index_by. by destruct (compile_rules (ua_rules ua)). }
  destruct (for_each (index_by ua_username _) _ _) as [us|] eqn:E; simpl; [|done].
  destruct (for_each compile_group _ _) as [gs|]; simpl; [|done]. intros [= <-]; simpl.
  rewrite (index_lookup _ _ _ _ _ _ _ Hnd E), lookup_empty. split.
  - intros [(ua & Hua & <- & Hf)|(_ & ?)]; [|done].
    destruct (compile_rules (ua_rules ua)) as [rs|] eqn:Hrs; simplify_eq/=. by exists ua, rs.
  - intros (ua & rs & Hua & <- & Hrs & ->). left. exists ua. by rewrite Hrs.
Qed.

(** Either group index, for its key function. *)
Lemma compile_config_groups (low : bool) cfg cc n cg :
  let k := if low then (fun g => to_ascii_lowercase (ga_name g)) else ga_name in
  NoDup (k <$> ac_groups cfg) -> compile_config cfg = Ok cc ->
  (if low then cc_groups_by_lowercase cc else cc_groups cc) !! n = Some cg <->
  exists g rs, g ∈ ac_groups cfg /\ k g = n /\
    compile_rules (ga_rules g) = Ok rs /\ cg = mkCompiledGroupAcl (ga_name g) rs.
Proof.
  intros k Hnd. unfold compile_config.
  destruct (for_each compile_user _ _) as [us|]; simpl; [|done].
  destruct (for_each compile_group _ _) as [gs|] eqn:E; simpl; [|done]. intros [= <-]; simpl.
  apply for_each_groups in E as (E1 & E2).
  assert ((if low then gs.2 else gs.1) !! n = Some cg <->
    (exists g, g ∈ ac_groups cfg /\ k g = n /\
      (mkCompiledGroupAcl (ga_name g) <$> compile_rules (ga_rules g)) = Ok cg) \/
    (n ∉ k <$> ac_groups cfg) /\ (∅ : gmap string CompiledGroupAcl) !! n = Some cg) as ->.
  { destruct low; by eapply index_lookup. }
  rewrite lookup_empty. split.
  - intros [(g & Hg & Hk & Hf)|(_ & ?)]; [|done].
    destruct (compile_rules (ga_rules g)) as [rs|] eqn:Hrs; simplify_eq/=. by exists g, rs.
  - intros (g & rs & Hg & Hk & Hrs & ->). left. exists g. by rewrite Hrs.
Qed.

Lemma compile_config_all cfg cc :
  compile_config cfg = Ok cc ->
  cc_global cc = ac_global cfg /\
  (forall ua, ua ∈ ac_users cfg -> exists rs, compile_rules (ua_rules ua) = Ok rs) /\
  (forall g, g ∈ ac_groups cfg -> exists rs, compile_rules (ga_rules g) = Ok rs).
Proof.
  unfold compile_config.
  destruct (for_each compile_user _ _) as [us|] eqn:Eu; simpl; [|done].
  destruct (for_each compile_group _ _) as [gs|] eqn:Eg; simpl; [|done]. intros [= <-]; simpl.
  split; [done|]. split.
  - clear Eg. revert Eu. generalize (∅ : gmap string CompiledUserAcl).
    induction (ac_users cfg) as [|ua l IH]; intros m Eu; [set_solver|].
    simpl in Eu. unfold compile_user in Eu at 2.
    destruct (compile_rules (ua_rules ua)) eqn:Er; simpl in Eu; [|done].
    intros ua' [->|Hu]%elem_of_cons; eauto.
  - clear Eu. revert Eg. generalize ((∅, ∅) : gmap string CompiledGroupAcl * gmap string CompiledGroupAcl).
    induction (ac_groups cfg) as [|g l IH]; intros m Eg; [set_solver|].
    simpl in Eg. unfold compile_group in Eg at 2.
    destruct (compile_rules (ga_rules g)) eqn:Er; simpl in Eg; [|done].
    intros g' [->|Hg]%elem_of_cons; eauto.
Qed.
End compile.

(** ** Validation *)

Section validation.
Lemma first_duplicate_None seen names :
  first_duplicate seen names = None <-> NoDup names /\ (forall n, n ∈ names -> n ∉ seen).
Proof.
  revert seen. induction names as [|n names IH]; intros seen; simpl.
  { split; [|done]. intros _. split; [constructor|set_solver]. }
  case_decide as Hn; [split; [done|set_solver]|]. rewrite IH, NoDup_cons. set_solver.
Qed.

Lemma first_some_None {A B} (f : A -> option B) l :
  first_some f l = None <-> forall a, a ∈ l -> f a = None.
Proof.
  induction l as [|a l IH]; simpl; [set_solver|].
  destruct (f a) eqn:E; [split; [done|]|rewrite IH; set_solver].
  intros Ha. specialize (Ha a). set_solver.
Qed.

Definition group_exists (cfg : AclConfig) (n : string) : Prop :=
  exists g, g ∈ ac_groups cfg /\ ga_name g = n.

Lemma missing_group_None cfg ua :
  missing_group cfg ua = None <-> forall n, n ∈ ua_groups ua -> group_exists cfg n.
Proof.
  unfold missing_group, group_exists. case_match eqn:E; (split; [intros HH|intros Hall]).
  - done.
  - apply List.find_some in E as (Hin & Hf). apply negb_true_iff in Hf.
    destruct (Hall s) as (g & Hg & Hn); [by apply list_elem_of_In|].
    assert (existsb (fun g => bool_decide (ga_name g = s)) (ac_groups cfg) = true); [|congruence].
    apply existsb_elem. exists g. by rewrite bool_decide_true.
  - intros n Hn. apply list_elem_of_In in Hn. apply (List.find_none _ _ E) in Hn.
    apply negb_false_iff, existsb_elem in Hn as (g & Hg & Hb).
    apply bool_decide_eq_true in Hb. eauto.
  - done.
Qed.

Lemma validate_Ok cfg :
  validate cfg = Ok () <->
  NoDup (ua_username <$> ac_users cfg) /\ NoDup (ga_name <$> ac_groups cfg) /\
  forall ua n, ua ∈ ac_users cfg -> n ∈ ua_groups ua -> group_exists cfg n.
Proof.
  unfold validate.
  pose proof (first_duplicate_None ∅ (ua_username <$> ac_users cfg)) as Hu.
  pose proof (first_duplicate_None ∅ (ga_name <$> ac_groups cfg)) as Hg.
  pose proof (first_some_None (missing_group cfg) (ac_users cfg)) as Hm.
  destruct (first_duplicate ∅ (ua_username <$> ac_users cfg)) as [u|]; [naive_solver set_solver|].
  destruct (first_duplicate ∅ (ga_name <$> ac_groups cfg)) as [g|]; [naive_solver set_solver|].
  setoid_rewrite missing_group_None in Hm.
  destruct (first_some _ _); [|naive_solver].
  split; [done|]. intros (_ & _ & Hall). destruct Hm as (_ & Hm).
  assert (Some a = None) by eauto. done.
Qed.

(** A configuration is valid exactly when no two users and no two groups
    have the same name and every group a user names is defined. *)
Theorem validate_correct cfg :
  is_ok (validate cfg) = true <->
  NoDup (ua_username <$> ac_users cfg) /\ NoDup (ga_name <$> ac_groups cfg) /\
  forall ua n, ua ∈ ac_users cfg -> n ∈ ua_groups ua -> group_exists cfg n.
Proof.
  rewrite <- validate_Ok. destruct (validate cfg) as [[]|e]; split; done.
Qed.
End validation.

(** ** Evaluation on the source configuration *)

Section evaluation.
Context `{AclDeps, !UnstableSort rule_leb}.

(** The rules of the configuration that apply to a user with some groups of
    the directory, whose names are compared without case. *)
Definition applicable_with_groups (cfg : AclConfig) (user : string) (groups : list string)
    (r : AclRule) : Prop :=
  (exists ua, ua ∈ ac_users cfg /\ ua_username ua = user /\ r ∈ ua_rules ua) \/
  (exists g lg, g ∈ ac_groups cfg /\ lg ∈ groups /\
     eq_ignore_ascii_case lg (ga_name g) = true /\ r ∈ ga_rules g).

(** The rules that apply to a user with the groups of the configuration. *)
Definition applicable (cfg : AclConfig) (user : string) (r : AclRule) : Prop :=
  exists ua, ua ∈ ac_users cfg /\ ua_username ua = user /\
    (r ∈ ua_rules ua \/ exists g, g ∈ ac_groups cfg /\ ga_name g ∈ ua_groups ua /\ r ∈ ga_rules g).

Definition compiled (R : AclRule -> Prop) (cr : CompiledAclRule) : Prop :=
  exists r, R r /\ CompiledAclRule_compile r = Ok cr.

Lemma elem_flat_map {A B} (f : A -> list B) l b : b ∈ flat_map f l <-> exists a, a ∈ l /\ b ∈ f a.
Proof.
  rewrite list_elem_of_In, List.in_flat_map. split; intros (a & Ha & Hb); exists a;
    by rewrite ?list_elem_of_In in *.
Qed.

Lemma user_rules_elem cfg cc user cr :
  NoDup (ua_username <$> ac_users cfg) -> compile_config cfg = Ok cc ->
  cr ∈ match cc_users cc !! user with Some u => cu_rules u | None => [] end <->
  compiled (fun r => exists ua, ua ∈ ac_users cfg /\ ua_username ua = user /\ r ∈ ua_rules ua) cr.
Proof.
  intros Hnd Hc. pose proof (compile_config_users cfg cc user) as Hl.
  destruct (compile_config_all cfg cc Hc) as (_ & Hall & _). unfold compiled. split.
  - destruct (cc_users cc !! user) as [cu|] eqn:E; [|set_solver].
    destruct (proj1 (Hl cu Hnd Hc) eq_refl) as (ua & rs & Hua & Hu & Hrs & ->). simpl.
    intros (r & Hr & Hf)%(compile_rules_elem _ _ _ Hrs). naive_solver.
  - intros (r & (ua & Hua & Hu & Hr) & Hf). destruct (Hall ua Hua) as (rs & Hrs).
    rewrite (proj2 (Hl (mkCompiledUserAcl user (ua_groups ua) rs) Hnd Hc)) by eauto 10.
    simpl. apply (compile_rules_elem _ _ _ Hrs). eauto.
Qed.

Lemma collect_rules_from_groups_elem cfg cc user groups cr :
  NoDup (ua_username <$> ac_users cfg) ->
  NoDup ((fun g => to_ascii_lowercase (ga_name g)) <$> ac_groups cfg) ->
  compile_config cfg = Ok cc ->
  cr ∈ collect_rules_from_groups cc user groups <->
  compiled (applicable_with_groups cfg user groups) cr.
Proof.
  intros Hu Hg Hc. unfold collect_rules_from_groups.
  rewrite sort_unstable_perm, elem_of_app, (user_rules_elem cfg cc user cr Hu Hc), elem_flat_map.
  pose proof (fun n cg => compile_config_groups true cfg cc n cg Hg Hc) as Hl. simpl in Hl.
  destruct (compile_config_all cfg cc Hc) as (_ & _ & Hall).
  unfold compiled, applicable_with_groups, eq_ignore_ascii_case. split.
  - intros [(r & ? & ?)|(lg & Hlg & Hcr)]; [eauto|].
    destruct (cc_groups_by_lowercase cc !! _) as [cg|] eqn:E; [|set_solver].
    apply Hl in E as (g & rs & Hin & Hk & Hrs & ->). simpl in Hcr.
    apply (compile_rules_elem _ _ _ Hrs) in Hcr as (r & Hr & Hf).
    exists r. split; [right|done]. exists g, lg. by rewrite bool_decide_true.
  - intros (r & [?|(g & lg & Hin & Hlg & Heq & Hr)] & Hf); [eauto|]. right. exists lg.
    split; [done|]. apply bool_decide_eq_true in Heq. destruct (Hall g Hin) as (rs & Hrs).
    rewrite (proj2 (Hl (to_ascii_lowercase lg) (mkCompiledGroupAcl (ga_name g) rs))) by eauto 10.
    simpl. apply (compile_rules_elem _ _ _ Hrs). eauto.
Qed.

Lemma collect_rules_elem cfg cc user cr :
  NoDup (ua_username <$> ac_users cfg) -> NoDup (ga_name <$> ac_groups cfg) ->
  compile_config cfg = Ok cc ->
  cr ∈ collect_rules cc user <-> compiled (applicable cfg user) cr.
Proof.
  intros Hu Hg Hc. unfold collect_rules. rewrite sort_unstable_perm.
  pose proof (fun cu => compile_config_users cfg cc user cu Hu Hc) as Hlu.
  pose proof (fun n cg => compile_config_groups false cfg cc n cg Hg Hc) as Hl. simpl in Hl.
  destruct (compile_config_all cfg cc Hc) as (_ & Hallu & Hall).
  unfold compiled, applicable. split.
  - destruct (cc_users cc !! user) as [cu|] eqn:E; [|set_solver].
    destruct (proj1 (Hlu cu) eq_refl) as (ua & rs & Hua & Hun & Hrs & ->). simpl.
    rewrite elem_of_app, elem_flat_map. intros [Hcr|(n & Hn & Hcr)].
    + apply (compile_rules_elem _ _ _ Hrs) in Hcr as (r & Hr & Hf). eauto 10.
    + destruct (cc_groups cc !! n) as [cg|] eqn:Eg; [|set_solver].
      apply Hl in Eg as (g & rs' & Hin & <- & Hrs' & ->). simpl in Hcr.
      apply (compile_rules_elem _ _ _ Hrs') in Hcr as (r & Hr & Hf). eauto 15.
  - intros (r & (ua & Hua & Hun & Hr) & Hf). destruct (Hallu ua Hua) as (rs & Hrs).
    rewrite (proj2 (Hlu (mkCompiledUserAcl user (ua_groups ua) rs))) by eauto 10.
    simpl. rewrite elem_of_app, elem_flat_map.
    destruct Hr as [Hr|(g & Hin & Hn & Hr)].
    + left. apply (compile_rules_elem _ _ _ Hrs). eauto.
    + right. exists (ga_name g). split; [done|]. destruct (Hall g Hin) as (rs' & Hrs').
      rewrite (proj2 (Hl (ga_name g) (mkCompiledGroupAcl (ga_name g) rs'))) by eauto 10.
      simpl. apply (compile_rules_elem _ _ _ Hrs'). eauto.
Qed.

Lemma evaluate_with_groups_verdict cfg eng user groups dest port protocol :
  validate cfg = Ok () ->
  NoDup ((fun g => to_ascii_lowercase (ga_name g)) <$> ac_groups cfg) ->
  AclEngine_new cfg = Ok eng ->
  verdict dest port protocol (compiled (applicable_with_groups cfg user groups))
    (default_policy (ac_global cfg)) "Default policy (no matching groups)"
    (evaluate_with_groups eng user groups dest port protocol).
Proof.
  intros (Hu & _)%validate_Ok Hg. unfold AclEngine_new.
  destruct (compile_config cfg) as [cc|] eqn:Hc; simpl; [|done]. intros [= <-].
  destruct (compile_config_all cfg cc Hc) as (<- & _).
  eapply verdict_ext; [|apply evaluate_rules_verdict, sort_unstable_sorted].
  intros cr. by apply collect_rules_from_groups_elem.
Qed.

(** C6: for a valid configuration whose group names differ even without case,
    [evaluate_with_groups] on the compiled, indexed and sorted configuration
    gives the verdict of the configuration's own rules: those of the user and
    of every group that one of the directory's group names denotes. *)
Theorem evaluate_with_groups_correct cfg eng user groups dest port protocol :
  validate cfg = Ok () ->
  NoDup ((fun g => to_ascii_lowercase (ga_name g)) <$> ac_groups cfg) ->
  AclEngine_new cfg = Ok eng ->
  verdict dest port protocol (compiled (applicable_with_groups cfg user groups))
    (default_policy (ac_global cfg)) "Default policy (no matching groups)"
    (evaluate_with_groups eng user groups dest port protocol).
Proof. apply evaluate_with_groups_verdict. Qed.

(** For a valid configuration, [evaluate] gives the verdict of the rules
    of the user and of the groups that the configuration lists for them; a user
    without an entry gets the default policy. *)
Theorem evaluate_correct cfg eng user dest port protocol :
  validate cfg = Ok () -> AclEngine_new cfg = Ok eng ->
  verdict dest port protocol (compiled (applicable cfg user))
    (default_policy (ac_global cfg)) "Default policy"
    (evaluate eng user dest port protocol).
Proof.
  intros (Hu & Hg & _)%validate_Ok. unfold AclEngine_new.
  destruct (compile_config cfg) as [cc|] eqn:Hc; simpl; [|done]. intros [= <-].
  destruct (compile_config_all cfg cc Hc) as (<- & _).
  eapply verdict_ext; [|apply evaluate_rules_verdict, sort_unstable_sorted].
  intros cr. by apply collect_rules_elem.
Qed.
End evaluation.

(** The decision does not depend on how the unstable sort orders rules of
    the same action and priority: any two sorts give the same decision. *)
Theorem evaluate_sort_independent `{AclDeps} (S1 S2 : UnstableSort rule_leb)
    eng user groups dest port protocol :
  (@evaluate_with_groups _ S1 eng user groups dest port protocol).1 =
  (@evaluate_with_groups _ S2 eng user groups dest port protocol).1.
Proof.
  set (R := fun r => r ∈ @collect_rules_from_groups _ S1 (ae_config eng) user groups).
  apply (verdict_decision dest port protocol R (default_policy (cc_global (ae_config eng)))
    "Default policy (no matching groups)").
  - apply evaluate_rules_verdict, sort_unstable_sorted.
  - eapply verdict_ext; [|apply evaluate_rules_verdict, sort_unstable_sorted].
    intros r. unfold R, collect_rules_from_groups. by rewrite !sort_unstable_perm.
Qed.

(** ** A concrete configuration *)

Definition demo_config : AclConfig := mkAclConfig (mkGlobalAclConfig Block)
  [mkUserAcl "alice" ["developers"]
     [mkAclRule Allow "Allow HTTPS" ["0.0.0.0/0"] ["443"] [Tcp] 100;
      mkAclRule Block "Block admin panel" ["admin.example.com"] ["*"] [Both] 1000]]
  [mkGroupAcl "developers" [mkAclRule Allow "Dev servers" ["*.dev.example.com"] ["*"] [Both] 50]].

#[local] Existing Instance stable_unstable_sort.

Lemma demo_engine : exists eng, AclEngine_new demo_config = Ok eng /\
  evaluate_with_groups eng "alice" ["Developers"] (Domain "api.dev.example.com") 8080 Tcp =
    (DecisionAllow, Some "Dev servers").
Proof.
  assert (H : (fun eng => evaluate_with_groups eng "alice" ["Developers"]
    (Domain "api.dev.example.com") 8080 Tcp) <$> AclEngine_new demo_config =
    Ok (DecisionAllow, Some "Dev servers")) by (vm_compute; reflexivity).
  destruct (AclEngine_new demo_config) as [eng|e]; [|discriminate H].
  exists eng. split; [reflexivity|]. by injection H as H.
Qed.

Lemma evaluate_with_groups_correct_witness :
  validate demo_config = Ok () /\
  exists eng, AclEngine_new demo_config = Ok eng /\
    evaluate_with_groups eng "alice" ["Developers"] (Domain "api.dev.example.com") 8080 Tcp =
      (DecisionAllow, Some "Dev servers") /\
    verdict (Domain "api.dev.example.com") 8080 Tcp
      (compiled (applicable_with_groups demo_config "alice" ["Developers"])) Block
      "Default policy (no matching groups)"
      (evaluate_with_groups eng "alice" ["Developers"] (Domain "api.dev.example.com") 8080 Tcp).
Proof.
  split; [vm_compute; reflexivity|].
  destruct demo_engine as (eng & E & Hv). exists eng. split; [exact E|]. split; [exact Hv|].
  apply (evaluate_with_groups_correct demo_config eng "alice" ["Developers"]
    (Domain "api.dev.example.com") 8080 Tcp); [vm_compute; reflexivity| |exact E].
  apply NoDup_singleton.
Defined.

Lemma evaluate_correct_witness :
  validate demo_config = Ok () /\
  exists eng, AclEngine_new demo_config = Ok eng /\
    verdict (Domain "admin.example.com") 443 Tcp (compiled (applicable demo_config "alice"))
      Block "Default policy" (evaluate eng "alice" (Domain "admin.example.com") 443 Tcp).
Proof.
  split; [vm_compute; reflexivity|].
  destruct demo_engine as (eng & E & _). exists eng. split; [exact E|].
  apply (evaluate_correct demo_config eng "alice" (Domain "admin.example.com") 443 Tcp);
    [vm_compute; reflexivity|exact E].
Defined.

(** ** Textual addresses *)

(** A client cannot evade a rule on an address by sending the address as a
    domain name: IP, CIDR and match-all destinations treat the dotted text of an
    IPv4 address as that address. *)
Theorem acl_ip_as_domain `{AclDeps} m o :
  length o = 4%nat ->
  match m with MatchAll | Ip _ | Cidr _ => True | _ => False end ->
  CompiledDestinationMatcher_matches m (Domain (fmt_ipv4 o)) =
  CompiledDestinationMatcher_matches m (IPv4 o).
Proof.
  intros Ho. destruct m as [|ip|cidr|d|r]; simpl; try done; intros _.
  - unfold match_ip. rewrite parse_ip_fmt_ipv4 by done. by destruct ip.
  - by rewrite parse_ip_fmt_ipv4.
Qed.

Lemma acl_ip_as_domain_witness :
  length [x0a; x00; x00; x01] = 4%nat /\
  CompiledDestinationMatcher_matches (Ip (V4 [x0a; x00; x00; x01])) (Domain (fmt_ipv4 [x0a; x00; x00; x01])) =
  CompiledDestinationMatcher_matches (Ip (V4 [x0a; x00; x00; x01])) (IPv4 [x0a; x00; x00; x01]).
Proof. split; [done|]. by apply (acl_ip_as_domain (Ip (V4 [x0a; x00; x00; x01]))). Defined.

(** ** Hot reload *)

Section watching.
Context `{AclDeps}.

(** The engine after one look at the file, without the fingerprint. *)
Definition track (e : AclEngine) (f : config_file) : AclEngine :=
  match cf_fingerprint f with Some _ => (handle_reload_event f e).2 | None => e end.

Definition watch (fs : list config_file) (w : watcher_state) : watcher_state :=
  foldl (fun w f => (maybe_reload f w).2) w fs.

(** The engine that a good configuration file leads to, whatever was there. *)
Lemma handle_reload_event_idem f f' e :
  cf_parsed f = cf_parsed f' ->
  (handle_reload_event f' (handle_reload_event f e).2).2 = (handle_reload_event f e).2.
Proof.
  unfold handle_reload_event, load_acl_config. intros <-.
  destruct (cf_parsed f) as [cfg|]; [|done].
  destruct (validate cfg) eqn:Ev; [|done]. unfold reload. rewrite Ev.
  destruct (compile_config cfg) eqn:Ec; simpl; rewrite ?Ev, ?Ec; done.
Qed.

(** The polling watcher is a cache that cannot be observed: if files with
    the same fingerprint parse to the same thing, then after any sequence of
    looks at the file the engine is what reloading at every look would give,
    that is the one of the last file that parsed, validated and compiled. *)
Theorem watch_tracks (f0 : config_file) fs e0 :
  (forall f f' fp, f ∈ f0 :: fs -> f' ∈ f0 :: fs -> cf_fingerprint f = Some fp ->
     cf_fingerprint f' = Some fp -> cf_parsed f = cf_parsed f') ->
  track e0 f0 = e0 ->
  w_engine (watch fs (watcher_start f0 (mkWatcher e0 None))) = foldl track e0 fs.
Proof.
  intros Hfp He0.
  assert (Hinv : forall w seen rest, f0 :: fs = seen ++ rest ->
    (forall fp, last_fingerprint w = Some fp -> exists f, f ∈ seen /\ cf_fingerprint f = Some fp /\
       (handle_reload_event f (w_engine w)).2 = w_engine w) ->
    w_engine (watch rest w) = foldl track (w_engine w) rest).
  { intros w seen rest. revert w seen. induction rest as [|f rest IH]; intros w seen Hs Hw; [done|].
    change (watch (f :: rest) w) with (watch rest (maybe_reload f w).2).
    change (foldl track (w_engine w) (f :: rest)) with (foldl track (track (w_engine w) f) rest).
    unfold maybe_reload, track at 2.
    assert (Hw' : forall fp, last_fingerprint w = Some fp -> exists f', f' ∈ seen ++ [f] /\
      cf_fingerprint f' = Some fp /\ (handle_reload_event f' (w_engine w)).2 = w_engine w).
    { intros fp Hl. destruct (Hw fp Hl) as (f' & ? & ?). exists f'. set_solver. }
    destruct (cf_fingerprint f) as [fp|] eqn:Ef; simpl.
    2: { apply (IH w (seen ++ [f])); [by rewrite <- (assoc_L (++))|done]. }
    case_decide as Hl; simpl.
    - destruct (Hw fp Hl) as (f' & Hf' & Hfp' & Hid).
      assert (Hsame : cf_parsed f = cf_parsed f') by (apply (Hfp f f' fp); rewrite ?Hs, ?elem_of_app, ?elem_of_cons; auto).
      assert ((handle_reload_event f (w_engine w)).2 = w_engine w) as ->.
      { revert Hid. unfold handle_reload_event, load_acl_config. by rewrite Hsame. }
      apply (IH w (seen ++ [f])); [by rewrite <- (assoc_L (++))|done].
    - destruct (handle_reload_event f (w_engine w)) as [b e] eqn:Eh; simpl.
      apply (IH (mkWatcher e (Some fp)) (seen ++ [f])); [by rewrite <- (assoc_L (++))|]. simpl.
      intros ? [= <-]. exists f. split; [set_solver|]. split; [done|].
      replace e with (handle_reload_event f (w_engine w)).2 by (by rewrite Eh).
      by apply handle_reload_event_idem. }
  unfold watcher_start. unfold track in He0. destruct (cf_fingerprint f0) as [fp|] eqn:Ef; simpl.
  - apply (Hinv (mkWatcher e0 (Some fp)) [f0]); [done|]. simpl. intros ? [= <-]. exists f0.
    set_solver.
  - by apply (Hinv (mkWatcher e0 None) [f0]).
Qed.

(** A reload is all or nothing: it succeeds exactly for a valid
    configuration that compiles, and then the engine is the one a fresh start
    with that configuration would have; otherwise the engine is unchanged. *)
Theorem reload_atomic cfg e :
  (exists e', validate cfg = Ok () /\ AclEngine_new cfg = Ok e' /\ reload cfg e = (Ok (), e')) \/
  (exists err, (validate cfg = Err err \/ AclEngine_new cfg = Err err) /\ reload cfg e = (Err err, e)).
Proof.
  unfold reload, AclEngine_new. destruct (validate cfg) as [[]|err]; [|eauto].
  destruct (compile_config cfg) as [cc|err]; simpl; eauto 10.
Qed.
End watching.

Lemma watch_tracks_witness :
  let f0 := mkConfigFile (Some (mkFileFingerprint (Some 1) 10)) (Ok demo_config) in
  let f1 := mkConfigFile (Some (mkFileFingerprint (Some 2) 11)) (Err "bad") in
  exists e0, AclEngine_new demo_config = Ok e0 /\
    w_engine (watch [f0; f1; f0] (watcher_start f0 (mkWatcher e0 None))) = foldl track e0 [f0; f1; f0].
Proof.
  intros f0 f1. destruct demo_engine as (e0 & E & _). exists e0. split; [exact E|].
  apply (watch_tracks f0 [f0; f1; f0] e0).
  - intros f f' fp Hf Hf'. repeat (apply elem_of_cons in Hf as [->|Hf];
      [repeat (apply elem_of_cons in Hf' as [->|Hf']; [by simpl; intros; simplify_eq|]); by apply elem_of_nil in Hf'|]).
    by apply elem_of_nil in Hf.
  - unfold AclEngine_new in E. destruct (compile_config demo_config) as [cc|] eqn:Ec; [|discriminate E].
    injection E as <-. unfold track, handle_reload_event, load_acl_config, f0. simpl cf_fingerprint.
    simpl cf_parsed. assert (Hv : validate demo_config = Ok ()) by (vm_compute; reflexivity).
    cbv iota beta. rewrite Hv. unfold reload. rewrite Hv, Ec. reflexivity.
Defined.

(** ** Counters *)

(** One recorded decision: the user, and whether it was allowed. *)
Definition record (s : AclStats) (d : string * bool) : AclStats :=
  if d.2 then record_allow d.1 s else record_block d.1 s.
Definition count_decisions (f : string * bool -> bool) (ds : list (string * bool)) : Z :=
  Z.of_nat (length (List.filter f ds)).

Lemma count_app f ds d :
  count_decisions f (ds ++ [d]) = count_decisions f ds + (if f d then 1 else 0).
Proof.
  unfold count_decisions. rewrite List.filter_app, length_app. simpl. destruct (f d); simpl; lia.
Qed.

(** After any sequence of recorded decisions the totals are the numbers of
    allowed and blocked decisions (modulo 2^64), the counters of a user are those
    of the user's decisions, and a user without decisions has no entry. *)
Theorem acl_stats_count ds u :
  let s := foldl record AclStats_new ds in
  snapshot s = mkAclStatsSnapshot (wrap64 (count_decisions snd ds))
                                  (wrap64 (count_decisions (fun d => negb d.2) ds)) /\
  user_snapshot s u =
    if decide (count_decisions (fun d => bool_decide (d.1 = u)) ds = 0) then None
    else Some (mkAclStatsSnapshot
      (wrap64 (count_decisions (fun d => bool_decide (d.1 = u) && d.2) ds))
      (wrap64 (count_decisions (fun d => bool_decide (d.1 = u) && negb d.2) ds))).
Proof.
  induction ds as [|[v b] ds IH] using rev_ind; [done|].
  rewrite foldl_app. simpl. set (s := foldl record AclStats_new ds) in *.
  destruct IH as (IHs & IHu). unfold snapshot in *. injection IHs as Ha Hb.
  assert (Hpos : forall f, 0 <= count_decisions f ds) by (intros; unfold count_decisions; lia).
  rewrite !count_app. unfold user_snapshot in *. split.
  { destruct b; simpl; rewrite ?Ha, ?Hb, ?wadd64_wrap, ?Z.add_0_r; done. }
  simpl. unfold record; simpl. destruct (bool_decide_reflect (v = u)) as [->|Hv].
  - rewrite decide_False by (specialize (Hpos (fun d => bool_decide (d.1 = u))); lia).
    assert (H0 : forall f, count_decisions (fun d => bool_decide (d.1 = u)) ds = 0 ->
      count_decisions (fun d => bool_decide (d.1 = u) && f d) ds = 0).
    { clear. intros f. unfold count_decisions. induction ds as [|d ds IH]; [done|]. simpl.
      destruct (bool_decide (d.1 = u)); simpl; [lia|apply IH]. }
    destruct b; simpl; rewrite lookup_insert_eq; simpl;
      destruct (per_user s !! u) as [st|]; simpl in IHu; case_decide as Hd; simplify_eq/=.
    1, 3: by rewrite !Z.add_0_r, ?IHu, ?H, ?wadd64_wrap.
    all: pose proof (H0 snd Hd) as E1; pose proof (H0 (fun d => negb d.2) Hd) as E2;
      simpl in E1, E2; by rewrite E1, E2.
  - rewrite !Z.add_0_r. destruct b; simpl; by rewrite lookup_insert_ne.
Qed.
