(* ===== verification/AclCrud.v ===== *)
(** * Access control: editing the configuration

    src/src/acl/crud.rs: rules are identified by their destinations and,
    optionally, ports; the operations find, add, update and delete rules, groups
    and users of an [AclConfig] that they mutate in place.  An operation is a
    function from the configuration to its result and the configuration after it;
    the errors are constructors that carry what the messages show. *)
From S2P Require Import Prelude Net Protocol Acl.

Inductive CrudError : Type :=
| RuleExists (destinations ports : list string) (owner : string)
| GroupNotFound (group : string)
| UserNotFound (user : string)
| NoMatchingRule (destinations : list string) (ports : option (list string)) (owner : string)
| UserExists (user : string)
| AlreadyInGroup (user group : string)
| NotInGroup (user group : string).

Definition crud (A : Type) : Type := AclConfig -> result CrudError A * AclConfig.

Record RuleIdentifier : Type := mkRuleIdentifier {
  ri_destinations : list string; ri_ports : option (list string) }.

Definition RuleIdentifier_matches (self : RuleIdentifier) (rule : AclRule) : bool :=
  if decide (ri_destinations self ≠ ar_destinations rule) then false
  else match ri_ports self with
       | Some ports => if decide (ports ≠ ar_ports rule) then false else true
       | None => true
       end.

Definition RuleIdentifier_from_rule (rule : AclRule) : RuleIdentifier :=
  mkRuleIdentifier (ar_destinations rule) (Some (ar_ports rule)).

(** [iter().enumerate().find(...)] on rules, groups and users. *)
Definition find_rule (identifier : RuleIdentifier) (rules : list AclRule) : option (nat * AclRule) :=
  list_find (fun rule => RuleIdentifier_matches identifier rule = true) rules.
Definition find_group (name : string) (groups : list GroupAcl) : option (nat * GroupAcl) :=
  list_find (fun g => ga_name g = name) groups.
Definition find_user (name : string) (users : list UserAcl) : option (nat * UserAcl) :=
  list_find (fun u => ua_username u = name) users.

Definition find_rule_in_group (config : AclConfig) (group_name : string)
    (identifier : RuleIdentifier) : option (nat * AclRule) :=
  '(_, group) ← find_group group_name (ac_groups config);
  find_rule identifier (ga_rules group).

Definition find_rule_in_user (config : AclConfig) (username : string)
    (identifier : RuleIdentifier) : option (nat * AclRule) :=
  '(_, user) ← find_user username (ac_users config);
  find_rule identifier (ua_rules user).

Definition set_groups (config : AclConfig) (groups : list GroupAcl) : AclConfig :=
  mkAclConfig (ac_global config) (ac_users config) groups.
Definition set_users (config : AclConfig) (users : list UserAcl) : AclConfig :=
  mkAclConfig (ac_global config) users (ac_groups config).

(** ** Rules of groups *)

Definition add_group_rule (group_name : string) (rule : AclRule) : crud () := fun config =>
  let identifier := RuleIdentifier_from_rule rule in
  match find_rule_in_group config group_name identifier with
  | Some _ => (Err (RuleExists (ar_destinations rule) (ar_ports rule) group_name), config)
  | None =>
    match find_group group_name (ac_groups config) with
    | Some (i, group) =>
      (Ok (), set_groups config
         (<[i := mkGroupAcl (ga_name group) (ga_rules group ++ [rule])]> (ac_groups config)))
    | None => (Ok (), set_groups config (ac_groups config ++ [mkGroupAcl group_name [rule]]))
    end
  end.

Definition update_group_rule (group_name : string) (identifier : RuleIdentifier)
    (new_rule : AclRule) : crud AclRule := fun config =>
  match find_group group_name (ac_groups config) with
  | None => (Err (GroupNotFound group_name), config)
  | Some (i, group) =>
    match find_rule identifier (ga_rules group) with
    | None => (Err (NoMatchingRule (ri_destinations identifier) (ri_ports identifier) group_name), config)
    | Some (index, old_rule) =>
      (Ok old_rule, set_groups config
         (<[i := mkGroupAcl (ga_name group) (<[index := new_rule]> (ga_rules group))]> (ac_groups config)))
    end
  end.

Definition delete_group_rule (group_name : string) (identifier : RuleIdentifier) : crud AclRule :=
  fun config =>
  match find_group group_name (ac_groups config) with
  | None => (Err (GroupNotFound group_name), config)
  | Some (i, group) =>
    match find_rule identifier (ga_rules group) with
    | None => (Err (NoMatchingRule (ri_destinations identifier) (ri_ports identifier) group_name), config)
    | Some (index, deleted_rule) =>
      (Ok deleted_rule, set_groups config
         (<[i := mkGroupAcl (ga_name group) (delete index (ga_rules group))]> (ac_groups config)))
    end
  end.

Definition delete_group (group_name : string) : crud GroupAcl := fun config =>
  match find_group group_name (ac_groups config) with
  | None => (Err (GroupNotFound group_name), config)
  | Some (index, deleted_group) =>
    (Ok deleted_group, set_groups config (delete index (ac_groups config)))
  end.

(** ** Rules of users *)

Definition add_user_rule (username : string) (rule : AclRule) : crud () := fun config =>
  let identifier := RuleIdentifier_from_rule rule in
  match find_rule_in_user config username identifier with
  | Some _ => (Err (RuleExists (ar_destinations rule) (ar_ports rule) username), config)
  | None =>
    match find_user username (ac_users config) with
    | Some (i, user) =>
      (Ok (), set_users config
         (<[i := mkUserAcl (ua_username user) (ua_groups user) (ua_rules user ++ [rule])]>
            (ac_users config)))
    | None => (Ok (), set_users config (ac_users config ++ [mkUserAcl username [] [rule]]))
    end
  end.

Definition update_user_rule (username : string) (identifier : RuleIdentifier)
    (new_rule : AclRule) : crud AclRule := fun config =>
  match find_user username (ac_users config) with
  | None => (Err (UserNotFound username), config)
  | Some (i, user) =>
    match find_rule identifier (ua_rules user) with
    | None => (Err (NoMatchingRule (ri_destinations identifier) (ri_ports identifier) username), config)
    | Some (index, old_rule) =>
      (Ok old_rule, set_users config
         (<[i := mkUserAcl (ua_username user) (ua_groups user) (<[index := new_rule]> (ua_rules user))]>
            (ac_users config)))
    end
  end.

Definition delete_user_rule (username : string) (identifier : RuleIdentifier) : crud AclRule :=
  fun config =>
  match find_user username (ac_users config) with
  | None => (Err (UserNotFound username), config)
  | Some (i, user) =>
    match find_rule identifier (ua_rules user) with
    | None => (Err (NoMatchingRule (ri_destinations identifier) (ri_ports identifier) username), config)
    | Some (index, deleted_rule) =>
      (Ok deleted_rule, set_users config
         (<[i := mkUserAcl (ua_username user) (ua_groups user) (delete index (ua_rules user))]>
            (ac_users config)))
    end
  end.

(** ** Users *)

Definition create_user (username : string) : crud () := fun config =>
  if existsb (fun u => bool_decide (ua_username u = username)) (ac_users config)
  then (Err (UserExists username), config)
  else (Ok (), set_users config (ac_users config ++ [mkUserAcl username [] []])).

Definition delete_user (username : string) : crud UserAcl := fun config =>
  match find_user username (ac_users config) with
  | None => (Err (UserNotFound username), config)
  | Some (index, deleted_user) =>
    (Ok deleted_user, set_users config (delete index (ac_users config)))
  end.

(** A user that does not exist is created first, without groups; then the error
    of a user that is already in the group can no longer happen. *)
Definition add_user_to_group (username group_name : string) : crud () := fun config =>
  if negb (existsb (fun g => bool_decide (ga_name g = group_name)) (ac_groups config))
  then (Err (GroupNotFound group_name), config)
  else
    let config := match find_user username (ac_users config) with
                  | Some _ => config
                  | None => set_users config (ac_users config ++ [mkUserAcl username [] []])
                  end in
    match find_user username (ac_users config) with
    | None => (Err (UserNotFound username), config) (* not reached: [unwrap] *)
    | Some (i, user) =>
      if decide (group_name ∈ ua_groups user)
      then (Err (AlreadyInGroup username group_name), config)
      else (Ok (), set_users config
              (<[i := mkUserAcl (ua_username user) (ua_groups user ++ [group_name]) (ua_rules user)]>
                 (ac_users config)))
    end.

Definition remove_user_from_group (username group_name : string) : crud () := fun config =>
  match find_user username (ac_users config) with
  | None => (Err (UserNotFound username), config)
  | Some (i, user) =>
    match list_find (fun g => g = group_name) (ua_groups user) with
    | None => (Err (NotInGroup username group_name), config)
    | Some (index, _) =>
      (Ok (), set_users config
         (<[i := mkUserAcl (ua_username user) (delete index (ua_groups user)) (ua_rules user)]>
            (ac_users config)))
    end
  end.

(** ** Search *)

Record RuleSearchCriteria : Type := mkRuleSearchCriteria {
  sc_destination : option string; sc_port : option Z; sc_action : option string }.
Record RuleSearchResult : Type := mkRuleSearchResult {
  rule_type : string; owner : string; sr_rule : AclRule }.

(** [str::contains] for a string. *)
Fixpoint str_contains (s pat : string) : bool :=
  String.prefix pat s || match s with EmptyString => false | String _ s' => str_contains s' pat end.

Section search.
Context `{AclDeps}.

Definition matches_criteria (rule : AclRule) (criteria : RuleSearchCriteria) : bool :=
  match sc_destination criteria with
  | Some dest => existsb (fun d => str_contains d dest) (ar_destinations rule)
  | None => true
  end &&
  match sc_port criteria with
  | Some port =>
    let port_str := fmt_Z port in
    existsb (fun p => bool_decide (p = "*") || bool_decide (p = port_str)) (ar_ports rule)
  | None => true
  end &&
  match sc_action criteria with
  | Some action =>
    let rule_action := match ar_action rule with Allow => "allow" | Block => "block" end in
    bool_decide (to_lowercase action = rule_action)
  | None => true
  end.

Definition search_rules (config : AclConfig) (criteria : RuleSearchCriteria)
    : list RuleSearchResult :=
  flat_map (fun group =>
    flat_map (fun rule => if matches_criteria rule criteria
                          then [mkRuleSearchResult "group" (ga_name group) rule] else [])
      (ga_rules group)) (ac_groups config) ++
  flat_map (fun user =>
    flat_map (fun rule => if matches_criteria rule criteria
                          then [mkRuleSearchResult "user" (ua_username user) rule] else [])
      (ua_rules user)) (ac_users config).
End search.
