(* ===== verification/AclCrudSpec.v ===== *)
(** * Access control: correctness of the editing operations

    Every operation of AclCrud.v as one step [run] on the configuration; errors
    change nothing, an operation changes nothing but its own group or user, all
    but the deletion of a group in use keep the configuration valid, additions
    and deletions are inverse, updates hit the first match, and the search is
    complete. *)
From S2P Require Import Prelude Net Protocol Acl Wildcard AclEngine AclSpec AclCrud.

Inductive crud_op : Type :=
| AddGroupRule (g : string) (r : AclRule)
| UpdateGroupRule (g : string) (i : RuleIdentifier) (r : AclRule)
| DeleteGroupRule (g : string) (i : RuleIdentifier)
| DeleteGroup (g : string)
| AddUserRule (u : string) (r : AclRule)
| UpdateUserRule (u : string) (i : RuleIdentifier) (r : AclRule)
| DeleteUserRule (u : string) (i : RuleIdentifier)
| CreateUser (u : string)
| DeleteUser (u : string)
| AddUserToGroup (u g : string)
| RemoveUserFromGroup (u g : string).

Definition forget {A} (m : crud A) : crud () := fun c => ((fun _ => ()) <$> (m c).1, (m c).2).
Definition run (op : crud_op) : crud () :=
  match op with
  | AddGroupRule g r => add_group_rule g r
  | UpdateGroupRule g i r => forget (update_group_rule g i r)
  | DeleteGroupRule g i => forget (delete_group_rule g i)
  | DeleteGroup g => forget (delete_group g)
  | AddUserRule u r => add_user_rule u r
  | UpdateUserRule u i r => forget (update_user_rule u i r)
  | DeleteUserRule u i => forget (delete_user_rule u i)
  | CreateUser u => create_user u
  | DeleteUser u => forget (delete_user u)
  | AddUserToGroup u g => add_user_to_group u g
  | RemoveUserFromGroup u g => remove_user_from_group u g
  end.

(** ** Lists indexed by a name *)

Section keyed.
Context {A : Type} (key : A -> string).
Implicit Types (l : list A) (n m : string).

Definition find_key n l : option (nat * A) := list_find (fun a => key a = n) l.

Lemma find_key_None n l : find_key n l = None <-> n ∉ key <$> l.
Proof.
  unfold find_key. rewrite list_find_None, Forall_forall, list_elem_of_fmap. naive_solver.
Qed.

Lemma find_key_keys n l i a a' :
  find_key n l = Some (i, a) -> key a' = n -> key <$> <[i := a']> l = key <$> l.
Proof.
  intros (Hi & Ha & _)%list_find_Some Ha'. rewrite list_fmap_insert. apply list_insert_id.
  by rewrite list_lookup_fmap, Hi, Ha', <- Ha.
Qed.

Lemma find_key_insert n l i a a' :
  find_key n l = Some (i, a) -> key a' = n -> find_key n (<[i := a']> l) = Some (i, a').
Proof.
  intros (Hi & Ha & Hl)%list_find_Some Ha'. apply list_find_insert_Some. right. left.
  split_and!; [done|done|by eapply lookup_lt_Some|done|naive_solver].
Qed.

Lemma find_key_insert_ne n m l i a a' :
  find_key n l = Some (i, a) -> key a' = n -> m ≠ n ->
  snd <$> find_key m (<[i := a']> l) = snd <$> find_key m l.
Proof.
  intros (Hi & Ha & _)%list_find_Some Ha' Hm.
  revert i Hi. induction l as [|b l IH]; intros [|i] Hi; simplify_eq/=.
  - unfold find_key. simpl. rewrite !decide_False by congruence. by destruct (list_find _ l) as [[]|].
  - unfold find_key in *. simpl. case_decide; [done|]. specialize (IH i Hi).
    destruct (list_find _ (<[i := a']> l)) as [[]|], (list_find _ l) as [[]|]; done.
Qed.

Lemma find_key_app n l a :
  find_key n l = None -> key a = n -> find_key n (l ++ [a]) = Some (length l, a).
Proof.
  intros Hn Ha. unfold find_key in *. rewrite list_find_app_r by done. simpl.
  by rewrite decide_True.
Qed.

Lemma find_key_app_ne m l a : key a ≠ m -> find_key m (l ++ [a]) = find_key m l.
Proof.
  intros Ha. destruct (find_key m l) as [[i b]|] eqn:E.
  - by apply list_find_app_l.
  - apply list_find_app_None. split; [done|]. simpl. by rewrite decide_False.
Qed.

Lemma find_key_delete_ne n m l i a :
  find_key n l = Some (i, a) -> m ≠ n -> snd <$> find_key m (delete i l) = snd <$> find_key m l.
Proof.
  intros (Hi & Ha & _)%list_find_Some Hm.
  revert i Hi. induction l as [|b l IH]; intros [|i] Hi; simplify_eq/=.
  - unfold find_key. simpl. rewrite decide_False by congruence. by destruct (list_find _ l) as [[]|].
  - unfold find_key in *. simpl. case_decide; [done|]. specialize (IH i Hi).
    destruct (list_find _ (delete i l)) as [[]|], (list_find _ l) as [[]|]; done.
Qed.

Lemma NoDup_app_key n l a :
  find_key n l = None -> key a = n -> NoDup (key <$> l) -> NoDup (key <$> l ++ [a]).
Proof.
  intros Hn%find_key_None <- Hnd. rewrite fmap_app. apply NoDup_app. split; [done|].
  split; [set_solver|]. apply NoDup_singleton.
Qed.

Lemma NoDup_delete_key l i : NoDup (key <$> l) -> NoDup (key <$> delete i l).
Proof.
  intros Hnd. rewrite list_fmap_delete. eapply sublist_NoDup; [exact Hnd|apply sublist_delete].
Qed.

Lemma find_key_unique n l a b :
  NoDup (key <$> l) -> a ∈ l -> key a = n -> b ∈ l -> key b = n -> a = b.
Proof.
  intros Hnd Ha Hka Hb Hkb. apply list_elem_of_lookup in Ha as (i & Hi).
  apply list_elem_of_lookup in Hb as (j & Hj).
  assert (i = j); [|naive_solver].
  eapply (NoDup_lookup (key <$> l)); [done| |]; rewrite list_lookup_fmap; [by rewrite Hi|rewrite Hj; simpl; congruence].
Qed.
End keyed.

Lemma find_group_key : find_group = find_key ga_name.
Proof. reflexivity. Qed.
Lemma find_user_key : find_user = find_key ua_username.
Proof. reflexivity. Qed.

(** [delete] after an insertion at the end of the list. *)
Lemma delete_length {A} (l : list A) (a : A) : delete (length l) (l ++ [a]) = l.
Proof. induction l as [|b l IH]; simpl; [done|]. by rewrite IH. Qed.

Lemma existsb_name_false {A} (key : A -> string) n l :
  existsb (fun a => bool_decide (key a = n)) l = false <-> find_key key n l = None.
Proof.
  rewrite find_key_None, list_elem_of_fmap. rewrite <- not_true_iff_false, existsb_elem.
  setoid_rewrite bool_decide_eq_true. naive_solver.
Qed.

(** A user that had to be created ends up with exactly the new group. *)
Lemma add_user_to_group_eq u g cfg :
  add_user_to_group u g cfg =
  if existsb (fun gr => bool_decide (ga_name gr = g)) (ac_groups cfg) then
    match find_user u (ac_users cfg) with
    | Some (i, user) =>
      if decide (g ∈ ua_groups user) then (Err (AlreadyInGroup u g), cfg)
      else (Ok (), set_users cfg
              (<[i := mkUserAcl (ua_username user) (ua_groups user ++ [g]) (ua_rules user)]> (ac_users cfg)))
    | None => (Ok (), set_users cfg (ac_users cfg ++ [mkUserAcl u [g] []]))
    end
  else (Err (GroupNotFound g), cfg).
Proof.
  unfold add_user_to_group. destruct (existsb _ _); simpl; [|done].
  destruct (find_user u (ac_users cfg)) as [[i user]|] eqn:E; [by rewrite E|]. simpl.
  rewrite find_user_key in *. rewrite find_key_app by done. simpl.
  rewrite insert_app_r_alt by lia.
  by rewrite Nat.sub_diag.
Qed.

(** ** Errors and frame *)

(** The group and the user an operation may change. *)
Definition op_group (op : crud_op) : option string :=
  match op with
  | AddGroupRule g _ | UpdateGroupRule g _ _ | DeleteGroupRule g _ | DeleteGroup g => Some g
  | _ => None
  end.
Definition op_user (op : crud_op) : option string :=
  match op with
  | AddUserRule u _ | UpdateUserRule u _ _ | DeleteUserRule u _ | CreateUser u | DeleteUser u
  | AddUserToGroup u _ | RemoveUserFromGroup u _ => Some u
  | _ => None
  end.

Definition group_named (cfg : AclConfig) (n : string) : option GroupAcl :=
  snd <$> find_group n (ac_groups cfg).
Definition user_named (cfg : AclConfig) (n : string) : option UserAcl :=
  snd <$> find_user n (ac_users cfg).

Ltac crud_unfold :=
  unfold run, forget, add_group_rule, update_group_rule, delete_group_rule, delete_group,
    add_user_rule, update_user_rule, delete_user_rule, create_user, delete_user,
    add_user_to_group, remove_user_from_group, group_named, user_named in *.

Ltac crud_cases :=
  unfold run; rewrite ?add_user_to_group_eq; crud_unfold; repeat (case_match; simplify_eq/=); rewrite ?find_group_key, ?find_user_key in *.

(** An operation that fails leaves the configuration as it was, and one that
    succeeds changes neither the default policy nor any group or user but the one
    it names. *)
Theorem crud_frame op cfg :
  (is_ok (run op cfg).1 = false -> (run op cfg).2 = cfg) /\
  ac_global (run op cfg).2 = ac_global cfg /\
  (forall n, op_group op ≠ Some n -> group_named (run op cfg).2 n = group_named cfg n) /\
  (forall n, op_user op ≠ Some n -> user_named (run op cfg).2 n = user_named cfg n).
Proof.
  destruct op; crud_cases; split_and!; try done; intros m Hm;
    try (erewrite find_key_insert_ne; [done|done| |congruence];
         match goal with H : find_key _ _ _ = Some _ |- _ =>
           apply list_find_Some in H as (_ & ? & _) end; done);
    try (erewrite find_key_delete_ne; [done|done|congruence]);
    try (rewrite find_key_app_ne by (simpl; congruence); done).
Qed.

(** ** Validity *)

Definition valid (cfg : AclConfig) : Prop := validate cfg = Ok ().

(** No user names the group. *)
Definition group_unused (cfg : AclConfig) (g : string) : Prop :=
  forall ua, ua ∈ ac_users cfg -> g ∉ ua_groups ua.

Lemma group_exists_names cfg n : group_exists cfg n <-> n ∈ ga_name <$> ac_groups cfg.
Proof. unfold group_exists. rewrite list_elem_of_fmap. naive_solver. Qed.

(** Changing one user into one with groups that are all defined. *)
Lemma valid_set_users cfg users :
  valid cfg -> NoDup (ua_username <$> users) ->
  (forall ua n, ua ∈ users -> n ∈ ua_groups ua -> group_exists cfg n) ->
  valid (set_users cfg users).
Proof. intros (_ & Hg & _)%validate_Ok Hu Hall. by apply validate_Ok. Qed.

Lemma elem_insert {A} (l : list A) i x y : y ∈ <[i := x]> l -> y = x \/ y ∈ l.
Proof.
  revert i. induction l as [|a l IH]; intros [|i]; simpl; set_solver.
Qed.

Lemma valid_insert_user cfg u i ua ua' :
  valid cfg -> find_key ua_username u (ac_users cfg) = Some (i, ua) ->
  ua_username ua' = ua_username ua ->
  (forall n, n ∈ ua_groups ua' -> n ∈ ua_groups ua \/ group_exists cfg n) ->
  valid (set_users cfg (<[i := ua']> (ac_users cfg))).
Proof.
  intros Hv Hf Hn Hg. pose proof (proj1 (validate_Ok _) Hv) as (Hu & _ & Hall).
  apply list_find_Some in Hf as Hf'. destruct Hf' as (Hi & Hk & _).
  assert (Hin : ua ∈ ac_users cfg) by (by eapply list_elem_of_lookup_2).
  apply valid_set_users; [done| |].
  - rewrite (find_key_keys ua_username u _ i ua ua') by (done || congruence). done.
  - intros w n [->|Hw]%elem_insert Hw'; [|by eapply Hall].
    destruct (Hg n Hw'); [by eapply Hall|done].
Qed.

Lemma valid_app_user cfg u gs rs :
  valid cfg -> find_key ua_username u (ac_users cfg) = None ->
  (forall n, n ∈ gs -> group_exists cfg n) ->
  valid (set_users cfg (ac_users cfg ++ [mkUserAcl u gs rs])).
Proof.
  intros Hv Hf Hg. pose proof (proj1 (validate_Ok _) Hv) as (Hu & _ & Hall).
  apply valid_set_users; [done|by apply (NoDup_app_key ua_username u)|].
  intros w n [Hw|Hw%list_elem_of_singleton]%elem_of_app Hn; [by eapply Hall|subst w; by apply Hg].
Qed.

Lemma valid_set_groups cfg groups :
  valid cfg -> NoDup (ga_name <$> groups) ->
  (forall n, group_exists cfg n -> n ∈ ga_name <$> groups) ->
  valid (set_groups cfg groups).
Proof.
  intros (Hu & _ & Hall)%validate_Ok Hg Hsub. apply validate_Ok. split; [done|]. split; [done|].
  intros ua n Hua Hn. apply group_exists_names. apply Hsub. by eapply Hall.
Qed.

Lemma valid_insert_group cfg g i gr gr' :
  valid cfg -> find_key ga_name g (ac_groups cfg) = Some (i, gr) -> ga_name gr' = ga_name gr ->
  valid (set_groups cfg (<[i := gr']> (ac_groups cfg))).
Proof.
  intros Hv Hf Hn. pose proof (proj1 (validate_Ok _) Hv) as (_ & Hg & _).
  apply list_find_Some in Hf as Hf'. destruct Hf' as (_ & Hk & _).
  assert (Hkeys : ga_name <$> <[i := gr']> (ac_groups cfg) = ga_name <$> ac_groups cfg)
    by (apply (find_key_keys ga_name g _ i gr); [done|congruence]).
  apply valid_set_groups; rewrite ?Hkeys; [done|done|]. intros n. by rewrite group_exists_names.
Qed.

Lemma valid_app_group cfg g rs :
  valid cfg -> find_key ga_name g (ac_groups cfg) = None ->
  valid (set_groups cfg (ac_groups cfg ++ [mkGroupAcl g rs])).
Proof.
  intros Hv Hf. pose proof (proj1 (validate_Ok _) Hv) as (_ & Hg & _).
  apply valid_set_groups; [done|by apply (NoDup_app_key ga_name g)|].
  intros n. rewrite group_exists_names, fmap_app. set_solver.
Qed.

Lemma valid_delete_user cfg i : valid cfg -> valid (set_users cfg (delete i (ac_users cfg))).
Proof.
  intros Hv. pose proof (proj1 (validate_Ok _) Hv) as (Hu & _ & Hall).
  apply valid_set_users; [done|by apply NoDup_delete_key|].
  intros ua n Hua. apply Hall. by apply list_elem_of_delete_inv in Hua.
Qed.

Lemma delete_names cfg g i gr n :
  NoDup (ga_name <$> ac_groups cfg) -> find_key ga_name g (ac_groups cfg) = Some (i, gr) ->
  n ∈ ga_name <$> delete i (ac_groups cfg) <-> n ∈ ga_name <$> ac_groups cfg /\ n ≠ g.
Proof.
  intros Hnd (Hi & Hk & _)%list_find_Some. rewrite list_fmap_delete.
  assert (Hl : (ga_name <$> ac_groups cfg) !! i = Some g) by (by rewrite list_lookup_fmap, Hi, <- Hk).
  revert Hnd Hl. generalize (ga_name <$> ac_groups cfg). clear. intros l. revert i.
  induction l as [|a l IH]; intros [|i] Hnd Hl; simplify_eq/=; apply NoDup_cons in Hnd as (Ha & Hnd).
  - set_solver.
  - rewrite !elem_of_cons, (IH i) by done. apply list_elem_of_lookup_2 in Hl. set_solver.
Qed.

Lemma valid_delete_group cfg g i gr :
  valid cfg -> find_key ga_name g (ac_groups cfg) = Some (i, gr) ->
  valid (set_groups cfg (delete i (ac_groups cfg))) <-> group_unused cfg g.
Proof.
  intros (Hu & Hg & Hall)%validate_Ok Hf. unfold valid. rewrite validate_Ok. simpl.
  setoid_rewrite group_exists_names. simpl. setoid_rewrite (delete_names cfg g i gr); [|done|done].
  split.
  - intros (_ & _ & Hall') ua Hua Hin. by destruct (Hall' ua g Hua Hin).
  - intros Hun. split; [done|]. split; [by apply NoDup_delete_key|]. intros ua n Hua Hn.
    split; [apply group_exists_names; by eapply Hall|]. intros ->. by apply (Hun ua).
Qed.

(** On a valid configuration every operation leads to a valid one, with one
    exception: deleting a group that some user still lists. *)
Theorem crud_preserves_valid op cfg :
  valid cfg ->
  valid (run op cfg).2 <->
  match op with
  | DeleteGroup g => group_named cfg g = None \/ group_unused cfg g
  | _ => True
  end.
Proof.
  intros Hv. destruct op; try (split; [done|intros _]); crud_cases; try done;
    try (by eapply valid_insert_group); try (by eapply valid_app_group);
    try (by eapply valid_delete_user);
    try (eapply valid_insert_user; [done|done|done|simpl; set_solver]);
    try (eapply valid_app_user; [done|done|simpl; set_solver]).
  - rewrite (valid_delete_group cfg g n g0) by done. naive_solver.
  - split; [by left|done].
  - apply valid_app_user; [done|by apply existsb_name_false|set_solver].
  - eapply valid_insert_user; [done|done|done|]. simpl.
    intros m [?|Hm%list_elem_of_singleton]%elem_of_app; [by left|right; subst m].
    apply existsb_elem in H as (gr & Hin & Hb). apply bool_decide_eq_true in Hb. by exists gr.
  - eapply valid_app_user; [done|done|]. intros m Hm%list_elem_of_singleton; subst m.
    apply existsb_elem in H as (gr & Hin & Hb). apply bool_decide_eq_true in Hb. by exists gr.
  - eapply valid_insert_user; [done|done|done|]. simpl. intros m Hm. left.
    by apply list_elem_of_delete_inv in Hm.
Qed.

Lemma crud_preserves_valid_witness :
  valid demo_config /\
  (valid (run (DeleteGroup "developers") demo_config).2 <->
   group_named demo_config "developers" = None \/ group_unused demo_config "developers").
Proof.
  split; [vm_compute; reflexivity|].
  apply (crud_preserves_valid (DeleteGroup "developers") demo_config). vm_compute. reflexivity.
Defined.

(** ** Additions and deletions *)

Lemma from_rule_matches r : RuleIdentifier_matches (RuleIdentifier_from_rule r) r = true.
Proof.
  unfold RuleIdentifier_matches, RuleIdentifier_from_rule; simpl.
  rewrite decide_False by (intros H; by apply H). by rewrite decide_False by (intros H; by apply H).
Qed.

Lemma find_rule_app i r rules :
  find_rule i rules = None -> RuleIdentifier_matches i r = true ->
  find_rule i (rules ++ [r]) = Some (length rules, r).
Proof.
  intros Hn Hr. unfold find_rule in *. rewrite list_find_app_r by done. simpl.
  by rewrite decide_True.
Qed.

Lemma find_rule_single r : find_rule (RuleIdentifier_from_rule r) [r] = Some (0%nat, r).
Proof. apply (find_rule_app _ r []); [done|apply from_rule_matches]. Qed.

Lemma insert_restore {A} (l : list A) i a b : l !! i = Some a -> <[i := a]> (<[i := b]> l) = l.
Proof. intros H. rewrite list_insert_insert_eq. by apply list_insert_id. Qed.

Lemma config_groups_id cfg : set_groups cfg (ac_groups cfg) = cfg.
Proof. by destruct cfg. Qed.
Lemma config_users_id cfg : set_users cfg (ac_users cfg) = cfg.
Proof. by destruct cfg. Qed.

Lemma add_delete_group g r cfg :
  is_ok (add_group_rule g r cfg).1 = true ->
  let cfg1 := (add_group_rule g r cfg).2 in
  snd <$> find_rule_in_group cfg1 g (RuleIdentifier_from_rule r) = Some r /\
  delete_group_rule g (RuleIdentifier_from_rule r) cfg1 =
    (Ok r, match group_named cfg g with
           | Some _ => cfg
           | None => set_groups cfg (ac_groups cfg ++ [mkGroupAcl g []])
           end).
Proof.
  unfold add_group_rule, delete_group_rule, find_rule_in_group, group_named.
  rewrite !find_group_key. destruct (find_key ga_name g (ac_groups cfg)) as [[i gr]|] eqn:Hg; simpl.
  - apply list_find_Some in Hg as Hg'. destruct Hg' as (Hi & Hk & _).
    destruct (find_rule (RuleIdentifier_from_rule r) (ga_rules gr)) as [[]|] eqn:Hr; [done|].
    intros _. simpl. erewrite find_key_insert; [|done|done]. simpl.
    rewrite find_rule_app by (done || apply from_rule_matches). split; [done|].
    simpl. rewrite delete_length. unfold set_groups; simpl. destruct gr as [n rs]; simpl in *.
    rewrite insert_restore by done. by destruct cfg.
  - intros _. rewrite find_key_app by done. cbn -[find_rule RuleIdentifier_from_rule].
    rewrite find_rule_single. split; [done|]. simpl. unfold set_groups; simpl.
    by rewrite insert_app_r_alt, Nat.sub_diag by lia.
Qed.

Lemma add_delete_user u r cfg :
  is_ok (add_user_rule u r cfg).1 = true ->
  let cfg1 := (add_user_rule u r cfg).2 in
  snd <$> find_rule_in_user cfg1 u (RuleIdentifier_from_rule r) = Some r /\
  delete_user_rule u (RuleIdentifier_from_rule r) cfg1 =
    (Ok r, match user_named cfg u with
           | Some _ => cfg
           | None => set_users cfg (ac_users cfg ++ [mkUserAcl u [] []])
           end).
Proof.
  unfold add_user_rule, delete_user_rule, find_rule_in_user, user_named.
  rewrite !find_user_key. destruct (find_key ua_username u (ac_users cfg)) as [[i ua]|] eqn:Hg; simpl.
  - apply list_find_Some in Hg as Hg'. destruct Hg' as (Hi & Hk & _).
    destruct (find_rule (RuleIdentifier_from_rule r) (ua_rules ua)) as [[]|] eqn:Hr; [done|].
    intros _. simpl. erewrite find_key_insert; [|done|done]. simpl.
    rewrite find_rule_app by (done || apply from_rule_matches). split; [done|].
    simpl. rewrite delete_length. unfold set_users; simpl. destruct ua as [n gs rs]; simpl in *.
    rewrite insert_restore by done. by destruct cfg.
  - intros _. rewrite find_key_app by done. cbn -[find_rule RuleIdentifier_from_rule].
    rewrite find_rule_single. split; [done|]. simpl. unfold set_users; simpl.
    by rewrite insert_app_r_alt, Nat.sub_diag by lia.
Qed.

(** A rule that was added is found under its own identifier, and deleting it
    by that identifier gives it back and restores the configuration, except that
    a group or user that the addition created stays, empty. *)
Theorem crud_add_delete n r cfg :
  (is_ok (add_group_rule n r cfg).1 = true ->
   let cfg1 := (add_group_rule n r cfg).2 in
   snd <$> find_rule_in_group cfg1 n (RuleIdentifier_from_rule r) = Some r /\
   delete_group_rule n (RuleIdentifier_from_rule r) cfg1 =
     (Ok r, match group_named cfg n with
            | Some _ => cfg
            | None => set_groups cfg (ac_groups cfg ++ [mkGroupAcl n []])
            end)) /\
  (is_ok (add_user_rule n r cfg).1 = true ->
   let cfg1 := (add_user_rule n r cfg).2 in
   snd <$> find_rule_in_user cfg1 n (RuleIdentifier_from_rule r) = Some r /\
   delete_user_rule n (RuleIdentifier_from_rule r) cfg1 =
     (Ok r, match user_named cfg n with
            | Some _ => cfg
            | None => set_users cfg (ac_users cfg ++ [mkUserAcl n [] []])
            end)).
Proof. split; [apply add_delete_group|apply add_delete_user]. Qed.

(** ** Updates *)

Lemma find_rule_split i rules k r :
  find_rule i rules = Some (k, r) ->
  exists pre post, rules = pre ++ r :: post /\ length pre = k /\
    RuleIdentifier_matches i r = true /\
    Forall (fun r' => RuleIdentifier_matches i r' = false) pre.
Proof.
  intros (Hk & Hr & Hpre)%list_find_Some. exists (take k rules), (drop (S k) rules).
  rewrite take_drop_middle by done. split; [done|].
  apply lookup_lt_Some in Hk as Hlt. split; [rewrite length_take; lia|]. split; [done|].
  apply Forall_lookup_2. intros j r' [Hj Hlt']%lookup_take_Some.
  destruct (RuleIdentifier_matches i r') eqn:E; [|done]. by destruct (Hpre j r' Hj Hlt').
Qed.

(** Updating a rule of a group replaces the first rule of the group that the
    identifier matches, returns the old rule and touches no other rule; it fails
    exactly when the group or such a rule is missing, and then changes nothing. *)
Theorem update_group_rule_first g i new cfg :
  match group_named cfg g with
  | None => update_group_rule g i new cfg = (Err (GroupNotFound g), cfg)
  | Some gr =>
    (exists pre old post, ga_rules gr = pre ++ old :: post /\
       RuleIdentifier_matches i old = true /\
       Forall (fun r => RuleIdentifier_matches i r = false) pre /\
       (update_group_rule g i new cfg).1 = Ok old /\
       group_named (update_group_rule g i new cfg).2 g = Some (mkGroupAcl g (pre ++ new :: post))) \/
    (Forall (fun r => RuleIdentifier_matches i r = false) (ga_rules gr) /\
     exists e, update_group_rule g i new cfg = (Err e, cfg))
  end.
Proof.
  unfold update_group_rule, group_named. rewrite find_group_key.
  destruct (find_key ga_name g (ac_groups cfg)) as [[k gr]|] eqn:Hg; simpl; [|done].
  destruct (find_rule i (ga_rules gr)) as [[j old]|] eqn:Hr.
  - left. apply find_rule_split in Hr as (pre & post & Hrs & Hj & Hm & Hpre).
    exists pre, old, post. split_and!; try done. simpl.
    apply list_find_Some in Hg as Hg'. destruct Hg' as (_ & Hk & _).
    erewrite find_key_insert; [|done|done]. simpl. rewrite Hk, Hrs.
    by rewrite insert_app_r_alt, Hj, Nat.sub_diag by lia.
  - right. split; [|eauto]. apply list_find_None in Hr. eapply Forall_impl; [exact Hr|].
    simpl. intros r Hn. by apply not_true_is_false.
Qed.

(** ** Search *)

Lemma elem_guard {A} (b : bool) (a a' : A) : a ∈ (if b then [a'] else []) <-> b = true /\ a = a'.
Proof. destruct b; set_solver. Qed.

(** The search returns exactly the rules of groups and users that meet every
    given criterion, each with the kind and the name of its owner. *)
Theorem search_rules_complete `{AclDeps} cfg crit res :
  res ∈ search_rules cfg crit <->
  matches_criteria (sr_rule res) crit = true /\
  ((rule_type res = "group" /\ exists g, g ∈ ac_groups cfg /\ owner res = ga_name g /\
      sr_rule res ∈ ga_rules g) \/
   (rule_type res = "user" /\ exists u, u ∈ ac_users cfg /\ owner res = ua_username u /\
      sr_rule res ∈ ua_rules u)).
Proof.
  unfold search_rules. rewrite elem_of_app, !elem_flat_map.
  setoid_rewrite elem_flat_map. setoid_rewrite elem_guard. destruct res as [t o r]; simpl. split.
  - intros [(g & Hg & r' & Hr & Hm & [= -> -> ->])|(u & Hu & r' & Hr & Hm & [= -> -> ->])];
      (split; [done|]); [left|right]; eauto 10.
  - intros (Hm & [(-> & g & Hg & -> & Hr)|(-> & u & Hu & -> & Hr)]); [left|right]; eauto 10.
Qed.
