(* ===== verification/AclFile.v ===== *)
(** * Access control: the file of the rules

    src/src/acl/persistence.rs on a disk: a map from paths to texts with a schedule
    of the coming operations that fail.  A failing write or copy may leave anything
    in its destination.  Serialization is the class [Toml], with the law that a
    configuration is read back as it was written. *)
From S2P Require Import Prelude Net Acl AclEngine AclCrud.

(** What is shown to the caller. *)
Inductive message : Type :=
| Text (s : string)
| Prefixed (context : string) (m : message)
| OfAcl (e : AclError)
| OfCrud (e : CrudError).

Class Toml := {
  to_string_pretty : AclConfig -> result string string;
  from_str : string -> result string AclConfig;
  from_to_string : forall c s, to_string_pretty c = Ok s -> from_str s = Ok c;
}.

(** ** The disk *)

(** A directory and the name of a file in it. *)
Definition path : Type := string * string.

(** The error and, for a write or a copy, what it left in the destination,
    [None] when it left the destination alone. *)
Record fault : Type := mkFault { f_error : string; f_left : option string }.
Record disk : Type := mkDisk { files : gmap path string; faults : list (option fault) }.

Definition dio (A : Type) : Type := disk -> result string A * disk.
Definition set_files (f : gmap path string) (d : disk) : disk := mkDisk f (faults d).

(** An operation: what it does when it does not fail. *)
Definition disk_op {A} (destination : option path)
    (body : gmap path string -> result string A * gmap path string) : dio A := fun d =>
  match faults d with
  | Some f :: rest =>
    (Err (f_error f),
     mkDisk match destination, f_left f with
            | Some p, Some text => <[p := text]> (files d)
            | _, _ => files d
            end rest)
  | other =>
    let '(r, fs) := body (files d) in (r, mkDisk fs (match other with _ :: rest => rest | [] => [] end))
  end.

Definition not_found : string := "No such file or directory (os error 2)".
Definition read_to_string (p : path) : dio string :=
  disk_op None (fun fs => (ok_or not_found (fs !! p), fs)).
Definition write (p : path) (text : string) : dio () :=
  disk_op (Some p) (fun fs => (Ok tt, <[p := text]> fs)).
Definition copy (a b : path) : dio () :=
  disk_op (Some b) (fun fs =>
    match fs !! a with Some text => (Ok tt, <[b := text]> fs) | None => (Err not_found, fs) end).
Definition rename (a b : path) : dio () :=
  disk_op None (fun fs =>
    match fs !! a with Some text => (Ok tt, <[b := text]> (delete a fs)) | None => (Err not_found, fs) end).
Definition remove_file (p : path) : dio () :=
  disk_op None (fun fs =>
    match fs !! p with Some _ => (Ok tt, delete p fs) | None => (Err not_found, fs) end).
Definition exists_ (p : path) (d : disk) : bool := bool_decide (is_Some (files d !! p)).

(** ** Saving and loading *)

Definition get_backup_path (p : path) : path := (p.1, p.2 +:+ ".backup").
Definition get_temp_path (now : Z) (p : path) : path := (p.1, p.2 +:+ "." +:+ fmt_Z now +:+ ".tmp").

Definition create_backup (p : path) (d : disk) : result message (option path) * disk :=
  if exists_ p d then
    let backup_path := get_backup_path p in
    match copy p backup_path d with
    | (Ok _, d) => (Ok (Some backup_path), d)
    | (Err e, d) => (Err (Prefixed "Failed to create backup: " (Text e)), d)
    end
  else (Ok None, d).

Definition restore_backup (backup_path target_path : path) (d : disk) : result message () * disk :=
  match copy backup_path target_path d with
  | (Ok _, d) => (Ok tt, d)
  | (Err e, d) => (Err (Prefixed "Failed to restore from backup: " (Text e)), d)
  end.
(** The result of the restoration is not looked at. *)
Definition restore_if_any (backup_path : option path) (p : path) (d : disk) : disk :=
  match backup_path with Some backup => (restore_backup backup p d).2 | None => d end.

Section file.
Context {toml : Toml}.

Definition save_config (now : Z) (config : AclConfig) (p : path) (d : disk) : result message () * disk :=
  match validate config with
  | Err e => (Err (OfAcl e), d)
  | Ok _ =>
    match create_backup p d with
    | (Err e, d) => (Err e, d)
    | (Ok backup_path, d) =>
      match to_string_pretty config with
      | Err e => (Err (Prefixed "Failed to serialize config to TOML: " (Text e)), d)
      | Ok toml_string =>
        let temp_path := get_temp_path now p in
        match write temp_path toml_string d with
        | (Err e, d) =>
          (Err (Prefixed "Failed to write temporary config file: " (Text e)), restore_if_any backup_path p d)
        | (Ok _, d) =>
          match read_to_string temp_path d with
          | (Err e, d) =>
            let d := (remove_file temp_path d).2 in
            (Err (Prefixed "Failed to read back temporary file: " (Text e)), restore_if_any backup_path p d)
          | (Ok content, d) =>
            match from_str content with
            | Err e =>
              let d := (remove_file temp_path d).2 in
              (Err (Prefixed "Config validation failed: " (Text e)), restore_if_any backup_path p d)
            | Ok _ =>
              match rename temp_path p d with
              | (Err e, d) =>
                let d := (remove_file temp_path d).2 in
                (Err (Prefixed "Failed to rename temporary file: " (Text e)), restore_if_any backup_path p d)
              | (Ok _, d) =>
                (Ok tt, match backup_path with Some backup => (remove_file backup d).2 | None => d end)
              end
            end
          end
        end
      end
    end
  end.

Definition load_config (p : path) (d : disk) : result message AclConfig * disk :=
  match read_to_string p d with
  | (Err e, d) => (Err (Prefixed "Failed to read ACL config file: " (Text e)), d)
  | (Ok content, d) =>
    (match from_str content with
     | Err e => Err (Prefixed "Failed to parse ACL config: " (Text e))
     | Ok config =>
       match validate config with Err e => Err (OfAcl e) | Ok _ => Ok config end
     end, d)
  end.
End file.
