(* ===== verification/AclFileSpec.v ===== *)
(** * Properties of the file of the rules

    What a save leaves on a disk of which any one operation fails, and on one
    that works. *)
From S2P Require Import Prelude Net Acl AclEngine AclFile.

(** ** The disk *)

(** No operation fails, at most one does. *)
Definition clean (l : list (option fault)) : Prop := Forall (fun f => f = None) l.
Inductive one_fault : list (option fault) -> Prop :=
| one_fault_clean l : clean l -> one_fault l
| one_fault_later l : one_fault l -> one_fault (None :: l)
| one_fault_now f l : clean l -> one_fault (Some f :: l).

Lemma clean_op {A} (dest : option path) (body : gmap path string -> result string A * gmap path string) d :
  clean (faults d) ->
  exists l, disk_op dest body d = ((body (files d)).1, mkDisk (body (files d)).2 l) /\ clean l.
Proof.
  intros Hc. unfold disk_op. destruct (body (files d)) as [r fs]; cbn.
  destruct Hc as [|f l -> Hc]; [exists []|exists l]; (split; [done|]); [constructor|done].
Qed.

(** What a failing operation leaves. *)
Definition left_by (f : fault) (dest : option path) (fs : gmap path string) : gmap path string :=
  match dest, f_left f with Some p, Some text => <[p := text]> fs | _, _ => fs end.

Lemma one_fault_op {A} (dest : option path) (body : gmap path string -> result string A * gmap path string) d :
  one_fault (faults d) ->
  (exists l, disk_op dest body d = ((body (files d)).1, mkDisk (body (files d)).2 l) /\ one_fault l) \/
  (exists f l, disk_op dest body d = (Err (f_error f), mkDisk (left_by f dest (files d)) l) /\ clean l).
Proof.
  intros Hc. unfold disk_op. destruct (body (files d)) as [r fs]; cbn.
  destruct Hc as [l Hc|l Hc|f l Hc].
  - left. destruct Hc as [|f l -> Hc]; [exists []|exists l]; (split; [done|]); apply one_fault_clean; [constructor|done].
  - left. by exists l.
  - right. by exists f, l.
Qed.

(** Steps over the operation at the head of the goal, as it fails or not. *)
Ltac disk_step H :=
  match goal with
  | |- context [disk_op ?dest ?body ?d] =>
    let l := fresh "l" in let f := fresh "f" in let E := fresh "E" in
    destruct (one_fault_op dest body d H) as [(l & E & H')|(f & l & E & H')];
    rewrite E; clear E H; rename H' into H; cbn
  end.

Ltac clean_step H :=
  match goal with
  | |- context [disk_op ?dest ?body ?d] =>
    let l := fresh "l" in let E := fresh "E" in let H' := fresh in
    destruct (clean_op dest body d H) as (l & E & H'); rewrite E in *; clear E H; rename H' into H; cbn in *
  end.

(** *** The three names are different *)

Lemma backup_ne p : get_backup_path p <> p.
Proof.
  destruct p as [dir name]. unfold get_backup_path; cbn. intros [= H].
  apply (f_equal String.length) in H. rewrite str_length_app in H. cbn in H. lia.
Qed.

Lemma temp_ne now p : get_temp_path now p <> p.
Proof.
  destruct p as [dir name]. unfold get_temp_path; cbn. intros [= H].
  apply (f_equal String.length) in H. rewrite str_length_app, str_app_cons in H. cbn in H. lia.
Qed.

Lemma temp_ne_backup now p : get_temp_path now p <> get_backup_path p.
Proof.
  destruct p as [dir name]. unfold get_temp_path, get_backup_path; cbn.
  intros [= H]. apply str_app_inj_l in H. rewrite !str_app_cons in H. injection H as H.
  change (fmt_Z now +:+ ".tmp" = "backup") in H. revert H.
  enough (E : ("."%char ∈ String.list_ascii_of_string (fmt_Z now +:+ ".tmp"))).
  { intros H. rewrite H in E. revert E. apply (bool_decide_unpack _). by vm_compute. }
  induction (fmt_Z now) as [|c s IH]; [by apply (bool_decide_unpack _)|].
  rewrite str_app_cons. cbn [String.list_ascii_of_string]. by right.
Qed.

(** ** Saving *)

Section saving.
Context {toml : Toml}.

Lemma remove_clean (q p : path) d : q <> p -> clean (faults d) ->
  clean (faults (remove_file q d).2) /\ files (remove_file q d).2 !! p = files d !! p.
Proof.
  intros Hq Hc. unfold remove_file.
  edestruct (clean_op (A := ())) as (l & -> & Hl); [exact Hc|]. cbn. split; [done|].
  destruct (files d !! q); cbn; [by rewrite lookup_delete_ne|done].
Qed.

(** What a backup is worth: the text of the file, or no backup of no file. *)
Definition backup_of (p : path) (text : option string) (b : option path) (d : disk) : Prop :=
  match b with
  | Some q => q = get_backup_path p /\ is_Some text /\ files d !! q = text
  | None => text = None /\ files d !! p = None
  end.

Lemma restore_clean p text b d : clean (faults d) -> backup_of p text b d ->
  files (restore_if_any b p d) !! p = text.
Proof.
  intros Hc. destruct b as [q|]; cbn; [|by intros (-> & ->)].
  intros (-> & (t & ->) & Hq). unfold restore_backup, copy.
  edestruct (clean_op (A := ())) as (l & -> & _); [exact Hc|]. cbn.
  rewrite Hq. cbn. by rewrite lookup_insert_eq.
Qed.

Lemma remove_restore now p text b d : clean (faults d) -> backup_of p text b d ->
  files (restore_if_any b p (remove_file (get_temp_path now p) d).2) !! p = text.
Proof.
  intros Hc Hb.
  assert (Hr : forall q, get_temp_path now p <> q -> clean (faults (remove_file (get_temp_path now p) d).2) /\
    files (remove_file (get_temp_path now p) d).2 !! q = files d !! q) by (intros; by apply remove_clean).
  apply restore_clean; [by apply (Hr p), temp_ne|].
  destruct b as [q|]; cbn in *.
  - destruct Hb as (-> & Ht & <-). rewrite (proj2 (Hr _ (temp_ne_backup now p))). done.
  - by rewrite (proj2 (Hr _ (temp_ne now p))).
Qed.
Lemma create_backup_spec p d : one_fault (faults d) ->
  let '(r, d') := create_backup p d in
  files d' !! p = files d !! p /\
  match r with
  | Ok b => one_fault (faults d') /\ backup_of p (files d !! p) b d'
  | Err _ => True
  end.
Proof.
  intros H. unfold create_backup, exists_, copy. case_bool_decide as E; cbn.
  - destruct E as (t & E). disk_step H.
    + rewrite E. cbn. rewrite lookup_insert_ne by apply backup_ne.
      split; [done|]. split; [done|]. split; [done|]. by rewrite lookup_insert_eq.
    + split; [|done]. unfold left_by. destruct (f_left f); [|done].
      by rewrite lookup_insert_ne by apply backup_ne.
  - apply eq_None_not_Some in E. by rewrite E.
Qed.

Lemma left_by_ne f q fs (p : path) : q <> p -> left_by f (Some q) fs !! p = fs !! p.
Proof. intros Hq. unfold left_by. destruct (f_left f); [by rewrite lookup_insert_ne|done]. Qed.

Lemma backup_of_frame p text b d d' :
  (forall q, q = p \/ q = get_backup_path p -> files d' !! q = files d !! q) ->
  backup_of p text b d -> backup_of p text b d'.
Proof. intros Hf. destruct b as [q|]; cbn; [intros (-> & ? & <-)|intros (-> & <-)]; rewrite Hf; auto. Qed.

Lemma save_config_safe now config p d : one_fault (faults d) ->
  match save_config now config p d with
  | (Ok _, d') => exists text, validate config = Ok () /\ to_string_pretty config = Ok text /\
      files d' !! p = Some text
  | (Err _, d') => files d' !! p = files d !! p
  end.
Proof.
  intros H. unfold save_config. destruct (validate config) as [[]|]; [|done].
  pose proof (create_backup_spec p d H) as Hb. clear H.
  destruct (create_backup p d) as [[b|] d1]; [|by destruct Hb].
  destruct Hb as (Hp & H & Hb). destruct (to_string_pretty config) as [text|] eqn:Et; [|done].
  pose proof (temp_ne now p) as Ht. pose proof (temp_ne_backup now p) as Htb.
  assert (Hn : forall q, q = p \/ q = get_backup_path p -> get_temp_path now p <> q) by (intros q [->| ->]; done).
  unfold write. disk_step H; cycle 1.
  { apply restore_clean; [done|]. revert Hb. apply backup_of_frame. intros q Hq. cbn.
    apply left_by_ne. auto. }
  assert (Hb' : forall l fs, (forall q, get_temp_path now p <> q -> fs !! q = files d1 !! q) ->
    backup_of p (files d !! p) b (mkDisk fs l)).
  { intros l' fs Hfs. revert Hb. apply backup_of_frame. intros q Hq. apply Hfs. auto. }
  unfold read_to_string. disk_step H; cycle 1.
  { apply remove_restore; [done|]. apply Hb'. intros q Hq. by apply lookup_insert_ne. }
  rewrite lookup_insert_eq. cbn. rewrite (from_to_string _ _ Et).
  unfold rename. disk_step H; cycle 1.
  { apply remove_restore; [done|]. apply Hb'. intros q Hq. by apply lookup_insert_ne. }
  rewrite lookup_insert_eq. cbn. exists text. split; [done|]. split; [done|].
  destruct b as [q|]; cbn; [|by rewrite lookup_insert_eq].
  destruct Hb as (-> & (t & Hs) & Hq). unfold remove_file. pose proof (backup_ne p).
  disk_step H; [|by rewrite lookup_insert_eq].
  case_match; cbn; [rewrite lookup_delete_ne by done|]; by rewrite lookup_insert_eq.
Qed.
(** C22: saving the rules is atomic against any one failure of the disk.
    Whatever operation of save_config fails and whatever it leaves in its
    destination, the file holds the serialization of the given, validated rules
    when the call succeeds, and exactly what it held before (no file included)
    when the call reports an error. *)
Theorem save_config_atomic now config p d : one_fault (faults d) ->
  match save_config now config p d with
  | (Ok _, d') => exists text, validate config = Ok () /\ to_string_pretty config = Ok text /\
      files d' !! p = Some text
  | (Err _, d') => files d' !! p = files d !! p
  end.
Proof. apply save_config_safe. Qed.

(** *** On a disk that works *)

Lemma create_backup_clean p d : clean (faults d) ->
  exists b d', create_backup p d = (Ok b, d') /\ clean (faults d') /\ files d' !! p = files d !! p.
Proof.
  intros H. unfold create_backup, exists_, copy. case_bool_decide as E; cbn; [|by eexists _, _].
  destruct E as (t & E). clean_step H. rewrite E. cbn. eexists _, _. split; [done|]. split; [done|].
  cbn. by rewrite lookup_insert_ne by apply backup_ne.
Qed.

Lemma remove_any_clean (b : option path) (p : path) d :
  clean (faults d) ->
  clean (faults match b with Some q => (remove_file q d).2 | None => d end).
Proof.
  intros Hc. destruct b as [q|]; [|done]. unfold remove_file. by clean_step Hc.
Qed.

Lemma save_config_clean now config p d : clean (faults d) -> validate config = Ok () ->
  let '(r, d') := save_config now config p d in
  clean (faults d') /\
  match to_string_pretty config with
  | Ok text => r = Ok () /\ files d' !! p = Some text
  | Err e => r = Err (Prefixed "Failed to serialize config to TOML: " (Text e)) /\ files d' !! p = files d !! p
  end.
Proof.
  intros H Hv. pose proof (save_config_safe now config p d (one_fault_clean _ H)) as Ha.
  unfold save_config in *. rewrite Hv in *.
  destruct (create_backup_clean p d H) as (b & d1 & E & H1 & Hp). rewrite E in *. clear H.
  destruct (to_string_pretty config) as [text|e] eqn:Et; [|done].
  unfold write, read_to_string, rename in *. clean_step H1.
  clean_step H1. rewrite lookup_insert_eq in *. cbn in *. rewrite (from_to_string _ _ Et) in *.
  clean_step H1. rewrite lookup_insert_eq in *. cbn in *.
  split; [by apply remove_any_clean|]. destruct Ha as (t & _ & [= <-] & Ht). done.
Qed.
End saving.
