(* ===== verification/AclWatch.v ===== *)
(** * Hot reload under interleaving

    src/src/acl/watcher.rs at the steps where its tasks let others in.  [start]
    spawns two tasks that both call [maybe_reload], one for each event of the
    file system and one every second; the handlers of the REST API write the
    file and reload the engine themselves (src/src/api/handlers/acl_management.rs);
    and anybody may edit the file.  [AclEngine] has [maybe_reload] whole. *)
From S2P Require Import Prelude Acl AclEngine.

Section watch.
Context `{AclDeps}.

(** Where a task stands.  [fp] is the fingerprint that it has taken. *)
Inductive task : Type :=
| Waiting
| Captured (fp : FileFingerprint)
| Changed (fp : FileFingerprint)
| Loaded (fp : FileFingerprint) (new_config : AclConfig)
| Handled (fp : FileFingerprint)
| Saved (config : AclConfig)
| Stopped.

(** [versions] is not in the program: what the file has been so far. *)
Record state : Type := mkState {
  file : config_file;
  the_engine : AclEngine;
  fingerprint : option FileFingerprint;
  tasks : list task;
  versions : list config_file;
}.

Definition set_task (i : nat) (t : task) (s : state) : state :=
  mkState (file s) (the_engine s) (fingerprint s) (<[i := t]> (tasks s)) (versions s).
Definition set_engine (e : AclEngine) (s : state) : state :=
  mkState (file s) e (fingerprint s) (tasks s) (versions s).
Definition set_fingerprint (fp : FileFingerprint) (s : state) : state :=
  mkState (file s) (the_engine s) (Some fp) (tasks s) (versions s).
Definition write (f : config_file) (s : state) : state :=
  mkState f (the_engine s) (fingerprint s) (tasks s) (f :: versions s).

(** The fingerprint is taken; it is compared under the lock of the state. *)
Definition look (i : nat) (s : state) : state :=
  match cf_fingerprint (file s) with
  | Some fp => set_task i (Captured fp) s
  | None => s
  end.

(** The next step of a task that is at work. *)
Definition next (i : nat) (t : task) (s : state) : option state :=
  match t with
  | Waiting | Stopped => None
  | Captured fp => Some (set_task i (if decide (fingerprint s = Some fp) then Waiting else Changed fp) s)
  | Changed fp =>
    Some (set_task i (match load_acl_config (file s) with
                      | Ok new_config => Loaded fp new_config
                      | Err _ => Handled fp
                      end) s)
  | Loaded fp new_config => Some (set_task i (Handled fp) (set_engine (reload new_config (the_engine s)).2 s))
  | Handled fp => Some (set_task i Waiting (set_fingerprint fp s))
  | Saved config => Some (set_task i Waiting (set_engine (reload config (the_engine s)).2 s))
  end.

(** Tasks 0 and 1 are those of the watcher, for the events of the file system and
    for the polling; the others handle requests of the API.  [ASave]: a handler
    has written [f], with a configuration that it has validated; [AEdit]: somebody
    else has.  [AStop]: [stop] aborts the polling wherever it stands, and closes the
    channel of the events, which ends the other task when it next waits. *)
Inductive action : Type :=
| ALook | ANext | ASave (f : config_file) | AEdit (f : config_file) | AStop.
Definition watches (i : nat) : bool := (i <? 2)%nat.
#[global] Arguments watches : simpl never.

(** Each version of the file has a fingerprint of its own. *)
Definition fresh (f : config_file) (s : state) : Prop :=
  cf_fingerprint f = None \/ cf_fingerprint f ∉ cf_fingerprint <$> versions s.
#[export] Instance fresh_dec f s : Decision (fresh f s).
Proof. unfold fresh. apply _. Defined.

Definition exec (i : nat) (a : action) (s : state) : option state :=
  t ← tasks s !! i;
  match a, t with
  | ALook, Waiting => if watches i then Some (look i s) else None
  | ANext, t => next i t s
  | ASave f, Waiting =>
    if watches i then None
    else
      match load_acl_config f with
      | Ok config => if decide (fresh f s) then Some (set_task i (Saved config) (write f s)) else None
      | Err _ => None
      end
  | AEdit f, _ => if decide (fresh f s) then Some (write f s) else None
  | AStop, t =>
    match i, t with
    | 0%nat, Waiting | 1%nat, _ => Some (set_task i Stopped s)
    | _, _ => None
    end
  | _, _ => None
  end.

Definition run (tr : list (nat * action)) (s : state) : option state :=
  foldl (fun o e => s ← o; exec e.1 e.2 s) (Some s) tr.

(** [start], with [n] requests of the API that may come: the fingerprint is taken
    after the engine was built, from what the file is by then. *)
Definition initial (n : nat) (e : AclEngine) (f : config_file) : state :=
  mkState f e (cf_fingerprint f) (replicate (2 + n) Waiting) [f].
End watch.
