(* ===== verification/AclWatchSpec.v ===== *)
(** * Properties of the hot reload under interleaving

    Where the rules in force come from, what the tasks guarantee as long as no two
    of them reload at once, and what they can do otherwise. *)
From S2P Require Import Prelude Acl Wildcard AclEngine AclSpec AclWatch.

Section spec.
Context `{AclDeps}.

(** Reloading [f] would change nothing. *)
Definition settled (f : config_file) (e : AclEngine) : Prop := (handle_reload_event f e).2 = e.

(** [e] is [e0], or the engine of a version of the file. *)
Definition version_of (e0 : AclEngine) (vs : list config_file) (e : AclEngine) : Prop :=
  e = e0 \/ exists f cfg, f ∈ vs /\ load_acl_config f = Ok cfg /\ AclEngine_new cfg = Ok e.

Lemma reload_load f cfg e : load_acl_config f = Ok cfg -> (handle_reload_event f e).2 = (reload cfg e).2.
Proof. unfold handle_reload_event. intros ->. by destruct (reload cfg e) as [[] e']. Qed.

Lemma reload_settled f cfg e : load_acl_config f = Ok cfg -> settled f (reload cfg e).2.
Proof. intros Hl. unfold settled. rewrite <- (reload_load f cfg e Hl). by apply handle_reload_event_idem. Qed.

Lemma bad_settled f err e : load_acl_config f = Err err -> settled f e.
Proof. unfold settled, handle_reload_event. by intros ->. Qed.

Lemma reload_version e0 vs f cfg e :
  f ∈ vs -> load_acl_config f = Ok cfg -> version_of e0 vs e -> version_of e0 vs (reload cfg e).2.
Proof.
  intros Hf Hl He. destruct (reload_atomic cfg e) as [(e' & _ & Hn & ->)|(err & _ & ->)]; [|done].
  right. by exists f, cfg.
Qed.

Lemma version_more e0 vs f e : version_of e0 vs e -> version_of e0 (f :: vs) e.
Proof. intros [->|(g & cfg & ? & ? & ?)]; [by left|]. right. exists g, cfg. split; [by right|done]. Qed.

(** ** Any number of tasks *)

(** The configuration that a task carries is that of a version. *)
Definition carries (vs : list config_file) (t : task) : Prop :=
  match t with
  | Loaded _ cfg | Saved cfg => exists f, f ∈ vs /\ load_acl_config f = Ok cfg
  | _ => True
  end.

Record safe (e0 : AclEngine) (s : state) : Prop := mkSafe {
  safe_file : file s ∈ versions s;
  safe_engine : version_of e0 (versions s) (the_engine s);
  safe_tasks : Forall (carries (versions s)) (tasks s);
}.

Lemma safe_task e0 i t s : safe e0 s -> carries (versions s) t -> safe e0 (set_task i t s).
Proof. intros [Hf He Ht] Hc. constructor; [done|done|by apply Forall_insert]. Qed.

Lemma safe_reload e0 i t cfg s :
  safe e0 s -> (exists f, f ∈ versions s /\ load_acl_config f = Ok cfg) -> carries (versions s) t ->
  safe e0 (set_task i t (set_engine (reload cfg (the_engine s)).2 s)).
Proof.
  intros [Hf He Ht] (f & Hv & Hl) Hc. constructor; [done| |by apply Forall_insert].
  by apply (reload_version e0 _ f).
Qed.

Lemma safe_write e0 f s : safe e0 s -> safe e0 (write f s).
Proof.
  intros [Hf He Ht]. constructor; [left|by apply version_more|]. apply (Forall_impl _ _ _ Ht).
  intros [] Hc; try done; destruct Hc as (g & ? & ?); exists g; (split; [by right|done]).
Qed.

Lemma safe_next e0 i t s s' : safe e0 s -> tasks s !! i = Some t -> next i t s = Some s' -> safe e0 s'.
Proof.
  intros Hs Hi Hn. pose proof (Forall_lookup_1 _ _ _ _ (safe_tasks e0 s Hs) Hi) as Hc.
  destruct t as [|fp|fp|fp cfg|fp|cfg|]; cbn in Hn; try discriminate Hn; injection Hn as <-.
  - by apply safe_task; [|destruct (decide _)].
  - apply safe_task; [done|]. destruct (load_acl_config (file s)) as [cfg|] eqn:El; [|done].
    exists (file s). split; [apply (safe_file e0 s Hs)|done].
  - by apply safe_reload.
  - apply (safe_task e0 i Waiting (set_fingerprint fp s)); [|done]. by destruct Hs.
  - by apply safe_reload.
Qed.

Lemma safe_exec e0 i a s s' : safe e0 s -> exec i a s = Some s' -> safe e0 s'.
Proof.
  intros Hs He. unfold exec in He. destruct (tasks s !! i) as [t|] eqn:Hi; cbn in He; [|done].
  destruct a as [| |f|f|].
  - destruct t; try discriminate He. destruct (watches i); [|done]. injection He as <-. unfold look.
    destruct (cf_fingerprint (file s)); [by apply safe_task|done].
  - by eapply safe_next.
  - destruct t; try discriminate He. destruct (watches i); [done|].
    destruct (load_acl_config f) as [cfg|] eqn:El; [|discriminate He].
    case_decide; [|discriminate He]. injection He as <-. apply safe_task; [by apply safe_write|].
    exists f. split; [by left|done].
  - case_decide; [|by destruct t]. destruct t; injection He as <-; by apply safe_write.
  - destruct i as [|[|i]], t; try discriminate He; injection He as <-; by apply safe_task.
Qed.

Lemma watch_run_snoc tr e s : run (tr ++ [e]) s = (s ← run tr s; exec e.1 e.2 s).
Proof. unfold run. by rewrite foldl_app. Qed.

(** An invariant of the steps is one of the runs. *)
Lemma run_invariant (I : state -> Prop) tr s s' :
  (forall i a s s', (i, a) ∈ tr -> I s -> exec i a s = Some s' -> I s') -> I s -> run tr s = Some s' -> I s'.
Proof.
  intros Hstep Hs. revert s'. induction tr as [|e tr IH] using rev_ind; intros s'.
  - by intros [= <-].
  - rewrite watch_run_snoc. destruct (run tr s) as [s1|] eqn:Er; cbn; [|done]. destruct e as [i a].
    apply (Hstep i a); [set_solver|]. apply IH; [|done]. intros j b t t' Hin. apply (Hstep j b). set_solver.
Qed.

Lemma safe_initial n e f : safe e (initial n e f).
Proof. constructor; [by left|by left|]. by apply (Forall_replicate _ (2 + n)). Qed.

(** ** Reloads that do not overlap *)

(** The stored fingerprint is not that of the file. *)
Definition apart (s : state) : Prop :=
  forall fp, cf_fingerprint (file s) = Some fp -> fingerprint s ≠ Some fp.
Definition known (s : state) (fp : FileFingerprint) : Prop := Some fp ∈ cf_fingerprint <$> versions s.
Definition up_to_date (s : state) : Prop :=
  forall fp, cf_fingerprint (file s) = Some fp -> fingerprint s = Some fp -> settled (file s) (the_engine s).

Definition idle (t : task) : Prop := t = Waiting \/ t = Stopped.
Lemma idle_or_not t : idle t \/ ~ idle t.
Proof. destruct t; first [by left; left|by left; right|right; by intros [?|?]]. Qed.
(** At most one task is between its look at the file, or its save, and its end. *)
Definition one_at_a_time (s : state) : Prop :=
  forall i j ti tj, tasks s !! i = Some ti -> tasks s !! j = Some tj -> ~ idle ti -> ~ idle tj -> i = j.
Definition serial (tr : list (nat * action)) (s : state) : Prop :=
  forall tr1 tr2 s1, tr = tr1 ++ tr2 -> run tr1 s = Some s1 -> one_at_a_time s1.

(** What is known while a task stands somewhere. *)
Definition stage (t : task) (s : state) : Prop :=
  match t with
  | Waiting | Stopped => True
  | Captured fp => known s fp /\ (cf_fingerprint (file s) = Some fp \/ apart s)
  | Changed fp => known s fp /\ apart s
  | Loaded fp cfg => known s fp /\ apart s /\ (cf_fingerprint (file s) = Some fp -> load_acl_config (file s) = Ok cfg)
  | Handled fp => known s fp /\ apart s /\ (cf_fingerprint (file s) = Some fp -> settled (file s) (the_engine s))
  | Saved _ => apart s
  end.

Section start.
(** The engine and the file when the watcher started. *)
Context (e0 : AclEngine) (f0 : config_file).

(** The engine had the rules of the file when the watcher started, or the file
    was written since. *)
Definition in_step (s : state) : Prop := settled f0 e0 \/ versions s <> [f0].

Record tracked (s : state) : Prop := mkTracked {
  tr_file : file s ∈ versions s;
  tr_known : forall fp, fingerprint s = Some fp -> known s fp;
  tr_up : in_step s -> up_to_date s;
  tr_stages : forall i t, tasks s !! i = Some t -> stage t s;
}.

Lemma apart_up_to_date s : apart s -> up_to_date s.
Proof. intros Ha fp Hf Hl. by destruct (Ha fp Hf). Qed.

Lemma known_file s fp : file s ∈ versions s -> cf_fingerprint (file s) = Some fp -> known s fp.
Proof. intros Hf E. apply list_elem_of_fmap. by exists (file s). Qed.

Lemma idle_stage t s : idle t -> stage t s.
Proof. by intros [->| ->]. Qed.

(** A fresh version of the file has a fingerprint that nobody knows. *)
Lemma fresh_unknown f s fp : fresh f s -> known s fp -> cf_fingerprint f ≠ Some fp.
Proof. intros [Hn|Hn] Hk E; [congruence|]. apply Hn. by rewrite E. Qed.

Lemma known_write f s fp : known s fp -> known (write f s) fp.
Proof. unfold known. cbn. by right. Qed.

Lemma write_apart f s : tracked s -> fresh f s -> apart (write f s).
Proof. intros Hs Hf fp E Hl. apply (fresh_unknown f s fp Hf); [by apply (tr_known s Hs)|done]. Qed.

Lemma tracked_write f s : tracked s -> fresh f s -> tracked (write f s).
Proof.
  intros Hs Hf. pose proof (write_apart f s Hs Hf) as Ha. constructor.
  - by left.
  - intros fp Hl. apply known_write. by apply (tr_known s Hs).
  - intros _. by apply apart_up_to_date.
  - intros i t Hi. pose proof (tr_stages s Hs i t Hi) as Hst.
    destruct t as [|fp|fp|fp cfg|fp|cfg|]; cbn in Hst |- *; try done; destruct Hst as (Hk & _).
    + split; [by apply known_write|by right].
    + split; [by apply known_write|done].
    + split_and!; [by apply known_write|done|]. intros E. by destruct (fresh_unknown f s fp Hf Hk).
    + split_and!; [by apply known_write|done|]. intros E. by destruct (fresh_unknown f s fp Hf Hk).
Qed.

(** A task moves on; the others do not depend on what it changes. *)
Lemma tracked_task i t s :
  file s ∈ versions s -> (forall fp, fingerprint s = Some fp -> known s fp) -> (in_step s -> up_to_date s) ->
  (forall j u, j <> i -> tasks s !! j = Some u -> stage u s) -> stage t s -> tracked (set_task i t s).
Proof.
  intros Hf Hk Hu Ho Ht. constructor; [done|done|done|]. intros j u Hj. cbn in Hj.
  destruct (decide (j = i)) as [->|Hne].
  - apply list_lookup_insert_Some in Hj as [(_ & <- & _)|[Hn _]]; [by destruct t|done].
  - rewrite list_lookup_insert_ne in Hj by done. specialize (Ho j u Hne Hj). by destruct u.
Qed.

Lemma others_idle i t s j u :
  one_at_a_time s -> tasks s !! i = Some t -> ~ idle t -> j <> i -> tasks s !! j = Some u -> idle u.
Proof.
  intros Ha Hi Hb Hne Hj. destruct (idle_or_not u) as [Hd|Hd]; [done|].
  destruct Hne. exact (Ha j i u t Hj Hi Hd Hb).
Qed.

Lemma tracked_next i t s s' :
  tracked s -> one_at_a_time s -> tasks s !! i = Some t -> next i t s = Some s' -> tracked s'.
Proof.
  intros Hs Ha Hi Hn. pose proof (tr_stages s Hs i t Hi) as Hst. destruct Hs as [Hf Hk Hu Hall].
  assert (Hb : ~ idle t) by (intros [->| ->]; discriminate Hn).
  assert (Ho : forall s1 j u, j <> i -> tasks s !! j = Some u -> stage u s1)
    by (intros s1 j u Hne Hj; apply idle_stage; exact (others_idle i t s j u Ha Hi Hb Hne Hj)).
  destruct t as [|fp|fp|fp cfg|fp|cfg|]; cbn in Hn; try discriminate Hn; injection Hn as <-.
  - destruct Hst as (Hkn & Hc). apply tracked_task; try done; [by apply Ho|]. case_decide as Hd; [done|].
    split; [done|]. destruct Hc as [Hc|Hc]; [|done]. intros fp' E. congruence.
  - destruct Hst as (Hkn & Hap). apply tracked_task; try done; [by apply Ho|].
    destruct (load_acl_config (file s)) as [cfg|err] eqn:El; cbn; (split_and!; [done|done|]); intros _; [done|].
    by apply (bad_settled _ err).
  - destruct Hst as (Hkn & Hap & Hl). apply tracked_task; try done; [by intros _; apply apart_up_to_date|by apply Ho|].
    split_and!; [done|done|]. intros E. by apply reload_settled, Hl.
  - destruct Hst as (Hkn & Hap & Hl). apply (tracked_task i Waiting (set_fingerprint fp s)); try done; [|..|by apply Ho].
    + by intros ? [= <-].
    + intros _ fp' E [= <-]. by apply Hl.
  - apply tracked_task; try done; [by intros _; apply apart_up_to_date|by apply Ho].
Qed.

Lemma tracked_set i t s : tracked s -> stage t s -> tracked (set_task i t s).
Proof. intros [Hf Hk Hu Hall] Ht. apply tracked_task; try done. intros j u _. apply Hall. Qed.

Lemma tracked_exec i a s s' : tracked s -> one_at_a_time s -> exec i a s = Some s' -> tracked s'.
Proof.
  intros Hs Ha He. unfold exec in He. destruct (tasks s !! i) as [t|] eqn:Hi; cbn in He; [|done].
  destruct a as [| |f|f|].
  - destruct t; try discriminate He. destruct (watches i); [|done]. injection He as <-.
    unfold look. destruct (cf_fingerprint (file s)) as [fp|] eqn:E; [|done].
    apply tracked_set; [done|]. split; [|by left]. apply known_file; [apply (tr_file s Hs)|done].
  - by apply (tracked_next i t s).
  - destruct t; try discriminate He. destruct (watches i); [done|].
    destruct (load_acl_config f) as [cfg|]; [|discriminate He]. case_decide as Hf; [|discriminate He].
    injection He as <-. apply tracked_set; [by apply tracked_write|]. by apply (write_apart f s).
  - case_decide as Hf; [|by destruct t]. destruct t; injection He as <-; by apply tracked_write.
  - destruct i as [|[|i]], t; try discriminate He; injection He as <-; by apply tracked_set.
Qed.

Lemma tracked_initial n : tracked (initial n e0 f0).
Proof.
  constructor; cbn [initial file versions fingerprint tasks the_engine].
  - by left.
  - intros fp E. unfold known. cbn. rewrite E. by left.
  - intros [Hd|Hn] fp _ _; [done|]. by destruct Hn.
  - intros i t [-> _]%lookup_replicate. done.
Qed.

Lemma tracked_run n tr s : run tr (initial n e0 f0) = Some s -> serial tr (initial n e0 f0) -> tracked s.
Proof.
  revert s. induction tr as [|[i a] tr IH] using rev_ind; intros s; [intros [= <-] _; apply tracked_initial|].
  rewrite watch_run_snoc. intros (s1 & Hr & He)%bind_Some Hser. apply (tracked_exec i a s1); [| |done].
  - apply IH; [done|]. intros tr1 tr2 s2 Htr Hr2. apply (Hser tr1 (tr2 ++ [(i, a)]) s2); [|done].
    by rewrite Htr, (assoc_L (++)).
  - by apply (Hser tr [(i, a)]).
Qed.
End start.

(** ** A task that nobody interrupts *)

Fixpoint finish (k i : nat) (s : state) : state :=
  match k with
  | O => s
  | S k => match t ← tasks s !! i; next i t s with Some s' => finish k i s' | None => s end
  end.

Lemma finish_next k i s t s' : tasks s !! i = Some t -> next i t s = Some s' -> finish (S k) i s = finish k i s'.
Proof. intros Hi Hn. cbn. rewrite Hi. cbn. by rewrite Hn. Qed.

Lemma finish_waiting k i s : tasks s !! i = Some Waiting -> finish k i s = s.
Proof. intros Hi. destruct k; [done|]. cbn. by rewrite Hi. Qed.

Ltac flat := unfold set_task, set_engine, set_fingerprint; cbn [file the_engine fingerprint tasks versions];
  rewrite ?list_insert_insert_eq.
Ltac here := cbn [tasks]; by rewrite list_lookup_insert_eq by done.
Ltac stop := rewrite finish_waiting by here; by rewrite list_insert_id.

Lemma finish_look i s :
  tasks s !! i = Some Waiting ->
  finish 4 i (look i s) =
    let w := (maybe_reload (file s) (mkWatcher (the_engine s) (fingerprint s))).2 in
    mkState (file s) (w_engine w) (last_fingerprint w) (tasks s) (versions s).
Proof.
  intros Hi. pose proof (lookup_lt_Some _ _ _ Hi) as Hlen. unfold look, maybe_reload.
  destruct s as [f e l ts vs]; cbn [file the_engine fingerprint tasks versions] in *.
  destruct (cf_fingerprint f) as [fp|] eqn:Ef; [|by rewrite finish_waiting].
  flat. erewrite finish_next; [|here|reflexivity]. flat. cbn [last_fingerprint]. case_decide as Hl; [stop|].
  erewrite finish_next; [|here|reflexivity]. flat. unfold handle_reload_event. cbn [w_engine].
  destruct (load_acl_config f) as [cfg|err].
  - do 2 (erewrite finish_next; [|here|reflexivity]; flat). destruct (reload cfg e) as [[] e']; stop.
  - erewrite finish_next; [|here|reflexivity]. flat. stop.
Qed.

Lemma finish_settled i s fp :
  tasks s !! i = Some Waiting -> up_to_date s -> cf_fingerprint (file s) = Some fp ->
  settled (file s) (the_engine (finish 4 i (look i s))).
Proof.
  intros Hi Hu Hf. rewrite finish_look by done. cbn. unfold maybe_reload. rewrite Hf. cbn [last_fingerprint w_engine].
  case_decide as Hd; [by apply (Hu fp)|]. unfold settled.
  destruct (handle_reload_event (file s) (the_engine s)) as [b e] eqn:E. cbn.
  replace e with (handle_reload_event (file s) (the_engine s)).2 by (by rewrite E). by apply handle_reload_event_idem.
Qed.

(** ** Nothing wakes a watcher that knows the fingerprint *)

Definition looks (tr : list (nat * action)) : Prop := Forall (fun e => e.2 = ALook \/ e.2 = ANext) tr.

(** The file, the engine and the fingerprint are those of [s0], and so it stays. *)
Definition asleep (s0 : state) (s : state) : Prop :=
  file s = file s0 /\ the_engine s = the_engine s0 /\ fingerprint s = cf_fingerprint (file s0) /\
  Forall (fun t => t = Waiting \/ exists fp, t = Captured fp /\ cf_fingerprint (file s0) = Some fp) (tasks s).

Lemma asleep_exec s0 i a s s' : asleep s0 s -> a = ALook \/ a = ANext -> exec i a s = Some s' -> asleep s0 s'.
Proof.
  intros (Hf & He & Hl & Ht) Ha Hx. unfold exec in Hx. destruct (tasks s !! i) as [t|] eqn:Hi; cbn in Hx; [|done].
  destruct (Forall_lookup_1 _ _ _ _ Ht Hi) as [->|(fp & -> & Hfp)]; destruct Ha as [->| ->]; try discriminate Hx;
    [destruct (watches i); [|discriminate Hx]|]; injection Hx as <-.
  - unfold look. rewrite Hf. destruct (cf_fingerprint (file s0)) as [fp|] eqn:E; [|by split_and!; rewrite ?E].
    split_and!; try done; [cbn; by rewrite E|]. apply Forall_insert; [by rewrite E|]. right. by exists fp.
  - rewrite Hl, Hfp, decide_True by done. split_and!; try done. apply Forall_insert; [done|by left].
Qed.

Lemma asleep_run s tr s' :
  fingerprint s = cf_fingerprint (file s) -> Forall (eq Waiting) (tasks s) -> looks tr -> run tr s = Some s' ->
  asleep s s'.
Proof.
  intros Hl Ht Htr. apply run_invariant.
  - intros i a t t' Hin. intros Ha. apply (asleep_exec s i a t t' Ha). exact (proj1 (Forall_forall _ _) Htr (i, a) Hin).
  - split_and!; try done. apply (Forall_impl _ _ _ Ht). intros t <-. by left.
Qed.

(** ** The theorems *)

(** C25: hot reload as the program runs it: two tasks of the watcher that look at
    the file, any number of handlers of the API that save it and reload the engine
    themselves, and editors that write it at any moment (the fingerprints of the
    versions being different), as long as no two of the tasks are at work at once;
    what else can happen is [hot_reload_stale].  Provided that the engine had the
    rules of the file when the watcher started, or that the file was written
    since: whenever the stored fingerprint is that of the file, reloading would
    change nothing, that is, the engine has the rules of the file, or keeps those
    it has because the file is bad; and from any moment one undisturbed look of
    either watcher task, at most four steps, brings that about.  In any case such a
    look is what [AclEngine.maybe_reload] says, and the rules in force are the
    initial ones or those of a version that the file has had. *)
Theorem hot_reload_serial n e f tr s :
  run tr (initial n e f) = Some s -> serial tr (initial n e f) ->
  (in_step e f s -> up_to_date s) /\
  (forall i, watches i = true -> tasks s !! i = Some Waiting ->
     (let w := (maybe_reload (file s) (mkWatcher (the_engine s) (fingerprint s))).2 in
      finish 4 i (look i s) = mkState (file s) (w_engine w) (last_fingerprint w) (tasks s) (versions s)) /\
     (in_step e f s -> forall fp, cf_fingerprint (file s) = Some fp ->
        settled (file s) (the_engine (finish 4 i (look i s))))) /\
  version_of e (versions s) (the_engine s).
Proof.
  intros Hrun Hser. pose proof (tracked_run e f n tr s Hrun Hser) as Hs. split; [apply (tr_up e f s Hs)|]. split.
  - intros i _ Hi. split; [by apply finish_look|]. intros Hin fp Hf.
    apply (finish_settled i s fp); [done|by apply (tr_up e f s Hs)|done].
  - apply (safe_engine e s). apply (run_invariant (safe e) tr (initial n e f)); [|apply safe_initial|done].
    intros i a t t' _. apply safe_exec.
Qed.

Definition demo_config (a : Action) : AclConfig := mkAclConfig (mkGlobalAclConfig a) [] [].
Definition demo_file (n : Z) (a : Action) : config_file :=
  mkConfigFile (Some (mkFileFingerprint (Some n) 64)) (Ok (demo_config a)).
Definition demo_engine_of (a : Action) : AclEngine :=
  mkAclEngine (mkCompiledAclConfig (mkGlobalAclConfig a) ∅ ∅ ∅).

(** The file opens up for a moment; task 0 sees that version, task 1 the next. *)
Definition demo_stale : list (nat * action) :=
  (0%nat, AEdit (demo_file 2 Allow)) :: ((fun a => (0%nat, a)) <$> ALook :: replicate 2 ANext) ++
  (1%nat, AEdit (demo_file 3 Block)) :: ((fun a => (1%nat, a)) <$> ALook :: replicate 3 ANext) ++
  [(0%nat, ANext); (0%nat, ANext); (1%nat, ANext)].

Lemma demo_stale_run :
  run demo_stale (initial 0 (demo_engine_of Block) (demo_file 1 Block)) =
  Some (mkState (demo_file 3 Block) (demo_engine_of Allow) (cf_fingerprint (demo_file 3 Block)) [Waiting; Waiting]
          [demo_file 3 Block; demo_file 2 Allow; demo_file 1 Block]).
Proof. reflexivity. Qed.

(** Hot reload with the two tasks that [start] spawns.  There is a run in
    which the file says "block" at its start and at its end and the engine ends
    up with the rules of a version in between, "allow": one task loads that
    version and is overtaken by the other, which loads the last one; then the
    first puts its engine in place and the second its fingerprint.  Both are at
    rest, the fingerprint is that of the file, and however often they look the
    engine stays as it is, until the file is written again. *)
Theorem hot_reload_stale :
  exists tr s,
    run tr (initial 0 (demo_engine_of Block) (demo_file 1 Block)) = Some s /\
    settled (demo_file 1 Block) (demo_engine_of Block) /\
    file s = demo_file 3 Block /\ the_engine s = demo_engine_of Allow /\ ~ settled (file s) (the_engine s) /\
    forall tr' s', looks tr' -> run tr' s = Some s' -> file s' = file s /\ the_engine s' = the_engine s.
Proof.
  exists demo_stale. eexists. split; [exact demo_stale_run|]. split; [done|]. split; [done|]. split; [done|].
  split; [done|]. intros tr' s' Htr Hr. apply asleep_run in Hr as (? & ? & _); [done|done| |done].
  by repeat constructor.
Qed.
End spec.

(** The file is edited before the polling looks and again while it loads; then a
    handler of the API saves it. *)
Definition demo_serial : list (nat * action) :=
  [(0%nat, AEdit (demo_file 2 Allow)); (1%nat, ALook); (1%nat, ANext); (1%nat, ANext); (1%nat, ANext);
   (0%nat, AEdit (demo_file 3 Block)); (1%nat, ANext);
   (2%nat, ASave (demo_file 4 Allow)); (2%nat, ANext); (0%nat, AEdit (demo_file 5 Block))].

Lemma demo_serial_serial : serial demo_serial (initial 1 (demo_engine_of Block) (demo_file 1 Block)).
Proof.
  intros tr1 tr2 s1 Htr Hr.
  assert (Hk : tr1 = take (length tr1) demo_serial) by (by rewrite Htr, take_app_length).
  assert (Hl : (length tr1 <= 10)%nat).
  { apply (f_equal length) in Htr. rewrite length_app in Htr. change (length demo_serial) with 10%nat in Htr. lia. }
  rewrite Hk in Hr. clear Hk Htr tr2. revert Hl Hr. generalize (length tr1) as k. clear tr1. intros k Hl Hr.
  do 11 (destruct k as [|k]; [cbn in Hr; injection Hr as <-; intros [|[|[|i]]] [|[|[|j]]] ti tj Hi Hj Hbi Hbj;
    cbn in Hi, Hj; try discriminate Hi; try discriminate Hj; try reflexivity;
    injection Hi as <-; injection Hj as <-; exfalso; first [apply Hbi; by left|apply Hbj; by left]|]).
  lia.
Qed.

Lemma hot_reload_serial_witness :
  exists s, run demo_serial (initial 1 (demo_engine_of Block) (demo_file 1 Block)) = Some s /\
    the_engine s = demo_engine_of Allow /\ file s = demo_file 5 Block /\
    settled (file s) (the_engine (finish 4 1 (look 1 s))) /\
    the_engine (finish 4 1 (look 1 s)) = demo_engine_of Block.
Proof.
  pose (s := mkState (demo_file 5 Block) (demo_engine_of Allow) (cf_fingerprint (demo_file 2 Allow))
            [Waiting; Waiting; Waiting]
            [demo_file 5 Block; demo_file 4 Allow; demo_file 3 Block; demo_file 2 Allow; demo_file 1 Block]).
  assert (Hrun : run demo_serial (initial 1 (demo_engine_of Block) (demo_file 1 Block)) = Some s) by reflexivity.
  destruct (hot_reload_serial 1 (demo_engine_of Block) (demo_file 1 Block) demo_serial s Hrun demo_serial_serial)
    as (_ & Hlook & _).
  exists s. split; [exact Hrun|]. split; [reflexivity|]. split; [reflexivity|]. split; [|reflexivity].
  eapply (proj2 (Hlook 1%nat eq_refl eq_refl)); [right; discriminate|reflexivity].
Defined.
