(* ===== verification/AclApi.v ===== *)
(** * The access control endpoints of the REST interface

    src/src/api/handlers/acl_management.rs with the requests and responses of
    src/src/api/types.rs.  A handler works on the file of the rules and on the
    engine; it returns as soon as it has a response, which is the error of the
    monad [handler].  Logging is left out. *)
From S2P Require Import Prelude Net Acl AclEngine AclCrud AclFile.

Definition OK : Z := 200.
Definition BAD_REQUEST : Z := 400.
Definition NOT_FOUND : Z := 404.
Definition INTERNAL_SERVER_ERROR : Z := 500.

(** ** Requests and responses *)

Record AddRuleRequest : Type := mkAddRuleRequest {
  rq_action : string;
  rq_description : string;
  rq_destinations : list string;
  rq_ports : list string;
  rq_protocols : list string;
  rq_priority : Z;
}.
(** Also the request to delete a rule. *)
Record RuleIdentifierRequest : Type := mkRuleIdentifierRequest {
  id_destinations : list string; id_ports : option (list string) }.
Record UpdateRuleRequest : Type := mkUpdateRuleRequest {
  match_rule : RuleIdentifierRequest; update : AddRuleRequest }.
Record RuleOperationResponse : Type := mkRuleOperationResponse {
  ro_success : bool; ro_message : message; ro_rule : option AclRule; ro_old_rule : option AclRule }.
Record GroupSummary : Type := mkGroupSummary { gs_name : string; gs_rule_count : Z }.
Record GroupDetailResponse : Type := mkGroupDetailResponse { gd_name : string; gd_rules : list AclRule }.
Record UserSummary : Type := mkUserSummary {
  usum_username : string; usum_groups : list string; usum_rule_count : Z }.
Record UserDetailResponse : Type := mkUserDetailResponse {
  ud_username : string; ud_groups : list string; ud_rules : list AclRule }.
Record UpdateGlobalSettingsResponse : Type := mkUpdateGlobalSettingsResponse {
  ug_success : bool; ug_message : message; ug_old_policy : string; ug_new_policy : string }.
Record RuleSearchResponse : Type := mkRuleSearchResponse {
  se_matches : list RuleSearchResult; se_count : Z }.
(** The response to the deletion of a group or of a user. *)
Record DeleteResponse (A : Type) : Type := mkDeleteResponse {
  de_success : bool; de_message : message; de_deleted : option A }.
Arguments mkDeleteResponse {A} _ _ _.
Record UserGroupOperationResponse : Type := mkUserGroupOperationResponse {
  uo_success : bool; uo_message : message }.

(** ** Handlers *)

Section api.
Context {acl_deps : AclDeps} {sort : UnstableSort rule_leb} {toml : Toml}.

(** [ApiState], as far as these handlers use it, with the disk. *)
Record state : Type := mkState {
  acl_config_path : option path;
  acl_engine : option AclEngine;
  on_disk : disk;
}.
Definition set_disk (d : disk) (s : state) : state := mkState (acl_config_path s) (acl_engine s) d.
Definition set_engine (e : AclEngine) (s : state) : state :=
  mkState (acl_config_path s) (Some e) (on_disk s).

(** A computation that may return early with a status and a response. *)
Definition handler (R A : Type) : Type := state -> result (Z * R) A * state.
#[export] Instance handler_ret R : MRet (handler R) := fun A a s => (Ok a, s).
#[export] Instance handler_bind R : MBind (handler R) := fun A B f m s =>
  match m s with (Ok a, s') => f a s' | (Err r, s') => (Err r, s') end.

(** The whole of a handler: every way to return is a response. *)
Definition respond {R} (m : handler R (Z * R)) (s : state) : (Z * R) * state :=
  match m s with (Ok r, s') => (r, s') | (Err r, s') => (r, s') end.

(** [match r { Ok(a) => a, Err(e) => return ... }] *)
Definition or_return {R A} (r : result message A) (f : message -> Z * R) : handler R A := fun s =>
  (match r with Ok a => Ok a | Err e => Err (f e) end, s).
Definition run_or_return {R A} (m : state -> result message A * state) (f : message -> Z * R)
    : handler R A := fun s =>
  let '(r, s') := m s in (match r with Ok a => Ok a | Err e => Err (f e) end, s').
Definition require_acl {R} (r : Z * R) : handler R () := fun s =>
  match acl_engine s with Some _ => (Ok tt, s) | None => (Err r, s) end.

Definition of_crud {A} (r : result CrudError A) : result message A :=
  match r with Ok a => Ok a | Err e => Err (OfCrud e) end.

Definition parse_action (s : string) : option Action :=
  let s := to_lowercase s in
  if decide (s = "allow")%string then Some Allow
  else if decide (s = "block")%string then Some Block else None.
Definition parse_protocol (p : string) : result message AclProtocol :=
  let s := to_lowercase p in
  if decide (s = "tcp")%string then Ok Tcp
  else if decide (s = "udp")%string then Ok Udp
  else if decide (s = "both" \/ s = "*")%string then Ok Both
  else Err (Text ("Invalid protocol: " +:+ p)).

Definition request_to_rule (req : AddRuleRequest) : result message AclRule :=
  action ← ok_or (Text "Invalid action. Must be 'allow' or 'block'") (parse_action (rq_action req));
  protocols ← collect parse_protocol (rq_protocols req);
  if decide (rq_destinations req = []) then Err (Text "Destinations cannot be empty")
  else if decide (rq_ports req = []) then Err (Text "Ports cannot be empty")
  else Ok (mkAclRule action (rq_description req) (rq_destinations req) (rq_ports req) protocols
             (rq_priority req)).

Definition load_current_config (s : state) : result message AclConfig * state :=
  match acl_config_path s with
  | None => (Err (Text "ACL config path not set"), s)
  | Some config_path => let '(r, d) := load_config config_path (on_disk s) in (r, set_disk d s)
  end.

Definition save_and_reload (now : Z) (config : AclConfig) (s : state) : result message () * state :=
  match acl_config_path s with
  | None => (Err (Text "ACL config path not set"), s)
  | Some config_path =>
    match validate config with
    | Err e => (Err (OfAcl e), s)
    | Ok _ =>
      match save_config now config config_path (on_disk s) with
      | (Err e, d) => (Err e, set_disk d s)
      | (Ok _, d) =>
        let s := set_disk d s in
        match acl_engine s with
        | Some acl_engine =>
          match reload config acl_engine with
          | (Err e, acl_engine') => (Err (OfAcl e), set_engine acl_engine' s)
          | (Ok _, acl_engine') => (Ok tt, set_engine acl_engine' s)
          end
        | None => (Ok tt, s)
        end
      end
    end
  end.

Definition acl_disabled : message := Text "ACL is not enabled".
Definition load_failed (e : message) : message := Prefixed "Failed to load config: " e.
Definition save_failed (e : message) : message := Prefixed "Failed to save config: " e.
Definition refused (m : message) : RuleOperationResponse := mkRuleOperationResponse false m None None.

(** *** Groups *)

(** GET /api/acl/groups *)
Definition list_groups : state -> (Z * list GroupSummary) * state := respond (
  config ← run_or_return load_current_config (fun _ => (INTERNAL_SERVER_ERROR, []));
  mret (OK, (fun g => mkGroupSummary (ga_name g) (Z.of_nat (length (ga_rules g)))) <$> ac_groups config)).

(** GET /api/acl/groups/{groupname} *)
Definition get_group_detail (group_name : string) : state -> (Z * GroupDetailResponse) * state := respond (
  config ← run_or_return load_current_config
             (fun _ => (INTERNAL_SERVER_ERROR, mkGroupDetailResponse group_name []));
  mret match List.find (fun g => bool_decide (ga_name g = group_name)) (ac_groups config) with
       | Some g => (OK, mkGroupDetailResponse (ga_name g) (ga_rules g))
       | None => (NOT_FOUND, mkGroupDetailResponse group_name [])
       end).

(** POST /api/acl/groups/{groupname}/rules *)
Definition add_group_rule (now : Z) (group_name : string) (request : AddRuleRequest)
    : state -> (Z * RuleOperationResponse) * state := respond (
  _ ← require_acl (BAD_REQUEST, refused acl_disabled);
  rule ← or_return (request_to_rule request) (fun e => (BAD_REQUEST, refused (Prefixed "Invalid rule: " e)));
  config ← run_or_return load_current_config (fun e => (INTERNAL_SERVER_ERROR, refused (load_failed e)));
  let '(r, config) := AclCrud.add_group_rule group_name rule config in
  _ ← or_return (of_crud r) (fun e => (BAD_REQUEST, refused e));
  _ ← run_or_return (save_and_reload now config) (fun e => (INTERNAL_SERVER_ERROR, refused (save_failed e)));
  mret (OK, mkRuleOperationResponse true (Text ("Rule added to group '" +:+ group_name +:+ "'"))
              (Some rule) None)).

(** PUT /api/acl/groups/{groupname}/rules *)
Definition update_group_rule (now : Z) (group_name : string) (request : UpdateRuleRequest)
    : state -> (Z * RuleOperationResponse) * state := respond (
  _ ← require_acl (BAD_REQUEST, refused acl_disabled);
  new_rule ← or_return (request_to_rule (update request))
               (fun e => (BAD_REQUEST, refused (Prefixed "Invalid rule: " e)));
  let identifier := mkRuleIdentifier (id_destinations (match_rule request)) (id_ports (match_rule request)) in
  config ← run_or_return load_current_config (fun e => (INTERNAL_SERVER_ERROR, refused (load_failed e)));
  let '(r, config) := AclCrud.update_group_rule group_name identifier new_rule config in
  old_rule ← or_return (of_crud r) (fun e => (NOT_FOUND, refused e));
  _ ← run_or_return (save_and_reload now config) (fun e => (INTERNAL_SERVER_ERROR, refused (save_failed e)));
  mret (OK, mkRuleOperationResponse true (Text ("Rule updated in group '" +:+ group_name +:+ "'"))
              (Some new_rule) (Some old_rule))).

(** DELETE /api/acl/groups/{groupname}/rules *)
Definition delete_group_rule (now : Z) (group_name : string) (request : RuleIdentifierRequest)
    : state -> (Z * RuleOperationResponse) * state := respond (
  _ ← require_acl (BAD_REQUEST, refused acl_disabled);
  let identifier := mkRuleIdentifier (id_destinations request) (id_ports request) in
  config ← run_or_return load_current_config (fun e => (INTERNAL_SERVER_ERROR, refused (load_failed e)));
  let '(r, config) := AclCrud.delete_group_rule group_name identifier config in
  deleted_rule ← or_return (of_crud r) (fun e => (NOT_FOUND, refused e));
  _ ← run_or_return (save_and_reload now config) (fun e => (INTERNAL_SERVER_ERROR, refused (save_failed e)));
  mret (OK, mkRuleOperationResponse true (Text ("Rule deleted from group '" +:+ group_name +:+ "'"))
              (Some deleted_rule) None)).

(** POST /api/acl/groups *)
Definition create_group (now : Z) (name : string)
    : state -> (Z * RuleOperationResponse) * state := respond (
  _ ← require_acl (BAD_REQUEST, refused acl_disabled);
  config ← run_or_return load_current_config (fun e => (INTERNAL_SERVER_ERROR, refused (load_failed e)));
  _ ← or_return
        (if existsb (fun g => bool_decide (ga_name g = name)) (ac_groups config)
         then Err (Text ("Group '" +:+ name +:+ "' already exists")) else Ok tt)
        (fun e => (BAD_REQUEST, refused e));
  let config := set_groups config (ac_groups config ++ [mkGroupAcl name []]) in
  _ ← run_or_return (save_and_reload now config) (fun e => (INTERNAL_SERVER_ERROR, refused (save_failed e)));
  mret (OK, mkRuleOperationResponse true (Text ("Group '" +:+ name +:+ "' created")) None None)).

(** DELETE /api/acl/groups/{groupname} *)
Definition delete_group (now : Z) (group_name : string)
    : state -> (Z * DeleteResponse GroupAcl) * state := respond (
  let refused m := mkDeleteResponse false m None in
  _ ← require_acl (BAD_REQUEST, refused acl_disabled);
  config ← run_or_return load_current_config (fun e => (INTERNAL_SERVER_ERROR, refused (load_failed e)));
  let '(r, config) := AclCrud.delete_group group_name config in
  deleted_group ← or_return (of_crud r) (fun e => (NOT_FOUND, refused e));
  _ ← run_or_return (save_and_reload now config) (fun e => (INTERNAL_SERVER_ERROR, refused (save_failed e)));
  mret (OK, mkDeleteResponse true (Text ("Group '" +:+ group_name +:+ "' deleted")) (Some deleted_group))).

(** *** Users *)

(** GET /api/acl/users *)
Definition list_users : state -> (Z * list UserSummary) * state := respond (
  config ← run_or_return load_current_config (fun _ => (INTERNAL_SERVER_ERROR, []));
  mret (OK, (fun u => mkUserSummary (ua_username u) (ua_groups u) (Z.of_nat (length (ua_rules u))))
              <$> ac_users config)).

(** GET /api/acl/users/{username} *)
Definition get_user_detail (username : string) : state -> (Z * UserDetailResponse) * state := respond (
  config ← run_or_return load_current_config
             (fun _ => (INTERNAL_SERVER_ERROR, mkUserDetailResponse username [] []));
  mret match List.find (fun u => bool_decide (ua_username u = username)) (ac_users config) with
       | Some u => (OK, mkUserDetailResponse (ua_username u) (ua_groups u) (ua_rules u))
       | None => (NOT_FOUND, mkUserDetailResponse username [] [])
       end).

(** POST /api/acl/users/{username}/rules *)
Definition add_user_rule (now : Z) (username : string) (request : AddRuleRequest)
    : state -> (Z * RuleOperationResponse) * state := respond (
  _ ← require_acl (BAD_REQUEST, refused acl_disabled);
  rule ← or_return (request_to_rule request) (fun e => (BAD_REQUEST, refused (Prefixed "Invalid rule: " e)));
  config ← run_or_return load_current_config (fun e => (INTERNAL_SERVER_ERROR, refused (load_failed e)));
  let '(r, config) := AclCrud.add_user_rule username rule config in
  _ ← or_return (of_crud r) (fun e => (BAD_REQUEST, refused e));
  _ ← run_or_return (save_and_reload now config) (fun e => (INTERNAL_SERVER_ERROR, refused (save_failed e)));
  mret (OK, mkRuleOperationResponse true (Text ("Rule added to user '" +:+ username +:+ "'"))
              (Some rule) None)).

(** PUT /api/acl/users/{username}/rules *)
Definition update_user_rule (now : Z) (username : string) (request : UpdateRuleRequest)
    : state -> (Z * RuleOperationResponse) * state := respond (
  _ ← require_acl (BAD_REQUEST, refused acl_disabled);
  new_rule ← or_return (request_to_rule (update request))
               (fun e => (BAD_REQUEST, refused (Prefixed "Invalid rule: " e)));
  let identifier := mkRuleIdentifier (id_destinations (match_rule request)) (id_ports (match_rule request)) in
  config ← run_or_return load_current_config (fun e => (INTERNAL_SERVER_ERROR, refused (load_failed e)));
  let '(r, config) := AclCrud.update_user_rule username identifier new_rule config in
  old_rule ← or_return (of_crud r) (fun e => (NOT_FOUND, refused e));
  _ ← run_or_return (save_and_reload now config) (fun e => (INTERNAL_SERVER_ERROR, refused (save_failed e)));
  mret (OK, mkRuleOperationResponse true (Text ("Rule updated for user '" +:+ username +:+ "'"))
              (Some new_rule) (Some old_rule))).

(** DELETE /api/acl/users/{username}/rules *)
Definition delete_user_rule (now : Z) (username : string) (request : RuleIdentifierRequest)
    : state -> (Z * RuleOperationResponse) * state := respond (
  _ ← require_acl (BAD_REQUEST, refused acl_disabled);
  let identifier := mkRuleIdentifier (id_destinations request) (id_ports request) in
  config ← run_or_return load_current_config (fun e => (INTERNAL_SERVER_ERROR, refused (load_failed e)));
  let '(r, config) := AclCrud.delete_user_rule username identifier config in
  deleted_rule ← or_return (of_crud r) (fun e => (NOT_FOUND, refused e));
  _ ← run_or_return (save_and_reload now config) (fun e => (INTERNAL_SERVER_ERROR, refused (save_failed e)));
  mret (OK, mkRuleOperationResponse true (Text ("Rule deleted from user '" +:+ username +:+ "'"))
              (Some deleted_rule) None)).

(** *** Global settings and search *)

Definition policy_str (a : Action) : string := match a with Allow => "allow" | Block => "block" end.

(** GET /api/acl/global *)
Definition get_global_settings : state -> (Z * string) * state := respond (
  config ← run_or_return load_current_config (fun _ => (INTERNAL_SERVER_ERROR, "unknown"%string));
  mret (OK, policy_str (default_policy (ac_global config)))).

(** PUT /api/acl/global *)
Definition update_global_settings (now : Z) (requested : string)
    : state -> (Z * UpdateGlobalSettingsResponse) * state := respond (
  _ ← require_acl (BAD_REQUEST,
        mkUpdateGlobalSettingsResponse false acl_disabled "unknown" "unknown");
  new_policy ← or_return (ok_or (Text "Invalid policy. Must be 'allow' or 'block'") (parse_action requested))
    (fun e => (BAD_REQUEST, mkUpdateGlobalSettingsResponse false e "unknown" requested));
  config ← run_or_return load_current_config (fun e =>
    (INTERNAL_SERVER_ERROR, mkUpdateGlobalSettingsResponse false (load_failed e) "unknown" "unknown"));
  let old_policy_str := policy_str (default_policy (ac_global config)) in
  let config := mkAclConfig (mkGlobalAclConfig new_policy) (ac_users config) (ac_groups config) in
  _ ← run_or_return (save_and_reload now config) (fun e =>
    (INTERNAL_SERVER_ERROR, mkUpdateGlobalSettingsResponse false (save_failed e) old_policy_str requested));
  mret (OK, mkUpdateGlobalSettingsResponse true (Text "Global policy updated") old_policy_str requested)).

(** POST /api/acl/search *)
Definition search_rules (criteria : RuleSearchCriteria) : state -> (Z * RuleSearchResponse) * state := respond (
  config ← run_or_return load_current_config (fun _ => (INTERNAL_SERVER_ERROR, mkRuleSearchResponse [] 0));
  let matches := AclCrud.search_rules config criteria in
  mret (OK, mkRuleSearchResponse matches (Z.of_nat (length matches)))).

(** *** Users and their groups *)

(** POST /api/acl/users *)
Definition create_user (now : Z) (username : string)
    : state -> (Z * RuleOperationResponse) * state := respond (
  _ ← require_acl (BAD_REQUEST, refused acl_disabled);
  config ← run_or_return load_current_config (fun e => (INTERNAL_SERVER_ERROR, refused (load_failed e)));
  let '(r, config) := AclCrud.create_user username config in
  _ ← or_return (of_crud r) (fun e => (BAD_REQUEST, refused e));
  _ ← run_or_return (save_and_reload now config) (fun e => (INTERNAL_SERVER_ERROR, refused (save_failed e)));
  mret (OK, mkRuleOperationResponse true (Text ("User '" +:+ username +:+ "' created")) None None)).

(** DELETE /api/acl/users/{username} *)
Definition delete_user (now : Z) (username : string)
    : state -> (Z * DeleteResponse UserAcl) * state := respond (
  let refused m := mkDeleteResponse false m None in
  _ ← require_acl (BAD_REQUEST, refused acl_disabled);
  config ← run_or_return load_current_config (fun e => (INTERNAL_SERVER_ERROR, refused (load_failed e)));
  let '(r, config) := AclCrud.delete_user username config in
  deleted_user ← or_return (of_crud r) (fun e => (NOT_FOUND, refused e));
  _ ← run_or_return (save_and_reload now config) (fun e => (INTERNAL_SERVER_ERROR, refused (save_failed e)));
  mret (OK, mkDeleteResponse true (Text ("User '" +:+ username +:+ "' deleted")) (Some deleted_user))).

(** POST /api/acl/users/{username}/groups *)
Definition add_user_to_group (now : Z) (username group_name : string)
    : state -> (Z * UserGroupOperationResponse) * state := respond (
  let refused := mkUserGroupOperationResponse false in
  _ ← require_acl (BAD_REQUEST, refused acl_disabled);
  config ← run_or_return load_current_config (fun e => (INTERNAL_SERVER_ERROR, refused (load_failed e)));
  let '(r, config) := AclCrud.add_user_to_group username group_name config in
  _ ← or_return (of_crud r) (fun e => (BAD_REQUEST, refused e));
  _ ← run_or_return (save_and_reload now config) (fun e => (INTERNAL_SERVER_ERROR, refused (save_failed e)));
  mret (OK, mkUserGroupOperationResponse true
    (Text ("User '" +:+ username +:+ "' added to group '" +:+ group_name +:+ "'")))).

(** DELETE /api/acl/users/{username}/groups/{groupname} *)
Definition remove_user_from_group (now : Z) (username group_name : string)
    : state -> (Z * UserGroupOperationResponse) * state := respond (
  let refused := mkUserGroupOperationResponse false in
  _ ← require_acl (BAD_REQUEST, refused acl_disabled);
  config ← run_or_return load_current_config (fun e => (INTERNAL_SERVER_ERROR, refused (load_failed e)));
  let '(r, config) := AclCrud.remove_user_from_group username group_name config in
  _ ← or_return (of_crud r) (fun e => (NOT_FOUND, refused e));
  _ ← run_or_return (save_and_reload now config) (fun e => (INTERNAL_SERVER_ERROR, refused (save_failed e)));
  mret (OK, mkUserGroupOperationResponse true
    (Text ("User '" +:+ username +:+ "' removed from group '" +:+ group_name +:+ "'")))).
End api.
