(* ===== verification/AclApiSpec.v ===== *)
(** * Properties of the access control endpoints

    An edit of the rules over the REST interface against its meaning on the
    configuration ([meaning]): what the file and the engine are afterwards, when
    the disk works and when it does not, and what two edits at once do. *)
From S2P Require Import Prelude Net Acl Wildcard AclEngine AclSpec AclCrud AclCrudSpec AclFile AclFileSpec AclApi.

Section api.
Context {acl_deps : AclDeps} {sort : UnstableSort rule_leb} {toml : Toml}.

(** ** The requests that edit *)

Inductive edit : Type :=
| EAddGroupRule (g : string) (r : AddRuleRequest)
| EUpdateGroupRule (g : string) (u : UpdateRuleRequest)
| EDeleteGroupRule (g : string) (i : RuleIdentifierRequest)
| ECreateGroup (g : string)
| EDeleteGroup (g : string)
| EAddUserRule (u : string) (r : AddRuleRequest)
| EUpdateUserRule (u : string) (r : UpdateRuleRequest)
| EDeleteUserRule (u : string) (i : RuleIdentifierRequest)
| EPolicy (requested : string)
| ECreateUser (u : string)
| EDeleteUser (u : string)
| EAddUserToGroup (u g : string)
| ERemoveUserFromGroup (u g : string).

Definition status_of {R} (x : (Z * R) * state) : Z * state := (x.1.1, x.2).
Definition serve (now : Z) (e : edit) (s : state) : Z * state :=
  match e with
  | EAddGroupRule g r => status_of (AclApi.add_group_rule now g r s)
  | EUpdateGroupRule g u => status_of (AclApi.update_group_rule now g u s)
  | EDeleteGroupRule g i => status_of (AclApi.delete_group_rule now g i s)
  | ECreateGroup g => status_of (AclApi.create_group now g s)
  | EDeleteGroup g => status_of (AclApi.delete_group now g s)
  | EAddUserRule u r => status_of (AclApi.add_user_rule now u r s)
  | EUpdateUserRule u r => status_of (AclApi.update_user_rule now u r s)
  | EDeleteUserRule u i => status_of (AclApi.delete_user_rule now u i s)
  | EPolicy p => status_of (AclApi.update_global_settings now p s)
  | ECreateUser u => status_of (AclApi.create_user now u s)
  | EDeleteUser u => status_of (AclApi.delete_user now u s)
  | EAddUserToGroup u g => status_of (AclApi.add_user_to_group now u g s)
  | ERemoveUserFromGroup u g => status_of (AclApi.remove_user_from_group now u g s)
  end.

(** The configuration that an edit asks for, or the status that refuses it. *)
Definition coded {A} (code : Z) (m : crud A) (cfg : AclConfig) : result Z AclConfig :=
  match m cfg with (Ok _, cfg') => Ok cfg' | (Err _, _) => Err code end.
Definition with_rule (req : AddRuleRequest) (f : AclRule -> AclConfig -> result Z AclConfig)
    (cfg : AclConfig) : result Z AclConfig :=
  match request_to_rule req with Ok rule => f rule cfg | Err _ => Err BAD_REQUEST end.
Definition identifier (i : RuleIdentifierRequest) : RuleIdentifier :=
  mkRuleIdentifier (id_destinations i) (id_ports i).

Definition meaning (e : edit) (cfg : AclConfig) : result Z AclConfig :=
  match e with
  | EAddGroupRule g r => with_rule r (fun rule => coded BAD_REQUEST (AclCrud.add_group_rule g rule)) cfg
  | EUpdateGroupRule g u => with_rule (update u) (fun rule =>
      coded NOT_FOUND (AclCrud.update_group_rule g (identifier (match_rule u)) rule)) cfg
  | EDeleteGroupRule g i => coded NOT_FOUND (AclCrud.delete_group_rule g (identifier i)) cfg
  | ECreateGroup g =>
    if existsb (fun gr => bool_decide (ga_name gr = g)) (ac_groups cfg) then Err BAD_REQUEST
    else Ok (set_groups cfg (ac_groups cfg ++ [mkGroupAcl g []]))
  | EDeleteGroup g => coded NOT_FOUND (AclCrud.delete_group g) cfg
  | EAddUserRule u r => with_rule r (fun rule => coded BAD_REQUEST (AclCrud.add_user_rule u rule)) cfg
  | EUpdateUserRule u r => with_rule (update r) (fun rule =>
      coded NOT_FOUND (AclCrud.update_user_rule u (identifier (match_rule r)) rule)) cfg
  | EDeleteUserRule u i => coded NOT_FOUND (AclCrud.delete_user_rule u (identifier i)) cfg
  | EPolicy p =>
    match parse_action p with
    | Some a => Ok (mkAclConfig (mkGlobalAclConfig a) (ac_users cfg) (ac_groups cfg))
    | None => Err BAD_REQUEST
    end
  | ECreateUser u => coded BAD_REQUEST (AclCrud.create_user u) cfg
  | EDeleteUser u => coded NOT_FOUND (AclCrud.delete_user u) cfg
  | EAddUserToGroup u g => coded BAD_REQUEST (AclCrud.add_user_to_group u g) cfg
  | ERemoveUserFromGroup u g => coded NOT_FOUND (AclCrud.remove_user_from_group u g) cfg
  end.

(** ** A handler is a load, its meaning, and a save *)

Definition bad_rule (req : AddRuleRequest) : bool :=
  match request_to_rule req with Ok _ => false | Err _ => true end.
(** Refused before the file is looked at. *)
Definition malformed (e : edit) : bool :=
  match e with
  | EAddGroupRule _ r | EAddUserRule _ r => bad_rule r
  | EUpdateGroupRule _ u | EUpdateUserRule _ u => bad_rule (update u)
  | EPolicy p => match parse_action p with Some _ => false | None => true end
  | _ => false
  end.

Definition prepare (e : edit) (s : state) : result Z AclConfig * state :=
  match acl_engine s with
  | None => (Err BAD_REQUEST, s)
  | Some _ =>
    if malformed e then (Err BAD_REQUEST, s)
    else match load_current_config s with
         | (Err _, s1) => (Err INTERNAL_SERVER_ERROR, s1)
         | (Ok cfg, s1) => (meaning e cfg, s1)
         end
  end.
Definition finish (now : Z) (cfg : AclConfig) (s : state) : Z * state :=
  match save_and_reload now cfg s with
  | (Ok _, s') => (OK, s')
  | (Err _, s') => (INTERNAL_SERVER_ERROR, s')
  end.

Ltac handler_unfold :=
  unfold status_of, respond, mbind, handler_bind, mret, handler_ret, run_or_return, or_return,
    require_acl, of_crud.

Ltac crud_destruct :=
  match goal with
  | |- context [AclCrud.add_group_rule ?g ?r ?c] => destruct (AclCrud.add_group_rule g r c) as [[]]
  | |- context [AclCrud.update_group_rule ?g ?i ?r ?c] => destruct (AclCrud.update_group_rule g i r c) as [[]]
  | |- context [AclCrud.delete_group_rule ?g ?i ?c] => destruct (AclCrud.delete_group_rule g i c) as [[]]
  | |- context [AclCrud.delete_group ?g ?c] => destruct (AclCrud.delete_group g c) as [[]]
  | |- context [AclCrud.add_user_rule ?u ?r ?c] => destruct (AclCrud.add_user_rule u r c) as [[]]
  | |- context [AclCrud.update_user_rule ?u ?i ?r ?c] => destruct (AclCrud.update_user_rule u i r c) as [[]]
  | |- context [AclCrud.delete_user_rule ?u ?i ?c] => destruct (AclCrud.delete_user_rule u i c) as [[]]
  | |- context [AclCrud.create_user ?u ?c] => destruct (AclCrud.create_user u c) as [[]]
  | |- context [AclCrud.delete_user ?u ?c] => destruct (AclCrud.delete_user u c) as [[]]
  | |- context [AclCrud.add_user_to_group ?u ?g ?c] => destruct (AclCrud.add_user_to_group u g c) as [[]]
  | |- context [AclCrud.remove_user_from_group ?u ?g ?c] =>
    destruct (AclCrud.remove_user_from_group u g c) as [[]]
  end.

Lemma serve_prepare now e s :
  serve now e s =
  match prepare e s with (Err code, s1) => (code, s1) | (Ok cfg, s1) => finish now cfg s1 end.
Proof.
  unfold prepare, finish.
  destruct e; cbn [serve meaning malformed];
    unfold AclApi.add_group_rule, AclApi.update_group_rule, AclApi.delete_group_rule, create_group,
      AclApi.delete_group, AclApi.add_user_rule, AclApi.update_user_rule, AclApi.delete_user_rule,
      update_global_settings, AclApi.create_user, AclApi.delete_user, AclApi.add_user_to_group,
      AclApi.remove_user_from_group, with_rule, coded, bad_rule, identifier;
    handler_unfold; (destruct (acl_engine s); [|done]).
  all: try (destruct (request_to_rule _); [|done]).
  all: try (destruct (parse_action _); [|done]; cbn [ok_or]).
  all: destruct (load_current_config s) as [[cfg|e] s1]; [|done].
  all: try (crud_destruct; [|done]).
  all: try (destruct (existsb _ _); [done|]).
  all: match goal with |- context [save_and_reload ?n ?c ?t] => by destruct (save_and_reload n c t) as [[]] end.
Qed.

(** ** Edits on a working disk *)

Definition the_file (p : path) (s : state) : option string := files (on_disk s) !! p.

(** The server with rules: its file [p] holds the valid configuration [cfg], its
    engine is [eng], and the disk works. *)
Record serving (p : path) (cfg : AclConfig) (eng : AclEngine) (s : state) : Prop := mkServing {
  sv_path : acl_config_path s = Some p;
  sv_engine : acl_engine s = Some eng;
  sv_file : exists text, the_file p s = Some text /\ from_str text = Ok cfg;
  sv_valid : validate cfg = Ok ();
  sv_clean : clean (faults (on_disk s));
}.

(** A computation of a handler that changed neither the file nor the engine. *)
Definition unchanged (p : path) (s s' : state) : Prop :=
  acl_config_path s' = acl_config_path s /\ acl_engine s' = acl_engine s /\
  the_file p s' = the_file p s /\ clean (faults (on_disk s')).

Lemma unchanged_serving p cfg eng s s' : serving p cfg eng s -> unchanged p s s' -> serving p cfg eng s'.
Proof. intros [] (? & ? & Hf & ?). split; [congruence..|by rewrite Hf|done|done]. Qed.

Lemma load_current_serving p cfg eng s : serving p cfg eng s ->
  exists s1, load_current_config s = (Ok cfg, s1) /\ unchanged p s s1.
Proof.
  intros [Hp He (text & Hf & Ht) Hv Hc]. unfold load_current_config, load_config, read_to_string.
  rewrite Hp. edestruct (clean_op (A := string)) as (l & E & Hl); [exact Hc|]. rewrite E. cbn.
  unfold the_file in Hf. rewrite Hf. cbn. rewrite Ht, Hv. by eexists.
Qed.

Lemma malformed_meaning e cfg : malformed e = true -> meaning e cfg = Err BAD_REQUEST.
Proof.
  destruct e; cbn; unfold bad_rule, with_rule; try done;
    (destruct (request_to_rule _) || destruct (parse_action _)); done.
Qed.

Lemma prepare_serving p cfg eng s e : serving p cfg eng s ->
  exists s1, prepare e s = (meaning e cfg, s1) /\ unchanged p s s1.
Proof.
  intros Hs. unfold prepare. rewrite (sv_engine _ _ _ _ Hs).
  destruct (malformed e) eqn:Em.
  - rewrite malformed_meaning by done. exists s. by destruct Hs.
  - destruct (load_current_serving _ _ _ _ Hs) as (s1 & -> & Hu). by exists s1.
Qed.

(** What an edit that is not refused does, whatever the rules became meanwhile. *)
Definition installed (p : path) (eng : AclEngine) (cfg' : AclConfig) (s : state) (r : Z * state) : Prop :=
  match validate cfg', to_string_pretty cfg' with
  | Ok _, Ok text =>
    acl_config_path r.2 = Some p /\ clean (faults (on_disk r.2)) /\ the_file p r.2 = Some text /\
    match AclEngine_new cfg' with
    | Ok eng' => r.1 = OK /\ acl_engine r.2 = Some eng'
    | Err _ => r.1 = INTERNAL_SERVER_ERROR /\ acl_engine r.2 = Some eng
    end
  | _, _ => r.1 = INTERNAL_SERVER_ERROR /\ unchanged p s r.2
  end.

Lemma finish_serving now p cfg eng s cfg' : serving p cfg eng s ->
  installed p eng cfg' s (finish now cfg' s).
Proof.
  intros Hs. unfold installed, finish, save_and_reload. rewrite (sv_path _ _ _ _ Hs).
  destruct (validate cfg') as [[]|] eqn:Hv; [|by destruct Hs].
  pose proof (save_config_clean now cfg' p (on_disk s) (sv_clean _ _ _ _ Hs) Hv) as Hsave.
  destruct (save_config _ _ _ _) as [r d]. destruct Hsave as (Hc & Hsave).
  destruct (to_string_pretty cfg') as [text|].
  - destruct Hsave as (-> & Hf). cbn. rewrite (sv_engine _ _ _ _ Hs). unfold reload, AclEngine_new. rewrite Hv.
    destruct (compile_config cfg'); by destruct Hs.
  - destruct Hsave as (-> & Hf). by destruct Hs.
Qed.

(** C15: editing the rules over the REST interface.  On a working disk every one
    of the thirteen editing requests amounts to its meaning on the configuration
    in the file: a request that is malformed, or that the configuration refuses,
    answers 400 or 404 and changes nothing; one whose result is not a valid
    configuration (a deleted group still in use) answers 500 and changes nothing;
    any other writes the new configuration to the file, and answers 200 with an
    engine that is the one compiled from it.  When the new rules do not compile
    the answer is 500 and the engine stays, although the file already has the
    new rules. *)
Theorem acl_edit_correct now e p cfg eng s : serving p cfg eng s ->
  match meaning e cfg with
  | Err code => (serve now e s).1 = code /\ unchanged p s (serve now e s).2
  | Ok cfg' => exists s1, unchanged p s s1 /\ installed p eng cfg' s1 (serve now e s)
  end.
Proof.
  intros Hs. rewrite serve_prepare. destruct (prepare_serving _ _ _ _ e Hs) as (s1 & -> & Hu).
  destruct (meaning e cfg) as [cfg'|code]; [|done].
  exists s1. split; [done|]. eapply finish_serving, unchanged_serving; done.
Qed.

(** Concurrent edits of the rules are lost.  Two requests that both read the
    file before either writes it are both answered 200, and the file and the
    engine are then those of the second alone: the first edit, confirmed to its
    client, is gone. *)
Theorem acl_lost_update now1 now2 e1 e2 p cfg eng s cfg1 cfg2 eng1 eng2 text1 text2 :
  serving p cfg eng s ->
  meaning e1 cfg = Ok cfg1 -> meaning e2 cfg = Ok cfg2 ->
  validate cfg1 = Ok () -> validate cfg2 = Ok () ->
  AclEngine_new cfg1 = Ok eng1 -> AclEngine_new cfg2 = Ok eng2 ->
  to_string_pretty cfg1 = Ok text1 -> to_string_pretty cfg2 = Ok text2 ->
  let '(r1, s1) := prepare e1 s in
  let '(r2, s2) := prepare e2 s1 in
  r1 = Ok cfg1 /\ r2 = Ok cfg2 /\
  let '(code1, s3) := finish now1 cfg1 s2 in
  let '(code2, s4) := finish now2 cfg2 s3 in
  code1 = OK /\ code2 = OK /\
  the_file p s4 = Some text2 /\ acl_engine s4 = Some eng2 /\
  (serve now2 e2 s).1 = OK /\ the_file p (serve now2 e2 s).2 = the_file p s4 /\
  acl_engine (serve now2 e2 s).2 = acl_engine s4.
Proof.
  intros Hs M1 M2 V1 V2 N1 N2 T1 T2.
  pose proof (prepare_serving _ _ _ _ e2 Hs) as (s' & E' & U').
  rewrite serve_prepare, E', M2.
  pose proof (finish_serving now2 p cfg eng s' cfg2 (unchanged_serving _ _ _ _ _ Hs U')) as I'.
  destruct (prepare_serving _ _ _ _ e1 Hs) as (s1 & -> & U1).
  pose proof (unchanged_serving _ _ _ _ _ Hs U1) as Hs1.
  destruct (prepare_serving _ _ _ _ e2 Hs1) as (s2 & -> & U2).
  pose proof (unchanged_serving _ _ _ _ _ Hs1 U2) as Hs2.
  split; [done|]. split; [done|].
  pose proof (finish_serving now1 p cfg eng s2 cfg1 Hs2) as I1.
  unfold installed in I', I1. rewrite V1, T1, N1 in I1. rewrite V2, T2, N2 in I'.
  destruct (finish now1 cfg1 s2) as [code1 s3]; cbn in I1. destruct I1 as (P1 & C1 & F1 & -> & G1).
  assert (Hs3 : serving p cfg1 eng1 s3) by (split; eauto using from_to_string).
  pose proof (finish_serving now2 p cfg1 eng1 s3 cfg2 Hs3) as I2.
  unfold installed in I2. rewrite V2, T2, N2 in I2.
  destruct (finish now2 cfg2 s3) as [code2 s4]; cbn in I2. destruct I2 as (_ & _ & F2 & -> & G2).
  destruct I' as (_ & _ & F' & -> & G'). by rewrite F2, G2, F', G'.
Qed.
End api.

(** ** A concrete file *)

#[local] Existing Instance stable_unstable_sort.
#[local] Instance UserAcl_eq_dec : EqDecision UserAcl.
Proof. solve_decision. Defined.
#[local] Instance GroupAcl_eq_dec : EqDecision GroupAcl.
Proof. solve_decision. Defined.
#[local] Instance GlobalAclConfig_eq_dec : EqDecision GlobalAclConfig.
Proof. solve_decision. Defined.
#[local] Instance AclConfig_eq_dec : EqDecision AclConfig.
Proof. solve_decision. Defined.

(** A serialization of the configurations of a table by their position in it. *)
Definition table_find (table : list AclConfig) (c : AclConfig) : result string string :=
  match list_find (fun c' => c' = c) table with Some (i, _) => Ok (fmt_Z (Z.of_nat i)) | None => Err "unknown" end.
Definition table_read (table : list AclConfig) (s : string) : result string AclConfig :=
  match list_find (fun p => fmt_Z (Z.of_nat p.1) = s) (imap pair table) with
  | Some (_, (_, c)) => Ok c
  | None => Err "unknown"
  end.

Definition new_rule : AddRuleRequest :=
  mkAddRuleRequest "block" "No mail" ["*"] ["25"] ["tcp"] 10.
Definition the_rule : AclRule := mkAclRule Block "No mail" ["*"] ["25"] [Tcp] 10.
Definition add_to_group : edit := EAddGroupRule "developers" new_rule.
Definition add_to_user : edit := EAddUserRule "bob" new_rule.
Definition group_config : AclConfig :=
  set_groups demo_config (fmap (fun g => mkGroupAcl (ga_name g) (ga_rules g ++ [the_rule])) (ac_groups demo_config)).
Definition user_config : AclConfig :=
  set_users demo_config (ac_users demo_config ++ [mkUserAcl "bob" [] [the_rule]]).
Definition table : list AclConfig := [demo_config; group_config; user_config].

Lemma table_read_find c s : table_find table c = Ok s -> table_read table s = Ok c.
Proof.
  unfold table_find. destruct (list_find _ _) as [[i c']|] eqn:E; [|done].
  intros [= <-]. apply list_find_Some in E as (E & -> & _).
  destruct i as [|[|[|i]]]; cbn in E; simplify_eq; vm_compute; reflexivity.
Qed.
#[local] Instance demo_toml : Toml := {
  to_string_pretty := table_find table; from_str := table_read table; from_to_string := table_read_find }.

Definition demo_path : path := ("/etc/rustsocks", "acl.toml")%string.
Definition demo_files : gmap path string := {[ demo_path := "0"%string ]}.
Definition demo_state (eng : AclEngine) : state :=
  mkState (Some demo_path) (Some eng) (mkDisk demo_files []).

Lemma demo_serving eng : serving demo_path demo_config eng (demo_state eng).
Proof.
  split; [done|done| |by vm_compute|constructor].
  exists "0"%string. split; [done|by vm_compute].
Qed.

Lemma engine_exists cfg : is_ok (AclEngine_new cfg) = true -> exists eng, AclEngine_new cfg = Ok eng.
Proof. destruct (AclEngine_new cfg); [by eexists|done]. Qed.

(** The disk fills up while the temporary file is written. *)
Lemma save_config_atomic_witness :
  let d := mkDisk demo_files [None; Some (mkFault "No space left on device" (Some "[glo"%string))] in
  one_fault (faults d) /\
  is_ok (save_config 7 group_config demo_path d).1 = false /\
  match save_config 7 group_config demo_path d with
  | (Ok _, d') => exists text, validate group_config = Ok () /\ to_string_pretty group_config = Ok text /\
      files d' !! demo_path = Some text
  | (Err _, d') => files d' !! demo_path = files d !! demo_path
  end.
Proof.
  intros d. assert (H : one_fault (faults d)) by (apply one_fault_later, one_fault_now; constructor).
  split; [exact H|]. split; [vm_compute; reflexivity|].
  exact (save_config_atomic 7 group_config demo_path d H).
Defined.

Lemma acl_edit_correct_witness : exists eng,
  serving demo_path demo_config eng (demo_state eng) /\
  meaning add_to_group demo_config = Ok group_config /\
  exists s1, unchanged demo_path (demo_state eng) s1 /\
    installed demo_path eng group_config s1 (serve 7 add_to_group (demo_state eng)).
Proof.
  destruct (engine_exists demo_config) as (eng & _); [vm_compute; reflexivity|].
  exists eng. split; [apply demo_serving|]. split; [vm_compute; reflexivity|].
  exact (acl_edit_correct 7 add_to_group demo_path demo_config eng (demo_state eng) (demo_serving eng)).
Defined.

Lemma acl_lost_update_witness : exists eng eng1 eng2,
  serving demo_path demo_config eng (demo_state eng) /\
  AclEngine_new group_config = Ok eng1 /\ AclEngine_new user_config = Ok eng2 /\
  let s := demo_state eng in
  let '(r1, s1) := prepare add_to_group s in
  let '(r2, s2) := prepare add_to_user s1 in
  r1 = Ok group_config /\ r2 = Ok user_config /\
  let '(code1, s3) := finish 7 group_config s2 in
  let '(code2, s4) := finish 8 user_config s3 in
  code1 = OK /\ code2 = OK /\
  the_file demo_path s4 = Some "2"%string /\ acl_engine s4 = Some eng2 /\
  (serve 8 add_to_user s).1 = OK /\ the_file demo_path (serve 8 add_to_user s).2 = the_file demo_path s4 /\
  acl_engine (serve 8 add_to_user s).2 = acl_engine s4.
Proof.
  destruct (engine_exists demo_config) as (eng & _); [vm_compute; reflexivity|].
  destruct (engine_exists group_config) as (eng1 & E1); [vm_compute; reflexivity|].
  destruct (engine_exists user_config) as (eng2 & E2); [vm_compute; reflexivity|].
  exists eng, eng1, eng2. split; [apply demo_serving|]. split; [exact E1|]. split; [exact E2|].
  exact (acl_lost_update 7 8 add_to_group add_to_user demo_path demo_config eng (demo_state eng)
    group_config user_config eng1 eng2 "1" "2" (demo_serving eng) eq_refl eq_refl eq_refl eq_refl E1 E2
    eq_refl eq_refl).
Defined.

(** A second failure is not survived: the restoring copy of the intact file
    cuts it short. *)
Lemma save_config_two_faults :
  let full := Some (mkFault "No space left on device" (Some "")) in
  files (save_config 7 group_config demo_path (mkDisk demo_files [None; full; full])).2 !! demo_path = Some ""%string.
Proof. vm_compute. reflexivity. Qed.
