(* ===== verification/TokenBucket.v ===== *)
(** * Token buckets

    src/src/qos/token_bucket.rs.  The times of a bucket are nanoseconds of one
    clock; every operation takes the instant at which it reads the clock.  The
    [f64] computations are those of IEEE binary64, executed by [SpecFloat].  The
    sequential operations come first, then the same compare-and-swap loops as
    steps of concurrent threads on the shared counter. *)
From S2P Require Import Prelude.
From Stdlib Require Import Floats.SpecFloat.

(** ** Floating point and durations *)

Definition f64 : Type := spec_float.
Definition f64_of_Z (z : Z) : f64 := binary_normalize 53 1024 z 0 false.
Definition f64_mul : f64 -> f64 -> f64 := SFmul 53 1024.
Definition f64_div : f64 -> f64 -> f64 := SFdiv 53 1024.
Definition f64_add : f64 -> f64 -> f64 := SFadd 53 1024.

(** [as u64]: truncation, saturating at the bounds of the type; NaN gives 0. *)
Definition f64_to_u64 (f : f64) : Z :=
  match f with
  | S754_finite false m e => Z.min (Z.shiftl (Zpos m) e) u64_max
  | S754_infinity false => u64_max
  | _ => 0
  end.

Definition NANOS_PER_SEC : Z := 1000000000.
Definition ns_of_secs (s : Z) : Z := s * NANOS_PER_SEC.

Definition as_secs_f64 (ns : Z) : f64 :=
  f64_add (f64_of_Z (ns / NANOS_PER_SEC))
    (f64_div (f64_of_Z (ns mod NANOS_PER_SEC)) (f64_of_Z NANOS_PER_SEC)).

(** [Duration::from_secs_f64] rounds to the nearest nanosecond, ties to even; a
    value it cannot represent is a panic. *)
Definition round_half_even (num den : Z) : Z :=
  let q := num / den in
  let r := num mod den in
  if 2 * r <? den then q else if den <? 2 * r then q + 1 else if Z.even q then q else q + 1.
Definition from_secs_f64 (f : f64) : option Z :=
  match f with
  | S754_zero _ => Some 0
  | S754_finite false m e =>
    let ns := round_half_even (Zpos m * NANOS_PER_SEC * 2 ^ Z.max e 0) (2 ^ Z.max (- e) 0) in
    if ns / NANOS_PER_SEC <=? u64_max then Some ns else None
  | _ => None
  end.
Definition f64_max (a b : f64) : f64 := if SFltb a b then b else a.
Definition f64_0_001 : f64 := f64_div (f64_of_Z 1) (f64_of_Z 1000).

(** ** The bucket *)

Record TokenBucket : Type := mkTokenBucket {
  capacity : Z;
  tokens : Z;
  refill_rate : Z;
  last_refill : Z;
}.

Definition TokenBucket_new (now capacity refill_rate : Z) : TokenBucket :=
  mkTokenBucket capacity capacity refill_rate now.

(** The compare-and-swap loop of [add_tokens], when no other thread interferes. *)
Definition add_tokens (amount : Z) (b : TokenBucket) : TokenBucket :=
  let new_value := Z.min (sat_add64 (tokens b) amount) (capacity b) in
  mkTokenBucket (capacity b) new_value (refill_rate b) (last_refill b).

(** The tokens for a time, [(elapsed.as_secs_f64() * rate as f64) as u64]. *)
Definition tokens_for (elapsed rate : Z) : Z :=
  f64_to_u64 (f64_mul (as_secs_f64 elapsed) (f64_of_Z rate)).

Definition refill_sync (now : Z) (b : TokenBucket) : TokenBucket :=
  let elapsed := Z.max 0 (now - last_refill b) in
  if 0 <? elapsed / 1000000 then
    let tokens_to_add := tokens_for elapsed (refill_rate b) in
    if 0 <? tokens_to_add then
      let b' := add_tokens tokens_to_add b in
      mkTokenBucket (capacity b') (tokens b') (refill_rate b') now
    else b
  else b.

Definition try_consume (now amount : Z) (b : TokenBucket) : result Z () * TokenBucket :=
  let b := refill_sync now b in
  let current := tokens b in
  if amount <=? current
  then (Ok (), mkTokenBucket (capacity b) (current - amount) (refill_rate b) (last_refill b))
  else (Err (amount - current), b).

Definition calculate_wait_time (deficit : Z) (b : TokenBucket) : option Z :=
  if refill_rate b =? 0 then Some (ns_of_secs 1)
  else
    let wait_secs := f64_div (f64_of_Z deficit) (f64_of_Z (refill_rate b)) in
    from_secs_f64 (f64_max wait_secs f64_0_001).

(** [consume]: each round of its loop tries at one instant and, after the sleep,
    refills at a later one.  [None] is a loop that is still waiting when the
    given rounds are over. *)
Fixpoint consume (rounds : list (Z * Z)) (amount : Z) (b : TokenBucket) : option () * TokenBucket :=
  match rounds with
  | [] => (None, b)
  | (now, wake) :: rounds' =>
    match try_consume now amount b with
    | (Ok _, b') => (Some (), b')
    | (Err _, b') => consume rounds' amount (refill_sync wake b')
    end
  end.

Definition set_refill_rate (new_rate : Z) (b : TokenBucket) : TokenBucket :=
  mkTokenBucket (capacity b) (tokens b) new_rate (last_refill b).

Definition available_tokens (now : Z) (b : TokenBucket) : Z * TokenBucket :=
  let b := refill_sync now b in (tokens b, b).

(** ** Invariant *)

Definition wf_bucket (b : TokenBucket) : Prop :=
  0 <= tokens b <= capacity b /\ is_u64 (capacity b) /\ is_u64 (refill_rate b).

Lemma f64_to_u64_bound f : is_u64 (f64_to_u64 f).
Proof.
  unfold f64_to_u64. destruct f as [s|[]| |[] m e]; try zsolve.
  assert (0 <= Z.shiftl (Zpos m) e) by (apply Z.shiftl_nonneg; lia). zsolve.
Qed.

Lemma add_tokens_wf amount b : 0 <= amount -> wf_bucket b -> wf_bucket (add_tokens amount b).
Proof. unfold wf_bucket, add_tokens; simpl. zsolve. Qed.

Lemma refill_sync_wf now b : wf_bucket b -> wf_bucket (refill_sync now b).
Proof.
  intros Hb. unfold refill_sync. zcases; try done.
  apply (add_tokens_wf (tokens_for (Z.max 0 (now - last_refill b)) (refill_rate b))) in Hb; [done|].
  apply f64_to_u64_bound.
Qed.

Lemma refill_sync_spec now b :
  wf_bucket b ->
  capacity (refill_sync now b) = capacity b /\ refill_rate (refill_sync now b) = refill_rate b /\
  tokens b <= tokens (refill_sync now b) <=
    tokens b + (if 1000000 <=? now - last_refill b
                then tokens_for (Z.max 0 (now - last_refill b)) (refill_rate b) else 0).
Proof.
  intros Hb. unfold refill_sync. set (d := Z.max 0 (now - last_refill b)).
  pose proof (f64_to_u64_bound (f64_mul (as_secs_f64 d) (f64_of_Z (refill_rate b)))) as Hf.
  change (is_u64 (tokens_for d (refill_rate b))) in Hf.
  assert (Hd : (0 <? d / 1000000) = (1000000 <=? now - last_refill b)).
  { unfold d. destruct (Z.leb_spec 1000000 (now - last_refill b)).
    - apply Z.ltb_lt. apply Z.div_str_pos. lia.
    - apply Z.ltb_ge. rewrite Z.div_small; lia. }
  rewrite Hd. destruct (1000000 <=? now - last_refill b); [|lia].
  unfold wf_bucket in Hb. zcases; simpl; zsolve.
Qed.

Lemma try_consume_wf now amount b :
  0 <= amount -> wf_bucket b -> wf_bucket (try_consume now amount b).2.
Proof.
  intros Ha Hb. apply (refill_sync_wf now) in Hb. unfold try_consume. zcases; [|done].
  unfold wf_bucket in *; simpl. zsolve.
Qed.

Lemma try_consume_spec now amount b :
  0 <= amount -> wf_bucket b ->
  let b1 := refill_sync now b in
  capacity (try_consume now amount b).2 = capacity b /\
  ((try_consume now amount b).1 = Ok () /\
     tokens (try_consume now amount b).2 = tokens b1 - amount /\ amount <= tokens b1 \/
   (try_consume now amount b).1 = Err (amount - tokens b1) /\
     (try_consume now amount b).2 = b1 /\ tokens b1 < amount).
Proof.
  intros Ha Hb b1. destruct (refill_sync_spec now b Hb) as (Hc & _). fold b1 in Hc.
  unfold try_consume. fold b1. zcases; simpl; auto 10 with lia.
Qed.

#[export] Hint Resolve add_tokens_wf refill_sync_wf try_consume_wf : rsocks.

Lemma consume_wf rounds amount b :
  0 <= amount -> wf_bucket b -> wf_bucket (consume rounds amount b).2.
Proof.
  intros Ha. revert b. induction rounds as [|[now wake] rounds IH]; intros b Hb; [done|].
  simpl. pose proof (try_consume_wf now amount b Ha Hb).
  destruct (try_consume now amount b) as [[|] b']; [done|]. apply IH. auto with rsocks.
Qed.

Lemma consume_capacity rounds amount b :
  0 <= amount -> wf_bucket b -> capacity (consume rounds amount b).2 = capacity b.
Proof.
  intros Ha. revert b. induction rounds as [|[now wake] rounds IH]; intros b Hb; [done|].
  simpl. pose proof (try_consume_wf now amount b Ha Hb) as Hw.
  destruct (try_consume_spec now amount b Ha Hb) as (Hc & _).
  destruct (try_consume now amount b) as [[|] b']; simpl in *; [done|].
  rewrite IH by auto with rsocks. rewrite <- Hc. by apply refill_sync_spec.
Qed.

(** ** Exact behaviour *)

(** What the elapsed time is worth at the instant [now]; under a millisecond it
    is worth nothing. *)
Definition grant (now : Z) (b : TokenBucket) : Z :=
  if 1000000 <=? now - last_refill b
  then tokens_for (Z.max 0 (now - last_refill b)) (refill_rate b) else 0.

Definition available (now : Z) (b : TokenBucket) : Z := Z.min (capacity b) (tokens b + grant now b).

Lemma grant_nonneg now b : 0 <= grant now b.
Proof. unfold grant. zcases; [|lia]. apply f64_to_u64_bound. Qed.

Lemma refill_sync_tokens now b : wf_bucket b -> tokens (refill_sync now b) = available now b.
Proof.
  intros Hb. unfold refill_sync, available, grant. set (d := Z.max 0 (now - last_refill b)).
  pose proof (f64_to_u64_bound (f64_mul (as_secs_f64 d) (f64_of_Z (refill_rate b)))) as Hf.
  change (is_u64 (tokens_for d (refill_rate b))) in Hf.
  assert (Hd : (0 <? d / 1000000) = (1000000 <=? now - last_refill b)).
  { unfold d. destruct (Z.leb_spec 1000000 (now - last_refill b)).
    - apply Z.ltb_lt. apply Z.div_str_pos. lia.
    - apply Z.ltb_ge. rewrite Z.div_small; lia. }
  rewrite Hd. unfold wf_bucket in Hb. zcases; simpl; zsolve.
Qed.

(** A bucket gives out exactly what it has: after the refill it holds the
    old tokens plus the grant of the elapsed time, capped at its capacity; the
    amount is taken if it fits, and otherwise the exact deficit is reported and
    nothing is taken. *)
Theorem try_consume_exact now amount b :
  wf_bucket b -> 0 <= amount ->
  let a := available now b in
  (amount <= a -> (try_consume now amount b).1 = Ok () /\
                  tokens (try_consume now amount b).2 = a - amount) /\
  (a < amount -> (try_consume now amount b).1 = Err (amount - a) /\
                 tokens (try_consume now amount b).2 = a).
Proof.
  intros Hb Ha a. unfold a. rewrite <- (refill_sync_tokens now b Hb). unfold try_consume.
  zcases; simpl; split; intros; lia || done.
Qed.

Lemma try_consume_exact_witness :
  wf_bucket (TokenBucket_new 0 1000 500) /\
  let b := mkTokenBucket 1000 100 500 0 in
  let a := available 1000000000 b in
  a = 600 /\
  (250 <= a -> (try_consume 1000000000 250 b).1 = Ok () /\
               tokens (try_consume 1000000000 250 b).2 = a - 250) /\
  (a < 250 -> (try_consume 1000000000 250 b).1 = Err (250 - a) /\
              tokens (try_consume 1000000000 250 b).2 = a).
Proof.
  split; [vm_compute; intuition discriminate|]. intros b a. split; [by vm_compute|].
  apply (try_consume_exact 1000000000 250 b); [vm_compute; intuition discriminate|lia].
Defined.

(** A run of attempts: what was taken and what the refills were worth. *)
Fixpoint run_bucket (ops : list (Z * Z)) (b : TokenBucket) : Z * Z * TokenBucket :=
  match ops with
  | [] => (0, 0, b)
  | (now, amount) :: ops' =>
    let '(r, b') := try_consume now amount b in
    let '(c, g, b'') := run_bucket ops' b' in
    ((if is_ok r then amount else 0) + c, grant now b + g, b'')
  end.

(** Over any sequence of attempts the amount handed out is at most the
    tokens at the start plus the grants of the elapsed times, and the level never
    leaves the range from zero to the capacity. *)
Theorem bucket_conservation ops b :
  wf_bucket b -> Forall (fun op => 0 <= op.2) ops ->
  let '(consumed, granted, b') := run_bucket ops b in
  wf_bucket b' /\ capacity b' = capacity b /\ consumed + tokens b' <= tokens b + granted.
Proof.
  intros Hb Hops. revert b Hb. induction Hops as [|[now amount] ops Ha Hops IH]; intros b Hb; simpl in *.
  { split; [done|]. lia. }
  pose proof (try_consume_wf now amount b Ha Hb) as Hw.
  destruct (try_consume_spec now amount b Ha Hb) as (Hc & Hs).
  pose proof (refill_sync_tokens now b Hb) as Ht. unfold available in Ht.
  destruct (try_consume now amount b) as [r b'] eqn:E; simpl in *. specialize (IH b' Hw).
  destruct (run_bucket ops b') as [[c g] b'']. destruct IH as (? & ? & ?).
  split; [done|]. split; [congruence|].
  destruct Hs as [(-> & Hs & _)|(-> & -> & _)]; simpl; lia.
Qed.

Lemma bucket_conservation_witness :
  let b := TokenBucket_new 0 1000 500 in
  let '(consumed, granted, b') := run_bucket [(0, 800); (1000000000, 700)] b in
  wf_bucket b' /\ capacity b' = capacity b /\ consumed + tokens b' <= tokens b + granted.
Proof.
  apply (bucket_conservation [(0, 800); (1000000000, 700)] (TokenBucket_new 0 1000 500)).
  - vm_compute; intuition discriminate.
  - repeat constructor; vm_compute; discriminate.
Defined.

(** A request larger than the capacity is never served: [consume] waits for ever,
    however many rounds its loop makes and whenever they happen. *)
Lemma consume_over_capacity rounds amount b :
  wf_bucket b -> capacity b < amount -> (consume rounds amount b).1 = None.
Proof.
  revert b. induction rounds as [|[now wake] rounds IH]; intros b Hb Ha; [done|]. simpl.
  assert (H0 : 0 <= amount) by (unfold wf_bucket in Hb; lia).
  pose proof (try_consume_wf now amount b H0 Hb) as Hw.
  destruct (try_consume_spec now amount b H0 Hb) as (Hc & Hs).
  assert (Hle : tokens (refill_sync now b) <= capacity b).
  { rewrite refill_sync_tokens by done. unfold available. lia. }
  destruct (try_consume now amount b) as [r b'] eqn:E; simpl in *.
  destruct Hs as [(_ & _ & Hs)|(-> & -> & Hs)]; [lia|]. apply IH; [auto with rsocks|].
  destruct (refill_sync_spec wake (refill_sync now b) Hw) as (-> & _). lia.
Qed.

(** A request within the capacity is served no later than the first round
    that begins with a sufficient grant on the clock. *)
Theorem consume_served rounds now wake rest amount b :
  wf_bucket b -> 0 <= amount <= capacity b ->
  amount <= grant now (consume rounds amount b).2 ->
  (consume (rounds ++ (now, wake) :: rest) amount b).1 = Some ().
Proof.
  revert b. induction rounds as [|[n w] rounds IH]; intros b Hb Ha Hg; simpl in *.
  - destruct (try_consume_spec now amount b ltac:(lia) Hb) as (_ & Hs).
    destruct (try_consume now amount b) as [r b']; simpl in *.
    destruct Hs as [(-> & _)|(_ & _ & Hs)]; [done|].
    rewrite refill_sync_tokens in Hs by done. unfold available in Hs.
    unfold wf_bucket in Hb. lia.
  - pose proof (try_consume_wf n amount b ltac:(lia) Hb) as Hw.
    destruct (try_consume_spec n amount b ltac:(lia) Hb) as (Hc & _).
    destruct (try_consume n amount b) as [[|] b']; simpl in *; [done|].
    apply IH; [auto with rsocks| |done].
    destruct (refill_sync_spec w b' Hw) as (-> & _). lia.
Qed.

Lemma consume_served_witness :
  let b := mkTokenBucket 1000 0 500 0 in
  0 <= 400 <= capacity b /\ (consume ([(0, 500000)] ++ [(1000000000, 1000000001)]) 400 b).1 = Some ().
Proof.
  split; [done|].
  apply (consume_served [(0, 500000)] 1000000000 1000000001 [] 400 (mkTokenBucket 1000 0 500 0));
    [vm_compute; intuition discriminate|done|vm_compute; discriminate].
Defined.

(** ** Concurrent threads

    The loops of [try_consume] and [add_tokens] as they run on several threads:
    a load, and a compare-and-swap that succeeds when the counter still has the
    loaded value and otherwise goes back to the load. *)
Module Cas.
Inductive thread : Type :=
| Idle
| ConsumeLoad (amount : Z)
| ConsumeCas (amount current : Z)
| AddLoad (amount : Z)
| AddCas (amount current : Z).

(** The shared counter, the threads, and the sums taken, put in and offered. *)
Record state : Type := mkState {
  shared : Z; threads : list thread; taken : Z; added : Z; offered : Z }.

Definition set_thread (i : nat) (t : thread) (s : state) : state :=
  mkState (shared s) (<[i := t]> (threads s)) (taken s) (added s) (offered s).

Inductive step (cap : Z) (s : state) : state -> Prop :=
| start_consume i amount :
    threads s !! i = Some Idle -> 0 <= amount -> step cap s (set_thread i (ConsumeLoad amount) s)
| start_add i amount :
    threads s !! i = Some Idle -> 0 <= amount -> step cap s (set_thread i (AddLoad amount) s)
| consume_load i amount :
    threads s !! i = Some (ConsumeLoad amount) -> amount <= shared s ->
    step cap s (set_thread i (ConsumeCas amount (shared s)) s)
| consume_refused i amount :
    threads s !! i = Some (ConsumeLoad amount) -> shared s < amount ->
    step cap s (set_thread i Idle s)
| consume_cas i amount current :
    threads s !! i = Some (ConsumeCas amount current) -> shared s = current ->
    step cap s (mkState (current - amount) (<[i := Idle]> (threads s)) (taken s + amount)
                  (added s) (offered s))
| consume_retry i amount current :
    threads s !! i = Some (ConsumeCas amount current) -> shared s ≠ current ->
    step cap s (set_thread i (ConsumeLoad amount) s)
| add_load i amount :
    threads s !! i = Some (AddLoad amount) ->
    step cap s (set_thread i (AddCas amount (shared s)) s)
| add_cas i amount current :
    threads s !! i = Some (AddCas amount current) -> shared s = current ->
    let new_value := Z.min (sat_add64 current amount) cap in
    step cap s (mkState new_value (<[i := Idle]> (threads s)) (taken s)
                  (added s + (new_value - current)) (offered s + amount))
| add_retry i amount current :
    threads s !! i = Some (AddCas amount current) -> shared s ≠ current ->
    step cap s (set_thread i (AddLoad amount) s).

Definition initial (cap : Z) (n : nat) : state := mkState cap (replicate n Idle) 0 0 0.
Definition reachable (cap : Z) (n : nat) : state -> Prop := rtc (step cap) (initial cap n).

Definition thread_ok (t : thread) : Prop :=
  match t with
  | Idle => True
  | ConsumeLoad a | AddLoad a | AddCas a _ => 0 <= a
  | ConsumeCas a c => 0 <= a <= c
  end.
Definition inv (cap : Z) (s : state) : Prop :=
  0 <= shared s <= cap /\ taken s + shared s = cap + added s /\ 0 <= added s <= offered s /\
  Forall thread_ok (threads s).

Lemma inv_set_thread cap s i t : inv cap s -> thread_ok t -> inv cap (set_thread i t s).
Proof. intros (? & ? & ? & ?) Ht. repeat split; simpl; try lia. by apply Forall_insert. Qed.

Lemma cas_step_inv cap s s' : is_u64 cap -> inv cap s -> step cap s s' -> inv cap s'.
Proof.
  intros Hcap Hi Hs. pose proof Hi as (Hb & He & Ha & Ht).
  destruct Hs as [i a Hl ?|i a Hl ?|i a Hl ?|i a Hl ?|i a c Hl ?|i a c Hl ?|i a Hl|i a c Hl ? nv|i a c Hl ?];
    pose proof (Forall_lookup_1 _ _ _ _ Ht Hl) as Hok; simpl in Hok;
    try (apply inv_set_thread; [done|simpl; lia || done]).
  - split_and!; simpl; try lia. by apply Forall_insert.
  - subst nv. split_and!; simpl; try zsolve. by apply Forall_insert.
Qed.

(** C28: under every interleaving of any number of threads the counter stays
    between zero and the capacity, the sum that all successful consumers took
    never exceeds the initial level plus what was added, and no tokens appear
    beyond those the refills offered: no update is lost or counted twice. *)
Theorem cas_conservation cap n s :
  is_u64 cap -> reachable cap n s ->
  0 <= shared s <= cap /\ taken s + shared s = cap + added s /\ 0 <= added s <= offered s.
Proof.
  intros Hcap Hr. assert (Hi : inv cap s); [|by destruct Hi as (? & ? & ? & _)].
  assert (H0 : inv cap (initial cap n)).
  { unfold inv, initial; simpl. split; [zsolve|]. split; [lia|]. split; [lia|].
    apply Forall_replicate. done. }
  clear -Hcap Hr H0. unfold reachable in Hr. induction Hr as [|s s1 s2 Hs _ IH]; [done|].
  apply IH. by eapply cas_step_inv.
Qed.

Lemma cas_conservation_witness :
  exists s, reachable 100 2 s /\ taken s = 60 /\
    (0 <= shared s <= 100 /\ taken s + shared s = 100 + added s /\ 0 <= added s <= offered s).
Proof.
  exists (mkState 40 [Idle; ConsumeLoad 60] 60 0 0).
  assert (Hr : reachable 100 2 (mkState 40 [Idle; ConsumeLoad 60] 60 0 0)).
  { eapply rtc_l; [apply (start_consume 100 _ 0%nat 60); [done|lia]|].
    eapply rtc_l; [apply (start_consume 100 _ 1%nat 60); [done|lia]|].
    eapply rtc_l; [apply (consume_load 100 _ 0%nat 60); [done|simpl; lia]|].
    eapply rtc_l; [apply (consume_load 100 _ 1%nat 60); [done|simpl; lia]|].
    eapply rtc_l; [apply (consume_cas 100 _ 0%nat 60 100); done|].
    eapply rtc_l; [apply (consume_retry 100 _ 1%nat 60 100); [done|simpl; lia]|]. apply rtc_refl. }
  split; [exact Hr|]. split; [reflexivity|].
  apply (cas_conservation 100 2); [vm_compute; intuition discriminate|exact Hr].
Defined.
End Cas.
