(* ===== verification/Qos.v ===== *)
(** * Quality of service: the hierarchical token bucket

    src/src/qos/types.rs, src/src/qos/htb.rs and src/src/qos/mod.rs: the buckets
    and connection counters of the users, the allocation of bandwidth, the
    periodic rebalancing and the connection limits.  The concurrent map of the
    users is a finite map; an iteration over it takes the order of its keys as
    an argument.  Instants are nanoseconds of one clock. *)
From S2P Require Import Prelude Stream TokenBucket.

(** ** Configuration (types.rs) *)

Record HtbConfig : Type := mkHtbConfig {
  global_bandwidth_bytes_per_sec : Z;
  guaranteed_bandwidth_bytes_per_sec : Z;
  max_bandwidth_bytes_per_sec : Z;
  burst_size_bytes : Z;
  refill_interval_ms : Z;
  fair_sharing_enabled : bool;
  rebalance_interval_ms : Z;
  idle_timeout_secs : Z;
}.
Definition HtbConfig_default : HtbConfig :=
  mkHtbConfig 125000000 131072 12500000 1048576 50 true 100 5.

Record ConnectionLimits : Type := mkConnectionLimits {
  max_connections_per_user : Z; max_connections_global : Z }.
Definition ConnectionLimits_default : ConnectionLimits := mkConnectionLimits 20 10000.

Record QosConfig : Type := mkQosConfig {
  qos_enabled : bool; algorithm : string; htb : HtbConfig; connection_limits : ConnectionLimits }.
Definition QosConfig_default : QosConfig :=
  mkQosConfig false "htb" HtbConfig_default ConnectionLimits_default.

Record UserAllocation : Type := mkUserAllocation {
  al_user : string;
  allocated_bandwidth : Z;
  guaranteed_bandwidth : Z;
  max_bandwidth : Z;
  al_current_demand : Z;
  al_is_active : bool;
  al_active_connections : Z;
}.

(** ** A user's buckets *)

Record UserBucket : Type := mkUserBucket {
  guaranteed_bucket : TokenBucket;
  max_bucket : TokenBucket;
  current_demand : Z;
  last_activity : Z;
  active_connections : Z;
  total_bytes : Z;
}.

Definition UserBucket_new (now guaranteed_rate max_rate burst_size : Z) : UserBucket :=
  mkUserBucket (TokenBucket_new now burst_size guaranteed_rate)
    (TokenBucket_new now burst_size max_rate) 0 now 0 0.

Definition is_active (now idle_timeout : Z) (b : UserBucket) : bool :=
  if active_connections b =? 0 then false
  else Z.max 0 (now - last_activity b) <? idle_timeout.

Definition update_activity (now : Z) (b : UserBucket) : UserBucket :=
  mkUserBucket (guaranteed_bucket b) (max_bucket b) (current_demand b) now
    (active_connections b) (total_bytes b).
Definition add_total_bytes (bytes : Z) (b : UserBucket) : UserBucket :=
  mkUserBucket (guaranteed_bucket b) (max_bucket b) (current_demand b) (last_activity b)
    (active_connections b) (wadd64 (total_bytes b) bytes).
Definition set_buckets (g m : TokenBucket) (b : UserBucket) : UserBucket :=
  mkUserBucket g m (current_demand b) (last_activity b) (active_connections b) (total_bytes b).
Definition set_connections (n : Z) (b : UserBucket) : UserBucket :=
  mkUserBucket (guaranteed_bucket b) (max_bucket b) (current_demand b) (last_activity b) n
    (total_bytes b).

Definition inc_connections (b : UserBucket) : Z * UserBucket :=
  (wadd64 (active_connections b) 1, set_connections (wadd64 (active_connections b) 1) b).
(** [fetch_sub] wraps; the number returned saturates. *)
Definition dec_connections (b : UserBucket) : Z * UserBucket :=
  (sat_sub64 (active_connections b) 1, set_connections (wsub64 (active_connections b) 1) b).
Definition connection_count (b : UserBucket) : Z := active_connections b.

(** ** The engine (htb.rs) *)

Record HtbQos : Type := mkHtbQos {
  h_config : HtbConfig;
  global_bucket : TokenBucket;
  user_buckets : gmap string UserBucket;
  total_connections : Z;
  rebalancing : bool; (* whether the rebalancing task runs *)
}.

Definition HtbQos_new (now : Z) (config : HtbConfig) : HtbQos :=
  mkHtbQos config
    (TokenBucket_new now (burst_size_bytes config) (global_bandwidth_bytes_per_sec config)) ∅ 0 false.

Definition set_global (b : TokenBucket) (q : HtbQos) : HtbQos :=
  mkHtbQos (h_config q) b (user_buckets q) (total_connections q) (rebalancing q).
Definition set_user (user : string) (b : UserBucket) (q : HtbQos) : HtbQos :=
  mkHtbQos (h_config q) (global_bucket q) (<[user := b]> (user_buckets q)) (total_connections q)
    (rebalancing q).
Definition set_total (n : Z) (q : HtbQos) : HtbQos :=
  mkHtbQos (h_config q) (global_bucket q) (user_buckets q) n (rebalancing q).
Definition set_rebalancing (r : bool) (q : HtbQos) : HtbQos :=
  mkHtbQos (h_config q) (global_bucket q) (user_buckets q) (total_connections q) r.

Definition htb_start (q : HtbQos) : HtbQos :=
  if fair_sharing_enabled (h_config q) then set_rebalancing true q else q.
Definition htb_stop (q : HtbQos) : HtbQos := set_rebalancing false q.

Definition get_or_create_user_bucket (now : Z) (user : string) (q : HtbQos) : UserBucket * HtbQos :=
  match user_buckets q !! user with
  | Some bucket => (bucket, q)
  | None =>
    let bucket := UserBucket_new now (guaranteed_bandwidth_bytes_per_sec (h_config q))
                    (max_bandwidth_bytes_per_sec (h_config q)) (burst_size_bytes (h_config q)) in
    (bucket, set_user user bucket q)
  end.

(** The instants at which an allocation reads the clock: the attempt on the
    global bucket, the rounds of its wait, the user's buckets and the rounds of
    the last wait. *)
Record alloc_clock : Type := mkAllocClock {
  at_global : Z; global_rounds : list (Z * Z); at_create : Z; at_activity : Z;
  at_guaranteed : Z; at_max : Z; max_rounds : list (Z * Z) }.

(** [None] is an allocation that is still waiting for the global bucket
    ([alloc_wait_global]) or for the user's ([alloc_wait_user]). *)
Inductive alloc_outcome : Type :=
| alloc_guaranteed | alloc_borrowed | alloc_waited | alloc_wait_global | alloc_wait_user.

Definition allocate_bandwidth (t : alloc_clock) (user : string) (bytes : Z) (q : HtbQos)
    : alloc_outcome * HtbQos :=
  let '(r, gb) := try_consume (at_global t) bytes (global_bucket q) in
  let '(served, gb) := match r with
                       | Ok _ => (Some (), gb)
                       | Err _ => consume (global_rounds t) bytes gb
                       end in
  let q := set_global gb q in
  match served with
  | None => (alloc_wait_global, q)
  | Some _ =>
    let '(ub, q) := get_or_create_user_bucket (at_create t) user q in
    let ub := add_total_bytes bytes (update_activity (at_activity t) ub) in
    match try_consume (at_guaranteed t) bytes (guaranteed_bucket ub) with
    | (Ok _, g) => (alloc_guaranteed, set_user user (set_buckets g (max_bucket ub) ub) q)
    | (Err _, g) =>
      match try_consume (at_max t) bytes (max_bucket ub) with
      | (Ok _, m) => (alloc_borrowed, set_user user (set_buckets g m ub) q)
      | (Err _, m) =>
        match consume (max_rounds t) bytes m with
        | (Some _, m) => (alloc_waited, set_user user (set_buckets g m ub) q)
        | (None, m) => (alloc_wait_user, set_user user (set_buckets g m ub) q)
        end
      end
    end
  end.

(** ** Connection counters *)

Definition inc_user_connections (now : Z) (user : string) (q : HtbQos) : Z * HtbQos :=
  let '(user_bucket, q) := get_or_create_user_bucket now user q in
  let '(count, user_bucket) := inc_connections user_bucket in
  (count, set_total (wadd64 (total_connections q) 1) (set_user user user_bucket q)).

Definition dec_user_connections (user : string) (q : HtbQos) : Z * HtbQos :=
  match user_buckets q !! user with
  | Some user_bucket =>
    let '(count, user_bucket) := dec_connections user_bucket in
    (count, set_total (wsub64 (total_connections q) 1) (set_user user user_bucket q))
  | None => (0, q)
  end.

Definition get_user_connections (user : string) (q : HtbQos) : Z :=
  match user_buckets q !! user with Some b => connection_count b | None => 0 end.
Definition get_total_connections (q : HtbQos) : Z := total_connections q.

(** ** Rebalancing *)

(** The rates for the active users with their demands; the phases of the code
    write the same positions of [allocations]. *)
Definition calculate_fair_shares (config : HtbConfig) (active_users : list (string * Z))
    : list (string * Z) :=
  let guaranteed := guaranteed_bandwidth_bytes_per_sec config in
  let allocations := (fun u => (u.1, guaranteed)) <$> active_users in
  let remaining := foldl (fun r _ => sat_sub64 r guaranteed)
                     (global_bandwidth_bytes_per_sec config) active_users in
  if (remaining =? 0) || bool_decide (active_users = []) then allocations
  else
    let total_demand := wrap64 (foldr (fun u s => u.2 + s) 0 active_users) in
    let cap := wsub64 (max_bandwidth_bytes_per_sec config) guaranteed in
    if 0 <? total_demand then
      (fun '(user, demand) =>
         let share :=
           if remaining <? total_demand
           then f64_to_u64 (f64_mul (f64_div (f64_of_Z demand) (f64_of_Z total_demand))
                              (f64_of_Z remaining))
           else demand in
         (user, wadd64 guaranteed (Z.min share cap))) <$> active_users
    else
      let equal_share := remaining / Z.of_nat (length active_users) in
      (fun u => (u.1, wadd64 guaranteed (Z.min equal_share cap))) <$> active_users.

(** Reading the levels refills the buckets. *)
Definition estimate_user_demand (now : Z) (config : HtbConfig) (b : UserBucket) : Z * UserBucket :=
  let '(guaranteed_available, g) := available_tokens now (guaranteed_bucket b) in
  let '(max_available, m) := available_tokens now (max_bucket b) in
  let b := set_buckets g m b in
  if (guaranteed_available <? capacity g / 4) || (max_available <? capacity m / 4)
  then (max_bandwidth_bytes_per_sec config, b)
  else (guaranteed_bandwidth_bytes_per_sec config, b).

(** The active users of an iteration in the order [users], with their demands. *)
Fixpoint collect_active (now idle_timeout : Z) (users : list string) (q : HtbQos)
    : list (string * Z) * HtbQos :=
  match users with
  | [] => ([], q)
  | u :: users' =>
    match user_buckets q !! u with
    | None => collect_active now idle_timeout users' q
    | Some b =>
      if is_active now idle_timeout b then
        let '(demand, b) := estimate_user_demand now (h_config q) b in
        let '(rest, q) := collect_active now idle_timeout users' (set_user u b q) in
        ((u, demand) :: rest, q)
      else collect_active now idle_timeout users' q
    end
  end.

Definition apply_rate (q : HtbQos) (alloc : string * Z) : HtbQos :=
  match user_buckets q !! alloc.1 with
  | None => q
  | Some b =>
    set_user alloc.1
      (mkUserBucket (guaranteed_bucket b) (set_refill_rate alloc.2 (max_bucket b)) alloc.2
         (last_activity b) (active_connections b) (total_bytes b)) q
  end.

Definition rebalance_bandwidth (now : Z) (users : list string) (q : HtbQos) : HtbQos :=
  let idle_timeout := ns_of_secs (idle_timeout_secs (h_config q)) in
  let '(active_users, q) := collect_active now idle_timeout users q in
  if bool_decide (active_users = []) then q
  else foldl apply_rate q (calculate_fair_shares (h_config q) active_users).

Definition get_user_allocations (now : Z) (users : list string) (q : HtbQos) : list UserAllocation :=
  omap (fun u =>
    (fun b => mkUserAllocation u (refill_rate (max_bucket b)) (refill_rate (guaranteed_bucket b))
                (max_bandwidth_bytes_per_sec (h_config q)) (current_demand b)
                (is_active now (ns_of_secs (idle_timeout_secs (h_config q))) b)
                (connection_count b)) <$> user_buckets q !! u) users.

(** ** The engine in front (mod.rs), with its gauge of active users *)

Inductive QosEngine : Type := QosNone | QosHtb (h : HtbQos).
Record QosState : Type := mkQosState { qs_engine : QosEngine; active_qos_users : Z }.

Definition QosEngine_from_config (now : Z) (config : QosConfig) : result RustSocksError QosEngine :=
  if negb (qos_enabled config) then Ok QosNone
  else if decide (algorithm config = "htb")
  then Ok (QosHtb (htb_start (HtbQos_new now (htb config))))
  else Err (Config ("Unknown QoS algorithm: " +:+ algorithm config)).

Definition check_and_inc_connection (now : Z) (user : string) (limits : ConnectionLimits)
    (s : QosState) : result RustSocksError Z * QosState :=
  match qs_engine s with
  | QosNone => (Ok 0, s)
  | QosHtb htb =>
    let global_count := get_total_connections htb in
    if max_connections_global limits <=? global_count then
      (Err (Config ("Global connection limit reached: " +:+ fmt_Z global_count +:+ "/" +:+
                    fmt_Z (max_connections_global limits))), s)
    else
      let user_count := get_user_connections user htb in
      if max_connections_per_user limits <=? user_count then
        (Err (Config ("User connection limit reached for '" +:+ user +:+ "': " +:+
                      fmt_Z user_count +:+ "/" +:+ fmt_Z (max_connections_per_user limits))), s)
      else
        let '(count, htb) := inc_user_connections now user htb in
        (Ok count, mkQosState (QosHtb htb)
           (if count =? 1 then active_qos_users s + 1 else active_qos_users s))
  end.

Definition dec_user_connection (user : string) (s : QosState) : QosState :=
  match qs_engine s with
  | QosNone => s
  | QosHtb htb =>
    let '(remaining, htb) := dec_user_connections user htb in
    mkQosState (QosHtb htb)
      (if remaining =? 0 then active_qos_users s - 1 else active_qos_users s)
  end.

(** Dropping a handle of the engine, any clone of it, stops the rebalancing. *)
Definition QosEngine_drop (e : QosEngine) : QosEngine :=
  match e with QosNone => QosNone | QosHtb htb => QosHtb (htb_stop htb) end.

Definition qos_get_user_connections (user : string) (e : QosEngine) : Z :=
  match e with QosNone => 0 | QosHtb htb => get_user_connections user htb end.
Definition qos_get_total_connections (e : QosEngine) : Z :=
  match e with QosNone => 0 | QosHtb htb => get_total_connections htb end.
Definition is_enabled (e : QosEngine) : bool := match e with QosNone => false | _ => true end.
