(* ===== verification/QosSpec.v ===== *)
(** * Quality of service: correctness

    The invariant of the engine and that every operation keeps it, the bounds of
    the fair shares, and the connection limits: exact when admissions do not
    overlap, and off by at most the number of overlapping admissions otherwise. *)
From S2P Require Import Prelude Stream TokenBucket Qos.

(** A configuration whose guaranteed rate is at most its maximum rate; the code
    does not check this. *)
Definition wf_config (c : HtbConfig) : Prop :=
  is_u64 (global_bandwidth_bytes_per_sec c) /\ is_u64 (burst_size_bytes c) /\
  0 <= guaranteed_bandwidth_bytes_per_sec c <= max_bandwidth_bytes_per_sec c /\
  is_u64 (max_bandwidth_bytes_per_sec c).

(** ** Fair shares *)

Lemma remaining_eq g (l : list (string * Z)) r :
  0 <= g -> 0 <= r ->
  foldl (fun r _ => sat_sub64 r g) r l = Z.max 0 (r - Z.of_nat (length l) * g).
Proof.
  intros Hg. revert r. induction l as [|u l IH]; intros r Hr; simpl length; [simpl; lia|].
  cbn [foldl]. rewrite IH by zsolve. unfold sat_sub64. lia.
Qed.

Lemma fair_shares_users c l : fst <$> calculate_fair_shares c l = fst <$> l.
Proof.
  unfold calculate_fair_shares. case_match; [|case_match]; rewrite <- list_fmap_compose;
    apply list_fmap_ext; by intros ? [].
Qed.

Lemma capped_rate g m s :
  0 <= g <= m -> is_u64 m -> 0 <= s -> wadd64 g (Z.min s (wsub64 m g)) = Z.min (g + s) m.
Proof.
  intros Hg Hm Hs. rewrite wsub64_id by zsolve. rewrite wadd64_id by zsolve. lia.
Qed.

Lemma fair_shares_rate c l u r :
  wf_config c -> Forall (fun d => is_u64 d.2) l -> (u, r) ∈ calculate_fair_shares c l ->
  guaranteed_bandwidth_bytes_per_sec c <= r <= max_bandwidth_bytes_per_sec c.
Proof.
  intros (HG & _ & Hg & Hm) Hl. unfold calculate_fair_shares.
  rewrite remaining_eq by zsolve. set (rem := Z.max 0 _).
  case_match; [|case_match].
  - intros ([] & [= -> ->] & _)%list_elem_of_fmap. lia.
  - intros ([u' d] & Heq & Hin)%list_elem_of_fmap. injection Heq as _ ->.
    rewrite Forall_forall in Hl. specialize (Hl _ Hin). simpl in Hl.
    set (share := if rem <? _ then _ else _).
    assert (Hs : 0 <= share) by (unfold share; case_match; [apply f64_to_u64_bound|zsolve]).
    rewrite capped_rate by done. lia.
  - intros ([u' d] & [= _ ->] & _)%list_elem_of_fmap.
    assert (Hd : 0 <= rem / Z.of_nat (length l)).
    { destruct (decide (length l = 0%nat)) as [->|]; [by rewrite Z.div_0_r|]. apply Z.div_pos; lia. }
    rewrite capped_rate by done. lia.
Qed.

(** Whatever the demands, the rebalancing gives a rate to every active user
    and to no one else, and every rate lies between the guaranteed and the
    maximum rate of the configuration. *)
Theorem fair_shares_bounds c l :
  wf_config c -> Forall (fun d => is_u64 d.2) l ->
  fst <$> calculate_fair_shares c l = fst <$> l /\
  Forall (fun a => guaranteed_bandwidth_bytes_per_sec c <= a.2 <= max_bandwidth_bytes_per_sec c)
    (calculate_fair_shares c l).
Proof.
  intros Hc Hl. split; [apply fair_shares_users|]. apply Forall_forall. intros [u r] Hin.
  by eapply fair_shares_rate.
Qed.

Lemma fair_shares_bounds_witness :
  wf_config HtbConfig_default /\
  (fst <$> calculate_fair_shares HtbConfig_default [("alice", 12500000); ("bob", 131072)] =
     ["alice"; "bob"] /\
   Forall (fun a => guaranteed_bandwidth_bytes_per_sec HtbConfig_default <= a.2 <=
                    max_bandwidth_bytes_per_sec HtbConfig_default)
     (calculate_fair_shares HtbConfig_default [("alice", 12500000); ("bob", 131072)])).
Proof.
  assert (Hw : wf_config HtbConfig_default) by (vm_compute; intuition discriminate).
  split; [exact Hw|].
  apply (fair_shares_bounds HtbConfig_default [("alice", 12500000); ("bob", 131072)]); [exact Hw|].
  repeat constructor; vm_compute; discriminate.
Defined.

Definition total_of (l : list (string * Z)) : Z := foldr (fun u s => u.2 + s) 0 l.

(** When the active users ask for no more than what is left after the
    guaranteed rates, each gets the guaranteed rate plus what it asks for, up to
    the maximum, and together they get no more than the global bandwidth. *)
Theorem fair_shares_undersubscribed c l :
  wf_config c -> Forall (fun d => is_u64 d.2) l ->
  let g := guaranteed_bandwidth_bytes_per_sec c in
  let rem := global_bandwidth_bytes_per_sec c - Z.of_nat (length l) * g in
  0 < total_of l <= rem ->
  calculate_fair_shares c l = (fun d => (d.1, Z.min (g + d.2) (max_bandwidth_bytes_per_sec c))) <$> l /\
  total_of (calculate_fair_shares c l) <= global_bandwidth_bytes_per_sec c.
Proof.
  intros (HG & _ & Hg & Hm) Hl g rem Ht.
  assert (Heq : calculate_fair_shares c l =
    (fun d => (d.1, Z.min (g + d.2) (max_bandwidth_bytes_per_sec c))) <$> l).
  { unfold calculate_fair_shares. fold g. rewrite remaining_eq by zsolve.
    replace (Z.max 0 (global_bandwidth_bytes_per_sec c - Z.of_nat (length l) * g)) with rem by lia.
    destruct (Z.eqb_spec rem 0); [lia|]. rewrite bool_decide_false by (intros ->; simpl in Ht; lia).
    simpl orb. cbv iota. fold (total_of l). rewrite wrap64_id by zsolve.
    destruct (Z.ltb_spec 0 (total_of l)); [|lia].
    apply list_fmap_ext. intros i [u d] Hi. simpl.
    rewrite Forall_forall in Hl. pose proof (Hl _ (list_elem_of_lookup_2 _ _ _ Hi)) as Hd. simpl in Hd.
    destruct (Z.ltb_spec rem (total_of l)); [lia|]. f_equal. apply capped_rate; zsolve. }
  split; [done|]. rewrite Heq. unfold rem in Ht. clear -Ht.
  assert (forall l : list (string * Z), total_of ((fun d => (d.1, Z.min (g + d.2)
    (max_bandwidth_bytes_per_sec c))) <$> l) <= Z.of_nat (length l) * g + total_of l); [|specialize (H l); lia].
  clear. intros l. induction l as [|[u d] l IH]; [done|].
  cbn [fmap list_fmap total_of foldr length fst snd] in *. unfold total_of in IH. lia.
Qed.

Lemma fair_shares_undersubscribed_witness :
  let l := [("alice", 12500000); ("bob", 131072)] in
  0 < total_of l <= global_bandwidth_bytes_per_sec HtbConfig_default - 2 * 131072 /\
  (calculate_fair_shares HtbConfig_default l =
     ((fun d => (d.1, Z.min (131072 + d.2) (max_bandwidth_bytes_per_sec HtbConfig_default))) <$> l) /\
   total_of (calculate_fair_shares HtbConfig_default l) <= global_bandwidth_bytes_per_sec HtbConfig_default).
Proof.
  intros l. split; [vm_compute; intuition discriminate|].
  apply (fair_shares_undersubscribed HtbConfig_default l).
  - vm_compute; intuition discriminate.
  - repeat constructor; vm_compute; discriminate.
  - vm_compute; intuition discriminate.
Defined.

(** ** The invariant of the engine *)

Definition wf_user (c : HtbConfig) (b : UserBucket) : Prop :=
  wf_bucket (guaranteed_bucket b) /\ wf_bucket (max_bucket b) /\
  capacity (guaranteed_bucket b) = burst_size_bytes c /\ capacity (max_bucket b) = burst_size_bytes c /\
  refill_rate (guaranteed_bucket b) = guaranteed_bandwidth_bytes_per_sec c /\
  guaranteed_bandwidth_bytes_per_sec c <= refill_rate (max_bucket b) <= max_bandwidth_bytes_per_sec c /\
  is_u64 (active_connections b).

Definition wf_htb (q : HtbQos) : Prop :=
  wf_config (h_config q) /\ wf_bucket (global_bucket q) /\
  capacity (global_bucket q) = burst_size_bytes (h_config q) /\
  is_u64 (total_connections q) /\
  map_Forall (fun _ b => wf_user (h_config q) b) (user_buckets q).

Inductive htb_op : Type :=
| OpAllocate (t : alloc_clock) (user : string) (bytes : Z)
| OpInc (now : Z) (user : string)
| OpDec (user : string)
| OpRebalance (now : Z) (users : list string)
| OpStart
| OpStop.
Definition htb_step (op : htb_op) (q : HtbQos) : HtbQos :=
  match op with
  | OpAllocate t user bytes => (allocate_bandwidth t user bytes q).2
  | OpInc now user => (inc_user_connections now user q).2
  | OpDec user => (dec_user_connections user q).2
  | OpRebalance now users => rebalance_bandwidth now users q
  | OpStart => htb_start q
  | OpStop => htb_stop q
  end.
Definition op_ok (op : htb_op) : Prop :=
  match op with OpAllocate _ _ bytes => 0 <= bytes | _ => True end.

Lemma new_bucket_wf now cap rate : is_u64 cap -> is_u64 rate -> wf_bucket (TokenBucket_new now cap rate).
Proof. unfold wf_bucket, TokenBucket_new; simpl. zsolve. Qed.

Lemma wf_set_user user b q : wf_htb q -> wf_user (h_config q) b -> wf_htb (set_user user b q).
Proof.
  intros (? & ? & ? & ? & Hu) Hb. unfold wf_htb; simpl. split_and!; try done.
  by apply map_Forall_insert_2.
Qed.
Lemma wf_set_total n q : wf_htb q -> is_u64 n -> wf_htb (set_total n q).
Proof. by intros (? & ? & ? & ? & Hu) Hn. Qed.

Lemma get_or_create_wf now user q ub q' :
  wf_htb q -> get_or_create_user_bucket now user q = (ub, q') ->
  wf_user (h_config q) ub /\ wf_htb q' /\ h_config q' = h_config q.
Proof.
  intros Hq. pose proof Hq as (Hc & _ & _ & _ & Hu). unfold get_or_create_user_bucket.
  destruct (user_buckets q !! user) as [b|] eqn:E.
  - intros [= -> <-]. split; [by eapply map_Forall_lookup_1 in Hu|done].
  - intros [= <- <-]. destruct Hc as (? & ? & ? & ?).
    assert (wf_user (h_config q) (UserBucket_new now (guaranteed_bandwidth_bytes_per_sec (h_config q))
      (max_bandwidth_bytes_per_sec (h_config q)) (burst_size_bytes (h_config q)))).
    { unfold wf_user, UserBucket_new; simpl. split_and!; try done; try zsolve;
        apply new_bucket_wf; zsolve. }
    split; [done|]. split; [by apply wf_set_user|done].
Qed.

(** A bucket operation keeps the bucket well formed, its capacity and its rate. *)
Definition kept (b b' : TokenBucket) : Prop :=
  wf_bucket b' /\ capacity b' = capacity b /\ refill_rate b' = refill_rate b.

Lemma kept_trans b1 b2 b3 : kept b1 b2 -> kept b2 b3 -> kept b1 b3.
Proof. unfold kept. intuition congruence. Qed.

Lemma refill_kept now b : wf_bucket b -> kept b (refill_sync now b).
Proof.
  intros Hb. destruct (refill_sync_spec now b Hb) as (? & ? & _).
  split; [by apply refill_sync_wf|done].
Qed.

Lemma try_consume_kept now n b : 0 <= n -> wf_bucket b -> kept b (try_consume now n b).2.
Proof.
  intros Hn Hb. pose proof (try_consume_wf now n b Hn Hb) as Hw. split; [done|].
  destruct (refill_kept now b Hb) as (_ & ? & ?). unfold try_consume in *. by zcases.
Qed.

Lemma consume_kept rounds n b : 0 <= n -> wf_bucket b -> kept b (consume rounds n b).2.
Proof.
  intros Hn. revert b. induction rounds as [|[now wake] rounds IH]; intros b Hb; [done|]. simpl.
  pose proof (try_consume_kept now n b Hn Hb) as Hk.
  destruct (try_consume now n b) as [[|] b']; [done|]. simpl in *.
  assert (kept b (refill_sync wake b')) as Hk'.
  { eapply kept_trans; [done|]. apply refill_kept, Hk. }
  eapply kept_trans; [done|]. apply IH, Hk'.
Qed.

Lemma wf_set_global b q : wf_htb q -> kept (global_bucket q) b -> wf_htb (set_global b q).
Proof.
  intros (? & ? & Hcap & ? & ?) (? & Hc & ?). unfold wf_htb; simpl. split_and!; try done. congruence.
Qed.

(** What stays of a user when only its buckets, activity and byte count change. *)
Lemma wf_user_buckets c b b' :
  wf_user c b -> kept (guaranteed_bucket b) (guaranteed_bucket b') ->
  kept (max_bucket b) (max_bucket b') -> active_connections b' = active_connections b ->
  wf_user c b'.
Proof.
  intros (? & ? & ? & ? & ? & ? & ?) (? & ? & ?) (? & ? & ?) Ha. unfold wf_user. rewrite Ha.
  split_and!; try done; try congruence; lia.
Qed.

Lemma kept_refl b : wf_bucket b -> kept b b.
Proof. done. Qed.

Lemma allocate_wf t user bytes q :
  0 <= bytes -> wf_htb q ->
  wf_htb (allocate_bandwidth t user bytes q).2 /\
  h_config (allocate_bandwidth t user bytes q).2 = h_config q.
Proof.
  intros Hn Hq. pose proof Hq as (_ & Hg & _). unfold allocate_bandwidth.
  pose proof (try_consume_kept (at_global t) bytes _ Hn Hg) as Hk.
  destruct (try_consume (at_global t) bytes (global_bucket q)) as [r gb]; simpl in Hk.
  set (p := match r with Ok _ => _ | Err _ => _ end).
  assert (Hp : kept (global_bucket q) p.2).
  { unfold p. destruct r; [done|]. eapply kept_trans; [done|]. apply consume_kept; [done|apply Hk]. }
  clearbody p. destruct p as [served gb']; simpl in Hp.
  pose proof (wf_set_global _ _ Hq Hp) as Hq1. destruct served as [[]|]; [|done].
  destruct (get_or_create_user_bucket _ _ _) as [ub q2] eqn:Hub.
  destruct (get_or_create_wf _ _ _ _ _ Hq1 Hub) as (Hu & Hq2 & Hc2). simpl in Hc2, Hu.
  set (ub1 := add_total_bytes bytes (update_activity (at_activity t) ub)).
  assert (Hgk : wf_bucket (guaranteed_bucket ub1)) by apply Hu.
  assert (Hmk : wf_bucket (max_bucket ub1)) by apply Hu.
  pose proof (try_consume_kept (at_guaranteed t) bytes _ Hn Hgk) as Hg1.
  pose proof (try_consume_kept (at_max t) bytes _ Hn Hmk) as Hm1.
  assert (Hset : forall g m, kept (guaranteed_bucket ub1) g -> kept (max_bucket ub1) m ->
    wf_htb (set_user user (set_buckets g m ub1) q2)).
  { intros g m Hkg Hkm. apply wf_set_user; [done|]. rewrite Hc2. by apply (wf_user_buckets _ ub). }
  destruct (try_consume (at_guaranteed t) bytes (guaranteed_bucket ub1)) as [[|] g]; simpl in Hg1.
  { split; [by apply Hset|done]. }
  destruct (try_consume (at_max t) bytes (max_bucket ub1)) as [[|] m]; simpl in Hm1.
  { split; [by apply Hset|done]. }
  pose proof (consume_kept (max_rounds t) bytes m Hn ltac:(apply Hm1)) as Hm2.
  destruct (consume (max_rounds t) bytes m) as [[]  m']; simpl in *;
    (split; [apply Hset; [done|by eapply kept_trans]|done]).
Qed.

Lemma inc_wf now user q :
  wf_htb q -> wf_htb (inc_user_connections now user q).2 /\
  h_config (inc_user_connections now user q).2 = h_config q.
Proof.
  intros Hq. unfold inc_user_connections.
  destruct (get_or_create_user_bucket now user q) as [ub q1] eqn:Hub.
  destruct (get_or_create_wf _ _ _ _ _ Hq Hub) as (Hu & Hq1 & Hc). simpl. split; [|done].
  apply wf_set_total; [|apply wrap64_bound]. apply wf_set_user; [done|]. rewrite Hc.
  destruct Hu as (? & ? & ? & ? & ? & ? & ?). unfold wf_user; simpl. split_and!; try done; try lia; apply wrap64_bound.
Qed.

Lemma dec_wf user q :
  wf_htb q -> wf_htb (dec_user_connections user q).2 /\
  h_config (dec_user_connections user q).2 = h_config q.
Proof.
  intros Hq. unfold dec_user_connections.
  destruct (user_buckets q !! user) as [ub|] eqn:Hub; [|done]. simpl. split; [|done].
  apply wf_set_total; [|apply wrap64_bound]. apply wf_set_user; [done|].
  destruct Hq as (_ & _ & _ & _ & Hu). apply (map_Forall_lookup_1 _ _ _ _ Hu) in Hub.
  destruct Hub as (? & ? & ? & ? & ? & ? & ?). unfold wf_user; simpl. split_and!; try done; try lia; apply wrap64_bound.
Qed.

Lemma collect_active_wf now idle users q :
  wf_htb q ->
  wf_htb (collect_active now idle users q).2 /\
  h_config (collect_active now idle users q).2 = h_config q /\
  Forall (fun d => is_u64 d.2) (collect_active now idle users q).1.
Proof.
  revert q. induction users as [|u users IH]; intros q Hq; [done|]. simpl.
  destruct (user_buckets q !! u) as [b|] eqn:Hb; [|by apply IH].
  destruct (is_active now idle b); [|by apply IH].
  pose proof Hq as ((_ & _ & Hg & Hm) & _ & _ & _ & Hu).
  apply (map_Forall_lookup_1 _ _ _ _ Hu) in Hb.
  destruct (estimate_user_demand now (h_config q) b) as [demand b'] eqn:He.
  assert (Hb' : wf_user (h_config q) b' /\ is_u64 demand).
  { unfold estimate_user_demand, available_tokens in He.
    assert (Hk : wf_user (h_config q) (set_buckets (refill_sync now (guaranteed_bucket b))
      (refill_sync now (max_bucket b)) b)).
    { apply (wf_user_buckets _ b); [done| | |done]; apply refill_kept, Hb. }
    case_match; simplify_eq; (split; [done|zsolve]). }
  destruct Hb' as (Hb' & Hd). pose proof (wf_set_user u b' q Hq Hb') as Hq1.
  destruct (IH _ Hq1) as (Hq2 & Hc2 & Hl2).
  destruct (collect_active now idle users (set_user u b' q)) as [rest q2]; simpl in *.
  split; [done|]. split; [done|]. by constructor.
Qed.

Lemma apply_rate_wf q a :
  wf_htb q ->
  guaranteed_bandwidth_bytes_per_sec (h_config q) <= a.2 <= max_bandwidth_bytes_per_sec (h_config q) ->
  wf_htb (apply_rate q a) /\ h_config (apply_rate q a) = h_config q.
Proof.
  intros Hq Ha. unfold apply_rate. destruct (user_buckets q !! a.1) as [b|] eqn:Hb; [|done].
  split; [|done]. apply wf_set_user; [done|]. pose proof Hq as ((_ & _ & Hg & Hm) & _ & _ & _ & Hu).
  apply (map_Forall_lookup_1 _ _ _ _ Hu) in Hb. destruct Hb as (? & Hmb & ? & ? & ? & ? & ?).
  unfold wf_user; simpl. split_and!; try done; try lia.
  unfold wf_bucket, set_refill_rate in *; simpl. zsolve.
Qed.

Lemma rebalance_wf now users q :
  wf_htb q -> wf_htb (rebalance_bandwidth now users q) /\
  h_config (rebalance_bandwidth now users q) = h_config q.
Proof.
  intros Hq. unfold rebalance_bandwidth.
  destruct (collect_active_wf now (ns_of_secs (idle_timeout_secs (h_config q))) users q Hq)
    as (Hq1 & Hc1 & Hl).
  destruct (collect_active _ _ users q) as [active q1]; simpl in *.
  case_match; [done|]. rewrite <- Hc1.
  assert (Hr : Forall (fun a => guaranteed_bandwidth_bytes_per_sec (h_config q1) <= a.2 <=
    max_bandwidth_bytes_per_sec (h_config q1)) (calculate_fair_shares (h_config q1) active)).
  { apply Forall_forall. intros [u r] Hin. eapply fair_shares_rate; [|done|exact Hin]. apply Hq1. }
  clear -Hq1 Hr. revert Hr. generalize (calculate_fair_shares (h_config q1) active). intros l Hr.
  remember (h_config q1) as c eqn:Hc. rewrite Hc in Hr. revert q1 Hq1 Hc Hr.
  induction l as [|a l IH]; intros q1 Hq1 Hc Hr; [done|]. apply Forall_cons in Hr as (Ha & Hr).
  destruct (apply_rate_wf q1 a Hq1 Ha) as (Hq2 & Hc2). simpl. apply IH; [done|congruence|by rewrite Hc2].
Qed.

(** C29: every operation of the engine keeps its invariant: no bucket ever holds
    more than the burst size, every user's borrowing rate stays between the
    guaranteed and the maximum rate, and the counters stay in their range. *)
Theorem htb_invariant ops q :
  wf_htb q -> Forall op_ok ops -> wf_htb (foldl (fun q op => htb_step op q) q ops).
Proof.
  intros Hq Hops. revert q Hq. induction Hops as [|op ops Hop _ IH]; intros q Hq; [done|].
  simpl. apply IH. destruct op; simpl.
  - by apply allocate_wf.
  - by apply inc_wf.
  - by apply dec_wf.
  - by apply rebalance_wf.
  - unfold htb_start. by case_match.
  - done.
Qed.

Lemma htb_invariant_witness :
  wf_htb (HtbQos_new 0 HtbConfig_default) /\
  wf_htb (foldl (fun q op => htb_step op q) (HtbQos_new 0 HtbConfig_default)
    [OpInc 0 "alice"; OpAllocate (mkAllocClock 1 [] 1 1 1 1 []) "alice" 1000; OpRebalance 2 ["alice"]]).
Proof.
  assert (Hw : wf_htb (HtbQos_new 0 HtbConfig_default)).
  { refine (conj _ (conj _ (conj _ (conj _ (map_Forall_empty _))))); vm_compute; intuition discriminate. }
  split; [exact Hw|].
  apply (htb_invariant [OpInc 0 "alice"; OpAllocate (mkAllocClock 1 [] 1 1 1 1 []) "alice" 1000;
    OpRebalance 2 ["alice"]] (HtbQos_new 0 HtbConfig_default)); [exact Hw|].
  repeat constructor; vm_compute; discriminate.
Defined.

(** ** Connection limits

    [check_and_inc_connection] reads the global counter, then the user's, and
    only then increments both.  A task that admits and later releases one
    connection is a small machine over the shared engine; the machines of any
    number of tasks interleave at those steps. *)
Module Limits.
Inductive task : Type :=
| Start (user : string)
| GlobalOk (user : string)
| UserOk (user : string)
| Holding (user : string)
| Finished.

Section limits.
Context (limits : ConnectionLimits).

Record state : Type := mkState { engine : HtbQos; tasks : list task }.

Definition in_flight (t : task) : bool :=
  match t with GlobalOk _ | UserOk _ => true | _ => false end.
Definition user_ok (u : string) (t : task) : bool :=
  match t with UserOk v => bool_decide (u = v) | _ => false end.
Definition holding (t : task) : bool := match t with Holding _ => true | _ => false end.
Definition holds (u : string) (t : task) : bool :=
  match t with Holding v => bool_decide (u = v) | _ => false end.

Definition count (f : task -> bool) (ts : list task) : Z := Z.of_nat (length (List.filter f ts)).

Definition move (i : nat) (t : task) (q : HtbQos) (s : state) : state :=
  mkState q (<[i := t]> (tasks s)).

(** One step; [k] bounds the admissions that are under way at a time. *)
Inductive step (k : Z) (s : state) : state -> Prop :=
| check_global i u :
    tasks s !! i = Some (Start u) ->
    get_total_connections (engine s) < max_connections_global limits ->
    count in_flight (<[i := GlobalOk u]> (tasks s)) <= k ->
    step k s (move i (GlobalOk u) (engine s) s)
| refuse_global i u :
    tasks s !! i = Some (Start u) ->
    max_connections_global limits <= get_total_connections (engine s) ->
    step k s (move i Finished (engine s) s)
| check_user i u :
    tasks s !! i = Some (GlobalOk u) ->
    get_user_connections u (engine s) < max_connections_per_user limits ->
    step k s (move i (UserOk u) (engine s) s)
| refuse_user i u :
    tasks s !! i = Some (GlobalOk u) ->
    max_connections_per_user limits <= get_user_connections u (engine s) ->
    step k s (move i Finished (engine s) s)
| increment i u now :
    tasks s !! i = Some (UserOk u) ->
    step k s (move i (Holding u) (inc_user_connections now u (engine s)).2 s)
| release i u :
    tasks s !! i = Some (Holding u) ->
    step k s (move i Finished (dec_user_connections u (engine s)).2 s).

Definition reachable (k : Z) (config : HtbConfig) (users : list string) : state -> Prop :=
  rtc (step k) (mkState (HtbQos_new 0 config) (Start <$> users)).

Lemma count_nonneg f ts : 0 <= count f ts <= Z.of_nat (length ts).
Proof. unfold count. pose proof (List.filter_length_le f ts). lia. Qed.

Lemma count_insert f ts i t t' :
  ts !! i = Some t ->
  count f (<[i := t']> ts) =
  count f ts - (if f t then 1 else 0) + (if f t' then 1 else 0).
Proof.
  unfold count. revert i. induction ts as [|x ts IH]; intros [|i] Hi; simplify_eq/=.
  - destruct (f t), (f t'); simpl; lia.
  - specialize (IH i Hi). destruct (f x); simpl; lia.
Qed.

Lemma count_pos f ts i t : ts !! i = Some t -> f t = true -> 1 <= count f ts.
Proof.
  unfold count. revert i. induction ts as [|x ts IH]; intros [|i] Hi Ht; simplify_eq/=.
  - rewrite Ht. simpl. lia.
  - specialize (IH i Hi Ht). destruct (f x); simpl; lia.
Qed.

Lemma count_le f g ts : (forall t, f t = true -> g t = true) -> count f ts <= count g ts.
Proof.
  intros Hfg. unfold count. induction ts as [|t ts IH]; [done|]. simpl.
  destruct (f t) eqn:Ef; [rewrite (Hfg t Ef); simpl; lia|]. destruct (g t); simpl; lia.
Qed.

(** The counters of the engine count the connections that are held. *)
Definition inv (k : Z) (s : state) : Prop :=
  get_total_connections (engine s) = count holding (tasks s) /\
  (forall u, get_user_connections u (engine s) = count (holds u) (tasks s)) /\
  count holding (tasks s) + count in_flight (tasks s) <=
    Z.max k (max_connections_global limits - 1 + k) /\
  (forall u, count (holds u) (tasks s) + count (user_ok u) (tasks s) <=
     Z.max k (max_connections_per_user limits - 1 + k)) /\
  count in_flight (tasks s) <= k /\ Z.of_nat (length (tasks s)) <= u64_max.

Lemma inc_counts now u q :
  get_total_connections (inc_user_connections now u q).2 = wadd64 (get_total_connections q) 1 /\
  (forall v, get_user_connections v (inc_user_connections now u q).2 =
     if decide (v = u) then wadd64 (get_user_connections u q) 1 else get_user_connections v q).
Proof.
  unfold inc_user_connections, get_or_create_user_bucket, get_user_connections.
  destruct (user_buckets q !! u) as [b|] eqn:E; simpl; (split; [done|]); intros v;
    case_decide as Hv; try subst v; rewrite ?lookup_insert_eq, ?lookup_insert_ne by done; simpl;
    rewrite ?E, ?lookup_insert_ne by done; done.
Qed.

Lemma dec_counts u q :
  0 < get_user_connections u q ->
  get_total_connections (dec_user_connections u q).2 = wsub64 (get_total_connections q) 1 /\
  (forall v, get_user_connections v (dec_user_connections u q).2 =
     if decide (v = u) then wsub64 (get_user_connections u q) 1 else get_user_connections v q).
Proof.
  unfold dec_user_connections, get_user_connections.
  destruct (user_buckets q !! u) as [b|] eqn:E; simpl; [|done]. intros _. (split; [done|]); intros v;
    case_decide as Hv; try subst v; rewrite ?lookup_insert_eq, ?lookup_insert_ne by done; done.
Qed.

Lemma inv_increment k s i u now :
  inv k s -> tasks s !! i = Some (UserOk u) ->
  inv k (move i (Holding u) (inc_user_connections now u (engine s)).2 s).
Proof.
  intros (Ht & Hu & Hg & Hus & Hf & Hn) Hi.
  assert (Hlen : forall i t, length (<[i := t]> (tasks s)) = length (tasks s))
    by (intros; apply length_insert).
  pose proof (fun f t' => count_insert f (tasks s) i _ t' Hi) as Hc.
  pose proof (count_nonneg holding (tasks s)) as Hh.
  unfold inv, move; cbn [engine tasks]; rewrite Hlen.
  destruct (inc_counts now u (engine s)) as (Ht' & Hu'). rewrite Ht', !Hc. simpl.
  assert (Hcu : count holding (tasks s) + 1 <= Z.of_nat (length (tasks s))).
  { pose proof (count_nonneg holding (<[i := Holding u]> (tasks s))) as Hx.
    rewrite Hc, Hlen in Hx. simpl in Hx. lia. }
  pose proof (count_pos in_flight _ _ _ Hi eq_refl) as Hfl.
  split_and!; [rewrite wadd64_id by zsolve; lia| |lia| |lia|done]; intros v;
    rewrite ?Hu', !Hc; simpl; specialize (Hus v); pose proof (Hu v) as Hv.
  - pose proof (count_le (holds v) holding (tasks s) ltac:(by intros [])) as Hl.
    pose proof (count_nonneg (holds v) (tasks s)).
    case_decide as Hvu; [subst v; rewrite bool_decide_true by done|rewrite bool_decide_false by done; lia].
    rewrite wadd64_id by zsolve. lia.
  - destruct (bool_decide_reflect (v = u)); lia.
Qed.

Lemma limits_step_inv k s s' : 0 <= k -> inv k s -> step k s s' -> inv k s'.
Proof.
  intros Hk Hinv Hs. pose proof Hinv as (Ht & Hu & Hg & Hus & Hf & Hn).
  assert (Hlen : forall i t, length (<[i := t]> (tasks s)) = length (tasks s))
    by (intros; apply length_insert).
  pose proof (count_nonneg holding (tasks s)) as Hh.
  destruct Hs as [i u Hi Hlt Hb|i u Hi _|i u Hi Hlt|i u Hi _|i u now Hi|i u Hi];
    [| | | |by apply inv_increment|];
    unfold inv, move; cbn [engine tasks]; rewrite Hlen;
    pose proof (fun f t' => count_insert f (tasks s) i _ t' Hi) as Hc.
  - rewrite !Hc in *. simpl in *. split_and!; [lia| |lia| |lia|done]; intros v;
      rewrite !Hc; simpl; specialize (Hu v); specialize (Hus v); lia.
  - rewrite !Hc. simpl. split_and!; [lia| |lia| |lia|done]; intros v;
      rewrite !Hc; simpl; specialize (Hu v); specialize (Hus v); lia.
  - rewrite !Hc. simpl. split_and!; [lia| |lia| |lia|done]; intros v;
      rewrite !Hc; simpl; specialize (Hus v); pose proof (Hu v) as Hv; [lia|].
    destruct (bool_decide_reflect (v = u)) as [->|]; [|lia].
    assert (Hle : count (user_ok u) (tasks s) + 1 <= count in_flight (tasks s)).
    { pose proof (count_le (user_ok u) in_flight (<[i := UserOk u]> (tasks s))
        ltac:(by intros [])) as Hl.
      rewrite !Hc in Hl. simpl in Hl. rewrite bool_decide_true in Hl by done. lia. }
    lia.
  - rewrite !Hc. simpl. split_and!; [lia| |lia| |lia|done]; intros v;
      rewrite !Hc; simpl; specialize (Hu v); specialize (Hus v); lia.
  - assert (Hpos : 1 <= count (holds u) (tasks s)).
    { apply (count_pos (holds u) _ _ _ Hi). simpl. by apply bool_decide_true. }
    pose proof (count_le (holds u) holding (tasks s) ltac:(by intros [])) as Hle.
    destruct (dec_counts u (engine s)) as (Ht' & Hu'); [rewrite Hu; lia|].
    rewrite Ht', !Hc. simpl.
    split_and!; [rewrite wsub64_id by zsolve; lia| |lia| |lia|done]; intros v;
      rewrite ?Hu', !Hc; simpl; specialize (Hus v); pose proof (Hu v) as Hv.
    + case_decide as Hvu; [subst v; rewrite bool_decide_true by done|rewrite bool_decide_false by done; lia].
      rewrite wsub64_id by zsolve. lia.
    + destruct (bool_decide_reflect (v = u)); lia.
Qed.

(** C19: the counters are exactly the connections that are held, and with at
    most [k] admissions under way at a time neither limit is exceeded by more
    than [k - 1]; admissions that do not overlap never exceed a limit. *)
Theorem limits_overshoot k config users s :
  1 <= k -> Z.of_nat (length users) <= u64_max ->
  1 <= max_connections_global limits -> 1 <= max_connections_per_user limits ->
  reachable k config users s ->
  get_total_connections (engine s) = count holding (tasks s) /\
  get_total_connections (engine s) <= max_connections_global limits + (k - 1) /\
  forall u, get_user_connections u (engine s) = count (holds u) (tasks s) /\
            get_user_connections u (engine s) <= max_connections_per_user limits + (k - 1).
Proof.
  intros Hk Hn Hg Hu Hr.
  assert (Hi : inv k s).
  { assert (H0 : inv k (mkState (HtbQos_new 0 config) (Start <$> users))).
    { assert (Hz : forall f, (forall u, f (Start u) = false) -> count f (Start <$> users) = 0).
      { intros f Hf. unfold count. clear -Hf. induction users as [|u l IH]; [done|].
        simpl. by rewrite Hf. }
      unfold inv. cbn [engine tasks]. rewrite length_fmap, (Hz in_flight), (Hz holding) by done.
      split_and!; try done; try lia; intros u; rewrite ?(Hz (holds u)), ?(Hz (user_ok u)) by done;
        [done|lia]. }
    clear -H0 Hr Hk. unfold reachable in Hr. revert H0.
    induction Hr as [|s s1 s2 Hs _ IH]; intros H0; [done|]. apply IH.
    eapply limits_step_inv; [lia|exact H0|exact Hs]. }
  destruct Hi as (Ht & Hus & Hgb & Hub & _).
  pose proof (count_nonneg in_flight (tasks s)). split; [done|]. split; [lia|]. intros u.
  split; [done|]. rewrite Hus. specialize (Hub u).
  pose proof (count_nonneg (user_ok u) (tasks s)). lia.
Qed.
End limits.

Lemma limits_overshoot_witness :
  let lim := mkConnectionLimits 1 1 in
  exists s, reachable lim 2 HtbConfig_default ["alice"; "alice"] s /\
    get_total_connections (engine s) = 2 /\
    (get_total_connections (engine s) = count holding (tasks s) /\
     get_total_connections (engine s) <= max_connections_global lim + (2 - 1) /\
     forall u, get_user_connections u (engine s) = count (holds u) (tasks s) /\
               get_user_connections u (engine s) <= max_connections_per_user lim + (2 - 1)).
Proof.
  intros lim. set (q0 := HtbQos_new 0 HtbConfig_default).
  set (q1 := (inc_user_connections 0 "alice" q0).2).
  exists (mkState (inc_user_connections 0 "alice" q1).2 [Holding "alice"; Holding "alice"]).
  assert (Hr : reachable lim 2 HtbConfig_default ["alice"; "alice"]
    (mkState (inc_user_connections 0 "alice" q1).2 [Holding "alice"; Holding "alice"])).
  { eapply rtc_l; [apply (check_global lim 2 _ 0%nat "alice"); [done|done|done]|].
    eapply rtc_l; [apply (check_global lim 2 _ 1%nat "alice"); [done|done|done]|].
    eapply rtc_l; [apply (check_user lim 2 _ 0%nat "alice"); [done|done]|].
    eapply rtc_l; [apply (check_user lim 2 _ 1%nat "alice"); [done|done]|].
    eapply rtc_l; [apply (increment lim 2 _ 0%nat "alice" 0); done|].
    eapply rtc_l; [apply (increment lim 2 _ 1%nat "alice" 0); done|]. apply rtc_refl. }
  split; [exact Hr|]. split; [vm_compute; reflexivity|].
  apply (limits_overshoot lim 2 HtbConfig_default ["alice"; "alice"]);
    [lia|vm_compute; discriminate|vm_compute; discriminate|vm_compute; discriminate|exact Hr].
Defined.
End Limits.
