(* ===== verification/Pool.v ===== *)
(** * The pool of upstream connections

    src/src/server/pool.rs.  A TCP connection is its identity and its peer; the
    outcome of establishing a new one is an argument of the operation that does
    it.  Instants are nanoseconds of one clock, system times are opaque stamps.
    The order in which a concurrent map or a hash set is iterated is an argument.
    A spawned refresh is an entry of [refreshes]; telemetry events are left out. *)
From S2P Require Import Prelude Net Stream TokenBucket.

Record PoolConfig : Type := mkPoolConfig {
  enabled : bool;
  max_idle_per_dest : Z;
  max_total_idle : Z;
  idle_timeout_secs : Z;
  connect_timeout_ms : Z;
}.
Definition PoolConfig_default : PoolConfig := mkPoolConfig false 4 100 90 5000.

Record TcpStream : Type := mkTcpStream { sid : Z; peer : SocketAddr }.
#[export] Instance TcpStream_eq_dec : EqDecision TcpStream.
Proof. solve_decision. Defined.

Record PooledConnection : Type := mkPooledConnection {
  stream : TcpStream; created_at : Z; last_used : Z }.

Definition PooledConnection_new (now : Z) (s : TcpStream) : PooledConnection :=
  mkPooledConnection s now now.

Definition is_expired (now idle_timeout : Z) (c : PooledConnection) : bool :=
  idle_timeout <? Z.max 0 (now - last_used c).

(** ** Metrics *)

Record PoolMetrics : Type := mkPoolMetrics {
  pm_total_created : Z; pm_total_reused : Z; pm_pool_hits : Z; pm_pool_misses : Z;
  pm_dropped_full : Z; pm_expired : Z; pm_evicted : Z; pm_connections_in_use : Z;
  pm_pending_creates : Z; pm_total_idle : Z;
}.
Definition PoolMetrics_default : PoolMetrics := mkPoolMetrics 0 0 0 0 0 0 0 0 0 0.

Record DestinationMetrics : Type := mkDestinationMetrics {
  dm_total_created : Z; dm_total_reused : Z; dm_pool_hits : Z; dm_pool_misses : Z;
  dm_drops : Z; dm_evicted : Z; dm_expired : Z; dm_in_use : Z;
  dm_last_activity : option Z; dm_last_miss : option Z;
}.
Definition DestinationMetrics_default : DestinationMetrics :=
  mkDestinationMetrics 0 0 0 0 0 0 0 0 None None.

(** Wrapping additions to several counters at once: created, reused, hits,
    misses, dropped, expired, evicted, in use, pending and idle. *)
Definition bump (d m : PoolMetrics) : PoolMetrics :=
  mkPoolMetrics
    (wadd64 (pm_total_created m) (pm_total_created d)) (wadd64 (pm_total_reused m) (pm_total_reused d))
    (wadd64 (pm_pool_hits m) (pm_pool_hits d)) (wadd64 (pm_pool_misses m) (pm_pool_misses d))
    (wadd64 (pm_dropped_full m) (pm_dropped_full d)) (wadd64 (pm_expired m) (pm_expired d))
    (wadd64 (pm_evicted m) (pm_evicted d)) (wadd64 (pm_connections_in_use m) (pm_connections_in_use d))
    (wadd64 (pm_pending_creates m) (pm_pending_creates d)) (wadd64 (pm_total_idle m) (pm_total_idle d)).

Definition set_in_use (n : Z) (m : PoolMetrics) : PoolMetrics :=
  mkPoolMetrics (pm_total_created m) (pm_total_reused m) (pm_pool_hits m) (pm_pool_misses m)
    (pm_dropped_full m) (pm_expired m) (pm_evicted m) n (pm_pending_creates m) (pm_total_idle m).

(** The same for a destination, without the counter of the connections in use. *)
Definition dbump (created reused hits misses drops evicted expired : Z) (m : DestinationMetrics)
    : DestinationMetrics :=
  mkDestinationMetrics (wadd64 (dm_total_created m) created) (wadd64 (dm_total_reused m) reused)
    (wadd64 (dm_pool_hits m) hits) (wadd64 (dm_pool_misses m) misses) (wadd64 (dm_drops m) drops)
    (wadd64 (dm_evicted m) evicted) (wadd64 (dm_expired m) expired) (dm_in_use m)
    (dm_last_activity m) (dm_last_miss m).
Definition dset_in_use (n : Z) (m : DestinationMetrics) : DestinationMetrics :=
  mkDestinationMetrics (dm_total_created m) (dm_total_reused m) (dm_pool_hits m) (dm_pool_misses m)
    (dm_drops m) (dm_evicted m) (dm_expired m) n (dm_last_activity m) (dm_last_miss m).
Definition dset_activity (t : Z) (m : DestinationMetrics) : DestinationMetrics :=
  mkDestinationMetrics (dm_total_created m) (dm_total_reused m) (dm_pool_hits m) (dm_pool_misses m)
    (dm_drops m) (dm_evicted m) (dm_expired m) (dm_in_use m) (Some t) (dm_last_miss m).
Definition dset_miss (t : Z) (m : DestinationMetrics) : DestinationMetrics :=
  mkDestinationMetrics (dm_total_created m) (dm_total_reused m) (dm_pool_hits m) (dm_pool_misses m)
    (dm_drops m) (dm_evicted m) (dm_expired m) (dm_in_use m) (dm_last_activity m) (Some t).

Inductive ReuseHint : Type := Reuse | Refresh.
#[export] Instance ReuseHint_eq_dec : EqDecision ReuseHint.
Proof. solve_decision. Defined.

Record ConnectionPool : Type := mkConnectionPool {
  config : PoolConfig;
  pools : gmap SocketAddr (list PooledConnection);
  destination_metrics : gmap SocketAddr DestinationMetrics;
  metrics : PoolMetrics;
  active_counts : gmap SocketAddr Z;
  refreshes : list SocketAddr;
}.

Definition ConnectionPool_new (config : PoolConfig) : ConnectionPool :=
  mkConnectionPool config ∅ ∅ PoolMetrics_default ∅ [].

Definition set_pools (x : gmap SocketAddr (list PooledConnection)) (p : ConnectionPool) :=
  mkConnectionPool (config p) x (destination_metrics p) (metrics p) (active_counts p) (refreshes p).
Definition set_metrics (x : PoolMetrics) (p : ConnectionPool) : ConnectionPool :=
  mkConnectionPool (config p) (pools p) (destination_metrics p) x (active_counts p) (refreshes p).
Definition set_active (x : gmap SocketAddr Z) (p : ConnectionPool) : ConnectionPool :=
  mkConnectionPool (config p) (pools p) (destination_metrics p) (metrics p) x (refreshes p).
Definition spawn_refresh (addr : SocketAddr) (p : ConnectionPool) : ConnectionPool :=
  mkConnectionPool (config p) (pools p) (destination_metrics p) (metrics p) (active_counts p)
    (refreshes p ++ [addr]).
Definition add_metrics (d : PoolMetrics) (p : ConnectionPool) : ConnectionPool :=
  set_metrics (bump d (metrics p)) p.

Definition update_destination_metrics (addr : SocketAddr)
    (update : DestinationMetrics -> DestinationMetrics) (p : ConnectionPool) : ConnectionPool :=
  mkConnectionPool (config p) (pools p)
    (<[addr := update (default DestinationMetrics_default (destination_metrics p !! addr))]>
       (destination_metrics p))
    (metrics p) (active_counts p) (refreshes p).

Definition record_expired (sys : Z) (addr : SocketAddr) (count : Z) (p : ConnectionPool) : ConnectionPool :=
  if count =? 0 then p
  else
    let p := add_metrics (mkPoolMetrics 0 0 0 0 0 count 0 0 0 (- count)) p in
    update_destination_metrics addr (fun e => dset_activity sys (dbump 0 0 0 0 0 0 count e)) p.

Definition record_evicted (sys : Z) (addr : SocketAddr) (p : ConnectionPool) : ConnectionPool :=
  let p := add_metrics (mkPoolMetrics 0 0 0 0 0 0 1 0 0 (- 1)) p in
  update_destination_metrics addr (fun e => dset_activity sys (dbump 0 0 0 0 0 1 0 e)) p.

(** The compare-and-swap loop stops at zero. *)
Definition decrement_in_use (p : ConnectionPool) : ConnectionPool :=
  let current := pm_connections_in_use (metrics p) in
  if current =? 0 then p else set_metrics (set_in_use (current - 1) (metrics p)) p.

Definition increment_active (addr : SocketAddr) (p : ConnectionPool) : ConnectionPool :=
  set_active (<[addr := wadd64 (default 0 (active_counts p !! addr)) 1]> (active_counts p)) p.

Definition decrement_active (addr : SocketAddr) (p : ConnectionPool) : ConnectionPool :=
  match active_counts p !! addr with
  | None => p
  | Some prev =>
    if prev =? 1 then set_active (delete addr (active_counts p)) p
    else set_active (<[addr := wsub64 prev 1]> (active_counts p)) p
  end.

(** ** Taking a connection *)

(** The loop pops from the end; [rev_conns] is the pool's list from its end. *)
Fixpoint pop_fresh (now idle_timeout : Z) (rev_conns : list PooledConnection) (expired : Z)
    : option TcpStream * list PooledConnection * Z :=
  match rev_conns with
  | [] => (None, [], expired)
  | conn :: rest =>
    if is_expired now idle_timeout conn then pop_fresh now idle_timeout rest (expired + 1)
    else (Some (stream conn), rest, expired)
  end.

Definition try_get_from_pool (now sys : Z) (addr : SocketAddr) (p : ConnectionPool)
    : option TcpStream * ConnectionPool :=
  match pools p !! addr with
  | None => (None, p)
  | Some pool_entry =>
    let idle_timeout := ns_of_secs (idle_timeout_secs (config p)) in
    let '(stream, rest, expired) := pop_fresh now idle_timeout (reverse pool_entry) 0 in
    let p := match rest with
             | [] => set_pools (delete addr (pools p)) p
             | _ => set_pools (<[addr := reverse rest]> (pools p)) p
             end in
    let p := match stream with
             | Some _ => add_metrics (mkPoolMetrics 0 0 0 0 0 0 0 0 0 (- 1)) p
             | None => p
             end in
    let p := if 0 <? expired then record_expired sys addr expired p else p in
    (stream, p)
  end.

(** [connected]: the outcome of [connect_new], when it is called. *)
Definition get (now sys : Z) (connected : result ErrorKind Z) (addr : SocketAddr)
    (p : ConnectionPool) : result ErrorKind TcpStream * ConnectionPool :=
  if negb (enabled (config p)) then ((fun id => mkTcpStream id addr) <$> connected, p)
  else
    match try_get_from_pool now sys addr p with
    | (Some stream, p) =>
      let p := add_metrics (mkPoolMetrics 0 1 1 0 0 0 0 1 0 0) p in
      let p := update_destination_metrics addr (fun e =>
                 dset_activity sys (dset_in_use (wadd64 (dm_in_use e) 1) (dbump 0 1 1 0 0 0 0 e))) p in
      (Ok stream, increment_active addr p)
    | (None, p) =>
      let p := add_metrics (mkPoolMetrics 0 0 0 1 0 0 0 0 0 0) p in
      let p := update_destination_metrics addr (fun e => dset_miss sys (dbump 0 0 0 1 0 0 0 e)) p in
      let p := add_metrics (mkPoolMetrics 0 0 0 0 0 0 0 0 1 0) p in
      let p := add_metrics (mkPoolMetrics 0 0 0 0 0 0 0 0 (- 1) 0) p in
      match connected with
      | Err e => (Err e, p)
      | Ok id =>
        let p := add_metrics (mkPoolMetrics 1 0 0 0 0 0 0 1 0 0) p in
        let p := update_destination_metrics addr (fun e =>
                   dset_activity sys (dset_in_use (wadd64 (dm_in_use e) 1) (dbump 1 0 0 0 0 0 0 e))) p in
        (Ok (mkTcpStream id addr), increment_active addr p)
      end
    end.

(** ** Returning a connection *)

(** [Iterator::min_by_key]: the first of the least. *)
Fixpoint min_by_key (l : list (SocketAddr * Z)) : option (SocketAddr * Z) :=
  match l with
  | [] => None
  | x :: l' => match min_by_key l' with
               | Some y => if y.2 <? x.2 then Some y else Some x
               | None => Some x
               end
  end.

Definition evict_candidates (order : list SocketAddr) (p : ConnectionPool) : list (SocketAddr * Z) :=
  omap (fun addr => match pools p !! addr with
                    | Some (conn :: _) => Some (addr, created_at conn)
                    | _ => None
                    end) order.

Definition evict_oldest (order : list SocketAddr) (p : ConnectionPool)
    : option SocketAddr * ConnectionPool :=
  match min_by_key (evict_candidates order p) with
  | None => (None, p)
  | Some (addr, _) =>
    match pools p !! addr with
    | None => (Some addr, p)
    | Some pool =>
      match delete 0%nat pool with
      | [] => (Some addr, set_pools (delete addr (pools p)) p)
      | pool => (Some addr, set_pools (<[addr := pool]> (pools p)) p)
      end
    end
  end.

(** Whether it was inserted, whether it was dropped, and whose was evicted. *)
Definition insert_stream (now : Z) (order : list SocketAddr) (addr : SocketAddr) (s : TcpStream)
    (p : ConnectionPool) : (bool * bool * option SocketAddr) * ConnectionPool :=
  let dropped_for_capacity :=
    match pools p !! addr with
    | Some pool => max_idle_per_dest (config p) <=? Z.of_nat (length pool)
    | None => false
    end in
  if dropped_for_capacity then ((false, true, None), p)
  else
    let '(evicted_addr, p) :=
      if max_total_idle (config p) <=? pm_total_idle (metrics p) then evict_oldest order p
      else (None, p) in
    let p := set_pools (<[addr := default [] (pools p !! addr) ++ [PooledConnection_new now s]]>
                          (pools p)) p in
    let p := add_metrics (mkPoolMetrics 0 0 0 0 0 0 0 0 0 1) p in
    ((true, false, evicted_addr), p).

Definition in_use_minus_one (e : DestinationMetrics) : DestinationMetrics :=
  dset_in_use (sat_sub64 (dm_in_use e) 1) e.

Definition put (now sys : Z) (order : list SocketAddr) (addr : SocketAddr) (s : TcpStream)
    (hint : ReuseHint) (p : ConnectionPool) : ConnectionPool :=
  if negb (enabled (config p)) then p
  else
    let p := decrement_in_use p in
    match hint with
    | Reuse =>
      let '((inserted, dropped_for_capacity, evicted_addr), p) := insert_stream now order addr s p in
      let p :=
        if dropped_for_capacity : bool then
          let p := add_metrics (mkPoolMetrics 0 0 0 0 1 0 0 0 0 0) p in
          update_destination_metrics addr (fun e => in_use_minus_one (dbump 0 0 0 0 1 0 0 e)) p
        else if inserted : bool then
          update_destination_metrics addr (fun e => dset_activity sys (in_use_minus_one e)) p
        else update_destination_metrics addr in_use_minus_one p in
      let p := match evicted_addr with Some evicted => record_evicted sys evicted p | None => p end in
      decrement_active addr p
    | Refresh =>
      let p := update_destination_metrics addr in_use_minus_one p in
      let p := decrement_active addr p in
      spawn_refresh addr p
    end.

Definition release (addr : SocketAddr) (hint : ReuseHint) (p : ConnectionPool) : ConnectionPool :=
  if negb (enabled (config p)) then p
  else
    let p := decrement_in_use p in
    let p := update_destination_metrics addr in_use_minus_one p in
    let p := decrement_active addr p in
    if decide (hint = Refresh) then spawn_refresh addr p else p.

(** The spawned task; it is no longer pending in [refreshes] when it ends. *)
Definition refresh_connection (now sys : Z) (order : list SocketAddr)
    (connected : result ErrorKind Z) (addr : SocketAddr) (p : ConnectionPool) : ConnectionPool :=
  let p := add_metrics (mkPoolMetrics 0 0 0 0 0 0 0 0 1 0) p in
  let p := add_metrics (mkPoolMetrics 0 0 0 0 0 0 0 0 (- 1) 0) p in
  match connected with
  | Err _ => p
  | Ok id =>
    let p := add_metrics (mkPoolMetrics 1 0 0 0 0 0 0 0 0 0) p in
    let p := update_destination_metrics addr (fun e => dset_activity sys (dbump 1 0 0 0 0 0 0 e)) p in
    let '((inserted, dropped_for_capacity, evicted_addr), p) :=
      insert_stream now order addr (mkTcpStream id addr) p in
    let p :=
      if dropped_for_capacity : bool then
        let p := add_metrics (mkPoolMetrics 0 0 0 0 1 0 0 0 0 0) p in
        update_destination_metrics addr (dbump 0 0 0 0 1 0 0) p
      else p in
    match evicted_addr with Some evicted => record_evicted sys evicted p | None => p end
  end.

(** ** Clean-up and statistics *)

(** One entry of [DashMap::retain]. *)
Definition cleanup_entry (now sys : Z) (p : ConnectionPool)
    (entry : SocketAddr * list PooledConnection) : ConnectionPool :=
  let '(addr, pool) := entry in
  let idle_timeout := ns_of_secs (idle_timeout_secs (config p)) in
  let kept := List.filter (fun conn => negb (is_expired now idle_timeout conn)) pool in
  let removed := Z.of_nat (length pool) - Z.of_nat (length kept) in
  let p := if 0 <? removed then record_expired sys addr removed p else p in
  match kept with
  | [] => set_pools (delete addr (pools p)) p
  | _ => set_pools (<[addr := kept]> (pools p)) p
  end.
Definition cleanup_expired (now sys : Z) (p : ConnectionPool) : ConnectionPool :=
  foldl (cleanup_entry now sys) p (map_to_list (pools p)).

Record DestinationPoolStats : Type := mkDestinationPoolStats {
  ds_destination : SocketAddr; ds_idle_connections : Z; ds_metrics : DestinationMetrics }.
Record PoolStats : Type := mkPoolStats {
  ps_total_idle : Z; ps_destinations : Z; ps_config : PoolConfig; ps_connections_in_use : Z;
  ps_total_created : Z; ps_total_reused : Z; ps_pool_hits : Z; ps_pool_misses : Z;
  ps_dropped_full : Z; ps_expired : Z; ps_evicted : Z; ps_pending_creates : Z;
  ps_per_destination : list DestinationPoolStats;
}.

(** [a] may stand before [b]: more in use, then more idle, then more created. *)
Definition stats_leb (a b : DestinationPoolStats) : bool :=
  let key s := (dm_in_use (ds_metrics s), ds_idle_connections s, dm_total_created (ds_metrics s)) in
  let '(a1, a2, a3) := key a in
  let '(b1, b2, b3) := key b in
  if b1 <? a1 then true else if a1 <? b1 then false
  else if b2 <? a2 then true else if a2 <? b2 then false
  else b3 <=? a3.

Definition sum_active (m : gmap SocketAddr Z) : Z := map_fold (fun _ n s => n + s) 0 m.

(** [addrs]: the hash set of the addresses with a pool or metrics, in its order. *)
Definition stats (addrs : list SocketAddr) (p : ConnectionPool) : PoolStats :=
  let per_destination := (fun addr =>
    mkDestinationPoolStats addr
      (match pools p !! addr with Some pool => Z.of_nat (length pool) | None => 0 end)
      (default DestinationMetrics_default (destination_metrics p !! addr))) <$> addrs in
  let per_destination := sort_by stats_leb per_destination in
  let m := metrics p in
  mkPoolStats (pm_total_idle m) (Z.of_nat (length per_destination)) (config p)
    (sum_active (active_counts p)) (pm_total_created m) (pm_total_reused m) (pm_pool_hits m)
    (pm_pool_misses m) (pm_dropped_full m) (pm_expired m) (pm_evicted m) (pm_pending_creates m)
    per_destination.
