(* ===== verification/PoolSpec.v ===== *)
(** * The connection pool: correctness

    The pool together with the connections its clients hold, as a transition
    system, and its invariant: no connection is in two places, every idle
    connection leads to the destination it is filed under, the limits hold, and
    the counters count what they say. *)
From S2P Require Import Prelude Net Stream TokenBucket Pool.

(** ** The idle connections of a map of pools *)

Definition all_conns (m : gmap SocketAddr (list PooledConnection)) : list PooledConnection :=
  concat (snd <$> map_to_list m).

(** A pool that became empty is removed. *)
Definition put_pool (a : SocketAddr) (l : list PooledConnection)
    (m : gmap SocketAddr (list PooledConnection)) : gmap SocketAddr (list PooledConnection) :=
  match l with [] => delete a m | _ => <[a := l]> m end.

Lemma concat_perm {A} (l l' : list (list A)) : l ≡ₚ l' -> concat l ≡ₚ concat l'.
Proof.
  induction 1 as [|x l l' _ IH|x y l|l1 l2 l3 _ IH1 _ IH2]; simpl.
  - done.
  - by rewrite IH.
  - rewrite !(assoc_L (++)). by rewrite (comm (++) y x).
  - by rewrite IH1.
Qed.

Lemma all_conns_insert a l m : m !! a = None -> all_conns (<[a := l]> m) ≡ₚ l ++ all_conns m.
Proof.
  intros Ha. unfold all_conns. rewrite (concat_perm _ (snd <$> (a, l) :: map_to_list m)); [done|].
  by rewrite map_to_list_insert.
Qed.

Lemma all_conns_delete a l m : m !! a = Some l -> all_conns m ≡ₚ l ++ all_conns (delete a m).
Proof.
  intros Ha. rewrite <- (insert_delete_id m a l) at 1 by done.
  apply all_conns_insert. apply lookup_delete_eq.
Qed.

Lemma all_conns_put a l m : all_conns (put_pool a l m) ≡ₚ l ++ all_conns (delete a m).
Proof.
  unfold put_pool. destruct l as [|c l]; [done|]. rewrite <- insert_delete_eq.
  apply all_conns_insert. apply lookup_delete_eq.
Qed.

Lemma all_conns_delete_None a m : m !! a = None -> all_conns (delete a m) = all_conns m.
Proof. intros Ha. by rewrite delete_id. Qed.

Lemma elem_all_conns c m : c ∈ all_conns m <-> exists a l, m !! a = Some l /\ c ∈ l.
Proof.
  unfold all_conns. rewrite list_elem_of_In, List.in_concat. split.
  - intros (l & Hl & Hc). apply list_elem_of_In, list_elem_of_fmap in Hl as ([a l'] & -> & Hal).
    apply elem_of_map_to_list in Hal. exists a, l'. by rewrite list_elem_of_In.
  - intros (a & l & Hl & Hc). exists l. rewrite <- !list_elem_of_In. split; [|done].
    apply list_elem_of_fmap. exists (a, l). by rewrite elem_of_map_to_list.
Qed.

(** ** Well-formed maps of pools *)

(** No pool is empty, the peers fit, and each pool is in order of creation. *)
Definition created_sorted (l : list PooledConnection) : Prop :=
  StronglySorted (fun c d => created_at c <= created_at d) l.
Definition wf_pool (clock : Z) (a : SocketAddr) (l : list PooledConnection) : Prop :=
  l ≠ [] /\ Forall (fun c => peer (stream c) = a /\ created_at c <= clock) l /\ created_sorted l.
Definition wf_pools (clock : Z) (m : gmap SocketAddr (list PooledConnection)) : Prop :=
  map_Forall (wf_pool clock) m.

Lemma wf_pools_put clock a l m :
  wf_pools clock m -> (l ≠ [] -> wf_pool clock a l) -> wf_pools clock (put_pool a l m).
Proof.
  intros Hm Hl. unfold put_pool. destruct l as [|c l]; [by apply map_Forall_delete|].
  apply map_Forall_insert_2; [by apply Hl|done].
Qed.

Lemma wf_pools_mono c1 c2 m : c1 <= c2 -> wf_pools c1 m -> wf_pools c2 m.
Proof.
  intros Hc Hm a l Hl. destruct (Hm a l Hl) as (? & Hf & ?). split; [done|]. split; [|done].
  eapply Forall_impl; [exact Hf|]. simpl. intros c (? & ?). split; [done|lia].
Qed.

Lemma created_sorted_app l c clock :
  created_sorted l -> Forall (fun d => peer (stream d) = c /\ created_at d <= clock) l ->
  forall x, created_at x = clock -> created_sorted (l ++ [x]).
Proof.
  intros Hs Hf x Hx. unfold created_sorted in *. induction Hs as [|d l Hs IH Hd]; simpl.
  - repeat constructor.
  - apply Forall_cons in Hf as ((_ & Hdc) & Hf). constructor; [by apply IH|].
    apply Forall_app. split; [done|]. repeat constructor. lia.
Qed.

Lemma Forall_sublist {A} (P : A -> Prop) l l' : Forall P l -> l' `sublist_of` l -> Forall P l'.
Proof.
  rewrite !Forall_forall. intros H Hs x Hx. apply H. by eapply elem_of_sublist.
Qed.

Lemma sublist_wf clock a l l' : wf_pool clock a l -> l' `sublist_of` l -> l' ≠ [] -> wf_pool clock a l'.
Proof.
  intros (_ & Hf & Hs) Hl Hne. split; [done|]. split.
  - by eapply Forall_sublist.
  - clear Hf Hne. unfold created_sorted in *. revert l' Hl. induction Hs as [|d l Hs IH Hd]; intros l' Hl.
    + apply sublist_nil_r in Hl as ->. constructor.
    + apply sublist_cons_r in Hl as [Hl|(l'' & -> & Hl)]; [by apply IH|].
      constructor; [by apply IH|]. by eapply Forall_sublist.
Qed.

(** ** Taking *)

Lemma pop_fresh_spec now t l n s rest k :
  pop_fresh now t l n = (s, rest, k) ->
  exists gone, k = n + Z.of_nat (length gone) /\ Forall (fun c => is_expired now t c = true) gone /\
    match s with
    | Some st => exists c, st = stream c /\ is_expired now t c = false /\ l = gone ++ c :: rest
    | None => l = gone /\ rest = []
    end.
Proof.
  revert n. induction l as [|c l IH]; intros n; simpl.
  - intros [= <- <- <-]. exists []. simpl. split; [lia|]. done.
  - destruct (is_expired now t c) eqn:E.
    + intros (gone & -> & Hg & Hs)%IH. exists (c :: gone). split; [simpl; lia|]. split; [by constructor|].
      destruct s as [st|]; [|naive_solver].
      destruct Hs as (c' & -> & Hc' & ->). by exists c'.
    + intros [= <- <- <-]. exists []. split; [simpl; lia|]. split; [done|]. by exists c.
Qed.

(** ** Views of the counters *)

Definition idle_is (p : ConnectionPool) (k : Z) : Prop := pm_total_idle (metrics p) = wrap64 k.
Definition in_use_is (p : ConnectionPool) (k : Z) : Prop := pm_connections_in_use (metrics p) = wrap64 k.
Definition dest_in_use (p : ConnectionPool) (a : SocketAddr) : Z :=
  dm_in_use (default DestinationMetrics_default (destination_metrics p !! a)).

(** Two pools that agree on everything but the idle connections and their count. *)
Definition same_use (p p' : ConnectionPool) : Prop :=
  config p' = config p /\ active_counts p' = active_counts p /\
  (forall k, in_use_is p k -> in_use_is p' k) /\ (forall a, dest_in_use p' a = dest_in_use p a).

Lemma same_use_refl p : same_use p p.
Proof. done. Qed.
Lemma same_use_trans p1 p2 p3 : same_use p1 p2 -> same_use p2 p3 -> same_use p1 p3.
Proof.
  intros (C1 & A1 & U1 & D1) (C2 & A2 & U2 & D2). unfold same_use. rewrite C2, A2.
  split_and!; [done|done|by auto|]. intros a. by rewrite D2, D1.
Qed.

Lemma add_metrics_views d p :
  (forall k, idle_is p k -> idle_is (add_metrics d p) (k + pm_total_idle d)) /\
  (forall k, in_use_is p k -> in_use_is (add_metrics d p) (k + pm_connections_in_use d)).
Proof.
  unfold idle_is, in_use_is; simpl. split; intros k ->; by rewrite wadd64_wrap.
Qed.

Lemma idle_add d p k k' : idle_is p k -> k' = k + pm_total_idle d -> idle_is (add_metrics d p) k'.
Proof. intros Hk ->. by apply add_metrics_views. Qed.
Lemma in_use_add d p k k' :
  in_use_is p k -> k' = k + pm_connections_in_use d -> in_use_is (add_metrics d p) k'.
Proof. intros Hk ->. by apply add_metrics_views. Qed.

Lemma dest_in_use_update a f p b :
  dest_in_use (update_destination_metrics a f p) b =
  if decide (b = a) then dm_in_use (f (default DestinationMetrics_default (destination_metrics p !! a)))
  else dest_in_use p b.
Proof.
  unfold dest_in_use, update_destination_metrics; simpl. case_decide as Hb.
  - subst b. by rewrite lookup_insert_eq.
  - by rewrite lookup_insert_ne.
Qed.

Lemma record_expired_views sys a n p :
  pools (record_expired sys a n p) = pools p /\ same_use p (record_expired sys a n p) /\
  (forall k, idle_is p k -> idle_is (record_expired sys a n p) (k - n)).
Proof.
  unfold record_expired. destruct (Z.eqb_spec n 0) as [->|Hn].
  - split; [done|]. split; [done|]. intros k. by rewrite Z.sub_0_r.
  - split; [done|]. split.
    + split; [done|]. split; [done|]. split.
      * intros k Hk. eapply (in_use_add _ p k); [done|simpl; lia].
      * intros b. rewrite dest_in_use_update. case_decide; [by subst b|done].
    + intros k Hk. eapply (idle_add _ p k); [done|simpl; lia].
Qed.

Lemma record_evicted_views sys a p :
  pools (record_evicted sys a p) = pools p /\ same_use p (record_evicted sys a p) /\
  (forall k, idle_is p k -> idle_is (record_evicted sys a p) (k - 1)).
Proof.
  unfold record_evicted. split; [done|]. split.
  - split; [done|]. split; [done|]. split.
    + intros k Hk. eapply (in_use_add _ p k); [done|simpl; lia].
    + intros b. rewrite dest_in_use_update. case_decide; [by subst b|done].
  - intros k Hk. eapply (idle_add _ p k); [done|simpl; lia].
Qed.

(** ** Taking *)

(** [taken] is the connection handed out, if any; [gone] the expired ones. *)
Lemma try_get_spec now sys a p s p' :
  try_get_from_pool now sys a p = (s, p') ->
  exists rest taken gone,
    default [] (pools p !! a) = rest ++ taken ++ gone /\ s = stream <$> head taken /\
    (length taken <= 1)%nat /\
    Forall (fun c => is_expired now (ns_of_secs (idle_timeout_secs (config p))) c = false) taken /\
    Forall (fun c => is_expired now (ns_of_secs (idle_timeout_secs (config p))) c = true) gone /\
    pools p' = match pools p !! a with Some _ => put_pool a rest (pools p) | None => pools p end /\
    same_use p p' /\
    (forall k, idle_is p k -> idle_is p' (k - Z.of_nat (length (taken ++ gone)))).
Proof.
  unfold try_get_from_pool. destruct (pools p !! a) as [l|] eqn:Hl; simpl.
  2: { intros [= <- <-]. exists [], [], []. split_and!; try done; [simpl; lia|].
       intros k Hk. by rewrite Z.sub_0_r. }
  destruct (pop_fresh _ _ _ _) as [[st rest] n] eqn:Hp. apply pop_fresh_spec in Hp as (gone & -> & Hg & Hs).
  set (p1 := match rest with [] => set_pools (delete a (pools p)) p | _ => _ end).
  assert (H1 : pools p1 = put_pool a (reverse rest) (pools p) /\ same_use p p1 /\ forall k, idle_is p k -> idle_is p1 k).
  { unfold p1, put_pool. destruct rest as [|c rest]; [done|]. rewrite reverse_cons.
    destruct (reverse rest ++ [c]) eqn:E; [by apply app_nil in E as (_ & ?)|]. rewrite <- E. done. }
  clearbody p1. destruct H1 as (Hp1 & Hu1 & Hi1).
  set (p2 := match st with Some _ => add_metrics _ p1 | None => p1 end).
  set (n := match st with Some _ => 1 | None => 0 end).
  assert (H2 : pools p2 = pools p1 /\ same_use p p2 /\ forall k, idle_is p k -> idle_is p2 (k - n)).
  { unfold p2, n. destruct st; [|split; [done|]; split; [done|]; intros k; rewrite Z.sub_0_r; by apply Hi1].
    split; [done|]. split.
    - eapply same_use_trans; [done|]. split; [done|]. split; [done|]. split; [|done].
      intros k Hk. eapply (in_use_add _ p1 k); [done|simpl; lia].
    - intros k Hk%Hi1. eapply (idle_add _ p1 k); [done|simpl; lia]. }
  clearbody p2. destruct H2 as (Hp2 & Hu2 & Hi2). intros [= <- <-].
  exists (reverse rest), (match st with Some _ => take 1 (drop (length gone) (reverse l)) | None => [] end), (reverse gone).
  assert (Hfin : forall m, m = Z.of_nat (length gone) ->
    let p' := if 0 <? 0 + m then record_expired sys a (0 + m) p2 else p2 in
    pools p' = pools p2 /\ same_use p p' /\ forall k, idle_is p k -> idle_is p' (k - n - m)).
  { intros m Hm p'. unfold p'. destruct (Z.ltb_spec 0 (0 + m)).
    - destruct (record_expired_views sys a (0 + m) p2) as (-> & Hu3 & Hi3). split; [done|].
      split; [by eapply same_use_trans|]. intros k Hk%Hi2. apply Hi3 in Hk. exact Hk.
    - split; [done|]. split; [done|]. replace m with 0 by lia. intros k Hk. rewrite Z.sub_0_r. by apply Hi2. }
  destruct (Hfin _ eq_refl) as (Hp3 & Hu3 & Hi3). rewrite Hp3, Hp2, Hp1. clear Hfin Hp3.
  destruct st as [st|].
  - destruct Hs as (c & -> & Hc & Hr). rewrite Hr, drop_app_length. change (take 1 (c :: rest)) with [c].
    split_and!; try done.
    + rewrite <- (reverse_involutive l), Hr, reverse_app, reverse_cons, <- (assoc_L (++)). done.
    + by repeat constructor.
    + by apply Forall_reverse.
    + intros k Hk. apply Hi3 in Hk. replace (k - Z.of_nat (length ([c] ++ reverse gone))) with
        (k - n - Z.of_nat (length gone)); [done|]. rewrite length_app, length_reverse. unfold n. simpl. lia.
  - destruct Hs as (Hr & ->). split_and!; try done.
    + simpl. by rewrite <- Hr, reverse_involutive.
    + simpl; lia.
    + by apply Forall_reverse.
    + intros k Hk. apply Hi3 in Hk. simpl. rewrite length_reverse.
      replace (k - Z.of_nat (length gone)) with (k - n - Z.of_nat (length gone)) by (unfold n; lia). done.
Qed.

(** ** Evicting and inserting *)

Lemma min_by_key_spec l :
  match min_by_key l with
  | None => l = []
  | Some x => x ∈ l /\ forall y, y ∈ l -> x.2 <= y.2
  end.
Proof.
  induction l as [|x l IH]; [done|]. simpl. destruct (min_by_key l) as [y|].
  - destruct IH as (Hy & Hm). destruct (Z.ltb_spec y.2 x.2).
    + split; [by right|]. intros z [->|Hz]%elem_of_cons; [lia|by apply Hm].
    + split; [by left|]. intros z [->|Hz]%elem_of_cons; [lia|]. specialize (Hm z Hz). lia.
  - subst l. split; [by left|]. by intros z Hz%list_elem_of_singleton; subst z.
Qed.

Lemma evict_candidates_elem order p a t :
  (a, t) ∈ evict_candidates order p <->
  a ∈ order /\ exists c l, pools p !! a = Some (c :: l) /\ created_at c = t.
Proof.
  unfold evict_candidates. rewrite list_elem_of_omap. split.
  - intros (b & Hb & Hm). repeat case_match; simplify_eq. eauto 10.
  - intros (Ha & c & l & Hl & <-). exists a. by rewrite Hl.
Qed.

(** With pools in order of creation, what is evicted is a connection that is
    nowhere younger than another idle connection. *)
Lemma evict_spec clock order p r p' :
  wf_pools clock (pools p) -> (forall a, is_Some (pools p !! a) -> a ∈ order) ->
  evict_oldest order p = (r, p') ->
  match r with
  | None => all_conns (pools p) = [] /\ p' = p
  | Some a => exists c l, pools p !! a = Some (c :: l) /\ pools p' = put_pool a l (pools p) /\
                p' = set_pools (pools p') p /\
                forall d, d ∈ all_conns (pools p) -> created_at c <= created_at d
  end.
Proof.
  intros Hwf Hord. unfold evict_oldest. pose proof (min_by_key_spec (evict_candidates order p)) as Hmin.
  destruct (min_by_key _) as [[a t]|].
  - destruct Hmin as ((Ha & c & l & Hl & <-)%evict_candidates_elem & Hleast). rewrite Hl. simpl.
    assert (Hold : forall d, d ∈ all_conns (pools p) -> created_at c <= created_at d).
    { intros d (b & lb & Hb & Hd)%elem_all_conns. destruct (Hwf b lb Hb) as (Hne & _ & Hs).
      destruct lb as [|e lb]; [done|]. transitivity (created_at e).
      - apply (Hleast (b, created_at e)). apply evict_candidates_elem. eauto 10.
      - inversion Hs as [|? ? _ He]; subst. apply elem_of_cons in Hd as [->|Hd]; [lia|].
        rewrite Forall_forall in He. by apply He. }
    destruct l as [|d l]; intros [= <- <-]; exists c; [exists []|exists (d :: l)]; simpl; eauto 10.
  - intros [= <- <-]. split; [|done].
    destruct (all_conns (pools p)) as [|d l] eqn:E; [done|].
    assert (Hd : d ∈ all_conns (pools p)) by (rewrite E; by left).
    apply elem_all_conns in Hd as (b & lb & Hb & Hd). destruct (Hwf b lb Hb) as (Hne & _).
    destruct lb as [|e lb]; [done|].
    assert (Hin : (b, created_at e) ∈ evict_candidates order p) by (apply evict_candidates_elem; eauto 10).
    rewrite Hmin in Hin. by apply elem_of_nil in Hin.
Qed.

Lemma put_pool_lookup a l m : default [] (put_pool a l m !! a) = l.
Proof. unfold put_pool. destruct l; [by rewrite lookup_delete_eq|by rewrite lookup_insert_eq]. Qed.

Lemma put_pool_lookup_ne a b l m : b ≠ a -> put_pool a l m !! b = m !! b.
Proof. intros Hb. unfold put_pool. destruct l; by rewrite ?lookup_delete_ne, ?lookup_insert_ne. Qed.

Lemma default_conns a m : default [] (m !! a) ++ all_conns (delete a m) ≡ₚ all_conns m.
Proof.
  destruct (m !! a) as [l|] eqn:E; simpl; [by rewrite <- all_conns_delete|by rewrite delete_id].
Qed.

Definition conns_len (p : ConnectionPool) : Z := Z.of_nat (length (all_conns (pools p))).
Definition dest_len (p : ConnectionPool) (a : SocketAddr) : Z :=
  Z.of_nat (length (default [] (pools p !! a))).

(** A step that may take out idle connections: [gone] left, nothing came. *)
Definition removed (p p' : ConnectionPool) (gone : list PooledConnection) : Prop :=
  all_conns (pools p) ≡ₚ gone ++ all_conns (pools p') /\ (forall a, dest_len p' a <= dest_len p a).

(** The first step of an insertion: room is made when there is none. *)
Definition make_room (order : list SocketAddr) (p : ConnectionPool) : option SocketAddr * ConnectionPool :=
  if max_total_idle (config p) <=? pm_total_idle (metrics p) then evict_oldest order p else (None, p).

Lemma make_room_spec clock order p :
  wf_pools clock (pools p) -> (forall a, is_Some (pools p !! a) -> a ∈ order) ->
  let q := make_room order p in
  exists out, (match q.1 with Some _ => exists c, out = [c] | None => out = [] end) /\
  (forall c, c ∈ out -> forall c', c' ∈ all_conns (pools p) -> created_at c <= created_at c') /\
  (out = [] -> pm_total_idle (metrics p) < max_total_idle (config p) \/ all_conns (pools p) = []) /\
  q.2 = set_pools (pools q.2) p /\ all_conns (pools p) ≡ₚ out ++ all_conns (pools q.2) /\
  (forall x, dest_len q.2 x <= dest_len p x) /\ wf_pools clock (pools q.2).
Proof.
  intros Hwf Hord q. subst q. unfold make_room.
  destruct (Z.leb_spec (max_total_idle (config p)) (pm_total_idle (metrics p))) as [Hle|Hlt].
  2: { exists []. simpl. split; [done|]. split; [set_solver|]. split; [by left|].
       split; [by destruct p|]. split; [done|]. split; [lia|done]. }
  destruct (evict_oldest order p) as [r q'] eqn:Ee. apply (evict_spec clock) in Ee; [|done|done]. simpl.
  destruct r as [x|].
  - destruct Ee as (c & l & Hl & Hp & Hq & Hold). exists [c]. split; [by exists c|].
    split; [by intros ? ->%list_elem_of_singleton|]. split; [done|]. split; [done|].
    rewrite Hp. split.
    { rewrite all_conns_put, (all_conns_delete x (c :: l)) by done. done. }
    split.
    + intros y. unfold dest_len. rewrite Hp. destruct (decide (y = x)) as [->|Hy].
      * rewrite put_pool_lookup, Hl. simpl. lia.
      * rewrite put_pool_lookup_ne by done. lia.
    + apply wf_pools_put; [done|]. intros Hne. eapply (sublist_wf clock x (c :: l)); [by apply Hwf| |done].
      by apply sublist_cons.
  - destruct Ee as (Hnil & ->). exists []. split; [done|]. split; [set_solver|]. split; [by right|].
    split; [by destruct p|]. split; [done|]. split; [lia|done].
Qed.

(** What [insert_stream] does.  A dropped connection changes nothing; otherwise
    at most one idle connection gives way and the new one is filed last. *)
Lemma insert_spec clock now order a s p b d e p' :
  clock <= now -> wf_pools clock (pools p) -> (forall a, is_Some (pools p !! a) -> a ∈ order) ->
  peer s = a ->
  insert_stream now order a s p = ((b, d, e), p') ->
  same_use p p' /\ wf_pools now (pools p') /\
  ((d = true /\ b = false /\ e = None /\ p' = p /\ max_idle_per_dest (config p) <= dest_len p a /\
      is_Some (pools p !! a)) \/
   (d = false /\ b = true /\
    exists out, (match e with Some _ => exists c, out = [c] | None => out = [] end) /\
      (forall c, c ∈ out -> forall c', c' ∈ all_conns (pools p) -> created_at c <= created_at c') /\
      (out = [] -> pm_total_idle (metrics p) < max_total_idle (config p) \/ all_conns (pools p) = []) /\
      all_conns (pools p') ++ out ≡ₚ PooledConnection_new now s :: all_conns (pools p) /\
      (forall x, dest_len p' x <= dest_len p x + (if decide (x = a) then 1 else 0)) /\
      (dest_len p a < max_idle_per_dest (config p) \/ dest_len p a = 0) /\
      forall k, idle_is p k -> idle_is p' (k + 1))).
Proof.
  intros Hclk Hwf Hord Hpeer. unfold insert_stream.
  set (full := match pools p !! a with Some _ => _ | None => _ end).
  assert (Hfull : full = true -> max_idle_per_dest (config p) <= dest_len p a /\ is_Some (pools p !! a)).
  { unfold full, dest_len. destruct (pools p !! a) as [l|]; [|done]. simpl.
    intros ?%Z.leb_le. by split. }
  assert (Hnot : full = false -> dest_len p a < max_idle_per_dest (config p) \/ dest_len p a = 0).
  { unfold full, dest_len. destruct (pools p !! a) as [l|]; [|by right]. simpl.
    intros ?%Z.leb_gt. by left. }
  destruct full.
  { intros [= <- <- <- <-]. split; [done|]. split; [by eapply wf_pools_mono|].
    left. destruct (Hfull eq_refl). auto 10. }
  clear Hfull. specialize (Hnot eq_refl).
  pose proof (make_room_spec clock order p Hwf Hord) as Hq.
  change (if max_total_idle (config p) <=? pm_total_idle (metrics p) then evict_oldest order p else (None, p))
    with (make_room order p). set (q := make_room order p) in *.
  clearbody q. destruct q as [ev q]; simpl in Hq.
  destruct Hq as (out & Hout & Hold & Hempty & Hqp & Hperm & Hlen & Hwfq).
  intros [= <- <- <- <-]. split.
  { rewrite Hqp. split; [done|]. split; [done|]. split; [|done].
    intros k Hk. eapply (in_use_add _ _ k); [|simpl; lia]. exact Hk. }
  set (newl := default [] (pools q !! a) ++ [PooledConnection_new now s]).
  assert (Hins : <[a := newl]> (pools q) = put_pool a newl (pools q)).
  { unfold newl, put_pool. destruct (default [] (pools q !! a)); done. }
  split; [|right; split; [done|]; split; [done|]; exists out; split_and!].
  - simpl. fold newl. rewrite Hins. apply wf_pools_put; [by eapply wf_pools_mono|]. intros Hne.
    split; [done|]. unfold newl. destruct (pools q !! a) as [l|] eqn:Hl; simpl.
    + destruct (Hwfq a l Hl) as (_ & Hf & Hs). assert (Hf' : Forall (fun c => peer (stream c) = a /\ created_at c <= now) l).
      { eapply Forall_impl; [exact Hf|]. simpl. intros c (? & ?). split; [done|lia]. }
      split; [|by eapply created_sorted_app]. apply Forall_app. split; [done|].
      repeat constructor; simpl; [done|lia].
    + split; repeat constructor; simpl; [done|lia].
  - done.
  - done.
  - done.
  - simpl. fold newl. rewrite Hins, all_conns_put. unfold newl.
    rewrite Hperm, <- (default_conns a (pools q)). solve_Permutation.
  - intros x. unfold dest_len at 1. simpl. fold newl. destruct (decide (x = a)) as [->|Hx].
    + rewrite lookup_insert_eq. simpl. unfold newl. rewrite length_app. simpl.
      specialize (Hlen a). unfold dest_len in Hlen at 1. lia.
    + rewrite lookup_insert_ne by done. specialize (Hlen x). unfold dest_len in Hlen at 1. lia.
  - done.
  - intros k Hk. eapply (idle_add _ _ k); [|simpl; lia]. rewrite Hqp. exact Hk.
Qed.

(** ** Connections in use *)

Definition held_count (a : SocketAddr) (held : list TcpStream) : Z :=
  Z.of_nat (length (filter (fun s => peer s = a) held)).

(** The three counters of connections in use agree with what is held. *)
Definition use_inv (held : list TcpStream) (p : ConnectionPool) : Prop :=
  (forall a, active_counts p !! a =
     if held_count a held =? 0 then None else Some (held_count a held)) /\
  in_use_is p (Z.of_nat (length held)) /\
  (forall a, dest_in_use p a = held_count a held).

Lemma held_count_cons a s held :
  held_count a (s :: held) = (if decide (peer s = a) then 1 else 0) + held_count a held.
Proof. unfold held_count. rewrite filter_cons. case_decide; simpl; lia. Qed.

Lemma held_count_perm a h1 h2 : h1 ≡ₚ h2 -> held_count a h1 = held_count a h2.
Proof. intros H. unfold held_count. by rewrite H. Qed.

Lemma held_count_bound a held : 0 <= held_count a held <= Z.of_nat (length held).
Proof. unfold held_count. pose proof (length_filter (fun s => peer s = a) held). lia. Qed.

Lemma use_inv_perm h1 h2 p : h1 ≡ₚ h2 -> use_inv h1 p -> use_inv h2 p.
Proof.
  intros Hp (Ha & Hu & Hd). unfold use_inv. rewrite <- Hp.
  split_and!; [|done|]; intros a; rewrite <- (held_count_perm a h1 h2 Hp); auto.
Qed.

Lemma use_inv_same held p p' : same_use p p' -> use_inv held p -> use_inv held p'.
Proof.
  intros (_ & Hac & Hu & Hd) (Ha & Hi & Hde). split_and!.
  - intros a. by rewrite Hac.
  - by apply Hu.
  - intros a. by rewrite Hd.
Qed.

(** A connection is handed out for [a]. *)
Lemma use_inv_take held p d f s :
  use_inv held p -> Z.of_nat (length held) < u64_max -> pm_connections_in_use d = 1 ->
  (forall e, dm_in_use (f e) = wadd64 (dm_in_use e) 1) ->
  use_inv (s :: held)
    (increment_active (peer s) (update_destination_metrics (peer s) f (add_metrics d p))).
Proof.
  intros (Ha & Hi & Hde) Hlen Hd1 Hf. split_and!.
  - intros b. rewrite held_count_cons. unfold increment_active. simpl.
    pose proof (held_count_bound (peer s) held) as Hb. pose proof (held_count_bound b held).
    destruct (decide (peer s = b)) as [<-|Hne].
    + rewrite lookup_insert_eq, Ha. destruct (Z.eqb_spec (held_count (peer s) held) 0) as [->|]; [done|].
      destruct (Z.eqb_spec (1 + held_count (peer s) held) 0); [lia|]. simpl.
      rewrite wadd64_id by zsolve. f_equal. lia.
    + rewrite lookup_insert_ne by done. by rewrite Ha.
  - assert (Hx : in_use_is (add_metrics d p) (Z.of_nat (length (s :: held)))); [|exact Hx].
    eapply in_use_add; [exact Hi|]. simpl. lia.
  - intros b. rewrite held_count_cons. pose proof (held_count_bound (peer s) held) as Hb.
    change (dest_in_use (increment_active (peer s) ?x) b) with (dest_in_use x b).
    rewrite dest_in_use_update. rewrite Hf.
    specialize (Hde b). unfold dest_in_use in *. simpl. case_decide as E.
    + subst b. rewrite Hde, decide_True by done. rewrite wadd64_id by zsolve. lia.
    + rewrite decide_False by done. rewrite Hde. lia.
Qed.

(** A connection for [a] is no longer held: the middle of [put] and [release]
    changes no counter of use but the destination's. *)
Definition less_use (a : SocketAddr) (p p' : ConnectionPool) : Prop :=
  active_counts p' = active_counts p /\ (forall k, in_use_is p k -> in_use_is p' k) /\
  (forall b, dest_in_use p' b = if decide (b = a) then sat_sub64 (dest_in_use p a) 1 else dest_in_use p b).

Lemma less_use_same a p1 p2 p3 p4 :
  same_use p1 p2 -> less_use a p2 p3 -> same_use p3 p4 -> less_use a p1 p4.
Proof.
  intros (_ & A1 & U1 & D1) (A2 & U2 & D2) (_ & A3 & U3 & D3). split_and!; [congruence|auto|].
  intros b. by rewrite D3, D2, !D1.
Qed.

Lemma less_use_update a f p :
  (forall e, dm_in_use (f e) = sat_sub64 (dm_in_use e) 1) ->
  less_use a p (update_destination_metrics a f p).
Proof. intros Hf. split_and!; [done|done|]. intros b. rewrite dest_in_use_update, Hf. done. Qed.

Lemma decrement_active_views a p :
  pools (decrement_active a p) = pools p /\ metrics (decrement_active a p) = metrics p /\
  config (decrement_active a p) = config p /\
  destination_metrics (decrement_active a p) = destination_metrics p.
Proof. unfold decrement_active. destruct (active_counts p !! a); [|done]. by case_match. Qed.

Lemma decrement_in_use_views p :
  pools (decrement_in_use p) = pools p /\ config (decrement_in_use p) = config p /\
  active_counts (decrement_in_use p) = active_counts p /\
  destination_metrics (decrement_in_use p) = destination_metrics p /\
  (forall k, idle_is p k -> idle_is (decrement_in_use p) k).
Proof. unfold decrement_in_use. by case_match. Qed.

Lemma use_inv_give held s p p1 p2 :
  use_inv (s :: held) p -> Z.of_nat (length (s :: held)) <= u64_max ->
  p1 = decrement_in_use p -> less_use (peer s) p1 p2 ->
  use_inv held (decrement_active (peer s) p2).
Proof.
  intros (Ha & Hi & Hde) Hlen -> (Hac & Hu & Hd). simpl in Hlen.
  pose proof (held_count_bound (peer s) held) as Hb.
  assert (Hin : in_use_is (decrement_in_use p) (Z.of_nat (length held))).
  { unfold decrement_in_use. unfold in_use_is in *. rewrite Hi. simpl length.
    rewrite (wrap64_id (Z.of_nat (S (length held)))) by zsolve. destruct (Z.eqb_spec (Z.of_nat (S (length held))) 0); [lia|].
    simpl. rewrite wrap64_id by zsolve. lia. }
  assert (Hdec : active_counts (decrement_in_use p) = active_counts p /\
    forall b, dest_in_use (decrement_in_use p) b = dest_in_use p b).
  { unfold decrement_in_use. by case_match. }
  destruct Hdec as (Hac0 & Hd0). pose proof (Ha (peer s)) as Has.
  rewrite held_count_cons, decide_True in Has by done.
  destruct (Z.eqb_spec (1 + held_count (peer s) held) 0); [lia|].
  assert (Hact : active_counts (decrement_active (peer s) p2) =
    (if held_count (peer s) held =? 0 then delete (peer s) (active_counts p)
     else <[peer s := held_count (peer s) held]> (active_counts p))).
  { unfold decrement_active. rewrite Hac, Hac0, Has.
    destruct (Z.eqb_spec (1 + held_count (peer s) held) 1); simpl;
      destruct (Z.eqb_spec (held_count (peer s) held) 0); try lia; rewrite ?Hac, ?Hac0; [done|].
    rewrite wsub64_id by zsolve. do 2 f_equal. lia. }
  split_and!.
  - intros b. rewrite Hact. specialize (Ha b). rewrite held_count_cons in Ha.
    destruct (decide (peer s = b)) as [<-|Hne].
    + destruct (Z.eqb_spec (held_count (peer s) held) 0); [by rewrite lookup_delete_eq|by rewrite lookup_insert_eq].
    + destruct (Z.eqb_spec (held_count (peer s) held) 0);
        rewrite ?lookup_delete_ne, ?lookup_insert_ne by done; by rewrite Ha.
  - assert (Hx : in_use_is p2 (Z.of_nat (length held))) by (by apply Hu).
    unfold in_use_is. destruct (decrement_active_views (peer s) p2) as (_ & -> & _). exact Hx.
  - intros b. specialize (Hd b). specialize (Hde b). rewrite held_count_cons in Hde.
    assert (Hx : dest_in_use (decrement_active (peer s) p2) b = dest_in_use p2 b).
    { unfold dest_in_use. by destruct (decrement_active_views (peer s) p2) as (_ & _ & _ & ->). }
    rewrite Hx, Hd, !Hd0. case_decide as E.
    + subst b. rewrite Hde, decide_True by done. unfold sat_sub64. lia.
    + rewrite Hde, decide_False by done. lia.
Qed.

(** ** Idle connections that leave *)

Definition shrinks (p p' : ConnectionPool) (gone : list PooledConnection) : Prop :=
  same_use p p' /\ (forall clock, wf_pools clock (pools p) -> wf_pools clock (pools p')) /\
  (idle_is p (conns_len p) -> idle_is p' (conns_len p')) /\
  all_conns (pools p) ≡ₚ gone ++ all_conns (pools p') /\ (forall a, dest_len p' a <= dest_len p a).

Lemma shrinks_trans p1 p2 p3 g1 g2 : shrinks p1 p2 g1 -> shrinks p2 p3 g2 -> shrinks p1 p3 (g1 ++ g2).
Proof.
  intros (S1 & W1 & I1 & P1 & L1) (S2 & W2 & I2 & P2 & L2). split_and!.
  - by eapply same_use_trans.
  - auto.
  - auto.
  - by rewrite P1, P2, (assoc_L (++)).
  - intros a. specialize (L1 a). specialize (L2 a). lia.
Qed.

Lemma shrinks_refl p : shrinks p p [].
Proof. split_and!; try done. Qed.

(** The pool of [a] is replaced by some of its connections. *)
Lemma shrinks_put p p' a l l' gone :
  same_use p p' -> pools p !! a = Some l -> pools p' = put_pool a l' (pools p) ->
  l ≡ₚ gone ++ l' -> l' `sublist_of` l ->
  (forall k, idle_is p k -> idle_is p' (k - Z.of_nat (length gone))) ->
  shrinks p p' gone.
Proof.
  intros Hs Hl Hp Hperm Hsub Hi.
  assert (Hall : all_conns (pools p) ≡ₚ gone ++ all_conns (pools p')).
  { rewrite Hp, all_conns_put, (all_conns_delete a l) by done. rewrite Hperm. by rewrite (assoc_L (++)). }
  split_and!; [done| | |done|].
  - intros clock Hwf. rewrite Hp. apply wf_pools_put; [done|]. intros Hne.
    eapply sublist_wf; [by apply Hwf|done|done].
  - intros Hk%Hi. unfold conns_len in *. rewrite Hall, length_app in Hk.
    replace (Z.of_nat (length (all_conns (pools p')))) with
      (Z.of_nat (length gone + length (all_conns (pools p'))) - Z.of_nat (length gone)) by lia. done.
  - intros b. unfold dest_len. rewrite Hp. destruct (decide (b = a)) as [->|Hb].
    + rewrite put_pool_lookup, Hl. simpl. rewrite Hperm, length_app. lia.
    + by rewrite put_pool_lookup_ne.
Qed.

Lemma try_get_shrinks now sys a p s p' :
  try_get_from_pool now sys a p = (s, p') ->
  exists taken gone, shrinks p p' (taken ++ gone) /\ s = stream <$> head taken /\
    (length taken <= 1)%nat /\ (forall c, c ∈ taken -> exists l, pools p !! a = Some l /\ c ∈ l) /\
    Forall (fun c => is_expired now (ns_of_secs (idle_timeout_secs (config p))) c = false) taken.
Proof.
  intros (rest & taken & gone & Hl & Hs & Hlen & Hf & _ & Hp & Hu & Hi)%try_get_spec.
  exists taken, gone. split; [|split; [done|split; [done|split; [|done]]]].
  - destruct (pools p !! a) as [l|] eqn:E; simpl in Hl.
    + subst l. eapply shrinks_put; [done|exact E|exact Hp| | |exact Hi].
      * by rewrite (comm (++)).
      * apply sublist_inserts_r. done.
    + symmetry in Hl. apply app_nil in Hl as (-> & Hl). apply app_nil in Hl as (-> & ->).
      simpl in *. split_and!; try done.
      * intros clock. by rewrite Hp.
      * unfold conns_len. rewrite Hp. intros Hk%Hi. by rewrite Z.sub_0_r in Hk.
      * by rewrite Hp.
      * intros b. unfold dest_len. by rewrite Hp.
  - intros c Hc. destruct (pools p !! a) as [l|]; simpl in Hl.
    2: { symmetry in Hl. apply app_nil in Hl as (_ & Hl). apply app_nil in Hl as (-> & _).
         by apply elem_of_nil in Hc. }
    exists l. split; [done|]. subst l. set_solver.
Qed.

Lemma filter_split {A} (f : A -> bool) l :
  l ≡ₚ List.filter (fun x => negb (f x)) l ++ List.filter f l.
Proof.
  induction l as [|a l IH]; [done|]. simpl. destruct (f a); simpl; [|by constructor].
  rewrite <- Permutation_middle. by constructor.
Qed.

Lemma filter_sublist {A} (f : A -> bool) l : List.filter f l `sublist_of` l.
Proof. induction l as [|a l IH]; simpl; [done|]. destruct (f a); by constructor. Qed.

Lemma cleanup_entry_shrinks now sys p a l :
  pools p !! a = Some l ->
  exists gone, shrinks p (cleanup_entry now sys p (a, l)) gone /\
    pools (cleanup_entry now sys p (a, l)) =
      put_pool a (List.filter (fun c => negb (is_expired now (ns_of_secs (idle_timeout_secs (config p))) c)) l)
        (pools p).
Proof.
  intros Hl. set (t := ns_of_secs (idle_timeout_secs (config p))).
  exists (List.filter (is_expired now t) l). unfold cleanup_entry. fold t.
  set (kept := List.filter (fun c => negb (is_expired now t c)) l).
  pose proof (filter_split (is_expired now t) l) as Hsp. fold kept in Hsp.
  set (n := Z.of_nat (length l) - Z.of_nat (length kept)).
  assert (Hn : n = Z.of_nat (length (List.filter (is_expired now t) l))).
  { unfold n. rewrite Hsp at 1. rewrite length_app. lia. }
  set (p1 := if 0 <? n then record_expired sys a n p else p).
  assert (H1 : pools p1 = pools p /\ same_use p p1 /\ forall k, idle_is p k -> idle_is p1 (k - n)).
  { unfold p1. destruct (Z.ltb_spec 0 n); [apply record_expired_views|].
    split; [done|]. split; [done|]. replace n with 0 by lia. intros k. by rewrite Z.sub_0_r. }
  clearbody p1. destruct H1 as (Hp1 & Hu1 & Hi1).
  set (p2 := match kept with [] => set_pools (delete a (pools p1)) p1 | _ => _ end).
  assert (H2 : pools p2 = put_pool a kept (pools p) /\ same_use p1 p2 /\ forall k, idle_is p1 k -> idle_is p2 k).
  { unfold p2, put_pool. rewrite <- Hp1. by destruct kept. }
  clearbody p2. destruct H2 as (Hp2 & Hu2 & Hi2). split; [|done].
  eapply shrinks_put; [by eapply same_use_trans|exact Hl|exact Hp2| | |].
  - rewrite Hsp at 1. apply (comm (++)).
  - apply filter_sublist.
  - intros k Hk. apply Hi2. rewrite <- Hn. by apply Hi1.
Qed.

Lemma cleanup_fold now sys entries p :
  NoDup entries.*1 -> (forall a l, (a, l) ∈ entries -> pools p !! a = Some l) ->
  exists gone, shrinks p (foldl (cleanup_entry now sys) p entries) gone.
Proof.
  revert p. induction entries as [|[a l] entries IH]; intros p Hnd Hin.
  { exists []. apply shrinks_refl. }
  rewrite fmap_cons in Hnd. apply NoDup_cons in Hnd as (Ha & Hnd).
  destruct (cleanup_entry_shrinks now sys p a l) as (g1 & H1 & Hp1); [apply Hin; by left|].
  destruct (IH (cleanup_entry now sys p (a, l))) as (g2 & H2); [done| |].
  - intros b lb Hb. rewrite Hp1, put_pool_lookup_ne; [apply Hin; by right|].
    intros ->. apply Ha. apply list_elem_of_fmap. by exists (a, lb).
  - exists (g1 ++ g2). by eapply shrinks_trans.
Qed.

Lemma cleanup_shrinks now sys p : exists gone, shrinks p (cleanup_expired now sys p) gone.
Proof.
  apply cleanup_fold; [apply NoDup_fst_map_to_list|]. intros a l. by rewrite elem_of_map_to_list.
Qed.

(** ** The pool and its clients *)

Record world : Type := mkWorld { wpool : ConnectionPool; held : list TcpStream; wclock : Z }.

Definition idle_sids (p : ConnectionPool) : list Z := (fun c => sid (stream c)) <$> all_conns (pools p).
Definition sids (w : world) : list Z := (sid <$> held w) ++ idle_sids (wpool w).

(** The identities of new connections are new. *)
Definition fresh (connected : result ErrorKind Z) (w : world) : Prop :=
  forall id, connected = Ok id -> id ∉ sids w.

Inductive step (w : world) : world -> Prop :=
| step_get now sys connected addr s p' :
    wclock w <= now -> fresh connected w -> Z.of_nat (length (held w)) < u64_max ->
    get now sys connected addr (wpool w) = (Ok s, p') ->
    step w (mkWorld p' (s :: held w) now)
| step_get_failed now sys connected addr e p' :
    wclock w <= now -> get now sys connected addr (wpool w) = (Err e, p') ->
    step w (mkWorld p' (held w) now)
| step_put now sys order hint s h1 h2 :
    wclock w <= now -> held w = h1 ++ s :: h2 ->
    (forall a, is_Some (pools (wpool w) !! a) -> a ∈ order) ->
    step w (mkWorld (put now sys order (peer s) s hint (wpool w)) (h1 ++ h2) now)
| step_release hint s h1 h2 :
    held w = h1 ++ s :: h2 ->
    step w (mkWorld (release (peer s) hint (wpool w)) (h1 ++ h2) (wclock w))
| step_refresh now sys order connected addr :
    wclock w <= now -> fresh connected w -> addr ∈ refreshes (wpool w) ->
    (forall a, is_Some (pools (wpool w) !! a) -> a ∈ order) ->
    step w (mkWorld (refresh_connection now sys order connected addr (wpool w)) (held w) now)
| step_cleanup now sys :
    wclock w <= now -> step w (mkWorld (cleanup_expired now sys (wpool w)) (held w) now).

Definition initial (cfg : PoolConfig) (now : Z) : world := mkWorld (ConnectionPool_new cfg) [] now.
Definition reachable (cfg : PoolConfig) (now : Z) : world -> Prop := rtc step (initial cfg now).

Definition idle_inv (clock : Z) (p : ConnectionPool) : Prop :=
  wf_pools clock (pools p) /\ idle_is p (conns_len p) /\
  conns_len p <= Z.max 1 (max_total_idle (config p)) /\
  forall a, dest_len p a <= Z.max 1 (max_idle_per_dest (config p)).

Definition inv (cfg : PoolConfig) (w : world) : Prop :=
  config (wpool w) = cfg /\ idle_inv (wclock w) (wpool w) /\ use_inv (held w) (wpool w) /\
  NoDup (sids w) /\ Z.of_nat (length (held w)) <= u64_max.

Lemma shrinks_idle_inv c1 c2 p p' gone :
  c1 <= c2 -> shrinks p p' gone -> idle_inv c1 p -> idle_inv c2 p'.
Proof.
  intros Hc ((Hcfg & _) & Hwf & Hi & Hperm & Hlen) (Hw & Hidle & Htot & Hdest). split_and!.
  - eapply wf_pools_mono; [done|auto].
  - auto.
  - rewrite Hcfg. unfold conns_len in *. rewrite Hperm, length_app in Htot. lia.
  - intros a. rewrite Hcfg. specialize (Hlen a). specialize (Hdest a). lia.
Qed.

(** [insert_stream], other updates of metrics, and the record of the eviction. *)
Lemma insert_idle_inv clock now sys order a s p b d e p' :
  clock <= now -> idle_inv clock p -> max_total_idle (config p) <= u64_max ->
  (forall a, is_Some (pools p !! a) -> a ∈ order) -> peer s = a ->
  insert_stream now order a s p = ((b, d, e), p') ->
  same_use p p' /\ d = negb b /\
  (forall q, pools q = pools p' -> config q = config p' -> (forall k, idle_is p' k -> idle_is q k) ->
     idle_inv now (match e with Some ev => record_evicted sys ev q | None => q end)) /\
  exists gone, all_conns (pools p') ++ gone ≡ₚ
    (if b then [PooledConnection_new now s] else []) ++ all_conns (pools p).
Proof.
  intros Hclk (Hw & Hidle & Htot & Hdest) Hmax Hord Hpeer Hins.
  pose proof (insert_spec _ _ _ _ _ _ _ _ _ _ Hclk Hw Hord Hpeer Hins) as (Hsu & Hw' & Hcase).
  destruct Hcase as [(-> & -> & -> & -> & _ & _)|(-> & -> & out & Hout & _ & Hemp & Hperm & Hlen & Hfull & Hi)].
  { simpl. split; [done|]. split; [done|]. split; [|exists []; by rewrite app_nil_r].
    intros q Hpq Hcq Hiq. unfold idle_inv, conns_len, dest_len. rewrite Hpq, Hcq.
    split_and!; [done|by apply Hiq|done|done]. }
  assert (Hex : pm_total_idle (metrics p) = conns_len p).
  { rewrite Hidle. apply wrap64_id. unfold conns_len in *. zsolve. }
  apply Hi in Hidle.
  assert (Hcl : conns_len p' + Z.of_nat (length out) = conns_len p + 1).
  { unfold conns_len. apply Permutation_length in Hperm. rewrite length_app in Hperm. simpl in Hperm. lia. }
  assert (Hnow : conns_len p' <= Z.max 1 (max_total_idle (config p))).
  { destruct out as [|c out]; [|simpl in Hcl; lia]. destruct (Hemp eq_refl) as [Hlt|Hnil].
    - simpl in Hcl. lia.
    - assert (conns_len p = 0) by (unfold conns_len; by rewrite Hnil). simpl in Hcl. lia. }
  assert (Hdnow : forall x, dest_len p' x <= Z.max 1 (max_idle_per_dest (config p))).
  { intros x. specialize (Hlen x). specialize (Hdest x). case_decide as Hx; [subst x|]; lia. }
  pose proof (proj1 Hsu) as Hcfg. split; [done|]. split; [done|]. split; [|by exists out].
  intros q Hpq Hcq Hiq. apply Hiq in Hidle.
  set (p2 := match e with Some ev => record_evicted sys ev q | None => q end).
  assert (H2 : pools p2 = pools p' /\ config p2 = config p /\ idle_is p2 (conns_len p')).
  { rewrite <- Hcfg, <- Hpq, <- Hcq. unfold p2. destruct e as [ev|].
    - destruct Hout as (c & ->). destruct (record_evicted_views sys ev q) as (Hp2 & Hu2 & Hi2).
      split; [done|]. split; [apply Hu2|]. apply Hi2 in Hidle.
      replace (conns_len p') with (conns_len p + 1 - 1); [done|]. simpl in Hcl. lia.
    - subst out. split; [done|]. split; [done|]. replace (conns_len p') with (conns_len p + 1); [done|].
      simpl in Hcl. lia. }
  destruct H2 as (Hp2 & Hc2 & Hi2). unfold idle_inv, conns_len, dest_len. rewrite Hp2, Hc2.
  by split_and!.
Qed.

Lemma idle_inv_pools c p p' :
  pools p' = pools p -> config p' = config p -> (forall k, idle_is p k -> idle_is p' k) ->
  idle_inv c p -> idle_inv c p'.
Proof.
  intros Hp Hc Hi (Hw & Hidle & Htot & Hd). unfold idle_inv, conns_len, dest_len. rewrite Hp, Hc.
  split_and!; [done|by apply Hi|done|done].
Qed.

Lemma sids_perm w1 w2 extra :
  sids w1 ≡ₚ sids w2 ++ extra -> NoDup (sids w1) -> NoDup (sids w2).
Proof. intros -> (Hnd & _)%NoDup_app. done. Qed.

Lemma fresh_NoDup w id : NoDup (sids w) -> id ∉ sids w -> NoDup (id :: sids w).
Proof. intros. by apply NoDup_cons. Qed.

Lemma idle_sids_perm p p' gone :
  all_conns (pools p) ≡ₚ gone ++ all_conns (pools p') ->
  idle_sids p ≡ₚ ((fun c => sid (stream c)) <$> gone) ++ idle_sids p'.
Proof. intros H. unfold idle_sids. by rewrite H, fmap_app. Qed.

(** Follow a counter through additions to the metrics. *)
Ltac counter :=
  let k := fresh "k" in let Hk := fresh "Hk" in
  intros k Hk; unfold idle_is, in_use_is in *; simpl; rewrite Hk, ?wadd64_wrap; f_equal; lia.

(** ** The invariant *)

Lemma initial_inv cfg now : inv cfg (initial cfg now).
Proof.
  unfold inv, initial; simpl. split_and!; try done.
  - split_and!; [done|done|change (conns_len (ConnectionPool_new cfg)) with 0; lia|].
    intros a. unfold dest_len. simpl. rewrite lookup_empty. simpl. lia.
  - constructor.
Qed.

Lemma get_step_inv cfg w now sys connected addr s p' :
  enabled cfg = true -> inv cfg w -> wclock w <= now -> fresh connected w ->
  Z.of_nat (length (held w)) < u64_max ->
  get now sys connected addr (wpool w) = (Ok s, p') ->
  inv cfg (mkWorld p' (s :: held w) now) /\ peer s = addr /\
  (connected = Ok (sid s) \/
   exists c, c ∈ all_conns (pools (wpool w)) /\ stream c = s /\
     is_expired now (ns_of_secs (idle_timeout_secs cfg)) c = false).
Proof.
  intros Hen (Hcfg & Hidle & Huse & Hnd & Hh) Hclk Hfresh Hlt. unfold get. rewrite Hcfg, Hen. simpl.
  destruct (try_get_from_pool now sys addr (wpool w)) as [os p1] eqn:Ht.
  apply try_get_shrinks in Ht as (taken & gone & Hsh & -> & Hl1 & Hin & Hex).
  pose proof (shrinks_idle_inv _ now _ _ _ Hclk Hsh Hidle) as Hidle1.
  destruct Hsh as (Hsame & _ & _ & Hperm & _). pose proof (use_inv_same _ _ _ Hsame Huse) as Huse1.
  pose proof (idle_sids_perm _ _ _ Hperm) as Hids. destruct Hsame as (Hc1 & _).
  destruct taken as [|c [|? ?]]; simpl in *; [|clear Hl1|lia].
  - destruct connected as [id|e]; [|done]. intros [= <- <-]. split; [|by auto].
    split; [by rewrite <- Hcfg|]. split; [|split; [|split]].
    + eapply idle_inv_pools; [| | |exact Hidle1]; [done|done|].
      counter.
    + apply (use_inv_take (held w) _ _ _ (mkTcpStream id addr)); [|done|done|done].
      eapply use_inv_same; [|exact Huse1]. split; [done|]. split; [done|]. split.
      * counter.
      * intros b. change (dest_in_use (update_destination_metrics addr
          (fun e => dset_miss sys (dbump 0 0 0 1 0 0 0 e)) p1) b = dest_in_use p1 b).
        rewrite dest_in_use_update. case_decide; [by subst b|done].
    + eapply (sids_perm (mkWorld (wpool w) (mkTcpStream id addr :: held w) 0) _
        ((fun c => sid (stream c)) <$> gone)).
      * unfold sids; simpl. rewrite Hids. simpl. constructor. unfold idle_sids; simpl. solve_Permutation.
      * change (NoDup (id :: sids w)); apply fresh_NoDup; [done|by apply Hfresh].
    + simpl. lia.
  - destruct (Hin c) as (l & Hl & Hcl); [by left|].
    assert (Hpeer : peer (stream c) = addr).
    { destruct Hidle as (Hw & _). destruct (Hw addr l Hl) as (_ & Hf & _).
      rewrite Forall_forall in Hf. by apply Hf. }
    intros [= <- <-]. split; [|split; [done|]]; cycle 1.
    { right. exists c. split; [|split; [done|rewrite <- Hcfg; by inversion Hex]]. apply elem_all_conns. eauto. }
    split; [by rewrite <- Hcfg|]. split; [|split; [|split]].
    + eapply idle_inv_pools; [| | |exact Hidle1]; [done|done|].
      counter.
    + rewrite <- Hpeer. by apply use_inv_take.
    + eapply (sids_perm w _ ((fun c => sid (stream c)) <$> gone)); [|done].
      unfold sids; simpl. rewrite Hids. unfold idle_sids; simpl. solve_Permutation.
    + simpl. lia.
Qed.

Lemma shrinks_inv cfg w p' gone now :
  inv cfg w -> wclock w <= now -> shrinks (wpool w) p' gone -> inv cfg (mkWorld p' (held w) now).
Proof.
  intros (Hcfg & Hidle & Huse & Hnd & Hh) Hclk Hsh.
  pose proof (shrinks_idle_inv _ now _ _ _ Hclk Hsh Hidle) as Hidle1.
  destruct Hsh as (Hsame & _ & _ & Hperm & _). pose proof (use_inv_same _ _ _ Hsame Huse) as Huse1.
  pose proof (idle_sids_perm _ _ _ Hperm) as Hids. destruct Hsame as (Hc1 & _).
  split; [simpl; congruence|]. split; [done|]. split; [done|]. split; [|done].
  eapply (sids_perm w _ ((fun c => sid (stream c)) <$> gone)); [|done].
  unfold sids; simpl. rewrite Hids. solve_Permutation.
Qed.

(** A failed [get] may have thrown out expired connections. *)
Lemma get_failed_inv cfg w now sys connected addr e p' :
  inv cfg w -> wclock w <= now -> get now sys connected addr (wpool w) = (Err e, p') ->
  inv cfg (mkWorld p' (held w) now).
Proof.
  intros Hinv Hclk. unfold get. destruct (enabled (config (wpool w))); simpl.
  2: { destruct connected; [done|]. intros [= _ <-]. by apply (shrinks_inv _ _ _ [] _ Hinv Hclk), shrinks_refl. }
  destruct (try_get_from_pool now sys addr (wpool w)) as [os p1] eqn:Ht.
  apply try_get_shrinks in Ht as (taken & gone & Hsh & -> & _).
  destruct taken as [|c taken]; simpl; [|done]. destruct connected as [|err]; [done|].
  intros [= _ <-]. apply (shrinks_inv _ _ _ gone _ Hinv Hclk).
  destruct Hsh as (Hsame & Hw & Hi & Hperm & Hd). split_and!; try done.
  - eapply same_use_trans; [exact Hsame|]. split; [done|]. split; [done|]. split; [counter|].
    intros b. change (dest_in_use (update_destination_metrics addr
      (fun e => dset_miss sys (dbump 0 0 0 1 0 0 0 e)) p1) b = dest_in_use p1 b).
    rewrite dest_in_use_update. case_decide; [by subst b|done].
  - intros Hk%Hi. unfold conns_len in *. simpl pools. revert Hk.
    generalize (Z.of_nat (length (all_conns (pools p1)))). counter.
Qed.

(** Giving back: the held list loses [s]; the idle side is [idle_inv]. *)
Lemma give_back_inv cfg w s h1 h2 p1 p2 now gone extra :
  inv cfg w -> held w = h1 ++ s :: h2 -> wclock w <= now ->
  p1 = decrement_in_use (wpool w) -> less_use (peer s) p1 p2 ->
  config p2 = cfg -> idle_inv now p2 ->
  all_conns (pools p2) ++ gone ≡ₚ extra ++ all_conns (pools (wpool w)) ->
  (extra = [] \/ exists c, extra = [c] /\ stream c = s) ->
  inv cfg (mkWorld (decrement_active (peer s) p2) (h1 ++ h2) now).
Proof.
  intros (Hcfg & Hidle & Huse & Hnd & Hh) Hheld Hclk Hp1 Hless Hc2 Hidle2 Hperm Hextra.
  destruct (decrement_active_views (peer s) p2) as (Hp & Hm & Hc & Hdm).
  assert (Hph : held w ≡ₚ s :: h1 ++ h2) by (rewrite Hheld; symmetry; apply Permutation_middle).
  split_and!; simpl.
  - congruence.
  - eapply idle_inv_pools; [exact Hp|exact Hc| |exact Hidle2]. intros k. unfold idle_is. by rewrite Hm.
  - eapply use_inv_give; [by eapply use_inv_perm| |exact Hp1|exact Hless].
    rewrite <- Hph. exact Hh.
  - unfold sids in *. simpl. unfold idle_sids in *. rewrite Hp.
    apply (fmap_Permutation (fun c => sid (stream c))) in Hperm. rewrite !fmap_app in Hperm.
    rewrite Hph in Hnd. simpl in Hnd.
    destruct Hextra as [->|(c & -> & Hsc)]; simpl in Hperm.
    + apply NoDup_cons in Hnd as (_ & Hnd). rewrite <- Hperm in Hnd.
      rewrite (assoc_L (++)) in Hnd. by apply NoDup_app in Hnd as (Hnd & _).
    + rewrite Hsc in Hperm. rewrite Permutation_middle, <- Hperm in Hnd.
      rewrite (assoc_L (++)) in Hnd. by apply NoDup_app in Hnd as (Hnd & _).
  - rewrite Hph in Hh. simpl in Hh. lia.
Qed.

Lemma in_use_minus_one_spec (f : DestinationMetrics -> DestinationMetrics) e :
  dm_in_use (f e) = dm_in_use e -> dm_in_use (in_use_minus_one (f e)) = sat_sub64 (dm_in_use e) 1.
Proof. intros Hf. simpl. by rewrite Hf. Qed.

Lemma spawn_inv cfg p h now a : inv cfg (mkWorld p h now) -> inv cfg (mkWorld (spawn_refresh a p) h now).
Proof. done. Qed.

Lemma put_inv cfg w now sys order hint s h1 h2 :
  enabled cfg = true -> max_total_idle cfg <= u64_max ->
  inv cfg w -> wclock w <= now -> held w = h1 ++ s :: h2 ->
  (forall a, is_Some (pools (wpool w) !! a) -> a ∈ order) ->
  inv cfg (mkWorld (put now sys order (peer s) s hint (wpool w)) (h1 ++ h2) now).
Proof.
  intros Hen Hmax Hinv Hclk Hheld Hord. pose proof Hinv as (Hcfg & Hidle & _).
  unfold put. rewrite Hcfg, Hen. cbn [negb].
  destruct (decrement_in_use_views (wpool w)) as (Hp0 & Hc0 & _ & _ & Hi0).
  pose proof (idle_inv_pools _ _ _ Hp0 Hc0 Hi0 Hidle) as Hidle0.
  destruct hint.
  - destruct (insert_stream now order (peer s) s (decrement_in_use (wpool w))) as [[[b d] e] p1] eqn:Hins.
    destruct (insert_idle_inv (wclock w) now sys order (peer s) s _ b d e p1 Hclk Hidle0)
      as (Hsu & -> & Hidle1 & gone & Hperm); [congruence|by rewrite Hp0|done|done|].
    set (p2 := if negb b then _ else _).
    assert (H2 : pools p2 = pools p1 /\ config p2 = config p1 /\
      (forall k, idle_is p1 k -> idle_is p2 k) /\ less_use (peer s) p1 p2).
    { unfold p2. destruct b; simpl.
      - split; [done|]. split; [done|]. split; [done|]. by apply less_use_update.
      - split; [done|]. split; [done|]. split; [counter|].
        eapply less_use_same; [|apply less_use_update|apply same_use_refl]; [|done].
        split; [done|]. split; [done|]. split; [counter|done]. }
    clearbody p2. destruct H2 as (Hp2 & Hc2 & Hi2 & Hl2). specialize (Hidle1 p2 Hp2 Hc2 Hi2).
    set (p3 := match e with Some ev => record_evicted sys ev p2 | None => p2 end) in *.
    assert (H3 : pools p3 = pools p2 /\ config p3 = config p2 /\ less_use (peer s) p1 p3).
    { unfold p3. destruct e as [ev|]; [|done]. destruct (record_evicted_views sys ev p2) as (? & Hu & _).
      split; [done|]. split; [apply Hu|]. by eapply less_use_same; [apply same_use_refl|exact Hl2|]. }
    clearbody p3. destruct H3 as (Hp3 & Hc3 & Hl3). destruct Hsu as (Hcs & Hsu).
    eapply (give_back_inv cfg w s h1 h2 (decrement_in_use (wpool w)) p3 now gone); try done.
    + by eapply less_use_same; [|exact Hl3|apply same_use_refl].
    + congruence.
    + rewrite Hp3, Hp2, <- Hp0. exact Hperm.
    + destruct b; [right|by left]. by eexists.
  - eapply spawn_inv, (give_back_inv cfg w s h1 h2 _ _ now [] []); try done.
    + by apply less_use_update.
    + simpl. congruence.
    + eapply (idle_inv_pools _ (decrement_in_use (wpool w))); [done|done|done|].
      destruct Hidle0 as (Hw & H1 & H2 & H3). split_and!; try done. by eapply wf_pools_mono.
    + simpl. rewrite app_nil_r. by rewrite Hp0.
    + by left.
Qed.

Lemma release_inv cfg w hint s h1 h2 :
  enabled cfg = true -> inv cfg w -> held w = h1 ++ s :: h2 ->
  inv cfg (mkWorld (release (peer s) hint (wpool w)) (h1 ++ h2) (wclock w)).
Proof.
  intros Hen Hinv Hheld. pose proof Hinv as (Hcfg & Hidle & _). unfold release. rewrite Hcfg, Hen.
  cbn [negb]. destruct (decrement_in_use_views (wpool w)) as (Hp0 & Hc0 & _ & _ & Hi0).
  pose proof (idle_inv_pools _ _ _ Hp0 Hc0 Hi0 Hidle) as Hidle0.
  assert (Hmain : inv cfg (mkWorld (decrement_active (peer s)
    (update_destination_metrics (peer s) in_use_minus_one (decrement_in_use (wpool w))))
    (h1 ++ h2) (wclock w))); [|by case_decide].
  eapply (give_back_inv cfg w s h1 h2 _ _ (wclock w) [] []); try done.
  - by apply less_use_update.
  - simpl. congruence.
  - simpl. rewrite app_nil_r. by rewrite Hp0.
  - by left.
Qed.

Lemma refresh_inv cfg w now sys order connected addr :
  max_total_idle cfg <= u64_max -> inv cfg w -> wclock w <= now -> fresh connected w ->
  (forall a, is_Some (pools (wpool w) !! a) -> a ∈ order) ->
  inv cfg (mkWorld (refresh_connection now sys order connected addr (wpool w)) (held w) now).
Proof.
  intros Hmax Hinv Hclk Hfresh Hord. pose proof Hinv as (Hcfg & Hidle & Huse & Hnd & Hh).
  unfold refresh_connection.
  set (p0 := add_metrics _ (add_metrics _ (wpool w))).
  assert (H0 : pools p0 = pools (wpool w) /\ same_use (wpool w) p0 /\ forall k, idle_is (wpool w) k -> idle_is p0 k).
  { split; [done|]. split; [|counter]. split; [done|]. split; [done|]. split; [counter|done]. }
  clearbody p0. destruct H0 as (Hp0 & Hu0 & Hi0). pose proof (idle_inv_pools _ _ _ Hp0 (proj1 Hu0) Hi0 Hidle) as Hidle0.
  destruct connected as [id|e].
  2: { split; [rewrite <- Hcfg; apply Hu0|]. split; [|split; [by eapply use_inv_same|split; [|done]]].
       - destruct Hidle0 as (Hw & H1 & H2 & H3). split_and!; try done. by eapply wf_pools_mono.
       - unfold sids, idle_sids in *. simpl. by rewrite Hp0. }
  set (p1 := update_destination_metrics addr _ (add_metrics _ p0)).
  assert (H1 : pools p1 = pools p0 /\ same_use p0 p1 /\ forall k, idle_is p0 k -> idle_is p1 k).
  { split; [done|]. split; [|counter]. split; [done|]. split; [done|]. split; [counter|].
    intros b. unfold p1. rewrite dest_in_use_update. case_decide; [by subst b|done]. }
  clearbody p1. destruct H1 as (Hp1 & Hu1 & Hi1).
  pose proof (idle_inv_pools _ _ _ Hp1 (proj1 Hu1) Hi1 Hidle0) as Hidle1.
  destruct (insert_stream now order addr (mkTcpStream id addr) p1) as [[[b d] e] p2] eqn:Hins.
  destruct (insert_idle_inv (wclock w) now sys order addr (mkTcpStream id addr) p1 b d e p2 Hclk Hidle1)
    as (Hu2 & -> & Hidle2 & gone & Hperm); [|by rewrite Hp1, Hp0|done|done|].
  { rewrite (proj1 Hu1), (proj1 Hu0). congruence. }
  set (p3 := if negb b then _ else p2).
  assert (H3 : pools p3 = pools p2 /\ same_use p2 p3 /\ forall k, idle_is p2 k -> idle_is p3 k).
  { unfold p3. destruct b; simpl; [done|]. split; [done|]. split; [|counter]. split; [done|]. split; [done|].
    split; [counter|]. intros x. rewrite dest_in_use_update. case_decide; [by subst x|done]. }
  clearbody p3. destruct H3 as (Hp3 & Hu3 & Hi3). specialize (Hidle2 p3 Hp3 (proj1 Hu3) Hi3).
  set (p4 := match e with Some ev => record_evicted sys ev p3 | None => p3 end) in *.
  assert (H4 : pools p4 = pools p3 /\ same_use p3 p4).
  { unfold p4. destruct e as [ev|]; [|done]. by destruct (record_evicted_views sys ev p3) as (? & ? & _). }
  clearbody p4. destruct H4 as (Hp4 & Hu4).
  assert (Hall : same_use (wpool w) p4) by (repeat (eapply same_use_trans; [eassumption|]); done).
  split; [rewrite <- Hcfg; apply Hall|]. split; [done|]. split; [by eapply use_inv_same|]. split; [|done].
  unfold sids, idle_sids in *. simpl. rewrite Hp4, Hp3.
  apply (fmap_Permutation (fun c => sid (stream c))) in Hperm. rewrite !fmap_app, Hp1, Hp0 in Hperm.
  assert (Hnew : NoDup ((sid <$> held w) ++ ((fun c => sid (stream c)) <$> all_conns (pools p2)) ++
    ((fun c => sid (stream c)) <$> gone))).
  { rewrite Hperm. destruct b; simpl; [|done]. rewrite <- Permutation_middle.
    apply NoDup_cons. split; [by apply Hfresh|done]. }
  rewrite (assoc_L (++)) in Hnew. by apply NoDup_app in Hnew as (Hnew & _).
Qed.

Lemma pool_step_inv cfg w w' :
  enabled cfg = true -> max_total_idle cfg <= u64_max -> inv cfg w -> step w w' -> inv cfg w'.
Proof.
  intros Hen Hmax Hinv Hs. destruct Hs.
  - by eapply get_step_inv.
  - by eapply get_failed_inv.
  - by apply put_inv.
  - by apply release_inv.
  - by apply refresh_inv.
  - destruct (cleanup_shrinks now sys (wpool w)) as (gone & Hsh). by eapply shrinks_inv.
Qed.

Lemma reachable_inv cfg now w :
  enabled cfg = true -> max_total_idle cfg <= u64_max -> reachable cfg now w -> inv cfg w.
Proof.
  intros Hen Hmax Hr. pose proof (initial_inv cfg now) as H0. unfold reachable in Hr.
  induction Hr as [|w w1 w2 Hs _ IH]; [done|]. apply IH. by eapply pool_step_inv.
Qed.

(** ** What the invariant gives *)

Lemma sum_active_delete a n m : m !! a = Some n -> sum_active m = sum_active (delete a m) + n.
Proof.
  intros Ha. unfold sum_active. apply (map_fold_delete_L (fun _ n s => n + s) 0) in Ha as ->; [lia|].
  intros. lia.
Qed.

Lemma sum_active_held held m :
  (forall a, m !! a = if held_count a held =? 0 then None else Some (held_count a held)) ->
  sum_active m = Z.of_nat (length held).
Proof.
  revert m. induction held as [|s held IH]; intros m Hm.
  { replace m with (∅ : gmap SocketAddr Z); [done|]. apply map_eq. intros a. by rewrite Hm. }
  pose proof (held_count_bound (peer s) held) as Hb.
  pose proof (Hm (peer s)) as Hs. rewrite held_count_cons, decide_True in Hs by done.
  destruct (Z.eqb_spec (1 + held_count (peer s) held) 0) as [|_]; [lia|].
  rewrite (sum_active_delete _ _ _ Hs).
  set (m' := if held_count (peer s) held =? 0 then delete (peer s) m
             else <[peer s := held_count (peer s) held]> m).
  assert (Hm' : sum_active m' = Z.of_nat (length held)).
  { apply IH. intros a. specialize (Hm a). rewrite held_count_cons in Hm. unfold m'.
    destruct (decide (peer s = a)) as [<-|Ha].
    - destruct (Z.eqb_spec (held_count (peer s) held) 0); [by rewrite lookup_delete_eq|by rewrite lookup_insert_eq].
    - destruct (Z.eqb_spec (held_count (peer s) held) 0);
        rewrite ?lookup_delete_ne, ?lookup_insert_ne by done; exact Hm. }
  simpl length. unfold m' in Hm'. destruct (Z.eqb_spec (held_count (peer s) held) 0) as [H0|Hne].
  - lia.
  - erewrite (sum_active_delete (peer s) (held_count (peer s) held)) in Hm' by apply lookup_insert_eq.
    rewrite delete_insert_eq in Hm'. lia.
Qed.

(** A pool that two clients share: it keeps one connection per destination. *)
Definition demo_cfg : PoolConfig := mkPoolConfig true 1 2 90 5000.
Definition demo_addr : SocketAddr := mkSocketAddr (V4 [x0a; x00; x00; x01]) 443.

(** A client takes a new connection and returns it; the pool keeps it. *)
Definition demo_world : world :=
  let p1 := (get 10 0 (Ok 7) demo_addr (ConnectionPool_new demo_cfg)).2 in
  mkWorld (put 20 0 [] demo_addr (mkTcpStream 7 demo_addr) Reuse p1) [] 20.

Lemma demo_reachable : reachable demo_cfg 0 demo_world.
Proof.
  eapply rtc_l.
  { apply (step_get _ 10 0 (Ok 7) demo_addr (mkTcpStream 7 demo_addr)
      (get 10 0 (Ok 7) demo_addr (ConnectionPool_new demo_cfg)).2); try done.
    intros id _. apply not_elem_of_nil. }
  eapply rtc_l; [|apply rtc_refl].
  apply (step_put (mkWorld (get 10 0 (Ok 7) demo_addr (ConnectionPool_new demo_cfg)).2
    [mkTcpStream 7 demo_addr] 10) 20 0 [] Reuse (mkTcpStream 7 demo_addr) [] []); try done.
  intros a [l Hl]. done.
Qed.

(** In every reachable state of the pool and its clients no connection is in
    two places: it is held by one client or idle in one pool, once; and an idle
    connection leads to the destination under which it is filed. *)
Theorem pool_exclusive cfg now w :
  enabled cfg = true -> max_total_idle cfg <= u64_max -> reachable cfg now w ->
  NoDup (sids w) /\
  forall a l c, pools (wpool w) !! a = Some l -> c ∈ l -> peer (stream c) = a.
Proof.
  intros Hen Hmax Hr. destruct (reachable_inv cfg now w Hen Hmax Hr) as (_ & (Hw & _) & _ & Hnd & _).
  split; [done|]. intros a l c Hl Hc. destruct (Hw a l Hl) as (_ & Hf & _).
  rewrite Forall_forall in Hf. by apply Hf.
Qed.

Lemma pool_exclusive_witness :
  reachable demo_cfg 0 demo_world /\ sids demo_world = [7] /\
  (NoDup (sids demo_world) /\
   forall a l c, pools (wpool demo_world) !! a = Some l -> c ∈ l -> peer (stream c) = a).
Proof.
  split; [exact demo_reachable|]. split; [reflexivity|].
  apply (pool_exclusive demo_cfg 0 demo_world);
    [reflexivity|vm_compute; discriminate|exact demo_reachable].
Defined.

(** Whenever a client gets a connection, it leads to the destination asked
    for, no client holds it already, and it is either newly established or was
    idle and had not reached the idle timeout. *)
Theorem pool_get_correct cfg start w now sys connected addr s p' :
  enabled cfg = true -> max_total_idle cfg <= u64_max -> reachable cfg start w ->
  wclock w <= now -> fresh connected w -> Z.of_nat (length (held w)) < u64_max ->
  get now sys connected addr (wpool w) = (Ok s, p') ->
  peer s = addr /\ (sid s ∉ sid <$> held w) /\
  (connected = Ok (sid s) \/
   exists c, c ∈ all_conns (pools (wpool w)) /\ stream c = s /\
     is_expired now (ns_of_secs (idle_timeout_secs cfg)) c = false).
Proof.
  intros Hen Hmax Hr Hclk Hf Hlt Hg. pose proof (reachable_inv cfg start w Hen Hmax Hr) as Hinv.
  destruct (get_step_inv cfg w now sys connected addr s p' Hen Hinv Hclk Hf Hlt Hg)
    as ((_ & _ & _ & Hnd & _) & Hp & Ho).
  split; [done|]. split; [|done]. apply NoDup_cons in Hnd as (Hn & _).
  intros Hin. apply Hn. apply elem_of_app. by left.
Qed.

Lemma pool_get_correct_witness :
  exists s p', get 30 0 (Err TimedOut) demo_addr (wpool demo_world) = (Ok s, p') /\ s = mkTcpStream 7 demo_addr /\
  (peer s = demo_addr /\ (sid s ∉ sid <$> held demo_world) /\
   (Err TimedOut = Ok (sid s) \/
    exists c, c ∈ all_conns (pools (wpool demo_world)) /\ stream c = s /\
      is_expired 30 (ns_of_secs (idle_timeout_secs demo_cfg)) c = false)).
Proof.
  destruct (get 30 0 (Err TimedOut) demo_addr (wpool demo_world)) as [r p'] eqn:Hg.
  assert (r = Ok (mkTcpStream 7 demo_addr)) as ->.
  { change r with (r, p').1. rewrite <- Hg. vm_compute. reflexivity. }
  exists (mkTcpStream 7 demo_addr), p'. split; [reflexivity|]. split; [reflexivity|].
  apply (pool_get_correct demo_cfg 0 demo_world 30 0 (Err TimedOut) demo_addr
    (mkTcpStream 7 demo_addr) p');
    [reflexivity|vm_compute; discriminate|exact demo_reachable|vm_compute; discriminate
    |discriminate|reflexivity|exact Hg].
Defined.

(** The idle limits hold in every reachable state, up to one connection when
    a limit is configured as zero, and the counter of idle connections that the
    limit is checked against is exact. *)
Theorem pool_limits cfg now w :
  enabled cfg = true -> max_total_idle cfg <= u64_max -> reachable cfg now w ->
  pm_total_idle (metrics (wpool w)) = conns_len (wpool w) /\
  conns_len (wpool w) <= Z.max 1 (max_total_idle cfg) /\
  (forall a, dest_len (wpool w) a <= Z.max 1 (max_idle_per_dest cfg)) /\
  (forall a, pools (wpool w) !! a ≠ Some []).
Proof.
  intros Hen Hmax Hr. destruct (reachable_inv cfg now w Hen Hmax Hr) as (Hc & (Hw & Hi & Ht & Hd) & _).
  rewrite Hc in *. split; [|split; [done|split; [done|]]].
  - rewrite Hi. apply wrap64_id. unfold conns_len in *. zsolve.
  - intros a Ha. by destruct (Hw a [] Ha).
Qed.

Lemma pool_limits_witness :
  reachable demo_cfg 0 demo_world /\
  (pm_total_idle (metrics (wpool demo_world)) = conns_len (wpool demo_world) /\
   conns_len (wpool demo_world) <= Z.max 1 (max_total_idle demo_cfg) /\
   (forall a, dest_len (wpool demo_world) a <= Z.max 1 (max_idle_per_dest demo_cfg)) /\
   (forall a, pools (wpool demo_world) !! a ≠ Some [])).
Proof.
  split; [exact demo_reachable|].
  apply (pool_limits demo_cfg 0 demo_world);
    [reflexivity|vm_compute; discriminate|exact demo_reachable].
Defined.

(** The connections in use are counted exactly: the pool's counter and the
    sum that the statistics report are the number of connections that clients
    hold, and every destination's share is its own. *)
Theorem pool_in_use cfg now w :
  enabled cfg = true -> max_total_idle cfg <= u64_max -> reachable cfg now w ->
  pm_connections_in_use (metrics (wpool w)) = Z.of_nat (length (held w)) /\
  (forall addrs, ps_connections_in_use (stats addrs (wpool w)) = Z.of_nat (length (held w))) /\
  forall a, dest_in_use (wpool w) a = held_count a (held w).
Proof.
  intros Hen Hmax Hr. destruct (reachable_inv cfg now w Hen Hmax Hr) as (_ & _ & (Ha & Hi & Hd) & _ & Hh).
  split; [rewrite Hi; apply wrap64_id; zsolve|]. split; [|done].
  intros addrs. unfold stats. cbn [ps_connections_in_use]. by apply sum_active_held.
Qed.

Lemma pool_in_use_witness :
  let w := mkWorld (get 10 0 (Ok 7) demo_addr (ConnectionPool_new demo_cfg)).2 [mkTcpStream 7 demo_addr] 10 in
  reachable demo_cfg 0 w /\
  (pm_connections_in_use (metrics (wpool w)) = Z.of_nat (length (held w)) /\
   (forall addrs, ps_connections_in_use (stats addrs (wpool w)) = Z.of_nat (length (held w))) /\
   forall a, dest_in_use (wpool w) a = held_count a (held w)).
Proof.
  intros w. assert (Hr : reachable demo_cfg 0 w).
  { eapply rtc_l.
    { apply (step_get (initial demo_cfg 0) 10 0 (Ok 7) demo_addr (mkTcpStream 7 demo_addr)
        (get 10 0 (Ok 7) demo_addr (ConnectionPool_new demo_cfg)).2); try done.
      intros id _. apply not_elem_of_nil. }
    apply rtc_refl. }
  split; [exact Hr|]. apply (pool_in_use demo_cfg 0 w); [reflexivity|vm_compute; discriminate|exact Hr].
Defined.

(** In a reachable state the connection that gives way when the pool is full
    is an oldest one: no idle connection of any destination was filed before it. *)
Theorem evict_is_oldest cfg now w order a p' :
  enabled cfg = true -> max_total_idle cfg <= u64_max -> reachable cfg now w ->
  (forall a, is_Some (pools (wpool w) !! a) -> a ∈ order) ->
  evict_oldest order (wpool w) = (Some a, p') ->
  exists c l, pools (wpool w) !! a = Some (c :: l) /\ pools p' = put_pool a l (pools (wpool w)) /\
    forall d, d ∈ all_conns (pools (wpool w)) -> created_at c <= created_at d.
Proof.
  intros Hen Hmax Hr Hord He. destruct (reachable_inv cfg now w Hen Hmax Hr) as (_ & (Hw & _) & _).
  apply (evict_spec (wclock w)) in He as (c & l & Hl & Hp & _ & Hold); [|done|done]. eauto 10.
Qed.

Lemma evict_is_oldest_witness :
  let order := (map_to_list (pools (wpool demo_world))).*1 in
  exists p', evict_oldest order (wpool demo_world) = (Some demo_addr, p') /\
  exists c l, pools (wpool demo_world) !! demo_addr = Some (c :: l) /\
    pools p' = put_pool demo_addr l (pools (wpool demo_world)) /\
    forall d, d ∈ all_conns (pools (wpool demo_world)) -> created_at c <= created_at d.
Proof.
  intros order. destruct (evict_oldest order (wpool demo_world)) as [r p'] eqn:He.
  assert (r = Some demo_addr) as ->.
  { change r with (r, p').1. rewrite <- He. vm_compute. reflexivity. }
  exists p'. split; [reflexivity|].
  apply (evict_is_oldest demo_cfg 0 demo_world order demo_addr p');
    [reflexivity|vm_compute; discriminate|exact demo_reachable| |exact He].
  intros a [l Hl]. apply list_elem_of_fmap. exists (a, l). split; [reflexivity|].
  by apply elem_of_map_to_list.
Defined.
