(* ===== verification/PoolRace.v ===== *)
(** * The connection pool under interleaving

    src/src/server/pool.rs once more, with the steps at which its operations let
    others in: between two accesses to the concurrent map, and between the map
    and the counter of the idle connections.  [Pool] has the operations whole.
    A thread takes a connection from the pool, or holds one and gives it back for
    reuse; the periodic clean-up holds the lock of each entry while it works. *)
From S2P Require Import Prelude Net Stream TokenBucket Pool.

(** What a thread does next.  [found] and [expired] are what it took out. *)
Inductive thread : Type :=
| Idle
| GetRemove (addr : SocketAddr) (found : option TcpStream) (expired : Z)
| GetCount (found : option TcpStream) (expired : Z)
| GetExpired (found : option TcpStream) (expired : Z)
| Holding (s : TcpStream)
| PutCheck (s : TcpStream)
| PutLoad (s : TcpStream)
| EvictCollect (s : TcpStream)
| EvictTake (s : TcpStream) (addr : SocketAddr)
| EvictRemove (s : TcpStream) (addr : SocketAddr)
| PutPush (s : TcpStream) (evicted : option SocketAddr)
| PutCount (evicted : option SocketAddr)
| PutEvicted
| Panicked (s : TcpStream).

(** [lost] and [phantom] are not in the program: the connections that
    [pools.remove] dropped, and the evictions that removed nothing. *)
Record state : Type := mkState {
  idle : gmap SocketAddr (list PooledConnection);
  total_idle : Z;
  threads : list thread;
  lost : list PooledConnection;
  phantom : Z;
}.

Definition stream_of (t : thread) : option TcpStream :=
  match t with
  | GetRemove _ found _ | GetCount found _ | GetExpired found _ => found
  | Holding s | PutCheck s | PutLoad s | EvictCollect s | EvictTake s _ | EvictRemove s _ | PutPush s _
  | Panicked s => Some s
  | Idle | PutCount _ | PutEvicted => None
  end.

Definition set_thread (i : nat) (t : thread) (s : state) : state :=
  mkState (idle s) (total_idle s) (<[i := t]> (threads s)) (lost s) (phantom s).
Definition set_idle (m : gmap SocketAddr (list PooledConnection)) (s : state) : state :=
  mkState m (total_idle s) (threads s) (lost s) (phantom s).
Definition add_idle (d : Z) (s : state) : state :=
  mkState (idle s) (wadd64 (total_idle s) d) (threads s) (lost s) (phantom s).
(** [self.pools.remove(&addr)] *)
Definition remove_entry (addr : SocketAddr) (s : state) : state :=
  mkState (delete addr (idle s)) (total_idle s) (threads s)
    (default [] (idle s !! addr) ++ lost s) (phantom s).
Definition add_phantom (s : state) : state :=
  mkState (idle s) (total_idle s) (threads s) (lost s) (phantom s + 1).

Section steps.
Context (cfg : PoolConfig).

(** The loop of [try_get_from_pool], under the lock of the entry. *)
Definition get_pop (now : Z) (i : nat) (addr : SocketAddr) (s : state) : state :=
  match idle s !! addr with
  | None => s
  | Some l =>
    let '(found, rest, expired) := pop_fresh now (ns_of_secs (idle_timeout_secs cfg)) (reverse l) 0 in
    set_thread i (match rest with [] => GetRemove addr found expired | _ => GetCount found expired end)
      (set_idle (<[addr := reverse rest]> (idle s)) s)
  end.

Definition all_streams (s : state) : list TcpStream :=
  omap stream_of (threads s) ++ (stream <$> concat (snd <$> map_to_list (idle s))).

(** The next step of a thread that is at work.  The address of a [put] is the one
    the connection was made to; [evict_oldest] looks at all the pools at once. *)
Definition next (now : Z) (order : list SocketAddr) (i : nat) (t : thread) (s : state) : option state :=
  match t with
  | Idle | Holding _ | Panicked _ => None
  | GetRemove addr found expired => Some (set_thread i (GetCount found expired) (remove_entry addr s))
  | GetCount found expired =>
    Some (set_thread i (GetExpired found expired) (match found with Some _ => add_idle (- 1) s | None => s end))
  | GetExpired found expired =>
    Some (set_thread i (match found with Some st => Holding st | None => Idle end)
            (if 0 <? expired then add_idle (- expired) s else s))
  | PutCheck st =>
    let full := match idle s !! peer st with
                | Some pool => max_idle_per_dest cfg <=? Z.of_nat (length pool)
                | None => false
                end in
    Some (set_thread i (if full then Idle else PutLoad st) s)
  | PutLoad st =>
    Some (set_thread i (if max_total_idle cfg <=? total_idle s then EvictCollect st else PutPush st None) s)
  | EvictCollect st =>
    Some (set_thread i
      (match min_by_key (evict_candidates order (set_pools (idle s) (ConnectionPool_new cfg))) with
       | Some (addr, _) => EvictTake st addr
       | None => PutPush st None
       end) s)
  | EvictTake st addr =>
    Some (match idle s !! addr with
          | None => set_thread i (PutPush st (Some addr)) (add_phantom s)
          | Some [] => set_thread i (Panicked st) s        (* [Vec::remove] *)
          | Some (_ :: pool) =>
            set_thread i (match pool with [] => EvictRemove st addr | _ => PutPush st (Some addr) end)
              (set_idle (<[addr := pool]> (idle s)) s)
          end)
  | EvictRemove st addr => Some (set_thread i (PutPush st (Some addr)) (remove_entry addr s))
  | PutPush st evicted =>
    Some (set_thread i (PutCount evicted)
      (set_idle (<[peer st := default [] (idle s !! peer st) ++ [PooledConnection_new now st]]> (idle s)) s))
  | PutCount evicted =>
    Some (set_thread i (match evicted with Some _ => PutEvicted | None => Idle end) (add_idle 1 s))
  | PutEvicted => Some (set_thread i Idle (add_idle (- 1) s))
  end.

(** One entry of the clean-up. *)
Definition cleanup (now : Z) (addr : SocketAddr) (s : state) : state :=
  match idle s !! addr with
  | None => s
  | Some pool =>
    let kept := List.filter (fun c => negb (is_expired now (ns_of_secs (idle_timeout_secs cfg)) c)) pool in
    let removed := Z.of_nat (length pool) - Z.of_nat (length kept) in
    let s := if 0 <? removed then add_idle (- removed) s else s in
    set_idle (match kept with [] => delete addr (idle s) | _ => <[addr := kept]> (idle s) end) s
  end.

(** [AConnect]: a connection that was just made.  [AClose]: the client is done with it. *)
Inductive action : Type :=
| AGet (addr : SocketAddr) | AConnect (s : TcpStream) | AGive | AClose | ANext
| ACleanup (addr : SocketAddr).

Definition exec (now : Z) (order : list SocketAddr) (i : nat) (a : action) (s : state) : option state :=
  t ← threads s !! i;
  match a, t with
  | AGet addr, Idle => Some (get_pop now i addr s)
  | AConnect st, Idle =>
    if bool_decide (sid st ∈ sid <$> all_streams s) then None else Some (set_thread i (Holding st) s)
  | AGive, Holding st => Some (set_thread i (PutCheck st) s)
  | AClose, Holding _ => Some (set_thread i Idle s)
  | ANext, t => next now order i t s
  | ACleanup addr, _ => Some (cleanup now addr s)
  | _, _ => None
  end.

Record event : Type := mkEvent { ev_now : Z; ev_order : list SocketAddr; ev_thread : nat; ev_action : action }.
Definition run (tr : list event) (s : state) : option state :=
  foldl (fun o e => s ← o; exec (ev_now e) (ev_order e) (ev_thread e) (ev_action e) s) (Some s) tr.
Definition initial (n : nat) : state := mkState ∅ 0 (replicate n Idle) [] 0.
End steps.
