(* ===== verification/PoolRaceSpec.v ===== *)
(** * Properties of the connection pool under interleaving

    What every interleaving keeps, what none of a single thread can do, and what
    two threads can. *)
From S2P Require Import Prelude Net Stream TokenBucket Pool PoolSpec PoolRace.

(** ** Sums and streams of the threads *)

Definition one {A} (o : option A) : Z := match o with Some _ => 1 | None => 0 end.

(** What the counter has still to be told by a thread. *)
Definition pending (t : thread) : Z :=
  match t with
  | GetRemove _ found expired | GetCount found expired => one found + expired
  | GetExpired _ expired => expired
  | EvictRemove _ _ => 1
  | PutPush _ evicted => one evicted
  | PutCount evicted => one evicted - 1
  | PutEvicted => 1
  | _ => 0
  end.
#[global] Arguments pending : simpl never.
Fixpoint pending_sum (ts : list thread) : Z :=
  match ts with [] => 0 | t :: ts => pending t + pending_sum ts end.

Lemma pending_swap ts i t t' : ts !! i = Some t ->
  pending_sum (<[i := t']> ts) = pending_sum ts - pending t + pending t'.
Proof.
  revert i. induction ts as [|u ts IH]; intros [|i]; cbn; try done.
  - intros [= ->]. lia.
  - intros Hi. rewrite IH by done. lia.
Qed.

Lemma streams_swap ts i t t' : ts !! i = Some t -> exists rest,
  omap stream_of ts ≡ₚ option_list (stream_of t) ++ rest /\
  omap stream_of (<[i := t']> ts) ≡ₚ option_list (stream_of t') ++ rest.
Proof.
  revert i. induction ts as [|u ts IH]; intros [|i]; cbn; try done.
  - intros [= ->]. exists (omap stream_of ts). by destruct (stream_of t), (stream_of t').
  - intros Hi. destruct (IH i Hi) as (rest & H1 & H2). exists (option_list (stream_of u) ++ rest).
    split; [transitivity (option_list (stream_of u) ++ omap stream_of ts); [by destruct (stream_of u)|]; rewrite H1
           |transitivity (option_list (stream_of u) ++ omap stream_of (<[i := t']> ts)); [by destruct (stream_of u)|]; rewrite H2];
      solve_Permutation.
Qed.

Lemma all_conns_set a l m : all_conns (<[a := l]> m) ≡ₚ l ++ all_conns (delete a m).
Proof. rewrite <- insert_delete_eq. apply all_conns_insert, lookup_delete_eq. Qed.

(** ** The invariant *)

Definition balance (s : state) : Z :=
  Z.of_nat (length (all_conns (idle s))) + Z.of_nat (length (lost s)) - phantom s + pending_sum (threads s).

Definition thread_ok (t : thread) : Prop :=
  match t with
  | GetRemove addr found expired => (forall st, found = Some st -> peer st = addr) /\ 0 <= expired
  | GetCount _ expired | GetExpired _ expired => 0 <= expired
  | _ => True
  end.

Definition peers_ok (m : gmap SocketAddr (list PooledConnection)) : Prop :=
  forall a l c, m !! a = Some l -> c ∈ l -> peer (stream c) = a.

Record inv (s : state) : Prop := mkInv {
  inv_ids : NoDup (sid <$> all_streams s);
  inv_peers : peers_ok (idle s);
  inv_count : total_idle s = wrap64 (balance s);
  inv_threads : Forall thread_ok (threads s);
}.

(** A step that moves connections about and may let go of some. *)
Lemma inv_move s s' i t t' gone :
  inv s -> threads s !! i = Some t -> threads s' = <[i := t']> (threads s) -> thread_ok t' ->
  option_list (stream_of t) ++ (stream <$> all_conns (idle s)) ≡ₚ
    gone ++ option_list (stream_of t') ++ (stream <$> all_conns (idle s')) ->
  peers_ok (idle s') ->
  total_idle s' = wrap64 (balance s') -> inv s'.
Proof.
  intros [Hids _ _ Hok] Hi Hts Ht Hp Hpeers Hc. constructor; [|done|done|rewrite Hts; by apply Forall_insert].
  destruct (streams_swap _ _ _ t' Hi) as (rest & H1 & H2).
  assert (Hall : all_streams s ≡ₚ gone ++ all_streams s').
  { unfold all_streams. rewrite Hts, H1, H2. fold (all_conns (idle s)) (all_conns (idle s')).
    rewrite <- !(assoc_L (++)), (comm (++) rest (stream <$> all_conns (idle s))), (assoc_L (++)), Hp.
    solve_Permutation. }
  rewrite Hall, fmap_app in Hids. by apply NoDup_app in Hids as (_ & _ & ?).
Qed.

(** ** Each step keeps the invariant *)

Lemma peers_set a l m : peers_ok m -> (forall c, c ∈ l -> peer (stream c) = a) -> peers_ok (<[a := l]> m).
Proof.
  intros Hm Hl b k c. destruct (decide (b = a)) as [->|Hb].
  - rewrite lookup_insert_eq. intros [= <-]. apply Hl.
  - rewrite lookup_insert_ne by done. apply Hm.
Qed.

Lemma peers_delete a m : peers_ok m -> peers_ok (delete a m).
Proof. intros Hm b k c [_ Hb]%lookup_delete_Some. by apply Hm. Qed.

Lemma conns_split a m : Z.of_nat (length (all_conns m)) =
  Z.of_nat (length (default [] (m !! a))) + Z.of_nat (length (all_conns (delete a m))).
Proof. rewrite <- (default_conns a m), length_app. lia. Qed.

Lemma conns_set a l m : Z.of_nat (length (all_conns (<[a := l]> m))) =
  Z.of_nat (length l) + Z.of_nat (length (all_conns (delete a m))).
Proof. rewrite all_conns_set, length_app. lia. Qed.

(** The counter after a step, from the one before. *)
Lemma count_move s s' i t t' d :
  inv s -> threads s !! i = Some t -> threads s' = <[i := t']> (threads s) ->
  total_idle s' = wadd64 (total_idle s) d ->
  Z.of_nat (length (all_conns (idle s'))) + Z.of_nat (length (lost s')) - phantom s' + pending t' =
  Z.of_nat (length (all_conns (idle s))) + Z.of_nat (length (lost s)) - phantom s + pending t + d ->
  total_idle s' = wrap64 (balance s').
Proof.
  intros Hinv Hi Hts -> Hd. rewrite (inv_count s Hinv), wadd64_wrap. f_equal.
  unfold balance. rewrite Hts, (pending_swap _ _ t) by done. lia.
Qed.

Lemma wadd64_0 s : inv s -> total_idle s = wadd64 (total_idle s) 0.
Proof. intros Hinv. rewrite (inv_count s Hinv), wadd64_wrap. f_equal. lia. Qed.

(** A step of a thread that touches neither the pools nor the counter. *)
Lemma inv_thread s i t t' :
  inv s -> threads s !! i = Some t -> thread_ok t' -> pending t' = pending t ->
  (stream_of t' = stream_of t \/ stream_of t' = None) -> inv (set_thread i t' s).
Proof.
  intros Hinv Hi Hok Hp Hst. destruct Hst as [E|E].
  - apply (inv_move s _ i t t' []); try done; [by rewrite E|apply (inv_peers s Hinv)|].
    apply (count_move s _ i t t' 0); try done; [exact (wadd64_0 s Hinv)|]. cbn. lia.
  - apply (inv_move s _ i t t' (option_list (stream_of t))); try done; [by rewrite E|apply (inv_peers s Hinv)|].
    apply (count_move s _ i t t' 0); try done; [exact (wadd64_0 s Hinv)|]. cbn. lia.
Qed.

(** Removing an entry with whatever is in it. *)
Lemma inv_remove s i t t' a :
  inv s -> threads s !! i = Some t -> thread_ok t' -> pending t' = pending t -> stream_of t' = stream_of t ->
  inv (set_thread i t' (remove_entry a s)).
Proof.
  intros Hinv Hi Hok Hp E. apply (inv_move s _ i t t' (stream <$> default [] (idle s !! a))); try done.
  - cbn. rewrite E, <- (default_conns a (idle s)), fmap_app. solve_Permutation.
  - apply peers_delete, (inv_peers s Hinv).
  - apply (count_move s _ i t t' 0); try done; [exact (wadd64_0 s Hinv)|]. cbn.
    rewrite length_app, (conns_split a (idle s)). lia.
Qed.

(** A change of the counter alone. *)
Lemma inv_add s i t t' d :
  inv s -> threads s !! i = Some t -> thread_ok t' -> pending t' = pending t + d ->
  stream_of t' = stream_of t -> inv (set_thread i t' (add_idle d s)).
Proof.
  intros Hinv Hi Hok Hp E. apply (inv_move s _ i t t' []); try done; [by rewrite E|apply (inv_peers s Hinv)|].
  apply (count_move s _ i t t' d); try done. cbn. lia.
Qed.

Section run.
Context (cfg : PoolConfig).

Lemma inv_get_pop now i addr s : inv s -> threads s !! i = Some Idle -> inv (get_pop cfg now i addr s).
Proof.
  intros Hinv Hi. unfold get_pop. destruct (idle s !! addr) as [l|] eqn:El; [|done].
  destruct (pop_fresh _ _ _ _) as [[found rest] n] eqn:Ep. apply pop_fresh_spec in Ep as (out & -> & _ & Hs).
  assert (Hl : exists taken, reverse l = out ++ taken ++ rest /\ found = stream <$> head taken /\
    Z.of_nat (length taken) = one found).
  { destruct found as [st|].
    - destruct Hs as (c & -> & _ & ->). by exists [c].
    - destruct Hs as [-> ->]. exists []. by rewrite app_nil_r. }
  destruct Hl as (taken & Hl & -> & Hlen). clear Hs.
  assert (Hperm : l ≡ₚ out ++ taken ++ reverse rest) by (rewrite <- (reverse_Permutation l), Hl, (reverse_Permutation rest); done).
  assert (Htk : option_list (stream <$> head taken) = stream <$> taken).
  { destruct taken as [|c [|d taken]]; cbn in Hlen; [done|done|lia]. }
  set (t' := match rest with [] => _ | _ => _ end).
  assert (Ht : thread_ok t' /\ pending t' = one (stream <$> head taken) + Z.of_nat (length out) /\
    stream_of t' = stream <$> head taken).
  { subst t'. destruct rest; (split; [|done]); cbn; [|lia]. split; [|lia]. intros st Hst.
    destruct taken as [|c taken]; cbn in Hst; [done|]. injection Hst as <-. apply (inv_peers s Hinv addr l c El).
    rewrite Hperm. set_solver. }
  clearbody t'. destruct Ht as (Hok & Hp & Hst).
  apply (inv_move s _ i Idle t' (stream <$> out)); try done.
  - cbn. rewrite Hst, Htk, all_conns_set, (all_conns_delete addr l) by done. rewrite Hperm, !fmap_app. solve_Permutation.
  - apply peers_set; [apply (inv_peers s Hinv)|]. intros c Hc. apply (inv_peers s Hinv addr l c El). rewrite Hperm. set_solver.
  - apply (count_move s _ i Idle t' 0); try done; [exact (wadd64_0 s Hinv)|]. cbn [idle set_thread set_idle lost phantom].
    rewrite conns_set, (conns_split addr (idle s)), El, Hp, <- Hlen. cbn [default]. unfold id.
    change (pending Idle) with 0.
    apply Permutation_length in Hperm. rewrite !length_app in Hperm. lia.
Qed.

Lemma inv_push now i st ev s :
  inv s -> threads s !! i = Some (PutPush st ev) ->
  inv (set_thread i (PutCount ev)
    (set_idle (<[peer st := default [] (idle s !! peer st) ++ [PooledConnection_new now st]]> (idle s)) s)).
Proof.
  intros Hinv Hi. apply (inv_move s _ i _ (PutCount ev) [] Hinv Hi); try done.
  - cbn. rewrite all_conns_set, <- (default_conns (peer st) (idle s)), !fmap_app. cbn. solve_Permutation.
  - apply peers_set; [apply (inv_peers s Hinv)|]. intros c [Hc|Hc]%elem_of_app.
    + destruct (idle s !! peer st) as [l|] eqn:El; [|set_solver]. by apply (inv_peers s Hinv _ l).
    + apply list_elem_of_singleton in Hc as ->. done.
  - apply (count_move s _ i (PutPush st ev) (PutCount ev) 0); try done; [exact (wadd64_0 s Hinv)|].
    cbn [idle set_thread set_idle lost phantom]. rewrite conns_set, (conns_split (peer st) (idle s)), length_app.
    unfold pending. cbn [length]. lia.
Qed.

Lemma inv_evict_take i st addr s s' :
  inv s -> threads s !! i = Some (EvictTake st addr) ->
  next cfg 0 [] i (EvictTake st addr) s = Some s' -> inv s'.
Proof.
  intros Hinv Hi [= <-]. destruct (idle s !! addr) as [[|c pool]|] eqn:El.
  - apply (inv_thread s i _ (Panicked st) Hinv Hi); try done. by left.
  - set (t' := match pool with [] => _ | _ => _ end).
    assert (Ht : thread_ok t' /\ pending t' = 1 /\ stream_of t' = Some st) by (subst t'; by destruct pool).
    clearbody t'. destruct Ht as (Hok & Hp & Hst). apply (inv_move s _ i _ t' [stream c] Hinv Hi); try done.
    + cbn. rewrite Hst, all_conns_set, (all_conns_delete addr (c :: pool)) by done. cbn. rewrite fmap_app. cbn. solve_Permutation.
    + apply peers_set; [apply (inv_peers s Hinv)|]. intros d Hd. apply (inv_peers s Hinv addr (c :: pool)); [done|by right].
    + apply (count_move s _ i (EvictTake st addr) t' 0); try done; [exact (wadd64_0 s Hinv)|].
      cbn [idle set_thread set_idle lost phantom]. rewrite conns_set, (conns_split addr (idle s)), El, Hp.
      unfold pending. cbn. lia.
  - apply (inv_move s _ i _ (PutPush st (Some addr)) [] Hinv Hi); try done; [apply (inv_peers s Hinv)|].
    apply (count_move s _ i (EvictTake st addr) (PutPush st (Some addr)) 0); try done; [exact (wadd64_0 s Hinv)|].
    unfold pending. cbn. lia.
Qed.

Lemma inv_next now order i t s s' :
  inv s -> threads s !! i = Some t -> next cfg now order i t s = Some s' -> inv s'.
Proof.
  intros Hinv Hi Hn. pose proof (Forall_lookup_1 _ _ _ _ (inv_threads s Hinv) Hi) as Hok.
  destruct t as [|addr found n|found n|found n|st|st|st|st|st addr|st addr|st ev|ev| |st]; try discriminate Hn.
  all: try (injection Hn as <-).
  - apply (inv_remove s i _ _ addr Hinv Hi); try done. apply Hok.
  - destruct found as [st|]; [apply (inv_add s i _ _ (- 1) Hinv Hi)|apply (inv_thread s i _ _ Hinv Hi)]; try done.
    + unfold pending, one. lia.
    + by left.
  - destruct (Z.ltb_spec 0 n) as [H|H].
    + apply (inv_add s i _ _ (- n) Hinv Hi); destruct found; try done; unfold pending; lia.
    + cbn in Hok. apply (inv_thread s i _ _ Hinv Hi); destruct found; try done; try (unfold pending; lia); auto.
  - destruct (match idle s !! peer st with Some pool => _ | None => false end);
      apply (inv_thread s i _ _ Hinv Hi); try done; auto.
  - destruct (max_total_idle cfg <=? total_idle s); apply (inv_thread s i _ _ Hinv Hi); try done; auto.
  - destruct (min_by_key _) as [[a z]|]; apply (inv_thread s i _ _ Hinv Hi); try done; auto.
  - by apply (inv_evict_take i st addr s _ Hinv Hi).
  - apply (inv_remove s i _ _ addr Hinv Hi); done.
  - by apply inv_push.
  - destruct ev; apply (inv_add s i _ _ 1 Hinv Hi); try done; unfold pending, one; lia.
  - apply (inv_add s i _ _ (- 1) Hinv Hi); try done; unfold pending; lia.
Qed.

Lemma inv_cleanup now addr i t s : inv s -> threads s !! i = Some t -> inv (cleanup cfg now addr s).
Proof.
  intros Hinv Hi. unfold cleanup. destruct (idle s !! addr) as [pool|] eqn:El; [|done].
  set (f := is_expired now (ns_of_secs (idle_timeout_secs cfg))).
  set (kept := List.filter (fun c => negb (f c)) pool). set (out := List.filter f pool).
  pose proof (filter_split f pool) as Hsplit. fold kept out in Hsplit.
  pose proof (Permutation_length Hsplit) as Hlen. rewrite length_app in Hlen.
  set (removed := Z.of_nat (length pool) - Z.of_nat (length kept)).
  set (s1 := if 0 <? removed then add_idle (- removed) s else s).
  assert (H1 : idle s1 = idle s /\ threads s1 = threads s /\ lost s1 = lost s /\ phantom s1 = phantom s /\
    total_idle s1 = wadd64 (total_idle s) (- removed)).
  { subst s1. destruct (Z.ltb_spec 0 removed); [done|]. split_and!; try done.
    replace (- removed) with 0 by (unfold removed; lia). by apply wadd64_0. }
  clearbody s1. destruct H1 as (E1 & E2 & E3 & E4 & E5).
  assert (Hm : match kept with [] => delete addr (idle s1) | _ => <[addr := kept]> (idle s1) end = put_pool addr kept (idle s1)) by done.
  rewrite Hm, E1. clear Hm.
  assert (Hk : all_conns (put_pool addr kept (idle s)) ≡ₚ kept ++ all_conns (delete addr (idle s))) by apply all_conns_put.
  apply (inv_move s _ i t t (stream <$> out) Hinv Hi).
  - cbn. rewrite E2. symmetry. by apply list_insert_id.
  - exact (Forall_lookup_1 _ _ _ _ (inv_threads s Hinv) Hi).
  - cbn. rewrite Hk, (all_conns_delete addr pool) by done. rewrite Hsplit, !fmap_app. solve_Permutation.
  - cbn. unfold put_pool. destruct kept eqn:Ek; [by apply peers_delete, (inv_peers s Hinv)|].
    apply peers_set; [apply (inv_peers s Hinv)|]. intros c Hc. apply (inv_peers s Hinv addr pool); [done|].
    rewrite Hsplit. apply elem_of_app. by left.
  - apply (count_move s _ i t t (- removed) Hinv Hi).
    + cbn. rewrite E2. symmetry. by apply list_insert_id.
    + done.
    + cbn [idle set_idle lost phantom]. rewrite E3, E4, Hk, length_app, (conns_split addr (idle s)), El.
      cbn [default]. unfold id, removed. lia.
Qed.

Lemma inv_set_Idle i t s : inv s -> threads s !! i = Some t -> pending t = 0 -> inv (set_thread i Idle s).
Proof. intros Hinv Hi Hp. apply (inv_thread s i t); try done. by right. Qed.

Lemma inv_connect i st s :
  inv s -> threads s !! i = Some Idle -> sid st ∉ sid <$> all_streams s -> inv (set_thread i (Holding st) s).
Proof.
  intros Hinv Hi Hst. destruct (streams_swap _ _ _ (Holding st) Hi) as (rest & H1 & H2).
  assert (Hall : all_streams (set_thread i (Holding st) s) ≡ₚ st :: all_streams s).
  { unfold all_streams. cbn [threads set_thread idle]. by rewrite H1, H2. }
  constructor.
  - rewrite Hall. cbn. constructor; [done|apply (inv_ids s Hinv)].
  - apply (inv_peers s Hinv).
  - apply (count_move s _ i Idle (Holding st) 0); try done; [exact (wadd64_0 s Hinv)|]. unfold pending. cbn. lia.
  - apply Forall_insert; [apply (inv_threads s Hinv)|done].
Qed.

Lemma inv_exec now order i a s s' : inv s -> exec cfg now order i a s = Some s' -> inv s'.
Proof.
  intros Hinv He. unfold exec in He. destruct (threads s !! i) as [t|] eqn:Hi; cbn in He; [|done].
  destruct a as [addr|st| | | |addr].
  - destruct t; try discriminate He. injection He as <-. by apply inv_get_pop.
  - destruct t; try discriminate He. case_bool_decide; [done|]. injection He as <-. by apply inv_connect.
  - destruct t; try discriminate He. injection He as <-. apply (inv_thread s i _ _ Hinv Hi); try done. by left.
  - destruct t; try discriminate He. injection He as <-. by eapply inv_set_Idle.
  - by eapply inv_next.
  - injection He as <-. by eapply inv_cleanup.
Qed.

Lemma inv_initial n : inv (initial n).
Proof.
  assert (H1 : omap stream_of (replicate n Idle) = []) by (induction n; done).
  assert (H2 : pending_sum (replicate n Idle) = 0) by (clear H1; induction n as [|n IH]; [done|exact IH]).
  constructor.
  - unfold all_streams. cbn. rewrite H1. constructor.
  - done.
  - unfold balance. cbn. by rewrite H2.
  - by apply Forall_replicate.
Qed.

Lemma race_run_snoc tr e s : run cfg (tr ++ [e]) s =
  (s ← run cfg tr s; exec cfg (ev_now e) (ev_order e) (ev_thread e) (ev_action e) s).
Proof. unfold run. by rewrite foldl_app. Qed.

Lemma inv_run n tr s : run cfg tr (initial n) = Some s -> inv s.
Proof.
  revert s. induction tr as [|e tr IH] using rev_ind; intros s.
  - intros [= <-]. apply inv_initial.
  - rewrite race_run_snoc. destruct (run cfg tr (initial n)) as [s1|]; cbn; [|done]. apply inv_exec. by apply IH.
Qed.
End run.

(** ** A thread that nobody interrupts *)

(** The thread until it has nothing left to do, at most [k] steps. *)
Fixpoint steps (cfg : PoolConfig) (now : Z) (order : list SocketAddr) (i k : nat) (s : state) : state :=
  match k with
  | O => s
  | S k =>
    match t ← threads s !! i; next cfg now order i t s with
    | Some s' => steps cfg now order i k s'
    | None => s
    end
  end.

(** The pools and the counter are those of [p], the rest is that of [s]. *)
Definition after (s : state) (i : nat) (t : thread) (p : ConnectionPool) : state :=
  mkState (pools p) (pm_total_idle (metrics p)) (<[i := t]> (threads s)) (lost s) (phantom s).

Lemma steps_next cfg now order i k s t s' :
  threads s !! i = Some t -> next cfg now order i t s = Some s' ->
  steps cfg now order i (S k) s = steps cfg now order i k s'.
Proof. intros Hi Hn. cbn. rewrite Hi. cbn. by rewrite Hn. Qed.

Lemma steps_done cfg now order i k s t :
  threads s !! i = Some t -> next cfg now order i t s = None -> steps cfg now order i k s = s.
Proof. intros Hi Hn. destruct k; [done|]. cbn. rewrite Hi. cbn. by rewrite Hn. Qed.

Ltac flat := unfold set_thread, set_idle, remove_entry, add_idle; cbn [idle total_idle threads lost phantom];
  rewrite ?list_insert_insert_eq.
Ltac here := by cbn [threads]; rewrite list_lookup_insert_eq by done.
Ltac step := erewrite steps_next; [|here|reflexivity]; flat.
Ltac stop := erewrite steps_done; [|here|reflexivity].
Ltac landed := unfold after; cbn; try done; by rewrite lookup_insert_eq, delete_insert_eq.

(** What the counter is told at the end, by [record_expired]. *)
Lemma expired_views sys addr n p :
  pools (if 0 <? n then record_expired sys addr n p else p) = pools p /\
  pm_total_idle (metrics (if 0 <? n then record_expired sys addr n p else p)) =
    (if 0 <? n then wadd64 (pm_total_idle (metrics p)) (- n) else pm_total_idle (metrics p)).
Proof.
  destruct (Z.ltb_spec 0 n); [|done]. unfold record_expired. by destruct (Z.eqb_spec n 0); [lia|].
Qed.

Lemma get_alone_end cfg now order i addr found rest n s :
  (i < length (threads s))%nat ->
  steps cfg now order i 8 (set_thread i (match rest with [] => GetRemove addr found n | _ => GetCount found n end)
    (set_idle (<[addr := reverse rest]> (idle s)) s)) =
  mkState (match rest with [] => delete addr (idle s) | _ => <[addr := reverse rest]> (idle s) end)
    (let c := match found with Some _ => wadd64 (total_idle s) (- 1) | None => total_idle s end in
     if 0 <? n then wadd64 c (- n) else c)
    (<[i := match found with Some st => Holding st | None => Idle end]> (threads s)) (lost s) (phantom s).
Proof.
  destruct s as [m c ts ls ph]; cbn [threads idle total_idle]; intros Hi. flat.
  destruct rest as [|r rest], found as [st|]; repeat step; destruct (0 <? n); flat; stop; landed.
Qed.

(** A thread that takes a connection, alone. *)
Lemma get_alone cfg now sys order i addr s p :
  (i < length (threads s))%nat -> config p = cfg -> pools p = idle s -> pm_total_idle (metrics p) = total_idle s ->
  threads s !! i = Some Idle ->
  let '(found, p') := try_get_from_pool now sys addr p in
  steps cfg now order i 8 (get_pop cfg now i addr s) =
    after s i (match found with Some st => Holding st | None => Idle end) p'.
Proof.
  intros Hi Hcfg Hp Hc Hidle. unfold try_get_from_pool, get_pop. rewrite Hp, Hcfg.
  destruct (idle s !! addr) as [l|] eqn:El.
  - destruct (pop_fresh _ _ _ _) as [[found rest] n]. rewrite get_alone_end by done. unfold after.
    destruct (expired_views sys addr n (match found with
      | Some _ => add_metrics (mkPoolMetrics 0 0 0 0 0 0 0 0 0 (- 1))
          (match rest with [] => set_pools (delete addr (idle s)) p | _ => set_pools (<[addr := reverse rest]> (idle s)) p end)
      | None => match rest with [] => set_pools (delete addr (idle s)) p | _ => set_pools (<[addr := reverse rest]> (idle s)) p end
      end)) as [-> ->].
    destruct rest, found; cbn; by rewrite Hc.
  - rewrite (steps_done _ _ _ _ _ _ Idle) by done. unfold after. rewrite Hp, Hc, list_insert_id by done. by destruct s.
Qed.

(** A thread that gives one back, alone. *)
Lemma put_alone cfg now sys order i st s p :
  (i < length (threads s))%nat -> config p = cfg -> pools p = idle s -> pm_total_idle (metrics p) = total_idle s ->
  let '((_, _, evicted), p') := insert_stream now order (peer st) st p in
  steps cfg now order i 8 (set_thread i (PutCheck st) s) =
    after s i Idle (match evicted with Some a => record_evicted sys a p' | None => p' end).
Proof.
  intros Hi Hcfg Hp Hc. unfold insert_stream. rewrite Hp, Hcfg.
  destruct s as [m c ts ls ph]; cbn [threads idle total_idle] in *. subst m c.
  flat. step. destruct (match pools p !! peer st with Some l => _ | None => false end).
  { stop. landed. }
  step. destruct (max_total_idle cfg <=? _).
  2: { repeat step. stop. landed. }
  step.
  assert (Hcand : evict_candidates order (set_pools (pools p) (ConnectionPool_new cfg)) = evict_candidates order p) by done.
  rewrite Hcand. unfold evict_oldest. destruct (min_by_key (evict_candidates order p)) as [[addr t]|] eqn:Em.
  2: { repeat step. stop. landed. }
  pose proof (min_by_key_spec (evict_candidates order p)) as Hmin. rewrite Em in Hmin.
  apply proj1, evict_candidates_elem in Hmin as (_ & c & l & Hl & _). rewrite Hl. cbn [delete list_delete].
  erewrite steps_next; [|here|cbn; rewrite Hl; reflexivity]. flat.
  destruct l as [|d l]; repeat step; stop; landed.
Qed.

(** ** The theorems *)

(** C20: the connection pool under any interleaving of its users and its clean-up.
    At each point of each run no connection is in two places: not with two
    threads, not twice among the idle ones, not both; an idle connection is
    filed under the peer it is connected to, so that a thread never gets a
    connection to another peer than it asked for.  The counter of the idle
    connections is theirs, up to the threads that have yet to adjust it and to
    the two faults of [evict_oldest] and [try_get_from_pool]: the connections
    dropped with an entry, and the evictions that found nothing. *)
Theorem pool_race_safe cfg n tr s :
  run cfg tr (initial n) = Some s ->
  NoDup (sid <$> all_streams s) /\
  (forall a l c, idle s !! a = Some l -> c ∈ l -> peer (stream c) = a) /\
  total_idle s = wrap64 (Z.of_nat (length (all_conns (idle s))) + Z.of_nat (length (lost s)) - phantom s +
                         pending_sum (threads s)) /\
  (forall i addr found e, threads s !! i = Some (GetRemove addr found e) -> forall st, found = Some st -> peer st = addr).
Proof.
  intros Hrun%inv_run. split_and!; [apply (inv_ids s Hrun)|exact (inv_peers s Hrun)|apply (inv_count s Hrun)|].
  intros i addr found e Hi. exact (proj1 (Forall_lookup_1 _ _ _ _ (inv_threads s Hrun) Hi)).
Qed.

Definition demo_a : SocketAddr := mkSocketAddr (V4 [x0a; x00; x00; x01]) 443.
Definition demo_b : SocketAddr := mkSocketAddr (V4 [x0a; x00; x00; x02]) 443.
Definition demo_conf (max_total : Z) : PoolConfig := mkPoolConfig true 4 max_total 90 5000.
Definition by_thread (i : nat) (acts : list action) : list event := mkEvent 0 [demo_a; demo_b] i <$> acts.

(** Thread 0 makes a connection to [demo_a] and leaves it in the pool. *)
Definition demo_stored : list event :=
  by_thread 0 (AConnect (mkTcpStream 1 demo_a) :: AGive :: replicate 4 ANext).

(** Thread 1 gives back a connection to [demo_b]; the pool is full, and it has
    chosen the one to [demo_a] to make room. *)
Definition demo_chosen : list event :=
  demo_stored ++ by_thread 1 (AConnect (mkTcpStream 2 demo_b) :: AGive :: replicate 3 ANext).

(** Thread 0 takes it, and has not removed its entry. *)
Definition demo_panic : list event :=
  demo_chosen ++ by_thread 0 [AGet demo_a] ++ by_thread 1 [ANext].

(** Thread 0 takes it; then both take and give on to the end. *)
Definition demo_phantom : list event :=
  demo_chosen ++ by_thread 0 (AGet demo_a :: replicate 3 ANext ++ [AClose]) ++ by_thread 1 (replicate 4 ANext) ++
  by_thread 0 (AGet demo_b :: replicate 3 ANext ++ [AClose]).

(** Thread 0 takes the last connection; thread 1 gives one back before the entry
    is removed. *)
Definition demo_lost : list event :=
  demo_stored ++ by_thread 0 [AGet demo_a] ++
  by_thread 1 (AConnect (mkTcpStream 2 demo_a) :: AGive :: replicate 3 ANext) ++
  by_thread 0 (replicate 3 ANext ++ [AClose]) ++ by_thread 1 [ANext].

(** What is left after a run: the threads, the idle connections, their counter,
    and the connections lost. *)
Definition outcome (s : state) : list thread * list PooledConnection * Z * list PooledConnection :=
  (threads s, all_conns (idle s), total_idle s, lost s).

Lemma pool_race_safe_witness :
  exists s, run (demo_conf 10) demo_stored (initial 2) = Some s /\
    outcome s = ([Idle; Idle], [PooledConnection_new 0 (mkTcpStream 1 demo_a)], 1, []) /\
    NoDup (sid <$> all_streams s).
Proof.
  assert (H : outcome <$> run (demo_conf 10) demo_stored (initial 2) =
    Some ([Idle; Idle], [PooledConnection_new 0 (mkTcpStream 1 demo_a)], 1, [])) by (vm_compute; reflexivity).
  destruct (run (demo_conf 10) demo_stored (initial 2)) as [s|] eqn:E; [|discriminate H].
  apply (inj Some) in H. exists s. split; [reflexivity|]. split; [exact H|].
  exact (proj1 (pool_race_safe _ _ _ _ E)).
Defined.

(** What two threads can do to the pool, that one cannot.  (1) A thread that
    makes room has chosen an entry whose last connection another thread has just
    taken: [pool.remove(0)] panics on the empty vector.  (2) The entry is gone
    altogether: nothing is evicted, but the counter is decremented all the same;
    when the pools are empty it stands at 2^64 - 1, and the pool takes itself to
    be full.  (3) A connection is given back between the moment the entry is
    found empty and its removal: it is dropped with the entry, no thread holds
    it, and the counter stays at 1 with no connection in the pool. *)
Theorem pool_race_faults :
  outcome <$> run (demo_conf 1) demo_panic (initial 2) =
    Some ([GetRemove demo_a (Some (mkTcpStream 1 demo_a)) 0; Panicked (mkTcpStream 2 demo_b)], [], 1, []) /\
  outcome <$> run (demo_conf 1) demo_phantom (initial 2) = Some ([Idle; Idle], [], u64_max, []) /\
  outcome <$> run (demo_conf 10) demo_lost (initial 2) =
    Some ([Idle; Idle], [], 1, [PooledConnection_new 0 (mkTcpStream 2 demo_a)]).
Proof. split_and!; vm_compute; reflexivity. Qed.

(** A thread that nobody interrupts ends within eight steps and does what
    [Pool.try_get_from_pool] and [Pool.insert_stream] with [Pool.record_evicted]
    do: the same connection, the same pools, the same count, nothing lost. *)
Theorem pool_race_alone cfg now sys order i addr st s p :
  (i < length (threads s))%nat -> config p = cfg -> pools p = idle s -> pm_total_idle (metrics p) = total_idle s ->
  (threads s !! i = Some Idle ->
   let '(found, p') := try_get_from_pool now sys addr p in
   steps cfg now order i 8 (get_pop cfg now i addr s) =
     after s i (match found with Some st => Holding st | None => Idle end) p') /\
  (let '((_, _, evicted), p') := insert_stream now order (peer st) st p in
   steps cfg now order i 8 (set_thread i (PutCheck st) s) =
     after s i Idle (match evicted with Some a => record_evicted sys a p' | None => p' end)).
Proof. intros Hi Hcfg Hp Hc. split; [intros; by apply get_alone|by apply put_alone]. Qed.

Lemma pool_race_alone_witness :
  steps (demo_conf 1) 0 [demo_a] 0 8 (get_pop (demo_conf 1) 0 0 demo_a (initial 1)) = initial 1.
Proof.
  destruct (pool_race_alone (demo_conf 1) 0 0 [demo_a] 0 demo_a (mkTcpStream 1 demo_a) (initial 1)
    (ConnectionPool_new (demo_conf 1))) as [H _]; [cbn; lia|reflexivity|reflexivity|reflexivity|].
  specialize (H eq_refl). exact H.
Defined.
