(* ===== verification/PoolUse.v ===== *)
(** * The counters of the connections in use, under interleaving

    src/src/server/pool.rs keeps three counts of the connections that are handed
    out: an atomic counter, one in the metrics of each destination, and a map of
    atomic counters from which the statistics are made.  [get] raises and [put]
    and [release] lower them one after the other; here a user of the pool is at
    one of these points.  Two callers do not keep to pairs: src/src/server/bind.rs
    puts or releases the connection of the peer, which no [get] counted, and
    src/src/server/handler.rs drops a connection without either when the local
    address or the reply to the client fails.  The connections themselves are in
    [PoolRace]. *)
From S2P Require Import Prelude Net Pool.

(** Where a user of the pool stands.  [own] tells a connection that a [get] counted
    from the one of a BIND.  [CasUse]: [decrement_in_use] between the load and the
    exchange; [Forget]: [decrement_active] before it removes the entry. *)
Inductive user : Type :=
| Away
| IncUse (addr : SocketAddr)
| IncDest (addr : SocketAddr)
| IncActive (addr : SocketAddr)
| Using (addr : SocketAddr)
| DecUse (own : bool) (addr : SocketAddr)
| CasUse (own : bool) (addr : SocketAddr) (current : Z)
| DecDest (own : bool) (addr : SocketAddr)
| DecActive (addr : SocketAddr)
| Forget (addr : SocketAddr).

(** The last two fields only record what happened: the connections that were
    dropped without a [release], and those that a BIND gave to the pool. *)
Record state : Type := mkState {
  connections_in_use : Z;
  dest_use : gmap SocketAddr Z;
  active_counts : gmap SocketAddr Z;
  users : list user;
  lost : list SocketAddr;
  foreign : list SocketAddr;
}.

Definition set_user (i : nat) (u : user) (s : state) : state :=
  mkState (connections_in_use s) (dest_use s) (active_counts s) (<[i := u]> (users s)) (lost s) (foreign s).
Definition set_in_use (n : Z) (s : state) : state :=
  mkState n (dest_use s) (active_counts s) (users s) (lost s) (foreign s).
Definition set_dest (addr : SocketAddr) (n : Z) (s : state) : state :=
  mkState (connections_in_use s) (<[addr := n]> (dest_use s)) (active_counts s) (users s) (lost s) (foreign s).
Definition set_active (m : gmap SocketAddr Z) (s : state) : state :=
  mkState (connections_in_use s) (dest_use s) m (users s) (lost s) (foreign s).
Definition add_lost (addr : SocketAddr) (s : state) : state :=
  mkState (connections_in_use s) (dest_use s) (active_counts s) (users s) (addr :: lost s) (foreign s).
Definition add_foreign (addr : SocketAddr) (s : state) : state :=
  mkState (connections_in_use s) (dest_use s) (active_counts s) (users s) (lost s) (addr :: foreign s).

(** The next step of a user that is in [get], [put] or [release]. *)
Definition next (i : nat) (u : user) (s : state) : option state :=
  match u with
  | Away | Using _ => None
  | IncUse addr => Some (set_user i (IncDest addr) (set_in_use (wadd64 (connections_in_use s) 1) s))
  | IncDest addr =>
    Some (set_user i (IncActive addr) (set_dest addr (wadd64 (default 0 (dest_use s !! addr)) 1) s))
  | IncActive addr =>
    Some (set_user i (Using addr)
            (set_active (<[addr := wadd64 (default 0 (active_counts s !! addr)) 1]> (active_counts s)) s))
  | DecUse own addr =>
    let current := connections_in_use s in
    Some (set_user i (if current =? 0 then DecDest own addr else CasUse own addr current) s)
  | CasUse own addr current =>
    Some (if connections_in_use s =? current then set_user i (DecDest own addr) (set_in_use (current - 1) s)
          else set_user i (DecUse own addr) s)
  | DecDest _ addr =>
    Some (set_user i (DecActive addr) (set_dest addr (sat_sub64 (default 0 (dest_use s !! addr)) 1) s))
  | DecActive addr =>
    match active_counts s !! addr with
    | None => Some (set_user i Away s)
    | Some prev =>
      Some (set_user i (if prev =? 1 then Forget addr else Away)
              (set_active (<[addr := wsub64 prev 1]> (active_counts s)) s))
    end
  | Forget addr => Some (set_user i Away (set_active (delete addr (active_counts s)) s))
  end.

(** [UGet]: a connection to [addr] was found or made.  [UGive]: it is put or
    released.  [UDrop]: it is dropped, [handle_connect] having failed.  [UForeign]:
    [handle_bind] puts or releases the connection of its peer. *)
Inductive action : Type := UGet (addr : SocketAddr) | UGive | UDrop | UForeign (addr : SocketAddr) | UNext.

Definition exec (i : nat) (a : action) (s : state) : option state :=
  u ← users s !! i;
  match a, u with
  | UGet addr, Away => Some (set_user i (IncUse addr) s)
  | UGive, Using addr => Some (set_user i (DecUse true addr) s)
  | UDrop, Using addr => Some (add_lost addr (set_user i Away s))
  | UForeign addr, Away => Some (add_foreign addr (set_user i (DecUse false addr) s))
  | UNext, u => next i u s
  | _, _ => None
  end.

Definition run (tr : list (nat * action)) (s : state) : option state :=
  foldl (fun o e => s ← o; exec e.1 e.2 s) (Some s) tr.

(** The count that [stats] reports. *)
Definition reported (s : state) : Z := foldr (fun e n => wadd64 e.2 n) 0 (map_to_list (active_counts s)).

Definition initial (n : nat) : state := mkState 0 ∅ ∅ (replicate n Away) [] [].
