(* ===== verification/PoolUseSpec.v ===== *)
(** * Properties of the counters of the connections in use

    Under every interleaving two of the three counts are off by no more than
    the connections that were dropped and those that no [get] counted; the third,
    which the statistics show, is not even that. *)
From S2P Require Import Prelude Net Pool PoolSpec PoolUse.

(** ** What the counters should say *)

(** The user has a connection that it has counted and not discounted yet. *)
Definition in_use (u : user) : bool :=
  match u with IncDest _ | IncActive _ | Using _ | DecUse true _ | CasUse true _ _ => true | _ => false end.
Definition in_dest (addr : SocketAddr) (u : user) : bool :=
  match u with
  | IncActive a | Using a | DecUse true a | CasUse true a _ | DecDest true a => bool_decide (a = addr)
  | _ => false
  end.
(** The user is about to discount one that was not counted. *)
Definition owes (u : user) : bool :=
  match u with DecUse false _ | CasUse false _ _ => true | _ => false end.
Definition owes_dest (addr : SocketAddr) (u : user) : bool :=
  match u with DecUse false a | CasUse false a _ | DecDest false a => bool_decide (a = addr) | _ => false end.

Definition to_addr (addr : SocketAddr) (l : list SocketAddr) : Z :=
  Z.of_nat (length (List.filter (fun a => bool_decide (a = addr)) l)).
Lemma to_addr_cons addr a l : to_addr addr (a :: l) = (if bool_decide (a = addr) then 1 else 0) + to_addr addr l.
Proof. unfold to_addr. cbn [List.filter]. case_bool_decide; cbn [length]; lia. Qed.
Lemma to_addr_bound addr l : 0 <= to_addr addr l <= Z.of_nat (length l).
Proof. unfold to_addr. induction l as [|a l IH]; cbn [List.filter length]; [lia|]. case_bool_decide; cbn [length]; lia. Qed.

Fixpoint count (f : user -> bool) (us : list user) : Z :=
  match us with [] => 0 | u :: us => (if f u then 1 else 0) + count f us end.

Lemma count_bound f us : 0 <= count f us <= Z.of_nat (length us).
Proof. induction us as [|u us IH]; cbn [count length]; [lia|]. destruct (f u); lia. Qed.

Lemma count_swap f us i u u' : us !! i = Some u ->
  count f (<[i := u']> us) = count f us - (if f u then 1 else 0) + (if f u' then 1 else 0).
Proof.
  revert i. induction us as [|v us IH]; intros [|i]; cbn; try done.
  - intros [= ->]. lia.
  - intros Hi. rewrite IH by done. lia.
Qed.

Lemma users_pos f us i u : us !! i = Some u -> f u = true -> 1 <= count f us.
Proof.
  revert i. induction us as [|v us IH]; intros [|i]; cbn; try done.
  - intros [= ->] ->. pose proof (count_bound f us). lia.
  - intros Hi Hf. specialize (IH i Hi Hf). destruct (f v); lia.
Qed.

(** A counter between what is in use, the connections lost with it counted, and
    that less what was discounted without having been counted. *)
Definition between (c used lost pending foreign : Z) : Prop :=
  used + lost + pending <= c + foreign /\ c <= used + lost /\ 0 <= c.

Record use_ok (n k : nat) (s : state) : Prop := mkUseOk {
  uo_length : length (users s) = n;
  uo_lost : (length (lost s) <= k)%nat;
  uo_use : between (connections_in_use s) (count in_use (users s)) (Z.of_nat (length (lost s)))
             (count owes (users s)) (Z.of_nat (length (foreign s)));
  uo_dest : forall addr, between (default 0 (dest_use s !! addr)) (count (in_dest addr) (users s))
    (to_addr addr (lost s)) (count (owes_dest addr) (users s)) (to_addr addr (foreign s));
  uo_cas : Forall (fun u => match u with CasUse _ _ c => 1 <= c | _ => True end) (users s);
}.

(** ** Each step keeps them *)

Definition flag (b : bool) : Z := if b then 1 else 0.

(** A step of one user that loses nothing and takes nothing from elsewhere, from
    the changes of the two counters. *)
Lemma use_move n k s s' i u u' :
  use_ok n k s -> users s !! i = Some u -> users s' = <[i := u']> (users s) ->
  lost s' = lost s -> foreign s' = foreign s ->
  (match u' with CasUse _ _ c => 1 <= c | _ => True end) ->
  (forall l f, let I := count in_use (users s) in let P := count owes (users s) in
     0 <= l -> between (connections_in_use s) I l P f ->
     between (connections_in_use s') (I - flag (in_use u) + flag (in_use u')) l (P - flag (owes u) + flag (owes u')) f) ->
  (forall a l f, let I := count (in_dest a) (users s) in let P := count (owes_dest a) (users s) in
     0 <= l -> between (default 0 (dest_use s !! a)) I l P f ->
     between (default 0 (dest_use s' !! a)) (I - flag (in_dest a u) + flag (in_dest a u')) l
       (P - flag (owes_dest a u) + flag (owes_dest a u')) f) ->
  use_ok n k s'.
Proof.
  intros [Hl Hk Hu Hd Hc] Hi Hus Hlo Hfo Hcas Hu' Hd'. constructor.
  - by rewrite Hus, length_insert.
  - by rewrite Hlo.
  - rewrite Hus, Hlo, Hfo, !(count_swap _ _ i u) by done. apply Hu'; [lia|done].
  - intros addr. rewrite Hus, Hlo, Hfo, !(count_swap _ _ i u) by done. apply Hd'; [apply to_addr_bound|done].
  - rewrite Hus. by apply Forall_insert.
Qed.

Lemma lookup_insert_default (m : gmap SocketAddr Z) a b n :
  default 0 (<[a := n]> m !! b) = if bool_decide (a = b) then n else default 0 (m !! b).
Proof. case_bool_decide as H; [subst b; by rewrite lookup_insert_eq|by rewrite lookup_insert_ne]. Qed.

(** A counter that one more user raises does not wrap. *)
Lemma room n k f s i u x l :
  Z.of_nat n + Z.of_nat k <= u64_max -> use_ok n k s -> users s !! i = Some u -> f u = false ->
  0 <= x <= count f (users s) + l -> l <= Z.of_nat (length (lost s)) -> is_u64 (x + 1).
Proof.
  intros Hn Hs Hi Hf Hx Hlo.
  assert (Hlt : count f (users s) + 1 <= Z.of_nat n).
  { rewrite <- (uo_length n k s Hs). clear Hs Hx Hlo. revert i Hi.
    induction (users s) as [|v us IH]; intros [|i]; cbn [lookup list_lookup count length]; try done.
    - intros [= ->]. rewrite Hf. pose proof (count_bound f us). lia.
    - intros Hi. specialize (IH i Hi). destruct (f v); lia. }
  pose proof (uo_lost n k s Hs). unfold is_u64. lia.
Qed.

(** The two counters did not change and neither did what they should count. *)
Ltac same := intros; subst; unfold between in *; cbn in *; lia.

Lemma use_inc n k s i a :
  Z.of_nat n + Z.of_nat k <= u64_max -> use_ok n k s -> users s !! i = Some (IncUse a) ->
  use_ok n k (set_user i (IncDest a) (set_in_use (wadd64 (connections_in_use s) 1) s)).
Proof.
  intros Hn Hs Hi. destruct (uo_use n k s Hs) as (_ & Hc & H0).
  apply (use_move n k s _ i _ (IncDest a) Hs Hi); try done; [|same].
  cbn [connections_in_use set_user set_in_use].
  rewrite wadd64_id by (by apply (room n k in_use s i _ _ (Z.of_nat (length (lost s))) Hn Hs Hi)). same.
Qed.

Lemma use_inc_dest n k s i a :
  Z.of_nat n + Z.of_nat k <= u64_max -> use_ok n k s -> users s !! i = Some (IncDest a) ->
  use_ok n k (set_user i (IncActive a) (set_dest a (wadd64 (default 0 (dest_use s !! a)) 1) s)).
Proof.
  intros Hn Hs Hi. destruct (uo_dest n k s Hs a) as (_ & Hc & H0).
  apply (use_move n k s _ i _ (IncActive a) Hs Hi); try done; [same|].
  intros b l f. cbn [dest_use set_user set_dest]. rewrite lookup_insert_default. cbn [in_dest owes_dest].
  case_bool_decide as Hab; [subst b|same].
  rewrite wadd64_id by (apply (room n k (in_dest a) s i _ _ (to_addr a (lost s)) Hn Hs Hi); [done|done|apply to_addr_bound]).
  same.
Qed.

Lemma use_dec_dest n k s i own a :
  use_ok n k s -> users s !! i = Some (DecDest own a) ->
  use_ok n k (set_user i (DecActive a) (set_dest a (sat_sub64 (default 0 (dest_use s !! a)) 1) s)).
Proof.
  intros Hs Hi. apply (use_move n k s _ i _ (DecActive a) Hs Hi); try done; [destruct own; same|].
  intros b l f. cbn [dest_use set_user set_dest]. rewrite lookup_insert_default.
  destruct own; cbn [in_dest owes_dest]; (case_bool_decide as Hab; [subst b|same]);
    unfold sat_sub64, between, flag; cbn zeta.
  - assert (Hp : 1 <= count (in_dest a) (users s)) by (apply (users_pos _ _ i _ Hi); cbn; by apply bool_decide_eq_true).
    lia.
  - assert (Hp : 1 <= count (owes_dest a) (users s)) by (apply (users_pos _ _ i _ Hi); cbn; by apply bool_decide_eq_true).
    lia.
Qed.

Lemma use_load n k s i own a :
  use_ok n k s -> users s !! i = Some (DecUse own a) ->
  use_ok n k (set_user i (if connections_in_use s =? 0 then DecDest own a else CasUse own a (connections_in_use s)) s).
Proof.
  intros Hs Hi. pose proof (uo_use n k s Hs) as (H1 & H2 & H3).
  destruct (Z.eqb_spec (connections_in_use s) 0) as [H0|H0].
  - apply (use_move n k s _ i _ (DecDest own a) Hs Hi); try done; [|destruct own; same].
    intros l f. cbn [connections_in_use set_user]. rewrite H0. destruct own; unfold between, flag; cbn.
    + pose proof (users_pos in_use _ i _ Hi eq_refl). lia.
    + pose proof (users_pos owes _ i _ Hi eq_refl). lia.
  - apply (use_move n k s _ i _ (CasUse own a (connections_in_use s)) Hs Hi); try done; [lia|destruct own; same..].
Qed.

Lemma use_exchange n k s i own a c :
  use_ok n k s -> users s !! i = Some (CasUse own a c) -> 1 <= c ->
  use_ok n k (if connections_in_use s =? c then set_user i (DecDest own a) (set_in_use (c - 1) s)
              else set_user i (DecUse own a) s).
Proof.
  intros Hs Hi Hc. destruct (Z.eqb_spec (connections_in_use s) c) as [H0|H0].
  - apply (use_move n k s _ i _ (DecDest own a) Hs Hi); try done; [|destruct own; same].
    intros l f. cbn [connections_in_use set_user set_in_use]. rewrite H0. destruct own; unfold between, flag; cbn; lia.
  - apply (use_move n k s _ i _ (DecUse own a) Hs Hi); try done; destruct own; same.
Qed.

Lemma use_active n k s i u u' m :
  use_ok n k s -> users s !! i = Some u ->
  (exists a, u = IncActive a /\ u' = Using a) \/
  (exists a, (u = DecActive a \/ u = Forget a) /\ (u' = Away \/ u' = Forget a)) ->
  use_ok n k (set_user i u' (set_active m s)).
Proof.
  intros Hs Hi [(a & -> & ->)|(a & [-> | ->] & [-> | ->])];
    (eapply (use_move n k s); [done|exact Hi|done..|same|same]).
Qed.

Lemma use_next n k s i u s' :
  Z.of_nat n + Z.of_nat k <= u64_max -> use_ok n k s -> users s !! i = Some u -> next i u s = Some s' -> use_ok n k s'.
Proof.
  intros Hn Hs Hi Hx. pose proof (Forall_lookup_1 _ _ _ _ (uo_cas n k s Hs) Hi) as Hc.
  destruct u as [|a|a|a|a|own a|own a c|own a|a|a]; try discriminate Hx; cbn [next] in Hx.
  - injection Hx as <-. by apply use_inc.
  - injection Hx as <-. by apply use_inc_dest.
  - injection Hx as <-. eapply use_active; [done|exact Hi|]. left. by exists a.
  - injection Hx as <-. by apply use_load.
  - injection Hx as <-. by apply use_exchange.
  - injection Hx as <-. by eapply use_dec_dest.
  - destruct (active_counts s !! a) as [prev|]; injection Hx as <-.
    + eapply use_active; [done|exact Hi|]. right. exists a. destruct (prev =? 1); auto.
    + change (set_user i Away s) with (set_user i Away (set_active (active_counts s) s)).
      eapply use_active; [done|exact Hi|]. right. exists a. auto.
  - injection Hx as <-. eapply use_active; [done|exact Hi|]. right. exists a. auto.
Qed.

Lemma use_drop n k s i a :
  use_ok n k s -> users s !! i = Some (Using a) -> use_ok n (S k) (add_lost a (set_user i Away s)).
Proof.
  intros [Hl Hk Hu Hd Hc] Hi. constructor; cbn [users lost foreign connections_in_use dest_use add_lost set_user].
  - by rewrite length_insert.
  - cbn. lia.
  - rewrite !(count_swap _ _ i (Using a)) by done. cbn [length in_use owes]. same.
  - intros b. rewrite !(count_swap _ _ i (Using a)), to_addr_cons by done. specialize (Hd b).
    cbn [in_dest owes_dest]. case_bool_decide; same.
  - by apply Forall_insert.
Qed.

Lemma use_foreign n k s i a :
  use_ok n k s -> users s !! i = Some Away -> use_ok n k (add_foreign a (set_user i (DecUse false a) s)).
Proof.
  intros [Hl Hk Hu Hd Hc] Hi. constructor; cbn [users lost foreign connections_in_use dest_use add_foreign set_user].
  - by rewrite length_insert.
  - done.
  - rewrite !(count_swap _ _ i Away) by done. cbn [length in_use owes]. same.
  - intros b. rewrite !(count_swap _ _ i Away), to_addr_cons by done. specialize (Hd b).
    cbn [in_dest owes_dest]. case_bool_decide; same.
  - by apply Forall_insert.
Qed.

Lemma use_ok_mono n k k' s : (k <= k')%nat -> use_ok n k s -> use_ok n k' s.
Proof. intros Hk [Hl Hk' Hu Hd Hc]. constructor; try done. lia. Qed.

Lemma use_exec n k i a s s' :
  Z.of_nat n + Z.of_nat k <= u64_max -> use_ok n k s -> exec i a s = Some s' -> use_ok n (S k) s'.
Proof.
  intros Hn Hs He. unfold exec in He. destruct (users s !! i) as [u|] eqn:Hi; cbn in He; [|done].
  destruct a; [..|apply (use_ok_mono n k); [lia|by apply (use_next n k s i u)]]; destruct u; try discriminate He;
    injection He as <-; [| |by apply use_drop|]; (apply (use_ok_mono n k); [lia|]);
    [..|by apply use_foreign];
    (eapply (use_move n k s); [done|exact Hi|done..|same|same]).
Qed.

Lemma use_initial n : use_ok n 0 (initial n).
Proof.
  assert (Hc : forall f, f Away = false -> count f (replicate n Away) = 0).
  { intros f Hf. induction n as [|k IH]; [done|]. cbn. by rewrite Hf, IH. }
  constructor; cbn; [apply length_replicate|done|by rewrite !Hc| |by apply Forall_replicate].
  intros addr. by rewrite lookup_empty, !Hc.
Qed.

Lemma use_run n tr s :
  Z.of_nat n + Z.of_nat (length tr) <= u64_max -> run tr (initial n) = Some s -> use_ok n (length tr) s.
Proof.
  revert s. induction tr as [|e tr IH] using rev_ind; intros s Hn; [intros [= <-]; exact (use_initial n)|].
  unfold run in *. rewrite foldl_app. cbn. destruct (foldl _ _ tr) as [s1|]; cbn; [|done].
  rewrite length_app in *. cbn [length] in *. rewrite Nat.add_1_r. intros He.
  apply (use_exec n _ e.1 e.2 s1); [lia| |done]. apply IH; [lia|done].
Qed.

(** ** The theorems *)

Definition holds (u : user) : bool := match u with Using _ => true | _ => false end.
Definition holds_to (addr : SocketAddr) (u : user) : bool := match u with Using a => bool_decide (a = addr) | _ => false end.
Definition settled (u : user) : Prop := match u with Away | Using _ => True | _ => False end.

Lemma count_settled f g us : Forall settled us -> (forall u, settled u -> f u = g u) -> count f us = count g us.
Proof. intros Hus Hfg. induction Hus as [|u us Hu Hus IH]; [done|]. cbn. by rewrite (Hfg u Hu), IH. Qed.

(** C35: how far two of the three counts of the connections in use can be off,
    however the users of the pool interleave, those that drop a connection without
    returning it and the BINDs that return one that was not counted among them
    (fewer than 2^64 users and steps).  The atomic counter never wraps; it counts
    the connections in use and besides, for good, at most those that were dropped;
    it lacks at most one for each connection that a BIND gave to the pool and
    that is discounted already.  The count of each destination likewise.  Without
    BINDs both are exactly what is in use and what was dropped, and the loop of
    [decrement_in_use] never finds the counter at zero. *)
Theorem pool_use_bounded n tr s :
  Z.of_nat n + Z.of_nat (length tr) <= u64_max -> run tr (initial n) = Some s ->
  between (connections_in_use s) (count in_use (users s)) (Z.of_nat (length (lost s)))
    (count owes (users s)) (Z.of_nat (length (foreign s))) /\
  (forall addr, between (default 0 (dest_use s !! addr)) (count (in_dest addr) (users s))
     (to_addr addr (lost s)) (count (owes_dest addr) (users s)) (to_addr addr (foreign s))) /\
  (foreign s = [] ->
     (forall i own addr, users s !! i = Some (DecUse own addr) -> connections_in_use s <> 0) /\
     (Forall settled (users s) ->
        connections_in_use s = count holds (users s) + Z.of_nat (length (lost s)) /\
        forall addr, default 0 (dest_use s !! addr) = count (holds_to addr) (users s) + to_addr addr (lost s))).
Proof.
  intros Hn Hrun. pose proof (use_run n tr s Hn Hrun) as Hs. destruct (uo_use _ _ _ Hs) as (H1 & H2 & H3).
  split; [by split_and!|]. split; [apply (uo_dest _ _ _ Hs)|]. intros Hf. rewrite Hf in H1. cbn in H1.
  pose proof (count_bound owes (users s)) as Hp. split.
  - intros i own addr Hi. destruct own.
    + pose proof (users_pos in_use _ i _ Hi eq_refl). lia.
    + pose proof (users_pos owes _ i _ Hi eq_refl). lia.
  - intros Hset. rewrite <- (count_settled in_use holds _ Hset) by (by intros []). split; [lia|].
    intros addr. rewrite <- (count_settled (in_dest addr) (holds_to addr) _ Hset) by (by intros []).
    destruct (uo_dest _ _ _ Hs addr) as (D1 & D2 & _). rewrite Hf in D1. change (to_addr addr []) with 0 in D1.
    pose proof (count_bound (owes_dest addr) (users s)). lia.
Qed.

Definition use_addr : SocketAddr := mkSocketAddr (V4 [x0a; x00; x00; x01]) 443.
Definition by_user (i : nat) (acts : list action) : list (nat * action) := pair i <$> acts.

(** User 0 has a connection and gives it back; user 1 gets one while user 0 is
    between the last decrement of the map's counter and the removal of its entry. *)
Definition use_erased : list (nat * action) :=
  by_user 0 (UGet use_addr :: replicate 3 UNext) ++ by_user 1 (UGet use_addr :: replicate 2 UNext) ++
  by_user 0 (UGive :: replicate 4 UNext) ++ by_user 1 [UNext] ++ by_user 0 [UNext].

(** A third user gets one and gives it back, and with it user 1. *)
Definition use_wrapped : list (nat * action) :=
  use_erased ++ by_user 2 (UGet use_addr :: replicate 3 UNext ++ UGive :: replicate 4 UNext) ++
  by_user 1 (UGive :: replicate 4 UNext).

(** Both users have a connection; the second drops its own, and a BIND of a third
    gives one of its peer to the pool. *)
Definition use_bind : list (nat * action) :=
  by_user 0 (UGet use_addr :: replicate 3 UNext) ++ by_user 1 (UGet use_addr :: replicate 3 UNext ++ [UDrop]) ++
  by_user 2 (UForeign use_addr :: replicate 4 UNext) ++ by_user 1 (UForeign use_addr :: replicate 2 UNext).

Lemma pool_use_bounded_witness :
  exists s s', run use_erased (initial 2) = Some s /\ users s = [Away; Using use_addr] /\
    connections_in_use s = count holds (users s) + Z.of_nat (length (lost s)) /\
    run use_bind (initial 3) = Some s' /\ (connections_in_use s', users s') = (0, [Using use_addr; DecDest false use_addr; Away]) /\
    between 0 1 1 0 2.
Proof.
  assert (Hu : (fun s => (users s, foreign s)) <$> run use_erased (initial 2) = Some ([Away; Using use_addr], []))
    by (vm_compute; reflexivity).
  destruct (run use_erased (initial 2)) as [s|] eqn:E; [|discriminate Hu]. injection Hu as Hu Hf.
  assert (Hb : (fun s => (connections_in_use s, users s, lost s, foreign s)) <$> run use_bind (initial 3) =
    Some (0, [Using use_addr; DecDest false use_addr; Away], [use_addr], [use_addr; use_addr])) by (vm_compute; reflexivity).
  destruct (run use_bind (initial 3)) as [s'|] eqn:E'; [|discriminate Hb]. injection Hb as Hb1 Hb2 Hb3 Hb4.
  destruct (pool_use_bounded 2 use_erased s) as (_ & _ & Hex); [vm_compute; discriminate|exact E|].
  destruct (pool_use_bounded 3 use_bind s') as (Hbw & _); [vm_compute; discriminate|exact E'|].
  exists s, s'. split; [reflexivity|]. split; [exact Hu|]. split.
  { apply (Hex Hf). rewrite Hu. repeat constructor. }
  split; [reflexivity|]. split; [by rewrite Hb1, Hb2|]. rewrite Hb1, Hb2, Hb3, Hb4 in Hbw. exact Hbw.
Defined.

(** The count that the statistics show is not exact: [decrement_active] drops
    its reference to the entry before it removes the entry, and a user that gets
    a connection in between is not counted.  In the first run everybody is at
    rest, one connection is in use, and the statistics report none.  In the
    second, which goes on from there, they report 2^64 - 1 for a moment. *)
Theorem pool_use_undercount :
  (fun s => (users s, connections_in_use s, reported s)) <$> run use_erased (initial 2) =
    Some ([Away; Using use_addr], 1, 0) /\
  (fun s => (users s, connections_in_use s, reported s)) <$> run use_wrapped (initial 3) =
    Some ([Away; Away; Forget use_addr], 0, u64_max).
Proof. split; vm_compute; reflexivity. Qed.
