(* ===== verification/Telemetry.v ===== *)
(** * Telemetry

    src/src/telemetry.rs and src/src/api/handlers/telemetry.rs: the bounded log of
    operational events and the endpoint that shows it.  Instants are nanoseconds;
    the arithmetic of chrono is the class [TimeDelta] of [Rust], where [None] is a panic. *)
From S2P Require Import Prelude Rust.

Inductive TelemetrySeverity : Type := Info | Warning | Error.
#[export] Instance TelemetrySeverity_eq_dec : EqDecision TelemetrySeverity.
Proof. solve_decision. Defined.

Section telemetry.
(** [V] stands for the JSON value of the details. *)
Context {V : Type} {layout : Layout} {delta : TimeDelta} (to_lowercase : string -> string).

Record TelemetryEvent : Type := mkTelemetryEvent {
  timestamp : Z; severity : TelemetrySeverity; category : string; te_message : string;
  details : option V }.
Record TelemetryHistory : Type := mkTelemetryHistory {
  events : list TelemetryEvent; max_events : Z; max_age : Z }.

(** The retention is a [u64], cast to [i64]. *)
Definition as_i64 (n : Z) : Z := if n <? 2 ^ 63 then n else n - 2 ^ 64.
Definition TelemetryHistory_new (max_events retention_hours : Z) : option TelemetryHistory :=
  _ ← with_capacity size_of_event (Z.max max_events 1);
  max_age ← delta_hours (as_i64 retention_hours);
  Some (mkTelemetryHistory [] (Z.max max_events 1) max_age).

(** [while let Some(front)]: the expired events at the front. *)
Fixpoint drop_expired (cutoff : Z) (l : list TelemetryEvent) : list TelemetryEvent :=
  match l with
  | [] => []
  | front :: rest => if timestamp front <? cutoff then drop_expired cutoff rest else l
  end.
(** [while events.len() > max]: the oldest. *)
Fixpoint trim_to (max : Z) (l : list TelemetryEvent) : list TelemetryEvent :=
  match l with
  | [] => []
  | _ :: rest => if max <? Z.of_nat (length l) then trim_to max rest else l
  end.

Definition add_event (now : Z) (event : TelemetryEvent) (h : TelemetryHistory) : option TelemetryHistory :=
  cutoff ← sub_delta now (max_age h);
  Some (mkTelemetryHistory (trim_to (max_events h) (drop_expired cutoff (events h) ++ [event]))
          (max_events h) (max_age h)).

(** [stamp] is the instant of the event, [now] the one at which it is added. *)
Definition record_event (stamp now : Z) (sev : TelemetrySeverity) (cat msg : string) (det : option V)
    (h : TelemetryHistory) : option TelemetryHistory :=
  add_event now (mkTelemetryEvent stamp sev cat msg det) h.

Definition get_events (h : TelemetryHistory) : list TelemetryEvent := events h.
Definition get_events_since (now minutes : Z) (h : TelemetryHistory) : option (list TelemetryEvent) :=
  d ← delta_minutes minutes;
  cutoff ← sub_delta now d;
  Some (List.filter (fun event => cutoff <=? timestamp event) (events h)).

(** ** The endpoint *)

Record TelemetryQueryParams : Type := mkTelemetryQueryParams {
  q_minutes : option Z; q_limit : option Z; q_severity : option TelemetrySeverity;
  q_category : option string }.

Definition retain {A} (o : option A) (f : A -> TelemetryEvent -> bool) (l : list TelemetryEvent)
    : list TelemetryEvent :=
  match o with Some a => List.filter (f a) l | None => l end.

(** Latest first; [sort_by] is stable. *)
Definition latest_leb (a b : TelemetryEvent) : bool := timestamp b <=? timestamp a.

Definition get_telemetry_events (now : Z) (history : option TelemetryHistory) (params : TelemetryQueryParams)
    : option (Z * list TelemetryEvent) :=
  evs ← match history with
        | Some h => match q_minutes params with
                    | Some minutes => get_events_since now minutes h
                    | None => Some (get_events h)
                    end
        | None => Some []
        end;
  let evs := retain (q_severity params) (fun sev e => bool_decide (severity e = sev)) evs in
  let evs := retain (q_category params)
    (fun cat e => eq_ignore_ascii_case (category e) (to_lowercase cat)) evs in
  let evs := sort_by latest_leb evs in
  let limit := Z.min (Z.max (default 100 (q_limit params)) 1) 500 in
  Some (200, take (Z.to_nat limit) evs).
End telemetry.
