(* ===== verification/TelemetrySpec.v ===== *)
(** * Properties of the telemetry *)
From S2P Require Import Prelude Rust Telemetry.

Section telemetry.
Context {V : Type} {layout : Layout} {delta : TimeDelta}.
Implicit Types (l : list (TelemetryEvent (V := V))).

(** The last [n] of a list. *)
Definition last_n (n : nat) {A} (l : list A) : list A := drop (length l - n) l.
(** The events recorded in the last [age] nanoseconds. *)
Definition since (cutoff : Z) l : list TelemetryEvent := List.filter (fun e => cutoff <=? timestamp e) l.
Definition ordered l : Prop := StronglySorted (fun a b => timestamp a <= timestamp b) l.

Lemma last_n_short n {A} (l : list A) : (length l <= n)%nat -> last_n n l = l.
Proof. intros H. unfold last_n. by replace (length l - n)%nat with 0%nat by lia. Qed.

Lemma last_n_length n {A} (l : list A) : (length (last_n n l) <= n)%nat.
Proof. unfold last_n. rewrite length_drop. lia. Qed.

Lemma trim_last_n max l : 0 <= max -> trim_to max l = last_n (Z.to_nat max) l.
Proof.
  intros Hm. induction l as [|a l IH]; [done|]. cbn [trim_to].
  destruct (Z.ltb_spec max (Z.of_nat (length (a :: l)))) as [H|H]; cbn in H.
  - rewrite IH. unfold last_n. cbn [length].
    by replace (S (length l) - Z.to_nat max)%nat with (S (length l - Z.to_nat max)) by lia.
  - rewrite last_n_short; [done|]. cbn. lia.
Qed.

Lemma since_all c l : Forall (fun e => c <= timestamp e) l -> since c l = l.
Proof.
  induction 1 as [|e l He Hl IH]; [done|]. unfold since in *. cbn. by rewrite (proj2 (Z.leb_le _ _) He), IH.
Qed.

Lemma drop_expired_since c l : ordered l -> drop_expired c l = since c l.
Proof.
  induction 1 as [|e l Hl IH He]; [done|]. cbn [drop_expired].
  destruct (Z.ltb_spec (timestamp e) c) as [H|H].
  - rewrite IH. unfold since. cbn. by rewrite (proj2 (Z.leb_gt _ _)).
  - symmetry. apply since_all. constructor; [done|]. eapply Forall_impl; [exact He|]. cbn. lia.
Qed.

Lemma since_app c l1 l2 : since c (l1 ++ l2) = since c l1 ++ since c l2.
Proof. apply List.filter_app. Qed.

Lemma since_since c1 c2 l : c1 <= c2 -> since c2 (since c1 l) = since c2 l.
Proof.
  intros H. unfold since. induction l as [|e l IH]; [done|]. cbn.
  destruct (Z.leb_spec c1 (timestamp e)); cbn; rewrite IH; [done|].
  by destruct (Z.leb_spec c2 (timestamp e)); [lia|].
Qed.

Lemma ordered_drop k l : ordered l -> ordered (drop k l).
Proof.
  intros H. revert k. induction H as [|e l Hl IH He]; intros k; [rewrite drop_nil; constructor|].
  destruct k as [|k]; [by constructor|apply IH].
Qed.

(** On an ordered list the recent events are the last ones. *)
Lemma since_suffix c l : ordered l -> exists k, since c l = drop k l.
Proof.
  induction 1 as [|e l Hl [k IH] He]; [by exists 0%nat|].
  destruct (Z.leb_spec c (timestamp e)) as [H|H].
  - exists 0%nat. apply since_all. constructor; [done|]. eapply Forall_impl; [exact He|]. cbn. lia.
  - exists (S k). unfold since in *. cbn. by rewrite (proj2 (Z.leb_gt _ _)).
Qed.


(** Keeping the last ones of the recent ones, or the other way round. *)
Lemma since_last_n n c l : ordered l -> since c (last_n n l) = last_n n (since c l).
Proof.
  intros H. unfold last_n. induction H as [|e l Hl IH He]; [done|].
  destruct (Z.leb_spec c (timestamp e)) as [Hc|Hc].
  - assert (Hall : Forall (fun e => c <= timestamp e) (e :: l)).
    { constructor; [done|]. eapply Forall_impl; [exact He|]. cbn. lia. }
    rewrite (since_all c (e :: l)) by done. apply since_all. by apply Forall_drop.
  - assert (E : since c (e :: l) = since c l) by (unfold since; cbn; by rewrite (proj2 (Z.leb_gt _ _))).
    rewrite E. destruct (decide (length l < n)%nat).
    + replace (length (e :: l) - n)%nat with 0%nat by (cbn; lia). cbn [drop]. rewrite E.
      replace (length (since c l) - n)%nat with 0%nat; [done|].
      assert (length (since c l) <= length l)%nat by apply List.filter_length_le. lia.
    + replace (length (e :: l) - n)%nat with (S (length l - n)) by (cbn; lia). cbn [drop]. exact IH.
Qed.

Lemma last_n_app n {A} (l : list A) a : last_n n (last_n n l ++ [a]) = last_n n (l ++ [a]).
Proof.
  unfold last_n. rewrite !length_app, length_drop. cbn.
  destruct (decide (length l <= n)%nat).
  - replace (length l - n)%nat with 0%nat by lia. rewrite drop_0. f_equal. lia.
  - replace (length l - (length l - n) + 1 - n)%nat with 1%nat by lia.
    replace (length l + 1 - n)%nat with ((length l - n) + 1)%nat by lia.
    rewrite <- (drop_drop _ 1 (length l - n)), (drop_app_le l) by lia. done.
Qed.

(** ** Recording *)

Definition add_all (h : TelemetryHistory) (xs : list (Z * TelemetryEvent)) : option (TelemetryHistory (V := V)) :=
  foldl (fun o x => h ← o; add_event x.1 x.2 h) (Some h) xs.

Lemma add_all_snoc h xs x : add_all h (xs ++ [x]) = (h' ← add_all h xs; add_event x.1 x.2 h').
Proof. unfold add_all. by rewrite foldl_app. Qed.

Lemma ordered_app_l l1 l2 : ordered (l1 ++ l2) -> ordered l1.
Proof. apply StronglySorted_app_1_l. Qed.

Lemma ordered_since c l : ordered l -> ordered (since c l).
Proof. intros H. destruct (since_suffix c l H) as [k ->]. by apply ordered_drop. Qed.

Lemma ordered_snoc l e : ordered l -> Forall (fun a => timestamp a <= timestamp e) l -> ordered (l ++ [e]).
Proof.
  intros Hl He. induction Hl as [|a l Hl IH Ha]; [by repeat constructor|].
  apply Forall_cons in He as [He1 He2]. cbn. constructor; [by apply IH|]. apply Forall_app. by split; [|constructor].
Qed.

Lemma ordered_snoc_inv l e : ordered (l ++ [e]) -> Forall (fun a => timestamp a <= timestamp e) l.
Proof.
  induction l as [|a l IH]; [done|]. cbn. inversion 1 as [|? ? Hl Ha]; subst. constructor; [|by apply IH].
  apply Forall_app in Ha as [_ Ha]. by apply Forall_cons in Ha as [? _].
Qed.

(** The log after the additions [xs], the last of them at [now]. *)
Definition retained (n : nat) (age now : Z) l (e : TelemetryEvent) : list TelemetryEvent :=
  last_n n (since (now - age) l ++ [e]).

Lemma add_all_events h0 xs now e h :
  events h0 = [] -> 0 <= max_events h0 ->
  ordered ((xs ++ [(now, e)]).*2) -> StronglySorted Z.le (xs ++ [(now, e)]).*1 ->
  add_all h0 (xs ++ [(now, e)]) = Some h ->
  max_events h = max_events h0 /\ max_age h = max_age h0 /\
  events h = retained (Z.to_nat (max_events h0)) (max_age h0) now xs.*2 e /\
  ordered (events h).
Proof.
  intros Hnil Hm. revert now e h. induction xs as [|[now1 e1] xs IH] using rev_ind; intros now e h Ho Hn Hh.
  - rewrite add_all_snoc in Hh. cbn in Hh. unfold add_event in Hh.
    destruct (sub_delta now (max_age h0)) as [c|]; cbn in Hh; [|done]. injection Hh as <-. cbn.
    rewrite Hnil, trim_last_n by done. cbn. split_and!; try done.
    destruct (Z.to_nat (max_events h0)) as [|n]; [constructor|repeat constructor].
  - rewrite add_all_snoc in Hh. destruct (add_all h0 (xs ++ [(now1, e1)])) as [h1|] eqn:E; cbn in Hh; [|done].
    rewrite (fmap_app snd) in Ho. rewrite (fmap_app fst) in Hn. cbn [fmap list_fmap fst snd] in Ho, Hn.
    destruct (IH now1 e1 h1) as (M & A & Ev & O); [..|done|].
    { by eapply ordered_app_l. }
    { by eapply StronglySorted_app_1_l. }
    unfold add_event in Hh. rewrite M, A in Hh. destruct (sub_delta now (max_age h0)) as [c|] eqn:Ec; cbn in Hh; [|done].
    injection Hh as <-. cbn. apply sub_delta_Some in Ec as ->.
    assert (Hle : now1 <= now).
    { apply StronglySorted_app_1_elem_of with (x1 := now1) (x2 := now) in Hn; [done| |by left].
      rewrite (fmap_app fst). apply elem_of_app. right. by left. }
    assert (Ho1 : ordered (xs.*2 ++ [e1])) by (rewrite (fmap_app snd) in Ho; by eapply ordered_app_l).
    split; [done|]. split; [done|].
    assert (Hs : since (now - max_age h0) (events h1) =
      last_n (Z.to_nat (max_events h0)) (since (now - max_age h0) (xs.*2 ++ [e1]))).
    { rewrite Ev. unfold retained. rewrite since_last_n.
      - by rewrite !since_app, since_since by lia.
      - apply ordered_snoc; [by apply ordered_since, (ordered_app_l _ [e1])|].
        apply ordered_snoc_inv in Ho1. unfold since. rewrite Forall_forall in *. intros a [Ha _]%elem_of_bfilter. by apply Ho1. }
    rewrite trim_last_n, drop_expired_since, Hs, last_n_app by done. rewrite (fmap_app snd). cbn [fmap list_fmap snd].
    split; [done|]. unfold retained, last_n. rewrite (fmap_app snd) in Ho. cbn [fmap list_fmap snd] in Ho.
    apply ordered_drop, ordered_snoc; [by apply ordered_since|]. apply ordered_snoc_inv in Ho. unfold since. rewrite Forall_forall in *. intros a [Ha _]%elem_of_bfilter. by apply Ho.
Qed.

(** What the endpoint was asked for. *)
Definition asked (to_lowercase : string -> string) (now : Z) (p : TelemetryQueryParams)
    (e : TelemetryEvent (V := V)) : bool :=
  match q_minutes p with Some m => now - m * 60 * 10 ^ 9 <=? timestamp e | None => true end &&
  (match q_severity p with Some sev => bool_decide (severity e = sev) | None => true end &&
   match q_category p with
   | Some cat => eq_ignore_ascii_case (category e) (to_lowercase cat)
   | None => true
   end).

Lemma filter_and {A} (f g : A -> bool) (k : list A) :
  List.filter g (List.filter f k) = List.filter (fun a => f a && g a) k.
Proof. induction k as [|a k IH]; [done|]. cbn. destruct (f a); cbn; by rewrite IH. Qed.

Lemma retain_filter {A} (o : option A) f l :
  retain o f l = List.filter (fun e => match o with Some a => f a e | None => true end) l.
Proof. destruct o; [done|]. by rewrite filter_true by done. Qed.

Lemma queried_events now h p evs :
  match q_minutes p with Some m => get_events_since now m h | None => Some (get_events h) end = Some evs ->
  evs = List.filter (fun e : TelemetryEvent (V := V) => match q_minutes p with
    | Some m => now - m * 60 * 10 ^ 9 <=? timestamp e | None => true end) (events h).
Proof.
  destruct (q_minutes p) as [m|]; [|intros [= <-]; by rewrite filter_true by done].
  unfold get_events_since. destruct (delta_minutes m) as [d|] eqn:Ed; [|done]. cbn.
  destruct (sub_delta now d) as [c|] eqn:Ec; [|done]. cbn.
  apply delta_minutes_Some in Ed as ->. apply sub_delta_Some in Ec as ->. by intros [= <-].
Qed.

Lemma asked_events to_lower now h p n shown :
  get_telemetry_events to_lower now (Some h) p = Some (n, shown) ->
  n = 200 /\ shown = take (Z.to_nat (Z.min (Z.max (default 100 (q_limit p)) 1) 500))
    (sort_by latest_leb (List.filter (asked to_lower now p) (events h))).
Proof.
  unfold get_telemetry_events. intros Hg.
  destruct (match q_minutes p with Some m => get_events_since now m h | None => Some (get_events h) end)
    as [evs|] eqn:E; cbn in Hg; [|done].
  injection Hg as <- <-. apply queried_events in E as ->.
  by rewrite !retain_filter, !filter_and.
Qed.

Lemma sorted_latest l : sorted (latest_leb (V := V)) (sort_by latest_leb l).
Proof. apply sort_by_sorted; unfold latest_leb; intros; rewrite ?Z.leb_le in *; lia. Qed.

Lemma sorted_split k l a b : sorted (latest_leb (V := V)) l -> a ∈ take k l -> b ∈ drop k l -> timestamp b <= timestamp a.
Proof.
  intros Hs Ha Hb. rewrite <- (take_drop k l) in Hs.
  eapply StronglySorted_app_1_elem_of in Hs; [|exact Ha|exact Hb]. unfold latest_leb in Hs. lia.
Qed.

(** What the log keeps and what the endpoint shows of it.  Take a log made
    with a bound on the number of events and a retention in hours, and record
    any events in the order of their instants.  Nothing is lost before it is
    due: the log holds exactly the last ones, at most the bound (at least one),
    among the events inside the retention at the last recording (the cast of
    the hours to a signed number included) and the last event.  The endpoint
    then answers 200 with events of the asked period, severity and category,
    the latest first, between 1 and 500 of them (100 by default), as many as there
    are, and none that is omitted is newer than one that is shown. *)
Theorem telemetry_correct to_lowercase max hours h0 xs now e h now' p n shown :
  TelemetryHistory_new max hours = Some h0 ->
  ordered ((xs ++ [(now, e)]).*2) -> StronglySorted Z.le (xs ++ [(now, e)]).*1 ->
  add_all h0 (xs ++ [(now, e)]) = Some h ->
  get_telemetry_events to_lowercase now' (Some h) p = Some (n, shown) ->
  let limit := Z.to_nat (Z.min (Z.max (default 100 (q_limit p)) 1) 500) in
  let chosen := List.filter (asked to_lowercase now' p) (events h) in
  events h = last_n (Z.to_nat (Z.max max 1))
    (since (now - as_i64 hours * 3600 * 10 ^ 9) xs.*2 ++ [e]) /\
  n = 200 /\ sorted latest_leb shown /\ length shown = Nat.min limit (length chosen) /\
  exists omitted, chosen ≡ₚ shown ++ omitted /\
    forall a b, a ∈ shown -> b ∈ omitted -> timestamp b <= timestamp a.
Proof.
  intros H0 Ho Hn Hh Hg limit chosen. unfold TelemetryHistory_new in H0.
  apply bind_Some in H0 as (? & _ & (d & ->%delta_hours_Some & [= <-])%bind_Some).
  apply add_all_events in Hh as (_ & _ & Hev & _); [|done|cbn; lia|done..].
  apply asked_events in Hg as [-> ->]. fold limit chosen. split_and!; [done|done|..].
  - pose proof (sorted_latest chosen) as Hs. rewrite <- (take_drop limit) in Hs. by apply StronglySorted_app_1_l in Hs.
  - by rewrite length_take, (Permutation_length (sort_by_perm _ _)).
  - exists (drop limit (sort_by latest_leb chosen)). split.
    + by rewrite take_drop, sort_by_perm.
    + intros a b. apply sorted_split, sorted_latest.
Qed.
End telemetry.

(** ** A concrete run *)

Definition demo_event (t : Z) (sev : TelemetrySeverity) (cat : string) : TelemetryEvent (V := unit) :=
  mkTelemetryEvent t sev cat "m" None.
Definition demo_log : list (Z * TelemetryEvent (V := unit)) :=
  [(0, demo_event 0 Info "acl"); (10 ^ 9, demo_event (10 ^ 9) Warning "pool");
   (2 * 10 ^ 9, demo_event (2 * 10 ^ 9) Warning "ACL")].
Definition demo_query : TelemetryQueryParams :=
  mkTelemetryQueryParams None (Some 0) (Some Warning) None.

Lemma telemetry_correct_witness : exists h shown,
  @add_all unit demo_delta (mkTelemetryHistory [] 2 (3600 * 10 ^ 9))
    (demo_log ++ [(3601 * 10 ^ 9, demo_event (3601 * 10 ^ 9) Warning "acl")]) = Some h /\
  @get_telemetry_events unit demo_delta (fun s => s) (3602 * 10 ^ 9) (Some h) demo_query = Some (200, shown) /\
  (map timestamp (events h) = [2 * 10 ^ 9; 3601 * 10 ^ 9]) /\ map timestamp shown = [3601 * 10 ^ 9] /\
  exists omitted, List.filter (asked (fun s => s) (3602 * 10 ^ 9) demo_query) (events h) ≡ₚ shown ++ omitted /\
    forall a b, a ∈ shown -> b ∈ omitted -> timestamp b <= timestamp a.
Proof.
  eexists _, _. split; [vm_compute; reflexivity|]. split; [vm_compute; reflexivity|].
  split; [reflexivity|]. split; [reflexivity|].
  refine (proj2 (proj2 (proj2 (proj2 (@telemetry_correct unit demo_layout demo_delta (fun s => s) 2 1 (mkTelemetryHistory [] 2 (3600 * 10 ^ 9))
    demo_log (3601 * 10 ^ 9) (demo_event (3601 * 10 ^ 9) Warning "acl") _ _ demo_query 200 _ _ _ _ _ _))))).
  - reflexivity.
  - unfold ordered. cbn. repeat constructor; cbn; lia.
  - cbn. repeat constructor; lia.
  - vm_compute; reflexivity.
  - vm_compute; reflexivity.
Defined.
