(* ===== verification/PoolLog.v ===== *)
(** * The pool and the telemetry

    src/src/server/pool.rs writes an event to the log of src/src/telemetry.rs when
    a new connection cannot be made, when a connection is dropped because its
    destination is full, and when another one is evicted for it.  [None] is a
    panic of the arithmetic of the instants. *)
From S2P Require Import Prelude Rust Net Stream Telemetry Pool.

(** The details of the events. *)
Inductive field : Type := FStr (s : string) | FNum (n : Z).
Definition fields : Type := list (string * field).

Section pool_log.
(** [error_text] is the message of an [io::Error]. *)
Context {delta : TimeDelta} (error_text : ErrorKind -> string).

(** The pool with its log, if it has one. *)
Record LoggedPool : Type := mkLoggedPool {
  pool : ConnectionPool; telemetry : option (TelemetryHistory (V := fields)) }.

Definition new_with_telemetry (config : PoolConfig) (h : option (TelemetryHistory (V := fields))) : LoggedPool :=
  mkLoggedPool (ConnectionPool_new config) h.

(** [at_] has the instant of the event and that of its addition. *)
Definition emit_telemetry_event (at_ : Z * Z) (sev : TelemetrySeverity) (cat msg : string) (det : fields)
    (h : option (TelemetryHistory (V := fields))) : option (option (TelemetryHistory (V := fields))) :=
  match h with
  | Some h => h ← record_event at_.1 at_.2 sev cat msg (Some det) h; Some (Some h)
  | None => Some None
  end.

Definition connect_failed (at_ : Z * Z) (addr : SocketAddr) (e : ErrorKind)
    (h : option (TelemetryHistory (V := fields))) : option (option (TelemetryHistory (V := fields))) :=
  emit_telemetry_event at_ Telemetry.Error "connection_pool"
    ("Failed to connect to " +:+ fmt_socket_addr addr +:+ ": " +:+ error_text e)
    [("destination", FStr (fmt_socket_addr addr)); ("error", FStr (error_text e))] h.

Definition log_capacity_events (at1 at2 : Z * Z) (context : string) (destination : SocketAddr)
    (dropped_for_capacity : bool) (evicted_addr : option SocketAddr) (cfg : PoolConfig)
    (h : option (TelemetryHistory (V := fields))) : option (option (TelemetryHistory (V := fields))) :=
  h ← (if dropped_for_capacity then
         emit_telemetry_event at1 Warning "connection_pool"
           ("Connection to " +:+ fmt_socket_addr destination +:+ " dropped while " +:+ context +:+
            " (per-destination limit: " +:+ fmt_Z (max_idle_per_dest cfg) +:+ ")")
           [("destination", FStr (fmt_socket_addr destination));
            ("max_idle_per_dest", FNum (max_idle_per_dest cfg)); ("context", FStr context)] h
       else Some h);
  match evicted_addr with
  | Some evicted =>
    emit_telemetry_event at2 Warning "connection_pool"
      ("Evicted oldest idle connection to " +:+ fmt_socket_addr evicted +:+ " while " +:+ context +:+
       " (global limit: " +:+ fmt_Z (max_total_idle cfg) +:+ ")")
      [("evicted_destination", FStr (fmt_socket_addr evicted));
       ("max_total_idle", FNum (max_total_idle cfg)); ("context", FStr context)] h
  | None => Some h
  end.

(** What reaches the pool.  The clocks [at1] and [at2] are read when there is
    something to write. *)
Inductive request : Type :=
| LGet (now sys : Z) (connected : result ErrorKind Z) (addr : SocketAddr) (at1 : Z * Z)
| LPut (now sys : Z) (order : list SocketAddr) (addr : SocketAddr) (s : TcpStream) (hint : ReuseHint)
    (at1 at2 : Z * Z)
| LRelease (addr : SocketAddr) (hint : ReuseHint)
| LRefresh (now sys : Z) (order : list SocketAddr) (connected : result ErrorKind Z) (addr : SocketAddr)
    (at1 at2 : Z * Z)
| LCleanup (now sys : Z).

(** [get] makes a connection when the pool has none; only then it may log. *)
Definition log_get (now sys : Z) (connected : result ErrorKind Z) (addr : SocketAddr) (at1 : Z * Z)
    (l : LoggedPool) : option (option (TelemetryHistory (V := fields))) :=
  if negb (enabled (config (pool l))) then Some (telemetry l)
  else
    match (try_get_from_pool now sys addr (pool l)).1, connected with
    | None, Err e => connect_failed at1 addr e (telemetry l)
    | _, _ => Some (telemetry l)
    end.

Definition log_put (now : Z) (order : list SocketAddr) (addr : SocketAddr) (s : TcpStream) (hint : ReuseHint)
    (at1 at2 : Z * Z) (l : LoggedPool) : option (option (TelemetryHistory (V := fields))) :=
  if negb (enabled (config (pool l))) then Some (telemetry l)
  else
    match hint with
    | Reuse =>
      let '(_, dropped_for_capacity, evicted_addr) :=
        (insert_stream now order addr s (decrement_in_use (pool l))).1 in
      log_capacity_events at1 at2 "returning to pool" addr dropped_for_capacity evicted_addr
        (config (pool l)) (telemetry l)
    | Refresh => Some (telemetry l)
    end.

(** The pool in which [refresh_connection] inserts. *)
Definition refreshing (sys : Z) (addr : SocketAddr) (p : ConnectionPool) : ConnectionPool :=
  let p := add_metrics (mkPoolMetrics 0 0 0 0 0 0 0 0 1 0) p in
  let p := add_metrics (mkPoolMetrics 0 0 0 0 0 0 0 0 (- 1) 0) p in
  let p := add_metrics (mkPoolMetrics 1 0 0 0 0 0 0 0 0 0) p in
  update_destination_metrics addr (fun e => dset_activity sys (dbump 1 0 0 0 0 0 0 e)) p.

Definition log_refresh (now sys : Z) (order : list SocketAddr) (connected : result ErrorKind Z)
    (addr : SocketAddr) (at1 at2 : Z * Z) (l : LoggedPool)
    : option (option (TelemetryHistory (V := fields))) :=
  match connected with
  | Err _ => Some (telemetry l)
  | Ok id =>
    let '(_, dropped_for_capacity, evicted_addr) :=
      (insert_stream now order addr (mkTcpStream id addr) (refreshing sys addr (pool l))).1 in
    log_capacity_events at1 at2 "refreshing idle pool" addr dropped_for_capacity evicted_addr
      (config (pool l)) (telemetry l)
  end.

Definition handle (r : request) (l : LoggedPool) : option LoggedPool :=
  match r with
  | LGet now sys connected addr at1 =>
    h ← log_get now sys connected addr at1 l;
    Some (mkLoggedPool (get now sys connected addr (pool l)).2 h)
  | LPut now sys order addr s hint at1 at2 =>
    h ← log_put now order addr s hint at1 at2 l;
    Some (mkLoggedPool (put now sys order addr s hint (pool l)) h)
  | LRelease addr hint => Some (mkLoggedPool (release addr hint (pool l)) (telemetry l))
  | LRefresh now sys order connected addr at1 at2 =>
    h ← log_refresh now sys order connected addr at1 at2 l;
    Some (mkLoggedPool (refresh_connection now sys order connected addr (pool l)) h)
  | LCleanup now sys => Some (mkLoggedPool (cleanup_expired now sys (pool l)) (telemetry l))
  end.
Definition run (rs : list request) (l : LoggedPool) : option LoggedPool :=
  foldl (fun o r => l ← o; handle r l) (Some l) rs.
End pool_log.
