(* ===== verification/PoolLogSpec.v ===== *)
(** * Properties of the log of the pool

    The warnings of the pool are what its counters of lost connections count. *)
From S2P Require Import Prelude Rust Net Stream Telemetry TelemetrySpec Pool PoolLog.

Section pool_log.
Context {layout : Layout} {delta : TimeDelta} (error_text : ErrorKind -> string).
Implicit Types (h : TelemetryHistory (V := fields)) (p : ConnectionPool).

(** The kinds of events of the pool, by a key of their details and their severity. *)
Definition kind : Type := string * TelemetrySeverity.
Definition dropped : kind := ("max_idle_per_dest"%string, Warning).
Definition evicted : kind := ("evicted_destination"%string, Warning).
Definition unreachable : kind := ("error"%string, Telemetry.Error).
Definition of_kind (k : kind) (e : TelemetryEvent (V := fields)) : bool :=
  match details e with Some d => existsb (fun f => bool_decide (f.1 = k.1)) d | None => false end &&
  bool_decide (severity e = k.2) && bool_decide (category e = "connection_pool").
Definition count (k : kind) (evs : list (TelemetryEvent (V := fields))) : Z :=
  Z.of_nat (length (List.filter (of_kind k) evs)).

Lemma kind_app key e1 e2 : count key (e1 ++ e2) = count key e1 + count key e2.
Proof. unfold count. rewrite List.filter_app, length_app. lia. Qed.

(** Every event is of one of the three kinds. *)
Definition three_kinds (evs : list (TelemetryEvent (V := fields))) : Prop :=
  Z.of_nat (length evs) = count dropped evs + count evicted evs + count unreachable evs.
Lemma three_kinds_app e1 e2 : three_kinds e1 -> three_kinds e2 -> three_kinds (e1 ++ e2).
Proof. unfold three_kinds. rewrite !kind_app, length_app. lia. Qed.

(** ** What is added to the history *)

(** [h'] is [h] after these events were added, each at its instant. *)
Definition grew h (xs : list (Z * TelemetryEvent (V := fields))) h' : Prop := add_all h xs = Some h'.

Lemma grew_nil h : grew h [] h.
Proof. done. Qed.
Lemma grew_trans h1 h2 h3 e1 e2 : grew h1 e1 h2 -> grew h2 e2 h3 -> grew h1 (e1 ++ e2) h3.
Proof. unfold grew, add_all. intros H1 H2. by rewrite foldl_app, H1. Qed.

Lemma emit_grew at_ sev cat msg det h oh :
  emit_telemetry_event at_ sev cat msg det (Some h) = Some oh ->
  exists h', oh = Some h' /\ grew h [(at_.2, mkTelemetryEvent at_.1 sev cat msg (Some det))] h'.
Proof.
  unfold emit_telemetry_event, record_event. intros (h' & Ha & [= <-])%bind_Some.
  exists h'. split; [done|]. exact Ha.
Qed.

Definition one (b : bool) : Z := if b then 1 else 0.

Lemma capacity_grew at1 at2 ctx dest drop evict cfg h oh :
  log_capacity_events at1 at2 ctx dest drop evict cfg (Some h) = Some oh ->
  exists h' xs, oh = Some h' /\ grew h xs h' /\ count dropped xs.*2 = one drop /\
    count evicted xs.*2 = one (bool_decide (is_Some evict)) /\ count unreachable xs.*2 = 0 /\
    three_kinds xs.*2.
Proof.
  unfold log_capacity_events. intros Hl.
  assert (Hd : exists h1 e1, grew h e1 h1 /\ count dropped e1.*2 = one drop /\
    count evicted e1.*2 = 0 /\ count unreachable e1.*2 = 0 /\ three_kinds e1.*2 /\
    match evict with Some a => emit_telemetry_event at2 Warning "connection_pool"
      ("Evicted oldest idle connection to " +:+ fmt_socket_addr a +:+ " while " +:+ ctx +:+
       " (global limit: " +:+ fmt_Z (max_total_idle cfg) +:+ ")")
      [("evicted_destination"%string, FStr (fmt_socket_addr a));
       ("max_total_idle"%string, FNum (max_total_idle cfg)); ("context"%string, FStr ctx)] (Some h1)
    | None => Some (Some h1) end = Some oh).
  { destruct drop.
    - apply bind_Some in Hl as (oh1 & (h1 & -> & Hg)%emit_grew & Hl). eexists h1, _. by split_and!; [exact Hg|..].
    - exists h, []. split; [apply grew_nil|done]. }
  destruct Hd as (h1 & e1 & Hg & H1 & H2 & H3 & Ht & He). destruct evict as [a|].
  - apply emit_grew in He as (h2 & -> & Hg2). eexists h2, _. split; [done|]. split; [by eapply grew_trans|].
    rewrite !fmap_app, !kind_app, H1, H2, H3. split_and!; [by destruct drop|done|done|]. by apply three_kinds_app.
  - injection He as <-. by exists h1, e1.
Qed.

(** ** The counters of the lost connections *)

Definition losses p (n m : Z) : Prop :=
  pm_dropped_full (metrics p) = wrap64 n /\ pm_evicted (metrics p) = wrap64 m.

Lemma losses_add d p n m :
  losses p n m -> losses (add_metrics d p) (n + pm_dropped_full d) (m + pm_evicted d).
Proof. intros [Hn Hm]. unfold losses. cbn. by rewrite Hn, Hm, !wadd64_wrap. Qed.

Lemma losses_ext p p' n m :
  pm_dropped_full (metrics p') = pm_dropped_full (metrics p) -> pm_evicted (metrics p') = pm_evicted (metrics p) ->
  losses p n m -> losses p' n m.
Proof. unfold losses. by intros -> ->. Qed.
Lemma losses_same d p n m :
  pm_dropped_full d = 0 -> pm_evicted d = 0 -> losses p n m -> losses (add_metrics d p) n m.
Proof. intros Hd He Hl. apply (losses_add d) in Hl. by rewrite Hd, He, !Z.add_0_r in Hl. Qed.

Lemma losses_update a f p n m : losses p n m -> losses (update_destination_metrics a f p) n m.
Proof. by apply losses_ext. Qed.
Lemma losses_in_use p n m : losses p n m -> losses (decrement_in_use p) n m.
Proof. apply losses_ext; unfold decrement_in_use; by destruct (_ =? 0). Qed.
Lemma losses_active a p n m : losses p n m -> losses (decrement_active a p) n m.
Proof. apply losses_ext; unfold decrement_active; by repeat case_match. Qed.
Lemma losses_expired sys a k p n m : losses p n m -> losses (record_expired sys a k p) n m.
Proof. intros Hl. unfold record_expired. destruct (k =? 0); [done|]. by apply losses_update, losses_same. Qed.

Lemma losses_evicted sys o p n m :
  losses p n m ->
  losses (match o with Some a => record_evicted sys a p | None => p end) n (m + one (bool_decide (is_Some o))).
Proof.
  intros Hl. destruct o as [a|]; cbn; [|by rewrite Z.add_0_r].
  apply losses_update. apply (losses_add (mkPoolMetrics 0 0 0 0 0 0 1 0 0 (- 1))) in Hl. by rewrite Z.add_0_r in Hl.
Qed.

Lemma losses_dropped (b : bool) a f p1 p2 n m :
  losses p1 n m -> losses p2 n m ->
  losses (if b then update_destination_metrics a f (add_metrics (mkPoolMetrics 0 0 0 0 1 0 0 0 0 0) p1) else p2)
    (n + one b) m.
Proof.
  intros H1 H2. destruct b; cbn; [|by rewrite Z.add_0_r].
  apply losses_update. apply (losses_add (mkPoolMetrics 0 0 0 0 1 0 0 0 0 0)) in H1. by rewrite Z.add_0_r in H1.
Qed.

Lemma evict_metrics order p : metrics (evict_oldest order p).2 = metrics p.
Proof. unfold evict_oldest. by repeat case_match. Qed.
Lemma losses_insert now order a s p n m : losses p n m -> losses (insert_stream now order a s p).2 n m.
Proof.
  intros Hl. unfold insert_stream. match goal with |- losses (if ?b then _ else _).2 _ _ => destruct b end; [done|].
  assert (He : losses (if max_total_idle (config p) <=? pm_total_idle (metrics p) then evict_oldest order p
    else (None, p)).2 n m).
  { destruct (_ <=? _); [|done]. revert Hl. apply losses_ext; by rewrite evict_metrics. }
  destruct (if _ <=? _ then _ else _) as [o p']. by apply losses_same.
Qed.

Lemma losses_try_get now sys a p n m : losses p n m -> losses (try_get_from_pool now sys a p).2 n m.
Proof.
  intros Hl. unfold try_get_from_pool. destruct (pools p !! a) as [conns|]; [|done].
  destruct (pop_fresh _ _ _ _) as [[[s|] rest] k]; cbn [snd]; (destruct (0 <? k); [apply losses_expired|]);
    try apply losses_same; try done; destruct rest; done.
Qed.

Lemma losses_get now sys c a p n m : losses p n m -> losses (get now sys c a p).2 n m.
Proof.
  intros Hl. unfold get. destruct (negb _); [done|]. pose proof (losses_try_get now sys a p n m Hl) as Ht.
  destruct (try_get_from_pool now sys a p) as [[s|] p1]; cbn [snd] in *.
  - apply (losses_ext (update_destination_metrics a
      (fun e => dset_activity sys (dset_in_use (wadd64 (dm_in_use e) 1) (dbump 0 1 1 0 0 0 0 e)))
      (add_metrics (mkPoolMetrics 0 1 1 0 0 0 0 1 0 0) p1))); [done|done|]. by apply losses_update, losses_same.
  - destruct c as [id|e]; cbn [snd];
      repeat first [done | apply losses_update | apply losses_same; [done|done|]
        | match goal with |- losses (increment_active ?a ?p) _ _ => apply (losses_ext p); [done|done|] end].
Qed.

Lemma losses_cleanup now sys p n m : losses p n m -> losses (cleanup_expired now sys p) n m.
Proof.
  unfold cleanup_expired. generalize (map_to_list (pools p)). intros entries. revert p.
  induction entries as [|[a conns] entries IH]; intros p Hl; [done|]. cbn [foldl]. apply IH.
  unfold cleanup_entry. set (k := _ - _). clearbody k.
  assert (He : losses (if 0 <? k then record_expired sys a k p else p) n m)
    by (destruct (0 <? k); [by apply losses_expired|done]).
  by destruct (List.filter _ conns).
Qed.

Lemma losses_release a hint p n m : losses p n m -> losses (release a hint p) n m.
Proof.
  intros Hl. unfold release. destruct (negb _); [done|].
  assert (Hr : losses (decrement_active a (update_destination_metrics a in_use_minus_one (decrement_in_use p))) n m)
    by by apply losses_active, losses_update, losses_in_use.
  case_decide; [by revert Hr; apply losses_ext|done].
Qed.

Lemma losses_put now sys order a s p n m :
  enabled (config p) = true -> losses p n m ->
  let '(_, dropped, evicted) := (insert_stream now order a s (decrement_in_use p)).1 in
  losses (put now sys order a s Reuse p) (n + one dropped) (m + one (bool_decide (is_Some evicted))).
Proof.
  intros He Hl. unfold put. rewrite He. cbn [negb].
  pose proof (losses_insert now order a s _ n m (losses_in_use p n m Hl)) as Hi.
  destruct (insert_stream now order a s (decrement_in_use p)) as [[[ins dropped] evicted] p1]. cbn [fst snd] in *.
  apply losses_active, losses_evicted, losses_dropped; [done|]. destruct ins; by apply losses_update.
Qed.

Lemma losses_put_refresh now sys order a s p n m : losses p n m -> losses (put now sys order a s Refresh p) n m.
Proof.
  intros Hl. unfold put. destruct (negb _); [done|].
  assert (Hr : losses (decrement_active a (update_destination_metrics a in_use_minus_one (decrement_in_use p))) n m)
    by by apply losses_active, losses_update, losses_in_use.
  by revert Hr; apply losses_ext.
Qed.

Lemma losses_refresh now sys order id a p n m :
  losses p n m ->
  let '(_, dropped, evicted) := (insert_stream now order a (mkTcpStream id a) (refreshing sys a p)).1 in
  losses (refresh_connection now sys order (Ok id) a p) (n + one dropped) (m + one (bool_decide (is_Some evicted))).
Proof.
  intros Hl. unfold refresh_connection. fold (refreshing sys a p).
  assert (Hr : losses (refreshing sys a p) n m)
    by (apply losses_update; do 3 (apply losses_same; [done|done|]); done).
  pose proof (losses_insert now order a (mkTcpStream id a) _ n m Hr) as Hi.
  destruct (insert_stream now order a (mkTcpStream id a) (refreshing sys a p)) as [[[ins dropped] evicted] p1].
  cbn [fst snd] in *. by apply losses_evicted, losses_dropped.
Qed.

(** ** Requests *)

(** Whether a request is one for a connection that could not be made. *)
Definition failed (r : request) p : bool :=
  match r with
  | LGet now sys connected a _ =>
    enabled (config p) && match (get now sys connected a p).1 with Err _ => true | Ok _ => false end
  | _ => false
  end.

(** What a request writes, and what the counters gain. *)
Definition logged (p : ConnectionPool) (h : TelemetryHistory (V := fields))
    (evs : list (Z * TelemetryEvent (V := fields))) (k : Z) (l' : LoggedPool) : Prop :=
  (exists h', telemetry l' = Some h' /\ grew h evs h') /\ count unreachable evs.*2 = k /\ three_kinds evs.*2 /\
  forall n m, losses p n m ->
    losses (pool l') (n + count dropped evs.*2) (m + count evicted evs.*2).

Lemma logged_nothing p p' h :
  (forall n m, losses p n m -> losses p' n m) -> logged p h [] 0 (mkLoggedPool p' (Some h)).
Proof.
  intros Hp. split; [exists h; split; [done|apply grew_nil]|]. split; [done|]. split; [done|]. intros n m Hl.
  cbn. rewrite !Z.add_0_r. by apply Hp.
Qed.

Lemma logged_capacity at1 at2 ctx dest drop evict cfg p p' h oh :
  log_capacity_events at1 at2 ctx dest drop evict cfg (Some h) = Some oh ->
  (forall n m, losses p n m -> losses p' (n + one drop) (m + one (bool_decide (is_Some evict)))) ->
  exists evs, logged p h evs 0 (mkLoggedPool p' oh).
Proof.
  intros (h' & evs & -> & Hg & Hd & He & Hk & Ht)%capacity_grew Hp. exists evs. split; [by exists h'|]. split; [done|].
  split; [done|].
  intros n m Hl. rewrite Hd, He. by apply Hp.
Qed.

Lemma get_logged now sys c a at1 p h l' :
  handle error_text (LGet now sys c a at1) (mkLoggedPool p (Some h)) = Some l' ->
  exists evs, logged p h evs (one (failed (LGet now sys c a at1) p)) l'.
Proof.
  intros (oh & Hh & Hl')%bind_Some. injection Hl' as <-.
  pose proof (fun n m => losses_get now sys c a p n m) as Hg.
  revert Hh Hg. unfold failed, log_get, get. cbn [pool telemetry]. destruct (enabled (config p)); cbn [negb andb].
  - destruct (try_get_from_pool now sys a p) as [[s|] p1]; cbn [fst snd].
    + intros [= <-] Hg. exists []. by apply logged_nothing.
    + destruct c as [id|e]; cbn [fst snd].
      * intros [= <-] Hg. exists []. by apply logged_nothing.
      * intros (h' & -> & Hgr)%emit_grew Hg. eexists. split; [by exists h'|]. split; [done|]. split; [done|].
        intros n m Hl. cbn. rewrite !Z.add_0_r. by apply Hg.
  - intros [= <-] Hg. exists []. by apply logged_nothing.
Qed.

Lemma handle_logged r p h l' :
  handle error_text r (mkLoggedPool p (Some h)) = Some l' -> exists evs, logged p h evs (one (failed r p)) l'.
Proof.
  destruct r as [now sys c a at1|now sys order a s hint at1 at2|a hint|now sys order c a at1 at2|now sys];
    [apply get_logged| | | |]; cbn [failed one].
  - intros (oh & Hh & Hl')%bind_Some. injection Hl' as <-. revert Hh. unfold log_put. cbn [pool telemetry].
    destruct (enabled (config p)) eqn:He; cbn [negb].
    + destruct hint.
      * pose proof (fun n m => losses_put now sys order a s p n m He) as Hp.
        destruct (insert_stream now order a s (decrement_in_use p)).1 as [[ins dropped] evicted].
        intros Hh. by apply (logged_capacity _ _ _ _ _ _ _ _ _ _ _ Hh).
      * intros [= <-]. exists []. apply logged_nothing. intros n m. apply losses_put_refresh.
    + intros [= <-]. exists []. apply logged_nothing. intros n m. unfold put. by rewrite He.
  - intros [= <-]. exists []. apply logged_nothing. intros n m. apply losses_release.
  - intros (oh & Hh & Hl')%bind_Some. injection Hl' as <-. revert Hh. unfold log_refresh. cbn [pool telemetry].
    destruct c as [id|e].
    + pose proof (fun n m => losses_refresh now sys order id a p n m) as Hp.
      destruct (insert_stream _ _ _ _ (refreshing sys a p)).1 as [[ins dropped] evicted].
      intros Hh. by apply (logged_capacity _ _ _ _ _ _ _ _ _ _ _ Hh).
    + intros [= <-]. exists []. apply logged_nothing. intros n m Hl. by do 2 (apply losses_same; [done|done|]).
  - intros [= <-]. exists []. apply logged_nothing. intros n m. apply losses_cleanup.
Qed.

(** The requests of a run for connections that could not be made. *)
Fixpoint failures (rs : list request) (l : LoggedPool) : Z :=
  match rs with
  | [] => 0
  | r :: rs => one (failed r (pool l)) + match handle error_text r l with Some l' => failures rs l' | None => 0 end
  end.

Lemma run_cons r rs l :
  run error_text (r :: rs) l = (l' ← handle error_text r l; run error_text rs l').
Proof.
  unfold run. cbn [foldl]. cbn [mbind option_bind]. destruct (handle error_text r l) as [l'|]; [done|].
  induction rs as [|r' rs IH]; [done|exact IH].
Qed.

Lemma run_logged rs p h l' :
  run error_text rs (mkLoggedPool p (Some h)) = Some l' ->
  exists evs, logged p h evs (failures rs (mkLoggedPool p (Some h))) l'.
Proof.
  revert p h. induction rs as [|r rs IH]; intros p h.
  - intros [= <-]. exists []. by apply logged_nothing.
  - rewrite run_cons. intros (l1 & Hr & Hrs)%bind_Some. cbn [failures pool]. rewrite Hr.
    apply handle_logged in Hr as (e1 & (h1 & Ht & Hg1) & Hk1 & H31 & Hl1).
    destruct l1 as [p1 oh]. cbn [telemetry pool] in *. subst oh.
    apply IH in Hrs as (e2 & (h2 & Ht2 & Hg2) & Hk2 & H32 & Hl2). exists (e1 ++ e2).
    split; [exists h2; split; [done|by eapply grew_trans]|]. rewrite fmap_app, kind_app, Hk1, Hk2. split; [done|].
    split; [by apply three_kinds_app|]. intros n m Hl. rewrite !kind_app, !Z.add_assoc. by apply Hl2, Hl1.
Qed.

(** C37: whatever is asked of a pool with a log that is new, the log is what the
    history makes of the events of the pool, added one by one: one warning for
    every connection that the counter of dropped connections counts, one warning
    for every eviction that the counter of evictions counts, one error for every
    request that failed because no connection could be made, and nothing else, all
    in the category of the pool. *)
Theorem pool_log_correct cfg max_events hours h0 rs l :
  TelemetryHistory_new max_events hours = Some h0 ->
  run error_text rs (new_with_telemetry cfg (Some h0)) = Some l ->
  exists xs h, telemetry l = Some h /\ add_all h0 xs = Some h /\
    pm_dropped_full (metrics (pool l)) = wrap64 (count dropped xs.*2) /\
    pm_evicted (metrics (pool l)) = wrap64 (count evicted xs.*2) /\
    count unreachable xs.*2 = failures rs (new_with_telemetry cfg (Some h0)) /\
    three_kinds xs.*2.
Proof.
  intros _ (xs & (h & Ht & Hg) & Hk & H3 & Hl)%run_logged. exists xs, h.
  destruct (Hl 0 0) as [Hd He]; [done|]. by split_and!.
Qed.
End pool_log.

(** ** A concrete run *)

#[local] Existing Instance demo_delta.
#[local] Existing Instance demo_layout.
Definition local (port : Z) : SocketAddr := mkSocketAddr (V4 [x7f; x00; x00; x01]) port.
Definition demo_requests : list request :=
  [LGet 0 0 (Ok 1) (local 80) (0, 0); LGet 1 1 (Ok 2) (local 80) (1, 1); LGet 2 2 (Ok 3) (local 81) (2, 2);
   LPut 3 3 [local 80; local 81] (local 80) (mkTcpStream 1 (local 80)) Reuse (3, 3) (3, 3);
   LPut 4 4 [local 80; local 81] (local 80) (mkTcpStream 2 (local 80)) Reuse (4, 4) (4, 4);
   LPut 5 5 [local 80; local 81] (local 81) (mkTcpStream 3 (local 81)) Reuse (5, 5) (5, 5);
   LGet 6 6 (Err TimedOut) (local 82) (6, 6)].

Definition shown (l : LoggedPool) : Z * Z * list string :=
  (pm_dropped_full (metrics (pool l)), pm_evicted (metrics (pool l)),
   (fun e => te_message e) <$> (match telemetry l with Some h => events h | None => [] end)).

Lemma pool_log_correct_witness :
  let h0 := mkTelemetryHistory [] 2 (3600 * 10 ^ 9) in
  let start := new_with_telemetry (mkPoolConfig true 1 1 90 5000) (Some h0) in
  match run (fun _ => "timed out"%string) demo_requests start with
  | Some l =>
    pm_dropped_full (metrics (pool l)) = 1 /\ pm_evicted (metrics (pool l)) = 1 /\
    (fun e => te_message e) <$> (match telemetry l with Some h => events h | None => [] end) =
      ["Evicted oldest idle connection to 127.0.0.1:80 while returning to pool (global limit: 1)"%string;
       "Failed to connect to 127.0.0.1:82: timed out"%string] /\
    exists xs h, telemetry l = Some h /\ add_all h0 xs = Some h /\ three_kinds xs.*2
  | None => False
  end.
Proof.
  intros h0 start.
  assert (Hnew : TelemetryHistory_new 2 1 = Some h0) by reflexivity.
  assert (Hp : shown <$> run (fun _ => "timed out"%string) demo_requests start = Some (1, 1,
    ["Evicted oldest idle connection to 127.0.0.1:80 while returning to pool (global limit: 1)"%string;
     "Failed to connect to 127.0.0.1:82: timed out"%string])) by (vm_compute; reflexivity).
  destruct (run (fun _ => "timed out"%string) demo_requests start) as [l|] eqn:E; [|discriminate Hp].
  unfold shown in Hp. cbn [fmap option_fmap option_map] in Hp. injection Hp as H1 H2 H3.
  split; [exact H1|]. split; [exact H2|]. split; [exact H3|].
  destruct (pool_log_correct (fun _ => "timed out"%string) (mkPoolConfig true 1 1 90 5000) 2 1 h0
    demo_requests l Hnew E) as (xs & h & Ht & Hs & _ & _ & _ & Hk).
  exists xs, h. split; [exact Ht|]. split; [exact Hs|exact Hk].
Defined.
