(* ===== verification/Session.v ===== *)
(** * Sessions: data, persistence queue, history and counters

    src/src/session/types.rs, src/src/session/batch.rs, src/src/session/history.rs
    and src/src/session/metrics.rs.  Instants are nanoseconds; identifiers drawn
    by the [uuid] crate are integers.  What the batch writer needs of the
    database is the class [SessionSink], which src/src/session/store.rs
    implements. *)
From S2P Require Import Prelude Rust Net.

(** ** Data (types.rs) *)

Inductive Protocol : Type := Tcp | Udp.
#[export] Instance Protocol_eq_dec : EqDecision Protocol.
Proof. solve_decision. Defined.

Definition Protocol_as_str (p : Protocol) : string :=
  match p with Tcp => "tcp" | Udp => "udp" end.

Definition Protocol_from_str (value : string) : result string Protocol :=
  if decide (value = "tcp" \/ value = "TCP") then Ok Tcp
  else if decide (value = "udp" \/ value = "UDP") then Ok Udp
  else Err ("Invalid protocol: " +:+ value).

Inductive SessionStatus : Type := Active | Closed | Failed | RejectedByAcl.
#[export] Instance SessionStatus_eq_dec : EqDecision SessionStatus.
Proof. solve_decision. Defined.

Definition SessionStatus_as_str (s : SessionStatus) : string :=
  match s with
  | Active => "active"
  | Closed => "closed"
  | Failed => "failed"
  | RejectedByAcl => "rejected_by_acl"
  end.

Definition SessionStatus_from_str (value : string) : result string SessionStatus :=
  if decide (value = "active" \/ value = "ACTIVE") then Ok Active
  else if decide (value = "closed" \/ value = "CLOSED") then Ok Closed
  else if decide (value = "failed" \/ value = "FAILED") then Ok Failed
  else if decide (value = "rejected_by_acl" \/ value = "REJECTED_BY_ACL") then Ok RejectedByAcl
  else Err ("Invalid session status: " +:+ value).

Record Session : Type := mkSession {
  session_id : Z;
  user : string;
  start_time : Z;
  end_time : option Z;
  duration_secs : option Z;
  source_ip : IpAddr;
  source_port : Z;
  dest_ip : string;
  dest_port : Z;
  protocol : Protocol;
  bytes_sent : Z;
  bytes_received : Z;
  packets_sent : Z;
  packets_received : Z;
  status : SessionStatus;
  close_reason : option string;
  acl_rule_matched : option string;
  acl_decision : string;
}.
#[export] Instance Session_eq_dec : EqDecision Session.
Proof. solve_decision. Defined.

Record ConnectionInfo : Type := mkConnectionInfo {
  ci_source_ip : IpAddr;
  ci_source_port : Z;
  ci_dest_ip : string;
  ci_dest_port : Z;
  ci_protocol : Protocol;
}.

(** [id] and [now] are what [Uuid::new_v4] and [Utc::now] return. *)
Definition Session_new (id now : Z) (user : string) (connection : ConnectionInfo)
    (acl_decision : string) (acl_rule_matched : option string) : Session :=
  {| session_id := id; user := user; start_time := now; end_time := None; duration_secs := None;
     source_ip := ci_source_ip connection; source_port := ci_source_port connection;
     dest_ip := ci_dest_ip connection; dest_port := ci_dest_port connection;
     protocol := ci_protocol connection;
     bytes_sent := 0; bytes_received := 0; packets_sent := 0; packets_received := 0;
     status := Active; close_reason := None; acl_rule_matched := acl_rule_matched;
     acl_decision := acl_decision |}.

Definition set_status (st : SessionStatus) (s : Session) : Session :=
  {| session_id := session_id s; user := user s; start_time := start_time s;
     end_time := end_time s; duration_secs := duration_secs s;
     source_ip := source_ip s; source_port := source_port s; dest_ip := dest_ip s;
     dest_port := dest_port s; protocol := protocol s;
     bytes_sent := bytes_sent s; bytes_received := bytes_received s;
     packets_sent := packets_sent s; packets_received := packets_received s;
     status := st; close_reason := close_reason s; acl_rule_matched := acl_rule_matched s;
     acl_decision := acl_decision s |}.

(** [num_seconds] truncates towards zero. *)
Definition num_seconds (d : Z) : Z := Z.quot d (10 ^ 9).

Definition close (now : Z) (reason : option string) (st : SessionStatus) (s : Session) : Session :=
  {| session_id := session_id s; user := user s; start_time := start_time s;
     end_time := Some now; duration_secs := Some (Z.max (num_seconds (now - start_time s)) 0);
     source_ip := source_ip s; source_port := source_port s; dest_ip := dest_ip s;
     dest_port := dest_port s; protocol := protocol s;
     bytes_sent := bytes_sent s; bytes_received := bytes_received s;
     packets_sent := packets_sent s; packets_received := packets_received s;
     status := st; close_reason := reason; acl_rule_matched := acl_rule_matched s;
     acl_decision := acl_decision s |}.

Record TrafficUpdate : Type := mkTrafficUpdate {
  tu_session_id : Z;
  tu_bytes_sent : Z;
  tu_bytes_received : Z;
  tu_packets_sent : Z;
  tu_packets_received : Z;
}.

(** The four saturating additions of [apply_traffic_update]. *)
Definition add_traffic (u : TrafficUpdate) (s : Session) : Session :=
  {| session_id := session_id s; user := user s; start_time := start_time s;
     end_time := end_time s; duration_secs := duration_secs s;
     source_ip := source_ip s; source_port := source_port s; dest_ip := dest_ip s;
     dest_port := dest_port s; protocol := protocol s;
     bytes_sent := sat_add64 (bytes_sent s) (tu_bytes_sent u);
     bytes_received := sat_add64 (bytes_received s) (tu_bytes_received u);
     packets_sent := sat_add64 (packets_sent s) (tu_packets_sent u);
     packets_received := sat_add64 (packets_received s) (tu_packets_received u);
     status := status s; close_reason := close_reason s; acl_rule_matched := acl_rule_matched s;
     acl_decision := acl_decision s |}.

Record SessionFilter : Type := mkSessionFilter {
  sf_user : option string;
  sf_status : option SessionStatus;
  sf_start_after : option Z;
  sf_start_before : option Z;
  sf_dest_ip : option string;
  sf_min_duration_secs : option Z;
  sf_min_bytes : option Z;
  sf_limit : option Z;
  sf_offset : option Z;
  sf_sort_by : option string;
  sf_sort_dir : option string;
}.
Definition SessionFilter_default : SessionFilter :=
  mkSessionFilter None None None None None None None (Some 100) None None None.

(** ** The persistence queue (batch.rs) *)

Record BatchConfig : Type := mkBatchConfig { batch_size : Z; batch_interval : Z }.
Definition BatchConfig_from_settings (size interval_ms : Z) : BatchConfig :=
  mkBatchConfig size (interval_ms * 10 ^ 6).
Definition BatchConfig_default : BatchConfig := mkBatchConfig 100 (10 ^ 9).

(** The last version of a session in a list of versions. *)
Definition last_version (id : Z) (l : list Session) : option Session :=
  List.find (fun s => session_id s =? id) (rev l).

#[global] Arguments last_version : simpl never.

Lemma last_version_app id l1 l2 :
  last_version id (l1 ++ l2) =
  match last_version id l2 with Some s => Some s | None => last_version id l1 end.
Proof.
  unfold last_version. rewrite rev_app_distr.
  induction (rev l2) as [|s l IH]; [done|]. cbn. by destruct (session_id s =? id).
Qed.

Lemma last_version_nil id : last_version id [] = None.
Proof. done. Qed.

Lemma last_version_one id s :
  last_version id [s] = if session_id s =? id then Some s else None.
Proof. done. Qed.

Lemma last_version_id id l s : last_version id l = Some s -> session_id s = id /\ s ∈ l.
Proof.
  intros [Hin Heq]%List.find_some. split; [by apply Z.eqb_eq|].
  apply list_elem_of_In. by apply in_rev.
Qed.

Lemma last_version_None id l : last_version id l = None <-> id ∉ (session_id <$> l).
Proof.
  split.
  - intros Hf (s & -> & Hs)%list_elem_of_fmap. apply list_elem_of_In in Hs.
    apply (in_rev l) in Hs.
    pose proof (List.find_none _ _ Hf s Hs) as Hn. cbn in Hn. by rewrite Z.eqb_refl in Hn.
  - intros Hn. destruct (last_version id l) as [s|] eqn:E; [|done].
    apply last_version_id in E as [<- Hs]. destruct Hn. by apply list_elem_of_fmap_2.
Qed.

(** The database as the writer sees it: [save_batch] stores the last version of
    every session of a batch, or fails and changes nothing.  [outcome] is what
    the environment makes of the transaction. *)
Class SessionSink (T : Type) := {
  outcome : Type;
  row : Type;
  encode : Session -> row;
  stored : T -> Z -> option row;
  save_batch : outcome -> list Session -> T -> result string () * T;
  save_batch_ok o b t id :
    (save_batch o b t).1 = Ok () ->
    stored (save_batch o b t).2 id =
      match last_version id b with Some s => Some (encode s) | None => stored t id end;
  save_batch_err o b t e : (save_batch o b t).1 = Err e -> (save_batch o b t).2 = t;
}.

Section batch.
Context {T : Type} `{SessionSink T}.

(** [flush_permit] is the permit that [notify_one] leaves in [flush_notify];
    [running] tells whether the task that [start] spawns is in its loop. *)
Record BatchWriter : Type := mkBatchWriter {
  bw_config : BatchConfig;
  store : T;
  queue : list Session;
  flush_permit : bool;
  running : bool;
}.

(** The queue is allocated for [batch_size] sessions; whether it can be is asked
    where the writer is made, in [Listener.start_sessions]. *)
Definition BatchWriter_new (store : T) (config : BatchConfig) : BatchWriter :=
  mkBatchWriter config store [] false false.

(** A timer without a period panics, which ends the task before its loop. *)
Definition batch_start (w : BatchWriter) : BatchWriter :=
  mkBatchWriter (bw_config w) (store w) (queue w) (flush_permit w)
    (negb (batch_interval (bw_config w) =? 0)).

Definition enqueue (session : Session) (w : BatchWriter) : BatchWriter :=
  let q := queue w ++ [session] in
  mkBatchWriter (bw_config w) (store w) q
    (flush_permit w || (batch_size (bw_config w) <=? Z.of_nat (length q))) (running w).

(** A batch that cannot be stored is dropped. *)
Definition flush (o : outcome) (w : BatchWriter) : BatchWriter :=
  match queue w with
  | [] => w
  | batch =>
    mkBatchWriter (bw_config w) (save_batch o batch (store w)).2 [] (flush_permit w) (running w)
  end.

(** The wake-ups of the task: the timer and a permit. *)
Definition on_tick (o : outcome) (w : BatchWriter) : BatchWriter :=
  if running w then flush o w else w.
Definition on_notified (o : outcome) (w : BatchWriter) : BatchWriter :=
  if running w && flush_permit w then
    flush o (mkBatchWriter (bw_config w) (store w) (queue w) false (running w))
  else w.

(** [notify_waiters] ends the task if it is [waiting] in its [select]; the
    task and the caller both flush, and the second finds an empty queue. *)
Definition batch_shutdown (o : outcome) (waiting : bool) (w : BatchWriter) : BatchWriter :=
  flush o (mkBatchWriter (bw_config w) (store w) (queue w) (flush_permit w)
             (running w && negb waiting)).
End batch.
Arguments BatchWriter : clear implicits.

(** ** Metrics history (history.rs) *)

Record MetricsSnapshot : Type := mkMetricsSnapshot {
  timestamp : Z; ms_active_sessions : Z; ms_total_sessions : Z; bandwidth : Z }.

Record MetricsHistory : Type := mkMetricsHistory {
  snapshots : list MetricsSnapshot; max_snapshots : Z; max_age : Z }.

Section history.
Context {layout : Layout} {delta : TimeDelta}.

Definition MetricsHistory_new (max_snapshots max_age_hours : Z) : option MetricsHistory :=
  _ ← with_capacity size_of_snapshot max_snapshots;
  max_age ← delta_hours max_age_hours;
  Some (mkMetricsHistory [] max_snapshots max_age).

(** The first loop: entries older than the cutoff leave at the front. *)
Fixpoint drop_old (cutoff : Z) (l : list MetricsSnapshot) : list MetricsSnapshot :=
  match l with
  | front :: l' => if timestamp front <? cutoff then drop_old cutoff l' else l
  | [] => []
  end.

(** The second loop: entries leave at the front while there are too many. *)
Fixpoint trim_front (max : Z) (l : list MetricsSnapshot) : list MetricsSnapshot :=
  match l with
  | _ :: l' => if max <? Z.of_nat (length l) then trim_front max l' else l
  | [] => []
  end.

Definition add_snapshot (now : Z) (snapshot : MetricsSnapshot) (h : MetricsHistory) : option MetricsHistory :=
  cutoff ← sub_delta now (max_age h);
  let kept := drop_old cutoff (snapshots h) in
  Some (mkMetricsHistory (trim_front (max_snapshots h) (kept ++ [snapshot])) (max_snapshots h) (max_age h)).

Definition get_snapshots (h : MetricsHistory) : list MetricsSnapshot := snapshots h.

Definition get_snapshots_since (now minutes : Z) (h : MetricsHistory) : option (list MetricsSnapshot) :=
  d ← delta_minutes minutes;
  cutoff ← sub_delta now d;
  Some (List.filter (fun s => cutoff <=? timestamp s) (snapshots h)).
End history.

(** ** Process-wide counters (metrics.rs) *)

Record SessionMetrics : Type := mkSessionMetrics {
  ACTIVE_SESSIONS : Z;
  TOTAL_SESSIONS : Z;
  REJECTED_SESSIONS : Z;
  SESSION_DURATION : list Z;
  TOTAL_BYTES_SENT : Z;
  TOTAL_BYTES_RECEIVED : Z;
  USER_SESSIONS : gmap string Z;
  USER_BANDWIDTH : gmap (string * string) Z;
}.
Definition SessionMetrics_init : SessionMetrics := mkSessionMetrics 0 0 0 [] 0 0 ∅ ∅.

(** [with_label_values(labels).inc_by(n)]: the child starts at zero. *)
Definition inc_label {K} `{Countable K} (k : K) (n : Z) (m : gmap K Z) : gmap K Z :=
  <[k := wadd64 (default 0 (m !! k)) n]> m.

Definition record_session_start (user : string) (m : SessionMetrics) : SessionMetrics :=
  mkSessionMetrics (ACTIVE_SESSIONS m + 1) (wadd64 (TOTAL_SESSIONS m) 1) (REJECTED_SESSIONS m)
    (SESSION_DURATION m) (TOTAL_BYTES_SENT m) (TOTAL_BYTES_RECEIVED m)
    (inc_label user 1 (USER_SESSIONS m)) (USER_BANDWIDTH m).

Definition record_session_close (duration : option Z) (m : SessionMetrics) : SessionMetrics :=
  mkSessionMetrics (ACTIVE_SESSIONS m - 1) (TOTAL_SESSIONS m) (REJECTED_SESSIONS m)
    (SESSION_DURATION m ++ match duration with Some d => [d] | None => [] end)
    (TOTAL_BYTES_SENT m) (TOTAL_BYTES_RECEIVED m) (USER_SESSIONS m) (USER_BANDWIDTH m).

Definition record_rejected_session (user : string) (m : SessionMetrics) : SessionMetrics :=
  mkSessionMetrics (ACTIVE_SESSIONS m) (TOTAL_SESSIONS m) (wadd64 (REJECTED_SESSIONS m) 1)
    (SESSION_DURATION m) (TOTAL_BYTES_SENT m) (TOTAL_BYTES_RECEIVED m)
    (inc_label user 1 (USER_SESSIONS m)) (USER_BANDWIDTH m).

Definition record_traffic (user : string) (sent received : Z) (m : SessionMetrics) : SessionMetrics :=
  let m :=
    if 0 <? sent then
      mkSessionMetrics (ACTIVE_SESSIONS m) (TOTAL_SESSIONS m) (REJECTED_SESSIONS m)
        (SESSION_DURATION m) (wadd64 (TOTAL_BYTES_SENT m) sent) (TOTAL_BYTES_RECEIVED m)
        (USER_SESSIONS m) (inc_label (user, "sent"%string) sent (USER_BANDWIDTH m))
    else m in
  if 0 <? received then
    mkSessionMetrics (ACTIVE_SESSIONS m) (TOTAL_SESSIONS m) (REJECTED_SESSIONS m)
      (SESSION_DURATION m) (TOTAL_BYTES_SENT m) (wadd64 (TOTAL_BYTES_RECEIVED m) received)
      (USER_SESSIONS m) (inc_label (user, "received"%string) received (USER_BANDWIDTH m))
  else m.
