(* ===== verification/Manager.v ===== *)
(** * The session manager

    src/src/session/manager.rs.  The manager's maps, lists and channel are one
    record; the handles it shares (cancellation tokens, UDP shutdown channels)
    are identities, with the set of cancelled tokens and the list of signals in
    the record.  The order in which a concurrent map is iterated is the class
    [IterOrder].  Every operation takes the identifiers it draws and the instants
    it reads as arguments. *)
From S2P Require Import Prelude Rust Net Acl AclEngine Session.
From S2P Require Protocol.

Class IterOrder := {
  iter : forall {V : Type}, gmap string V -> list (string * V);
  iter_perm : forall {V : Type} (m : gmap string V), iter m ≡ₚ map_to_list m;
  iter_ids : forall {V : Type}, gmap Z V -> list (Z * V);
  iter_ids_perm : forall {V : Type} (m : gmap Z V), iter_ids m ≡ₚ map_to_list m;
}.

(** Some order. *)
Definition map_order : IterOrder :=
  {| iter V m := map_to_list m; iter_perm V m := reflexivity _;
     iter_ids V m := map_to_list m; iter_ids_perm V m := reflexivity _ |}.

(** ** Statistics *)

Record UserSessionStat : Type := mkUserSessionStat { us_user : string; us_sessions : Z }.
Record DestinationStat : Type := mkDestinationStat { dst_dest_ip : string; dst_connections : Z }.
Record AclDecisionStats : Type := mkAclDecisionStats { ad_allowed : Z; ad_blocked : Z }.
Record SessionStats : Type := mkSessionStats {
  generated_at : Z;
  st_active_sessions : Z;
  st_total_sessions : Z;
  st_total_bytes : Z;
  top_users : list UserSessionStat;
  top_destinations : list DestinationStat;
  st_acl : AclDecisionStats;
}.

(** The variables that the closure [aggregate_session] updates. *)
Record aggregate : Type := mkAggregate {
  user_counts : gmap string Z;
  destination_counts : gmap string Z;
  acl_allowed : Z;
  acl_blocked : Z;
  ag_total_sessions : Z;
  ag_total_bytes : Z;
}.

(** [*counts.entry(key).or_insert(0) += 1] *)
Definition count_entry (key : string) (m : gmap string Z) : gmap string Z :=
  <[key := default 0 (m !! key) + 1]> m.

Definition aggregate_session (a : aggregate) (s : Session) : aggregate :=
  let allow := eq_ignore_ascii_case (acl_decision s) "allow" in
  let block := eq_ignore_ascii_case (acl_decision s) "block" in
  mkAggregate (count_entry (user s) (user_counts a)) (count_entry (dest_ip s) (destination_counts a))
    (if allow then acl_allowed a + 1 else acl_allowed a)
    (if allow then acl_blocked a else if block then acl_blocked a + 1 else acl_blocked a)
    (ag_total_sessions a + 1)
    (sat_add64 (ag_total_bytes a) (sat_add64 (bytes_sent s) (bytes_received s))).

Definition TOP_LIMIT : nat := 10.

(** [a] may stand before [b]: the larger count, then the smaller name. *)
Definition count_leb (a b : string * Z) : bool :=
  if b.2 <? a.2 then true else if a.2 <? b.2 then false else String.leb a.1 b.1.

(** ** State *)

Record SessionControl : Type := mkSessionControl { cancel_token : Z; udp_shutdown : option Z }.

Section manager.
Context {T : Type} `{!SessionSink T}.

Record SessionManager : Type := mkSessionManager {
  active_sessions : gmap Z Session;
  closed_sessions : list Session;
  rejected_sessions : list Session;
  session_controls : gmap Z SessionControl;
  batch_writer : option (BatchWriter T);
  traffic_rx : list TrafficUpdate;
  worker_sessions : gmap Z Session; (* the traffic worker's own map *)
  worker_writer : option (BatchWriter T); (* and its own cell *)
  metrics : SessionMetrics;
  cancelled : gset Z;
  udp_signals : list Z;
}.

(** [start_traffic_worker] clones the map and the cell, both empty; a clone of
    a [DashMap] or of a [OnceLock] is a new one with the same contents. *)
Definition SessionManager_new (m : SessionMetrics) : SessionManager :=
  mkSessionManager ∅ [] [] ∅ None [] ∅ None m ∅ [].

(** The cell can be set once. *)
Definition set_store (store : T) (batch_config : BatchConfig) (m : SessionManager) : SessionManager :=
  let writer := batch_start (BatchWriter_new store batch_config) in
  mkSessionManager (active_sessions m) (closed_sessions m) (rejected_sessions m)
    (session_controls m)
    (match batch_writer m with Some w => Some w | None => Some writer end)
    (traffic_rx m) (worker_sessions m) (worker_writer m) (metrics m) (cancelled m) (udp_signals m).
Definition with_store (store : T) (batch_config : BatchConfig) (mt : SessionMetrics) : SessionManager :=
  set_store store batch_config (SessionManager_new mt).

Definition set_active (x : gmap Z Session) (m : SessionManager) : SessionManager :=
  mkSessionManager x (closed_sessions m) (rejected_sessions m) (session_controls m)
    (batch_writer m) (traffic_rx m) (worker_sessions m) (worker_writer m) (metrics m)
    (cancelled m) (udp_signals m).
Definition push_closed (s : Session) (m : SessionManager) : SessionManager :=
  mkSessionManager (active_sessions m) (closed_sessions m ++ [s]) (rejected_sessions m)
    (session_controls m) (batch_writer m) (traffic_rx m) (worker_sessions m) (worker_writer m)
    (metrics m) (cancelled m) (udp_signals m).
Definition push_rejected (s : Session) (m : SessionManager) : SessionManager :=
  mkSessionManager (active_sessions m) (closed_sessions m) (rejected_sessions m ++ [s])
    (session_controls m) (batch_writer m) (traffic_rx m) (worker_sessions m) (worker_writer m)
    (metrics m) (cancelled m) (udp_signals m).
Definition set_controls (x : gmap Z SessionControl) (m : SessionManager) : SessionManager :=
  mkSessionManager (active_sessions m) (closed_sessions m) (rejected_sessions m) x
    (batch_writer m) (traffic_rx m) (worker_sessions m) (worker_writer m) (metrics m)
    (cancelled m) (udp_signals m).
Definition set_writer (x : option (BatchWriter T)) (m : SessionManager) : SessionManager :=
  mkSessionManager (active_sessions m) (closed_sessions m) (rejected_sessions m)
    (session_controls m) x (traffic_rx m) (worker_sessions m) (worker_writer m) (metrics m)
    (cancelled m) (udp_signals m).
Definition set_worker (rx : list TrafficUpdate) (x : gmap Z Session) (w : option (BatchWriter T))
    (m : SessionManager) : SessionManager :=
  mkSessionManager (active_sessions m) (closed_sessions m) (rejected_sessions m)
    (session_controls m) (batch_writer m) rx x w (metrics m) (cancelled m) (udp_signals m).
Definition set_metrics (x : SessionMetrics) (m : SessionManager) : SessionManager :=
  mkSessionManager (active_sessions m) (closed_sessions m) (rejected_sessions m)
    (session_controls m) (batch_writer m) (traffic_rx m) (worker_sessions m) (worker_writer m) x
    (cancelled m) (udp_signals m).
Definition cancel (token : Z) (udp : option Z) (m : SessionManager) : SessionManager :=
  mkSessionManager (active_sessions m) (closed_sessions m) (rejected_sessions m)
    (session_controls m) (batch_writer m) (traffic_rx m) (worker_sessions m) (worker_writer m)
    (metrics m) ({[token]} ∪ cancelled m)
    (udp_signals m ++ match udp with Some tx => [tx] | None => [] end).

(** [if let Some(writer) = self.current_batch_writer()] *)
Definition enqueue_session (s : Session) (m : SessionManager) : SessionManager :=
  set_writer (enqueue s <$> batch_writer m) m.

(** ** Operations *)

Definition new_session_with_control (id token now : Z) (usr : string) (connection : ConnectionInfo)
    (decision : string) (rule : option string) (udp : option Z) (m : SessionManager)
    : (Z * Z) * SessionManager :=
  let session := set_status Active (Session_new id now usr connection decision rule) in
  let m := set_controls (<[id := mkSessionControl token udp]> (session_controls m)) m in
  let m := set_metrics (record_session_start (user session) (metrics m)) m in
  let m := enqueue_session session m in
  let m := set_active (<[id := session]> (active_sessions m)) m in
  ((id, token), m).

Definition new_session (id token now : Z) (usr : string) (connection : ConnectionInfo)
    (decision : string) (rule : option string) (m : SessionManager) : Z * SessionManager :=
  let '((i, _), m) := new_session_with_control id token now usr connection decision rule None m in
  (i, m).

Definition get_session (id : Z) (m : SessionManager) : option Session := active_sessions m !! id.
Definition active_session_count (m : SessionManager) : Z := Z.of_nat (size (active_sessions m)).

(** On the map and the writer cell it is given. *)
Definition apply_traffic_update (update : TrafficUpdate) (sessions : gmap Z Session)
    (writer : option (BatchWriter T)) (mt : SessionMetrics)
    : gmap Z Session * option (BatchWriter T) * SessionMetrics :=
  match sessions !! tu_session_id update with
  | Some session =>
    let session := add_traffic update session in
    (<[tu_session_id update := session]> sessions,
     enqueue session <$> writer,
     record_traffic (user session) (tu_bytes_sent update) (tu_bytes_received update) mt)
  | None => (sessions, writer, mt)
  end.

Definition update_traffic (update : TrafficUpdate) (m : SessionManager) : SessionManager :=
  let '(sessions, writer, mt) :=
    apply_traffic_update update (active_sessions m) (batch_writer m) (metrics m) in
  set_metrics mt (set_writer writer (set_active sessions m)).

(** The channel is unbounded and the worker keeps its receiving end. *)
Definition queue_traffic_update (update : TrafficUpdate) (m : SessionManager) : SessionManager :=
  set_worker (traffic_rx m ++ [update]) (worker_sessions m) (worker_writer m) m.

(** One round of the worker's loop. *)
Definition traffic_worker_step (m : SessionManager) : SessionManager :=
  match traffic_rx m with
  | [] => m
  | update :: rx =>
    let '(sessions, writer, mt) :=
      apply_traffic_update update (worker_sessions m) (worker_writer m) (metrics m) in
    set_metrics mt (set_worker rx sessions writer m)
  end.

Definition close_session (id now : Z) (reason : option string) (st : SessionStatus)
    (m : SessionManager) : SessionManager :=
  let m := set_controls (delete id (session_controls m)) m in
  match active_sessions m !! id with
  | Some session =>
    let m := set_active (delete id (active_sessions m)) m in
    let session := close now reason st session in
    let m := set_metrics (record_session_close (duration_secs session) (metrics m)) m in
    let m := push_closed session m in
    enqueue_session session m
  | None => m
  end.

Definition terminate_session (id now : Z) (reason : string) (st : SessionStatus)
    (m : SessionManager) : SessionManager :=
  let m := match session_controls m !! id with
           | Some control => cancel (cancel_token control) (udp_shutdown control) m
           | None => m
           end in
  close_session id now (Some reason) st m.

Definition track_rejected_session (id now1 now2 : Z) (usr : string) (conn : ConnectionInfo)
    (acl_rule : option string) (m : SessionManager) : Z * SessionManager :=
  let session := Session_new id now1 usr conn "block" acl_rule in
  let session := close now2 (Some "Rejected by ACL"%string) RejectedByAcl session in
  let m := set_metrics (record_rejected_session usr (metrics m)) m in
  let m := enqueue_session session m in
  (id, push_rejected session m).

Definition rejected_snapshot (m : SessionManager) : list Session := rejected_sessions m.
Definition closed_snapshot (m : SessionManager) : list Session := closed_sessions m.
Definition get_closed_sessions (m : SessionManager) : list Session := closed_sessions m.

Context `{IterOrder}.

(** [clock] is the instant at which each session is closed. *)
Definition close_all_active (clock : Z -> Z) (reason : string) (st : SessionStatus)
    (m : SessionManager) : SessionManager :=
  let session_ids := (iter_ids (active_sessions m)).*1 in
  fold_left (fun m id => terminate_session id (clock id) reason st m) session_ids m.

Definition shutdown (clock : Z -> Z) (o : outcome) (waiting : bool) (m : SessionManager)
    : SessionManager :=
  let m := close_all_active clock "Server shutdown" Failed m in
  set_writer (batch_shutdown o waiting <$> batch_writer m) m.

Definition get_active_sessions (m : SessionManager) : list Session :=
  (iter_ids (active_sessions m)).*2.

Definition get_all_sessions (m : SessionManager) : list Session :=
  get_active_sessions m ++ closed_sessions m ++ rejected_sessions m.

(** [lookback] in nanoseconds; [None] stands for a duration that does not fit
    a [chrono::Duration]. *)
Definition get_stats (now : Z) (lookback : option Z) (m : SessionManager) : SessionStats :=
  let lookback_chrono := default (24 * 3600 * 10 ^ 9) lookback in
  let cutoff := now - lookback_chrono in
  let recent := List.filter (fun s => cutoff <=? start_time s) in
  let a := mkAggregate ∅ ∅ 0 0 0 0 in
  let a := fold_left aggregate_session (recent (get_active_sessions m)) a in
  let a := fold_left aggregate_session (recent (closed_sessions m)) a in
  let a := fold_left aggregate_session (recent (rejected_sessions m)) a in
  let users := sort_by count_leb (iter (user_counts a)) in
  let dests := sort_by count_leb (iter (destination_counts a)) in
  mkSessionStats now (active_session_count m) (ag_total_sessions a) (ag_total_bytes a)
    ((fun p => mkUserSessionStat p.1 p.2) <$> take TOP_LIMIT users)
    ((fun p => mkDestinationStat p.1 p.2) <$> take TOP_LIMIT dests)
    (mkAclDecisionStats (acl_allowed a) (acl_blocked a)).

(** One tick of [start_metrics_collector]; the row for the database is returned. *)
Definition collect_metrics {delta : TimeDelta} (now now2 now3 : Z) (m : SessionManager) (h : MetricsHistory)
    : option (MetricsSnapshot * MetricsHistory) :=
  let stats := get_stats now (Some (24 * 60 * 60 * 10 ^ 9)) m in
  let snapshot := mkMetricsSnapshot now2 (st_active_sessions stats) (st_total_sessions stats)
                    (st_total_bytes stats) in
  h ← add_snapshot now3 snapshot h;
  Some (snapshot, h).

(** ** Revocation after a change of the rules *)

Context `{AclDeps} `{!UnstableSort rule_leb}.

Definition session_address (s : Session) : Protocol.Address :=
  match parse_ipv4 (dest_ip s) with
  | Some octets => Protocol.IPv4 octets
  | None =>
    match parse_ipv6 (dest_ip s) with
    | Some octets => Protocol.IPv6 octets
    | None => Protocol.Domain (dest_ip s)
    end
  end.

Definition session_acl_protocol (s : Session) : AclProtocol :=
  match protocol s with Tcp => Acl.Tcp | Udp => Acl.Udp end.

(** The reason for ending a session, if the rules block it. *)
Definition revocation (acl_engine : AclEngine) (s : Session) : option string :=
  match evaluate acl_engine (user s) (session_address s) (dest_port s) (session_acl_protocol s) with
  | (DecisionBlock, matched_rule) =>
    Some ("Terminated by ACL update (" +:+ default "Default policy" matched_rule +:+ ")")%string
  | _ => None
  end.

(** The first loop. *)
Definition to_terminate (acl_engine : AclEngine) (m : SessionManager) : list (Z * string) :=
  omap (fun s => (fun reason => (session_id s, reason)) <$> revocation acl_engine s)
    (get_active_sessions m).

Definition enforce_acl (clock : Z -> Z) (acl_engine : AclEngine) (m : SessionManager)
    : SessionManager :=
  fold_left (fun m t => terminate_session t.1 (clock t.1) t.2 Failed m)
    (to_terminate acl_engine m) m.
End manager.
Arguments SessionManager : clear implicits.
