(* ===== verification/ManagerSpec.v ===== *)
(** * The session manager: theorems

    The life cycle of a session, the accounting of its traffic, the consistency
    of the write-behind queue with the manager, the statistics and the revocation
    of sessions, for every sequence of operations of src/src/session/manager.rs. *)
From S2P Require Import Prelude Net Acl Wildcard AclEngine AclSpec Session Manager.
From S2P Require Protocol.

(** ** Reachable managers *)

Section reachable.
Context {T : Type} `{!SessionSink T} `{!IterOrder} `{!AclDeps} `{!UnstableSort rule_leb}.
Implicit Types (m : SessionManager T).

Definition ended_ids m : list Z := session_id <$> closed_sessions m ++ rejected_sessions m.

(** [Uuid::new_v4] draws an identifier that is not in use. *)
Definition fresh_id (id : Z) m : Prop := active_sessions m !! id = None /\ id ∉ ended_ids m.

Definition wf_update (u : TrafficUpdate) : Prop :=
  is_u64 (tu_bytes_sent u) /\ is_u64 (tu_bytes_received u) /\
  is_u64 (tu_packets_sent u) /\ is_u64 (tu_packets_received u).

Inductive op : Type :=
| ONew (id token now : Z) (usr : string) (conn : ConnectionInfo) (decision : string)
    (rule : option string) (udp : option Z)
| OTraffic (u : TrafficUpdate)
| OQueue (u : TrafficUpdate)
| OWorker
| OClose (id now : Z) (reason : option string) (st : SessionStatus)
| OTerminate (id now : Z) (reason : string) (st : SessionStatus)
| OReject (id now1 now2 : Z) (usr : string) (conn : ConnectionInfo) (rule : option string)
| OCloseAll (clock : Z -> Z) (reason : string) (st : SessionStatus)
| OEnforce (clock : Z -> Z) (engine : AclEngine)
| OTick (o : outcome)
| ONotified (o : outcome).

Definition exec (o : op) m : SessionManager T :=
  match o with
  | ONew id token now usr conn decision rule udp =>
    (new_session_with_control id token now usr conn decision rule udp m).2
  | OTraffic u => update_traffic u m
  | OQueue u => queue_traffic_update u m
  | OWorker => traffic_worker_step m
  | OClose id now reason st => close_session id now reason st m
  | OTerminate id now reason st => terminate_session id now reason st m
  | OReject id now1 now2 usr conn rule => (track_rejected_session id now1 now2 usr conn rule m).2
  | OCloseAll clock reason st => close_all_active clock reason st m
  | OEnforce clock engine => enforce_acl clock engine m
  | OTick o => set_writer (on_tick o <$> batch_writer m) m
  | ONotified o => set_writer (on_notified o <$> batch_writer m) m
  end.

(** What the callers and the environment guarantee: fresh identifiers, 64-bit
    counters, and an end status other than [Active]. *)
Definition allowed_op (o : op) m : Prop :=
  match o with
  | ONew id _ _ _ _ _ _ _ | OReject id _ _ _ _ _ => fresh_id id m
  | OTraffic u | OQueue u => wf_update u
  | OClose _ _ _ st | OTerminate _ _ _ st | OCloseAll _ _ st => st <> Active
  | _ => True
  end.

(** The flush of a step, if it makes one, is stored. *)
Definition flush_ok (o : outcome) (w : BatchWriter T) : Prop :=
  (save_batch o (queue w) (store w)).1 = Ok ().
Definition saving_op (o : op) m : Prop :=
  allowed_op o m /\
  match o with
  | OTick o | ONotified o => forall w, batch_writer m = Some w -> flush_ok o w
  | _ => True
  end.

(** The executions from [m0] whose operations satisfy [P]. *)
Inductive runs (P : op -> SessionManager T -> Prop) (m0 : SessionManager T)
    : list op -> SessionManager T -> Prop :=
| runs_nil : runs P m0 [] m0
| runs_snoc os o m : runs P m0 os m -> P o m -> runs P m0 (os ++ [o]) (exec o m).

Lemma runs_impl P Q m0 os m :
  (forall o m, P o m -> Q o m) -> runs P m0 os m -> runs Q m0 os m.
Proof. intros HPQ. induction 1; constructor; auto. Qed.

(** A manager as it is created, with or without a database. *)
Inductive initial : SessionManager T -> Prop :=
| initial_new : initial (SessionManager_new SessionMetrics_init)
| initial_store t config : initial (with_store t config SessionMetrics_init).

(** ** The invariant *)

Definition live (id : Z) (s : Session) : Prop :=
  session_id s = id /\ status s = Active /\ end_time s = None /\ duration_secs s = None /\
  close_reason s = None.
Definition counters_ok (s : Session) : Prop :=
  is_u64 (bytes_sent s) /\ is_u64 (bytes_received s) /\
  is_u64 (packets_sent s) /\ is_u64 (packets_received s).

(** A session that ended: when, and for how many whole seconds it lasted. *)
Definition over (s : Session) : Prop :=
  status s <> Active /\
  exists t d, end_time s = Some t /\ duration_secs s = Some d /\ 0 <= d /\
    (start_time s <= t -> d * 10 ^ 9 <= t - start_time s < (d + 1) * 10 ^ 9).

(** Every session is in exactly one place, with the shape of that place; the
    controls are those of the active sessions; the gauge counts them. *)
Record lifecycle (active : gmap Z Session) (closed rejected : list Session)
    (controls : gmap Z SessionControl) (mt : SessionMetrics) : Prop := {
  lc_live : map_Forall live active;
  lc_closed : Forall over closed;
  lc_rejected : Forall (fun s => over s /\ status s = RejectedByAcl /\ acl_decision s = "block") rejected;
  lc_counters : map_Forall (fun _ => counters_ok) active /\ Forall counters_ok (closed ++ rejected);
  lc_nodup : NoDup (session_id <$> closed ++ rejected);
  lc_disjoint : forall id, id ∈ (session_id <$> closed ++ rejected) -> active !! id = None;
  lc_controls : dom controls = dom active;
  lc_gauge : ACTIVE_SESSIONS mt = Z.of_nat (size active);
  lc_total : TOTAL_SESSIONS mt = wrap64 (Z.of_nat (size active + length closed));
  lc_refused : REJECTED_SESSIONS mt = wrap64 (Z.of_nat (length rejected));
  lc_durations : SESSION_DURATION mt = omap duration_secs closed;
}.
Definition manager_wf m : Prop :=
  lifecycle (active_sessions m) (closed_sessions m) (rejected_sessions m) (session_controls m)
    (metrics m) /\
  worker_sessions m = ∅ /\ worker_writer m = None.

(** ** Preservation *)

Lemma over_close now reason st s : st <> Active -> over (close now reason st s).
Proof.
  intros Hst. split; [done|]. eexists now, _. split_and!; [done|done|cbn; lia|cbn].
  intros Hle. unfold num_seconds. rewrite Z.quot_div_nonneg by lia.
  pose proof (Z.div_mod (now - start_time s) (10 ^ 9)).
  pose proof (Z.mod_pos_bound (now - start_time s) (10 ^ 9)).
  pose proof (Z.div_pos (now - start_time s) (10 ^ 9)). lia.
Qed.

Lemma wadd64_count (n : nat) : wadd64 (wrap64 (Z.of_nat n)) 1 = wrap64 (Z.of_nat (S n)).
Proof. rewrite wadd64_wrap. f_equal. lia. Qed.

Lemma counters_ok_add u s : wf_update u -> counters_ok s -> counters_ok (add_traffic u s).
Proof.
  intros (?&?&?&?) (?&?&?&?). unfold counters_ok; cbn.
  split_and!; apply sat_add64_bound; unfold is_u64 in *; lia.
Qed.

Lemma record_traffic_frame usr a b mt :
  let mt' := record_traffic usr a b mt in
  ACTIVE_SESSIONS mt' = ACTIVE_SESSIONS mt /\ TOTAL_SESSIONS mt' = TOTAL_SESSIONS mt /\
  REJECTED_SESSIONS mt' = REJECTED_SESSIONS mt /\ SESSION_DURATION mt' = SESSION_DURATION mt.
Proof. unfold record_traffic. by destruct (0 <? a), (0 <? b). Qed.

Lemma lifecycle_new active closed rejected controls mt id c s :
  lifecycle active closed rejected controls mt ->
  live id s -> counters_ok s -> active !! id = None -> id ∉ (session_id <$> closed ++ rejected) ->
  lifecycle (<[id := s]> active) closed rejected (<[id := c]> controls)
    (record_session_start (user s) mt).
Proof.
  intros [] Hl Hc Hn Hid. split; try done.
  - by apply map_Forall_insert_2.
  - split; [|apply lc_counters0]. apply map_Forall_insert_2; [done|apply lc_counters0].
  - intros i Hi. rewrite lookup_insert_ne by set_solver. by apply lc_disjoint0.
  - rewrite !dom_insert_L. by f_equal.
  - cbn. rewrite map_size_insert_None by done. lia.
  - cbn. rewrite lc_total0, wadd64_count, map_size_insert_None by done. done.
Qed.

Lemma lifecycle_update active closed rejected controls mt mt' id s s' :
  lifecycle active closed rejected controls mt ->
  active !! id = Some s -> live id s' -> counters_ok s' ->
  ACTIVE_SESSIONS mt' = ACTIVE_SESSIONS mt /\ TOTAL_SESSIONS mt' = TOTAL_SESSIONS mt /\
  REJECTED_SESSIONS mt' = REJECTED_SESSIONS mt /\ SESSION_DURATION mt' = SESSION_DURATION mt ->
  lifecycle (<[id := s']> active) closed rejected controls mt'.
Proof.
  intros [] Ha Hl Hc (H1 & H2 & H3 & H4).
  assert (size (<[id := s']> active) = size active) as Hs by (apply map_size_insert_Some; by eexists).
  split; try congruence.
  - by apply map_Forall_insert_2.
  - split; [|apply lc_counters0]. apply map_Forall_insert_2; [done|apply lc_counters0].
  - intros i Hi. apply lc_disjoint0 in Hi. rewrite lookup_insert_ne by congruence. done.
  - rewrite dom_insert_lookup_L by (by eexists). done.
Qed.

Lemma lifecycle_close active closed rejected controls mt id s s' :
  lifecycle active closed rejected controls mt ->
  active !! id = Some s -> session_id s' = id -> over s' -> counters_ok s' ->
  lifecycle (delete id active) (closed ++ [s']) rejected (delete id controls)
    (record_session_close (duration_secs s') mt).
Proof.
  intros [] Ha Hid Ho Hc.
  assert (size active = S (size (delete id active))) as Hs.
  { rewrite <- (insert_delete_id active id s) at 1 by done.
    by rewrite map_size_insert_None by apply lookup_delete_eq. }
  assert ((session_id <$> (closed ++ [s']) ++ rejected) ≡ₚ
          id :: (session_id <$> closed ++ rejected)) as Hp.
  { rewrite <- app_assoc, !fmap_app; cbn. rewrite Hid. by rewrite Permutation_middle. }
  split; try done.
  - by apply map_Forall_delete.
  - apply Forall_app. by split; [|constructor].
  - split; [by apply map_Forall_delete, lc_counters0|].
    rewrite <- app_assoc. apply Forall_app. destruct lc_counters0 as [_ [??]%Forall_app].
    split; [done|]. by constructor.
  - rewrite Hp. constructor; [|done]. intros Hin. apply lc_disjoint0 in Hin. congruence.
  - intros i. rewrite Hp. intros [->|Hi]%elem_of_cons; [apply lookup_delete_eq|].
    apply lookup_delete_None. right. by apply lc_disjoint0.
  - rewrite !dom_delete_L. by f_equal.
  - cbn. lia.
  - cbn. rewrite lc_total0, length_app. f_equal. cbn. lia.
  - cbn. rewrite lc_durations0, omap_app. cbn. by destruct (duration_secs s').
Qed.

Lemma lifecycle_reject active closed rejected controls mt s usr :
  lifecycle active closed rejected controls mt ->
  over s /\ status s = RejectedByAcl /\ acl_decision s = "block"%string -> counters_ok s ->
  active !! session_id s = None -> session_id s ∉ (session_id <$> closed ++ rejected) ->
  lifecycle active closed (rejected ++ [s]) controls (record_rejected_session usr mt).
Proof.
  intros [] Ho Hc Hn Hid.
  assert ((session_id <$> closed ++ rejected ++ [s]) ≡ₚ
          session_id s :: (session_id <$> closed ++ rejected)) as Hp.
  { rewrite app_assoc, fmap_app. cbn. by rewrite Permutation_app_comm. }
  split; try done.
  - apply Forall_app. by split; [|constructor].
  - split; [apply lc_counters0|]. rewrite app_assoc. apply Forall_app.
    split; [apply lc_counters0|]. by constructor.
  - rewrite Hp. by constructor.
  - intros i. rewrite Hp. intros [->|Hi]%elem_of_cons; [done|]. by apply lc_disjoint0.
  - cbn. rewrite lc_refused0, wadd64_count, length_app. f_equal. cbn. lia.
Qed.

Lemma manager_wf_close id now reason st m :
  st <> Active -> manager_wf m -> manager_wf (close_session id now reason st m).
Proof.
  intros Hst [Hl Hw]. unfold close_session; cbn.
  destruct (active_sessions m !! id) as [s|] eqn:E; (split; [|exact Hw]); cbn.
  - pose proof (lc_live _ _ _ _ _ Hl id s E) as (Hid & _).
    apply (lifecycle_close _ _ _ _ _ id s); try done; [by apply over_close|].
    apply (proj1 (lc_counters _ _ _ _ _ Hl) id s E).
  - rewrite delete_id; [done|]. apply not_elem_of_dom.
    rewrite (lc_controls _ _ _ _ _ Hl). by apply not_elem_of_dom.
Qed.

Lemma manager_wf_terminate id now reason st m :
  st <> Active -> manager_wf m -> manager_wf (terminate_session id now reason st m).
Proof.
  intros Hst Hw. unfold terminate_session.
  apply manager_wf_close; [done|]. by destruct (session_controls m !! id).
Qed.

Lemma manager_wf_terminate_all {A} (f : A -> Z) (clock : A -> Z) (reason : A -> string) st l m :
  st <> Active -> manager_wf m ->
  manager_wf (fold_left (fun m a => terminate_session (f a) (clock a) (reason a) st m) l m).
Proof.
  intros Hst. revert m. induction l as [|a l IH]; intros m Hw; [done|]. cbn.
  by apply IH, manager_wf_terminate.
Qed.

Lemma manager_wf_new id token now usr conn decision rule udp m :
  fresh_id id m -> manager_wf m ->
  manager_wf (new_session_with_control id token now usr conn decision rule udp m).2.
Proof.
  intros [Hn Hid] [Hl Hw]. split; [|exact Hw]. cbn.
  by apply (lifecycle_new _ _ _ _ _ id _
              (set_status Active (Session_new id now usr conn decision rule)) Hl).
Qed.

Lemma manager_wf_traffic u m :
  wf_update u -> manager_wf m -> manager_wf (update_traffic u m).
Proof.
  intros Hu [Hl Hw]. unfold update_traffic, apply_traffic_update.
  destruct (active_sessions m !! tu_session_id u) as [s|] eqn:E; (split; [|exact Hw]); cbn; [|done].
  apply (lifecycle_update _ _ _ _ (metrics m) _ _ s); [done|done|..].
  - apply (lc_live _ _ _ _ _ Hl _ _ E).
  - apply counters_ok_add; [done|]. apply (proj1 (lc_counters _ _ _ _ _ Hl) _ _ E).
  - apply record_traffic_frame.
Qed.

Lemma manager_wf_reject id now1 now2 usr conn rule m :
  fresh_id id m -> manager_wf m ->
  manager_wf (track_rejected_session id now1 now2 usr conn rule m).2.
Proof.
  intros [Hn Hid] [Hl Hw]. split; [|exact Hw]. cbn.
  apply lifecycle_reject; try done. split_and!; try done. by apply over_close.
Qed.

(** The worker has no session to apply an update to. *)
Lemma worker_step_wf m :
  manager_wf m -> traffic_worker_step m = set_worker (tail (traffic_rx m)) ∅ None m.
Proof.
  intros (_ & Hs & Hw). unfold traffic_worker_step, apply_traffic_update.
  destruct m as [? ? ? ? ? rx ws ww ? ? ?]; cbn in *; subst.
  destruct rx; [done|]. by rewrite lookup_empty.
Qed.

Lemma manager_wf_exec o m : manager_wf m -> allowed_op o m -> manager_wf (exec o m).
Proof.
  intros Hw Ho. destruct o; cbn [exec]; cbn in Ho.
  - by apply manager_wf_new.
  - by apply manager_wf_traffic.
  - exact Hw.
  - rewrite worker_step_wf by done. split; [apply Hw|done].
  - by apply manager_wf_close.
  - by apply manager_wf_terminate.
  - by apply manager_wf_reject.
  - by apply manager_wf_terminate_all.
  - unfold enforce_acl. by apply manager_wf_terminate_all.
  - exact Hw.
  - exact Hw.
Qed.

Lemma manager_wf_runs m0 os m : manager_wf m0 -> runs allowed_op m0 os m -> manager_wf m.
Proof. intros Hi. induction 1; [done|]. by apply manager_wf_exec. Qed.

Lemma manager_wf_init m0 : initial m0 -> manager_wf m0.
Proof.
  intros []; (split; [|done]); (split; try done); constructor.
Qed.

(** ** Versions of the sessions *)

(** What the manager knows of a session. *)
Definition current m (id : Z) : option Session :=
  match active_sessions m !! id with
  | Some s => Some s
  | None => last_version id (closed_sessions m ++ rejected_sessions m)
  end.

Definition enqueue_all (l : list Session) (w : option (BatchWriter T)) : option (BatchWriter T) :=
  fold_left (fun w s => enqueue s <$> w) l w.

(** [l] are the versions that a step makes current, in order; the writer, when
    there is one, is given exactly these. *)
Definition evolves (l : list Session) m m' : Prop :=
  (forall id, current m' id =
     match last_version id l with Some s => Some s | None => current m id end) /\
  batch_writer m' = enqueue_all l (batch_writer m).

Lemma evolves_refl m : evolves [] m m.
Proof. done. Qed.

Lemma evolves_trans l1 l2 m1 m2 m3 :
  evolves l1 m1 m2 -> evolves l2 m2 m3 -> evolves (l1 ++ l2) m1 m3.
Proof.
  intros [Hc1 Hw1] [Hc2 Hw2]. split.
  - intros id. rewrite Hc2, last_version_app, Hc1. by destruct (last_version id l2).
  - unfold enqueue_all in *. by rewrite fold_left_app, <- Hw1.
Qed.

Lemma current_ended id m : id ∉ ended_ids m -> current m id = active_sessions m !! id.
Proof.
  unfold current, ended_ids. intros Hn%last_version_None. rewrite Hn.
  by destruct (active_sessions m !! id).
Qed.

Lemma evolves_new id token now usr conn decision rule udp m :
  fresh_id id m ->
  evolves [set_status Active (Session_new id now usr conn decision rule)] m
    (new_session_with_control id token now usr conn decision rule udp m).2.
Proof.
  intros [Hn Hid]. split; [|done]. intros i. rewrite last_version_one. unfold current; cbn.
  destruct (Z.eqb_spec id i) as [<-|Hne]; [by rewrite lookup_insert_eq|].
  by rewrite lookup_insert_ne.
Qed.

Lemma evolves_traffic u m :
  manager_wf m ->
  evolves (match active_sessions m !! tu_session_id u with
           | Some s => [add_traffic u s] | None => [] end) m (update_traffic u m).
Proof.
  intros [Hl _]. unfold update_traffic, apply_traffic_update.
  destruct (active_sessions m !! tu_session_id u) as [s|] eqn:E; [|done].
  pose proof (lc_live _ _ _ _ _ Hl _ _ E) as [Hid _].
  split; [|done]. intros i. rewrite last_version_one. unfold current; cbn. rewrite Hid.
  destruct (Z.eqb_spec (tu_session_id u) i) as [<-|Hne]; [by rewrite lookup_insert_eq|].
  by rewrite lookup_insert_ne.
Qed.

Lemma evolves_close id now reason st m :
  manager_wf m ->
  evolves (match active_sessions m !! id with
           | Some s => [close now reason st s] | None => [] end) m
    (close_session id now reason st m).
Proof.
  intros [Hl _]. unfold close_session; cbn.
  destruct (active_sessions m !! id) as [s|] eqn:E; [|done].
  pose proof (lc_live _ _ _ _ _ Hl _ _ E) as [Hid _].
  assert (last_version id (rejected_sessions m) = None) as Hr.
  { apply last_version_None. intros Hin.
    assert (active_sessions m !! id = None); [|congruence].
    apply (lc_disjoint _ _ _ _ _ Hl). rewrite fmap_app. set_solver. }
  split; [|done]. intros i. rewrite last_version_one. unfold current; cbn.
  rewrite Hid, !last_version_app, last_version_one; cbn. rewrite Hid.
  destruct (Z.eqb_spec id i) as [<-|Hne].
  - by rewrite lookup_delete_eq, Hr.
  - by rewrite lookup_delete_ne.
Qed.

Lemma evolves_terminate id now reason st m :
  manager_wf m ->
  evolves (match active_sessions m !! id with
           | Some s => [close now (Some reason) st s] | None => [] end) m
    (terminate_session id now reason st m).
Proof.
  intros Hw. unfold terminate_session.
  destruct (session_controls m !! id) as [c|]; [|by apply evolves_close].
  by apply (evolves_close id now (Some reason) st (cancel (cancel_token c) (udp_shutdown c) m)).
Qed.

Lemma evolves_reject id now1 now2 usr conn rule m :
  fresh_id id m ->
  evolves [close now2 (Some "Rejected by ACL"%string) RejectedByAcl
             (Session_new id now1 usr conn "block" rule)] m
    (track_rejected_session id now1 now2 usr conn rule m).2.
Proof.
  intros [Hn Hid]. split; [|done]. intros i. rewrite last_version_one. unfold current; cbn.
  rewrite app_assoc, (last_version_app _ (_ ++ _)), last_version_one; cbn.
  destruct (Z.eqb_spec id i) as [<-|Hne]; [by rewrite Hn|done].
Qed.
(** C26: Whatever sequence of operations ran, every session ever created is in
    exactly one of the active, closed and rejected collections, and has the
    shape of its place: an active one is [Active] and open, an ended one has an
    end and its duration in whole seconds, a rejected one is [RejectedByAcl];
    exactly the active sessions have a cancellation control, the gauge counts
    them, the totals count the created and the refused ones, and no 64-bit
    counter leaves its range. *)
Theorem session_lifecycle m0 os m : initial m0 -> runs allowed_op m0 os m -> manager_wf m.
Proof. intros Hi. by apply manager_wf_runs, manager_wf_init. Qed.

(** The updates that the UDP relay queues are never applied: the worker
    was given copies of the manager's map and writer cell, made before there
    was anything in them, so a round of it takes an update from the channel
    and changes neither a session nor the writer nor a counter. *)
Theorem queued_traffic_lost m0 os m :
  initial m0 -> runs allowed_op m0 os m ->
  traffic_worker_step m = set_worker (tail (traffic_rx m)) ∅ None m.
Proof.
  intros Hi Hr. apply worker_step_wf. eapply manager_wf_runs; [|done]. by apply manager_wf_init.
Qed.

(** ** Traffic accounting *)

(** The updates that reach session [id] while it is active. *)
Definition applied1 (id : Z) m (o : op) : list TrafficUpdate :=
  match o with
  | OTraffic u =>
    if decide (tu_session_id u = id /\ is_Some (active_sessions m !! id)) then [u] else []
  | _ => []
  end.
Fixpoint applied (id : Z) m (os : list op) : list TrafficUpdate :=
  match os with
  | [] => []
  | o :: os' => applied1 id m o ++ applied id (exec o m) os'
  end.

Definition total (f : TrafficUpdate -> Z) (us : list TrafficUpdate) : Z :=
  foldr (fun u n => n + f u) 0 (rev us).
Definition accounts (us : list TrafficUpdate) (s : Session) : Prop :=
  bytes_sent s = Z.min (total tu_bytes_sent us) u64_max /\
  bytes_received s = Z.min (total tu_bytes_received us) u64_max /\
  packets_sent s = Z.min (total tu_packets_sent us) u64_max /\
  packets_received s = Z.min (total tu_packets_received us) u64_max.
Definition accounted (us : list TrafficUpdate) (s : option Session) : Prop :=
  match s with Some s => accounts us s | None => us = [] end.

Lemma total_snoc f us u : total f (us ++ [u]) = total f us + f u.
Proof. unfold total. by rewrite rev_app_distr. Qed.

Lemma sat_add64_min a b : 0 <= b -> sat_add64 (Z.min a u64_max) b = Z.min (a + b) u64_max.
Proof. unfold sat_add64. lia. Qed.

Lemma accounts_add us u s :
  wf_update u -> accounts us s -> accounts (us ++ [u]) (add_traffic u s).
Proof.
  intros (H1&H2&H3&H4) (E1&E2&E3&E4). unfold accounts. cbn.
  rewrite E1, E2, E3, E4, !total_snoc.
  by rewrite !sat_add64_min by (apply H1 || apply H2 || apply H3 || apply H4).
Qed.

Definition same_counters (s s' : Session) : Prop :=
  bytes_sent s = bytes_sent s' /\ bytes_received s = bytes_received s' /\
  packets_sent s = packets_sent s' /\ packets_received s = packets_received s'.

(** A step that leaves the sessions' counters alone. *)
Definition quiet m m' : Prop :=
  forall id, option_relation same_counters (fun _ => False) (fun _ => False)
               (current m id) (current m' id).

Lemma accounted_quiet us m m' id :
  quiet m m' -> accounted us (current m id) -> accounted us (current m' id).
Proof.
  intros Hq. specialize (Hq id). destruct (current m id), (current m' id); try done.
  destruct Hq as (H1&H2&H3&H4). cbn. unfold accounts. by rewrite H1, H2, H3, H4.
Qed.

#[local] Instance quiet_preorder : PreOrder quiet.
Proof.
  split.
  - intros m id. by destruct (current m id).
  - intros m1 m2 m3 H1 H2 id. specialize (H1 id). specialize (H2 id).
    destruct (current m1 id), (current m2 id), (current m3 id); try done.
    cbn in *. unfold same_counters in *. intuition congruence.
Qed.

Lemma quiet_close id now reason st m :
  manager_wf m -> quiet m (close_session id now reason st m).
Proof.
  intros Hw i. destruct (evolves_close id now reason st m Hw) as [Hc _]. rewrite Hc.
  destruct (active_sessions m !! id) as [s|] eqn:E.
  - pose proof (lc_live _ _ _ _ _ (proj1 Hw) _ _ E) as [Hid _].
    rewrite last_version_one. cbn. rewrite Hid. destruct (Z.eqb_spec id i) as [<-|Hne].
    + unfold current. by rewrite E.
    + by destruct (current m i).
  - rewrite last_version_nil. by destruct (current m i).
Qed.

Lemma quiet_terminate_all {A} (f : A -> Z) (clock : A -> Z) (reason : A -> string) st l m :
  st <> Active -> manager_wf m ->
  quiet m (fold_left (fun m a => terminate_session (f a) (clock a) (reason a) st m) l m).
Proof.
  intros Hst. revert m. induction l as [|a l IH]; intros m Hw; [reflexivity|]. cbn.
  transitivity (terminate_session (f a) (clock a) (reason a) st m).
  - unfold terminate_session. destruct (session_controls m !! f a) as [c|].
    + by apply (quiet_close _ _ _ _ (cancel (cancel_token c) (udp_shutdown c) m)).
    + by apply quiet_close.
  - by apply IH, manager_wf_terminate.
Qed.

Lemma applied_app id m os1 os2 :
  applied id m (os1 ++ os2) =
  applied id m os1 ++ applied id (fold_left (fun m o => exec o m) os1 m) os2.
Proof.
  revert m. induction os1 as [|o os1 IH]; intros m; [done|]. cbn. by rewrite IH, app_assoc.
Qed.

Lemma runs_fold P m0 os m : runs P m0 os m -> m = fold_left (fun m o => exec o m) os m0.
Proof. induction 1 as [|os o m Hr IH Ho]; [done|]. by rewrite fold_left_app, <- IH. Qed.

(** One step of the accounting. *)
Lemma accounted_exec id us o m :
  manager_wf m -> allowed_op o m -> accounted us (current m id) ->
  accounted (us ++ applied1 id m o) (current (exec o m) id).
Proof.
  intros Hw Ho Ha.
  assert (forall m', quiet m m' -> accounted (us ++ []) (current m' id)) as Hq.
  { intros m' Hq. rewrite app_nil_r. by apply (accounted_quiet _ m). }
  destruct o as [i token now usr conn dec rule udp|u|u| |i now reason st|i now reason st
                |i now1 now2 usr conn rule|clock reason st|clock eng|o|o]; cbn [exec applied1]; cbn in Ho.
  - rewrite app_nil_r, (proj1 (evolves_new _ _ _ _ _ _ _ _ _ Ho)), last_version_one; cbn.
    destruct (Z.eqb_spec i id) as [<-|Hne]; [|done].
    rewrite (current_ended i m) in Ha by apply Ho. rewrite (proj1 Ho) in Ha. cbn in Ha. by subst.
  - rewrite (proj1 (evolves_traffic u m Hw)).
    destruct (active_sessions m !! tu_session_id u) as [s|] eqn:E.
    + pose proof (lc_live _ _ _ _ _ (proj1 Hw) _ _ E) as [Hid _].
      rewrite last_version_one; cbn. rewrite Hid. case_decide as Hd.
      * destruct Hd as [<- _]. rewrite Z.eqb_refl. apply accounts_add; [done|].
        unfold current in Ha. by rewrite E in Ha.
      * destruct (Z.eqb_spec (tu_session_id u) id) as [<-|Hne]; [|by rewrite app_nil_r].
        destruct Hd. by rewrite E.
    + rewrite last_version_nil. case_decide as Hd; [|by rewrite app_nil_r].
      destruct Hd as [<- Hs]. rewrite E in Hs. by destruct Hs.
  - exact (Hq m (reflexivity m)).
  - rewrite worker_step_wf by done. exact (Hq m (reflexivity m)).
  - by apply Hq, quiet_close.
  - apply Hq, (quiet_terminate_all (fun i => i) (fun _ => now) (fun _ => reason) st [i]); done.
  - rewrite app_nil_r, (proj1 (evolves_reject _ _ _ _ _ _ _ Ho)), last_version_one; cbn.
    destruct (Z.eqb_spec i id) as [<-|Hne]; [|done].
    rewrite (current_ended i m) in Ha by apply Ho. rewrite (proj1 Ho) in Ha. cbn in Ha. by subst.
  - by apply Hq, quiet_terminate_all.
  - unfold enforce_acl. by apply Hq, quiet_terminate_all.
  - exact (Hq m (reflexivity m)).
  - exact (Hq m (reflexivity m)).
Qed.

Lemma accounted_runs m0 os m id :
  initial m0 -> runs allowed_op m0 os m -> accounted (applied id m0 os) (current m id).
Proof.
  intros Hi Hr. induction Hr as [|os o m Hr IH Ho]; [by destruct Hi|].
  rewrite applied_app, <- (runs_fold _ _ _ _ Hr); cbn. rewrite app_nil_r.
  apply accounted_exec; [|done|done].
  eapply manager_wf_runs; [by apply manager_wf_init|done].
Qed.

(** After any sequence of operations, the four counters of a session,
    active or ended, are the sums of the updates that reached it while it was
    active, saturated at the largest 64-bit integer; an update for a session
    that is not active yet, or not any more, changes nothing. *)
Theorem traffic_accounting m0 os m id s :
  initial m0 -> runs allowed_op m0 os m -> current m id = Some s ->
  accounts (applied id m0 os) s.
Proof. intros Hi Hr Hs. pose proof (accounted_runs _ _ _ id Hi Hr) as Ha. by rewrite Hs in Ha. Qed.

(** ** Termination of several sessions *)

Section terminate_all.
Context {A : Type} (f : A -> Z) (clock : A -> Z) (reason : A -> string) (st : SessionStatus).
Let all l m := fold_left (fun m a => terminate_session (f a) (clock a) (reason a) st m) l m.

Lemma active_terminate id now r m :
  active_sessions (terminate_session id now r st m) = delete id (active_sessions m).
Proof.
  unfold terminate_session, close_session.
  destruct (session_controls m !! id); cbn;
    (destruct (active_sessions m !! id) eqn:E; cbn; [done|by rewrite delete_id]).
Qed.

Lemma cancelled_terminate id now r m :
  cancelled (terminate_session id now r st m) =
  match session_controls m !! id with
  | Some c => {[cancel_token c]} ∪ cancelled m
  | None => cancelled m
  end.
Proof.
  unfold terminate_session, close_session.
  destruct (session_controls m !! id); cbn; by destruct (active_sessions m !! id).
Qed.

Lemma controls_terminate id now r m :
  session_controls (terminate_session id now r st m) = delete id (session_controls m).
Proof.
  unfold terminate_session, close_session.
  destruct (session_controls m !! id); cbn; by destruct (active_sessions m !! id).
Qed.

Lemma rejected_terminate id now r m :
  rejected_sessions (terminate_session id now r st m) = rejected_sessions m.
Proof.
  unfold terminate_session, close_session.
  destruct (session_controls m !! id); cbn; by destruct (active_sessions m !! id).
Qed.

Lemma active_terminate_all l m id :
  active_sessions (all l m) !! id =
  if decide (id ∈ f <$> l) then None else active_sessions m !! id.
Proof.
  revert m. induction l as [|a l IH]; intros m; [done|]. cbn. unfold all in IH.
  rewrite IH, active_terminate. case_decide as H1; case_decide as H2; [done|set_solver|..].
  - apply elem_of_cons in H2 as [->|H2]; [|done]. by rewrite lookup_delete_eq.
  - rewrite lookup_delete_ne by set_solver. done.
Qed.

Lemma rejected_terminate_all l m : rejected_sessions (all l m) = rejected_sessions m.
Proof.
  revert m. induction l as [|a l IH]; intros m; [done|]. cbn. unfold all in IH.
  by rewrite IH, rejected_terminate.
Qed.

(** A token is cancelled exactly if it was, or if it controls one of them. *)
Lemma cancelled_terminate_all l m tok :
  tok ∈ cancelled (all l m) <->
  tok ∈ cancelled m \/
  exists a c, a ∈ l /\ session_controls m !! f a = Some c /\ cancel_token c = tok.
Proof.
  revert m. induction l as [|a l IH]; intros m; [cbn; set_solver|]. cbn. unfold all in IH.
  rewrite IH, cancelled_terminate, controls_terminate. clear IH. split.
  - intros [Ht|(b & c & Hb & Hc & <-)].
    + destruct (session_controls m !! f a) as [c|] eqn:E; [|by left].
      apply elem_of_union in Ht as [->%elem_of_singleton|Ht]; [|by left].
      right. exists a, c. set_solver.
    + apply lookup_delete_Some in Hc as [_ Hc]. right. exists b, c. set_solver.
  - intros [Ht|(b & c & Hb & Hc & <-)].
    + left. destruct (session_controls m !! f a); set_solver.
    + destruct (decide (f b = f a)) as [E|E].
      * left. rewrite <- E, Hc. set_solver.
      * right. exists b, c. rewrite lookup_delete_ne by done.
        apply elem_of_cons in Hb as [->|Hb]; [done|]. done.
Qed.

Lemma current_terminate_all l m :
  st <> Active -> manager_wf m -> NoDup (f <$> l) ->
  (forall id, id ∉ f <$> l -> current (all l m) id = current m id) /\
  (forall a s, a ∈ l -> active_sessions m !! f a = Some s ->
     current (all l m) (f a) = Some (close (clock a) (Some (reason a)) st s)).
Proof.
  intros Hst. revert m. induction l as [|a l IH]; intros m Hw Hnd; [set_solver|].
  cbn in *. apply NoDup_cons in Hnd as [Hn Hnd]. unfold all in *.
  set (m1 := terminate_session (f a) (clock a) (reason a) st m).
  destruct (IH m1) as [IH1 IH2]; [by apply manager_wf_terminate|done|].
  destruct (evolves_terminate (f a) (clock a) (reason a) st m Hw) as [Hc _]. fold m1 in Hc.
  assert (forall id, id <> f a -> current m1 id = current m id) as Hother.
  { intros id Hne. rewrite Hc. destruct (active_sessions m !! f a) as [s|] eqn:E; [|done].
    pose proof (lc_live _ _ _ _ _ (proj1 Hw) _ _ E) as [Hid _].
    rewrite last_version_one; cbn. rewrite Hid. by destruct (Z.eqb_spec (f a) id) as [<-|?]. }
  split.
  - intros id Hid. rewrite IH1 by set_solver. apply Hother. set_solver.
  - intros b s Hb Hs. apply elem_of_cons in Hb as [->|Hb].
    + rewrite IH1, Hc, Hs by done.
      pose proof (lc_live _ _ _ _ _ (proj1 Hw) _ _ Hs) as [Hid _].
      rewrite last_version_one; cbn. by rewrite Hid, Z.eqb_refl.
    + apply IH2; [done|]. unfold m1. rewrite active_terminate.
      rewrite lookup_delete_ne; [done|]. intros E. apply Hn. rewrite E. by apply list_elem_of_fmap_2.
Qed.
End terminate_all.

(** ** Revocation *)

Lemma elem_of_iter_ids (x : gmap Z Session) id s : (id, s) ∈ iter_ids x <-> x !! id = Some s.
Proof. rewrite (iter_ids_perm x). apply elem_of_map_to_list. Qed.

Lemma iter_ids_session_id m :
  manager_wf m ->
  session_id <$> get_active_sessions m = (iter_ids (active_sessions m)).*1.
Proof.
  intros [Hl _]. unfold get_active_sessions. rewrite <- list_fmap_compose.
  apply list_fmap_ext. intros j [id s] Hj. cbn.
  apply list_elem_of_lookup_2, elem_of_iter_ids in Hj. by apply (lc_live _ _ _ _ _ Hl).
Qed.

Lemma nodup_iter_ids (x : gmap Z Session) : NoDup (iter_ids x).*1.
Proof. rewrite (iter_ids_perm x). apply NoDup_fst_map_to_list. Qed.

Lemma nodup_omap_fst {A B} (g : A -> Z) (h : A -> option B) l :
  NoDup (g <$> l) -> NoDup (omap (fun a => (fun b => (g a, b)) <$> h a) l).*1.
Proof.
  intros Hn. eapply sublist_NoDup; [exact Hn|]. clear Hn.
  induction l as [|a l IH]; [constructor|]. cbn. destruct (h a); cbn; by constructor.
Qed.

Lemma elem_of_active_sessions m s :
  s ∈ get_active_sessions m <-> exists id, active_sessions m !! id = Some s.
Proof.
  unfold get_active_sessions. rewrite list_elem_of_fmap. split.
  - intros ([id s'] & -> & Hin%elem_of_iter_ids). by exists id.
  - intros [id Hs%elem_of_iter_ids]. by exists (id, s).
Qed.

Lemma elem_of_to_terminate eng m id reason :
  manager_wf m ->
  (id, reason) ∈ to_terminate eng m <->
  exists s, active_sessions m !! id = Some s /\ revocation eng s = Some reason.
Proof.
  intros Hw. unfold to_terminate. rewrite list_elem_of_omap. split.
  - intros (s & (i & Hs)%elem_of_active_sessions & Hr).
    destruct (revocation eng s) as [r|] eqn:E; simplify_eq/=.
    pose proof (lc_live _ _ _ _ _ (proj1 Hw) _ _ Hs) as [<- _]. by exists s.
  - intros (s & Hs & Hr). exists s. split; [apply elem_of_active_sessions; by exists id|].
    pose proof (lc_live _ _ _ _ _ (proj1 Hw) _ _ Hs) as [<- _]. by rewrite Hr.
Qed.

Lemma dom_to_terminate eng m id :
  manager_wf m ->
  id ∈ (to_terminate eng m).*1 <->
  exists s, active_sessions m !! id = Some s /\ revocation eng s <> None.
Proof.
  intros Hw. rewrite list_elem_of_fmap. split.
  - intros ([i r] & -> & Hin). apply elem_of_to_terminate in Hin as (s & Hs & Hr); [|done].
    exists s. by rewrite Hr.
  - intros (s & Hs & Hr). destruct (revocation eng s) as [r|] eqn:E; [|done].
    exists (id, r). split; [done|]. apply elem_of_to_terminate; [done|]. by exists s.
Qed.

Lemma nodup_to_terminate eng m : manager_wf m -> NoDup (to_terminate eng m).*1.
Proof.
  intros Hw. apply nodup_omap_fst. rewrite iter_ids_session_id by done. apply nodup_iter_ids.
Qed.

Lemma enforce_acl_revokes clock eng m :
  manager_wf m ->
  let m' := enforce_acl clock eng m in
  (forall id s, active_sessions m !! id = Some s ->
     match revocation eng s with
     | None => active_sessions m' !! id = Some s
     | Some reason =>
       active_sessions m' !! id = None /\
       current m' id = Some (close (clock id) (Some reason) Failed s) /\
       exists c, session_controls m !! id = Some c /\ cancel_token c ∈ cancelled m'
     end) /\
  (forall id, active_sessions m !! id = None ->
     active_sessions m' !! id = None /\ current m' id = current m id) /\
  (forall tok, tok ∈ cancelled m' -> tok ∈ cancelled m \/
     exists id s c, active_sessions m !! id = Some s /\ revocation eng s <> None /\
       session_controls m !! id = Some c /\ cancel_token c = tok) /\
  map_Forall (fun _ s => revocation eng s = None) (active_sessions m').
Proof.
  intros Hw. unfold enforce_acl.
  set (l := to_terminate eng m).
  pose proof (elem_of_to_terminate eng m) as Hin. pose proof (dom_to_terminate eng m) as Hin1.
  pose proof (nodup_to_terminate eng m Hw) as Hnd. fold l in Hin, Hin1, Hnd.
  specialize (fun id reason => Hin id reason Hw). specialize (fun id => Hin1 id Hw).
  destruct (current_terminate_all fst (fun t => clock t.1) snd Failed l m) as [Hc1 Hc2]; [done..|].
  cbn zeta. split_and!.
  - intros id s Hs. destruct (revocation eng s) as [reason|] eqn:Er.
    + assert ((id, reason) ∈ l) as Hl by (apply Hin; by exists s).
      split_and!.
      * rewrite active_terminate_all, decide_True; [done|].
        apply Hin1. exists s. by rewrite Er.
      * by apply (Hc2 (id, reason) s).
      * assert (is_Some (session_controls m !! id)) as [c Hcc].
        { apply elem_of_dom. rewrite (lc_controls _ _ _ _ _ (proj1 Hw)). by apply elem_of_dom. }
        exists c. split; [done|]. apply cancelled_terminate_all. right. by exists (id, reason), c.
    + rewrite active_terminate_all, decide_False; [done|].
      intros (s' & Hs' & Hr)%Hin1. congruence.
  - intros id Hn. assert (id ∉ l.*1) as Hni by (intros (s & Hs & _)%Hin1; congruence).
    rewrite active_terminate_all, decide_False by done. split; [done|]. by apply Hc1.
  - intros tok [Ht|([id r] & c & (s & Hs & Hr)%Hin & Hcc & <-)]%cancelled_terminate_all; [by left|].
    right. exists id, s, c. by rewrite Hr.
  - intros id s Hs. rewrite active_terminate_all in Hs. case_decide as Hd; [done|].
    destruct (revocation eng s) as [r|] eqn:E; [|done].
    destruct Hd. apply Hin1. exists s. by rewrite E.
Qed.

(** What the rules say of a session: those of its user with the groups of the
    configuration, for the destination the client asked for. *)
Definition session_verdict (eng : AclEngine) (s : Session) : AclDecision * option string :=
  evaluate eng (user s)
    match parse_ipv4 (dest_ip s), parse_ipv6 (dest_ip s) with
    | Some o, _ => Protocol.IPv4 o
    | None, Some o => Protocol.IPv6 o
    | None, None => Protocol.Domain (dest_ip s)
    end
    (dest_port s) match protocol s with Session.Tcp => Acl.Tcp | Session.Udp => Acl.Udp end.
Definition acl_reason (rule : option string) : string :=
  "Terminated by ACL update (" +:+ default "Default policy" rule +:+ ")".

Lemma revocation_verdict eng s : revocation eng s =
  match session_verdict eng s with
  | (DecisionBlock, rule) => Some (acl_reason rule)
  | (DecisionAllow, _) => None
  end.
Proof.
  unfold revocation, session_verdict, session_address, session_acl_protocol.
  destruct (parse_ipv4 (dest_ip s)), (parse_ipv6 (dest_ip s)), (protocol s); by destruct (evaluate _ _ _ _ _) as [[]].
Qed.

(** C18: [enforce_acl] ends exactly the active sessions that the engine blocks.
    A blocked one leaves the active map, is recorded as [Failed] with the
    matching rule as the reason, and its token is cancelled; any other stays as
    it was; no ended session changes, no other token is cancelled, and no
    session that the engine blocks is left active. *)
Theorem enforce_acl_exact clock eng m :
  manager_wf m ->
  let m' := enforce_acl clock eng m in
  (forall id s, active_sessions m !! id = Some s ->
     match session_verdict eng s with
     | (DecisionAllow, _) => active_sessions m' !! id = Some s
     | (DecisionBlock, rule) =>
       active_sessions m' !! id = None /\
       current m' id = Some (close (clock id) (Some (acl_reason rule)) Failed s) /\
       exists c, session_controls m !! id = Some c /\ cancel_token c ∈ cancelled m'
     end) /\
  (forall id, active_sessions m !! id = None ->
     active_sessions m' !! id = None /\ current m' id = current m id) /\
  (forall tok, tok ∈ cancelled m' -> tok ∈ cancelled m \/
     exists id s c, active_sessions m !! id = Some s /\ (session_verdict eng s).1 = DecisionBlock /\
       session_controls m !! id = Some c /\ cancel_token c = tok) /\
  map_Forall (fun _ s => (session_verdict eng s).1 = DecisionAllow) (active_sessions m').
Proof.
  intros Hw. destruct (enforce_acl_revokes clock eng m Hw) as (H1 & H2 & H3 & H4). cbn zeta. split_and!.
  - intros id s Hs. specialize (H1 id s Hs). rewrite revocation_verdict in H1.
    by destruct (session_verdict eng s) as [[]].
  - exact H2.
  - intros tok [?|(id & s & c & Hs & Hr & Hc)]%H3; [by left|right]. exists id, s, c.
    split; [done|]. split; [|done]. rewrite revocation_verdict in Hr. by destruct (session_verdict eng s) as [[]].
  - intros id s Hs. specialize (H4 id s Hs). cbn in H4. rewrite revocation_verdict in H4.
    by destruct (session_verdict eng s) as [[]].
Qed.

(** ** The write-behind queue *)

(** The row that the database holds for a session, once the queue is written. *)
Definition pending_row (w : BatchWriter T) (id : Z) : option row :=
  match last_version id (queue w) with
  | Some s => Some (encode s)
  | None => stored (store w) id
  end.

Definition consistent m : Prop :=
  exists w, batch_writer m = Some w /\
    forall id s, current m id = Some s -> pending_row w id = Some (encode s).

Lemma enqueue_all_Some l w :
  exists w', enqueue_all l (Some w) = Some w' /\ queue w' = queue w ++ l /\ store w' = store w.
Proof.
  revert w. induction l as [|s l IH]; intros w; [exists w; by rewrite app_nil_r|].
  destruct (IH (enqueue s w)) as (w' & Hw & Hq & Hs). exists w'. split_and!; [done| |done].
  rewrite Hq. cbn. by rewrite <- app_assoc.
Qed.

Lemma consistent_evolves l m m' : evolves l m m' -> consistent m -> consistent m'.
Proof.
  intros [Hc Hw] (w & Hb & Hp). rewrite Hb in Hw.
  destruct (enqueue_all_Some l w) as (w' & Hw' & Hq & Hs). exists w'. split; [congruence|].
  intros id s. rewrite Hc. unfold pending_row. rewrite Hq, last_version_app, Hs.
  destruct (last_version id l) as [s'|]; [by intros [= ->]|]. intros Hcur. by apply Hp.
Qed.

Lemma pending_row_flush o w id :
  flush_ok o w -> pending_row (flush o w) id = pending_row w id.
Proof.
  unfold flush_ok, flush, pending_row. intros Hok. destruct (queue w) as [|s l] eqn:E.
  - by rewrite E.
  - cbn [queue store]. by rewrite (save_batch_ok _ _ _ id Hok).
Qed.

Lemma queue_flush o w : queue (flush o w) = [].
Proof. unfold flush. by destruct (queue w) eqn:E. Qed.

Lemma consistent_flush (g : BatchWriter T -> BatchWriter T) m :
  (forall w, batch_writer m = Some w -> forall id, pending_row (g w) id = pending_row w id) ->
  consistent m -> consistent (set_writer (g <$> batch_writer m) m).
Proof.
  intros Hg (w & Hb & Hp). exists (g w). cbn. rewrite Hb. split; [done|].
  intros id s Hs. rewrite (Hg w Hb). by apply Hp.
Qed.

Lemma evolves_terminate_all {A} (f : A -> Z) (clock : A -> Z) (reason : A -> string) st l m :
  st <> Active -> manager_wf m ->
  exists vs, evolves vs m
    (fold_left (fun m a => terminate_session (f a) (clock a) (reason a) st m) l m).
Proof.
  intros Hst. revert m. induction l as [|a l IH]; intros m Hw; [by exists []|]. cbn.
  destruct (IH (terminate_session (f a) (clock a) (reason a) st m)) as [vs Hvs];
    [by apply manager_wf_terminate|].
  eexists. eapply evolves_trans; [by apply evolves_terminate|exact Hvs].
Qed.

Lemma consistent_terminate_all {A} (f : A -> Z) (clock : A -> Z) (reason : A -> string) st l m :
  st <> Active -> manager_wf m -> consistent m ->
  consistent (fold_left (fun m a => terminate_session (f a) (clock a) (reason a) st m) l m).
Proof.
  intros Hst Hw. destruct (evolves_terminate_all f clock reason st l m Hst Hw) as [vs Hvs].
  by apply (consistent_evolves vs).
Qed.

Lemma consistent_exec o m :
  manager_wf m -> saving_op o m -> consistent m -> consistent (exec o m).
Proof.
  intros Hw [Ho Hf] Hc. destruct o; cbn [exec]; cbn in Ho, Hf.
  - eapply consistent_evolves; [by apply evolves_new|done].
  - eapply consistent_evolves; [by apply evolves_traffic|done].
  - exact Hc.
  - rewrite worker_step_wf by done. exact Hc.
  - eapply consistent_evolves; [by apply evolves_close|done].
  - eapply consistent_evolves; [by apply evolves_terminate|done].
  - eapply consistent_evolves; [by apply evolves_reject|done].
  - by apply consistent_terminate_all.
  - unfold enforce_acl. by apply consistent_terminate_all.
  - apply consistent_flush; [|done]. intros w Hb id. unfold on_tick.
    destruct (running w); [by apply pending_row_flush, Hf|done].
  - apply consistent_flush; [|done]. intros w Hb id. unfold on_notified.
    destruct (running w && flush_permit w); [|done].
    exact (pending_row_flush o (mkBatchWriter (bw_config w) (store w) (queue w) false (running w))
             id (Hf w Hb)).
Qed.

Lemma consistent_runs t config os m :
  runs saving_op (with_store t config SessionMetrics_init) os m -> manager_wf m /\ consistent m.
Proof.
  intros Hr. induction Hr as [|os o m Hr [IHw IHc] Ho].
  - split; [apply manager_wf_init; constructor|]. by eexists.
  - split; [apply manager_wf_exec; [done|apply Ho]|by apply consistent_exec].
Qed.

(** With a database whose transactions succeed, whatever operations ran,
    the last version of every session, active or ended, is either waiting in
    the queue or is the row the database holds. *)
Theorem write_behind_consistent t config os m id s :
  runs saving_op (with_store t config SessionMetrics_init) os m ->
  current m id = Some s ->
  exists w, batch_writer m = Some w /\ pending_row w id = Some (encode s).
Proof.
  intros [_ (w & Hb & Hp)]%consistent_runs Hs. exists w. split; [done|]. by apply Hp.
Qed.

Lemma evolves_store l m m' :
  evolves l m m' -> store <$> batch_writer m' = store <$> batch_writer m.
Proof.
  intros [_ ->]. destruct (batch_writer m) as [w|].
  - destruct (enqueue_all_Some l w) as (w' & -> & _ & Hs). cbn. by rewrite Hs.
  - unfold enqueue_all. by induction l.
Qed.

(** What every transaction on the database preserves holds of the database of
    every reachable manager. *)
Section database_invariant.
Context (P : T -> Prop) (P_save : forall o b t, P t -> P (save_batch o b t).2).

Definition database m : Prop := forall w, batch_writer m = Some w -> P (store w).

Lemma database_store m m' :
  store <$> batch_writer m' = store <$> batch_writer m -> database m -> database m'.
Proof.
  intros He Hm w Hw. rewrite Hw in He. destruct (batch_writer m) as [w0|] eqn:E; [|done].
  injection He as ->. by apply Hm.
Qed.

Lemma P_flush o w : P (store w) -> P (store (flush o w)).
Proof. intros Hw. unfold flush. destruct (queue w); [done|]. by apply P_save. Qed.

Lemma database_writer (g : BatchWriter T -> BatchWriter T) m :
  (forall w, P (store w) -> P (store (g w))) ->
  database m -> database (set_writer (g <$> batch_writer m) m).
Proof.
  intros Hg Hm w. cbn. destruct (batch_writer m) as [w0|] eqn:E; [|done].
  intros [= <-]. by apply Hg, Hm.
Qed.

Lemma database_exec o m : manager_wf m -> allowed_op o m -> database m -> database (exec o m).
Proof.
  intros Hw Ho Hc. destruct o; cbn [exec]; cbn in Ho;
    try (apply database_writer; [|exact Hc]; intros w Hp; unfold on_tick, on_notified;
         match goal with |- context [if ?b then _ else _] => destruct b end; [by apply P_flush|done]).
  - eapply database_store; [by eapply evolves_store, evolves_new|done].
  - eapply database_store; [by eapply evolves_store, evolves_traffic|done].
  - exact Hc.
  - rewrite worker_step_wf by done. exact Hc.
  - eapply database_store; [by eapply evolves_store, evolves_close|done].
  - eapply database_store; [by eapply evolves_store, evolves_terminate|done].
  - eapply database_store; [by eapply evolves_store, evolves_reject|done].
  - destruct (evolves_terminate_all (fun i => i) clock (fun _ => reason) st
      (iter_ids (active_sessions m)).*1 m Ho Hw) as [vs Hvs].
    eapply database_store; [by eapply evolves_store|done].
  - destruct (evolves_terminate_all fst (fun t => clock t.1) snd Failed (to_terminate engine m) m
      ltac:(done) Hw) as [vs Hvs].
    eapply database_store; [by eapply evolves_store|done].
Qed.

Lemma database_runs t config os m :
  P t -> runs saving_op (with_store t config SessionMetrics_init) os m -> database m.
Proof.
  intros Ht Hr. induction Hr as [|os o m Hr IH Ho]; [by intros w [= <-]|].
  apply database_exec; [|apply Ho|done]. by apply (consistent_runs t config os).
Qed.

Lemma database_shutdown clock o waiting m :
  manager_wf m -> database m -> database (shutdown clock o waiting m).
Proof.
  intros Hw Hm. unfold shutdown. apply database_writer.
  - intros w Hp. unfold batch_shutdown. by apply P_flush.
  - destruct (evolves_terminate_all (fun i => i) clock (fun _ => "Server shutdown"%string) Failed
      (iter_ids (active_sessions m)).*1 m ltac:(done) Hw) as [vs Hvs].
    eapply database_store; [by eapply evolves_store|done].
Qed.
End database_invariant.

Lemma shutdown_state t config os m clock o waiting :
  runs saving_op (with_store t config SessionMetrics_init) os m ->
  (forall w, flush_ok o w) ->
  let m' := shutdown clock o waiting m in
  active_sessions m' = ∅ /\
  (forall id s, active_sessions m !! id = Some s ->
     current m' id = Some (close (clock id) (Some "Server shutdown"%string) Failed s)) /\
  exists w, batch_writer m' = Some w /\ queue w = [] /\
    forall id s, current m' id = Some s -> stored (store w) id = Some (encode s).
Proof.
  intros [Hw Hc]%consistent_runs Hok. unfold shutdown, close_all_active.
  set (ids := (iter_ids (active_sessions m)).*1). cbn zeta.
  set (m1 := fold_left _ ids m).
  assert ((fun i : Z => i) <$> ids = ids) as Hid by apply list_fmap_id.
  assert (forall id, id ∈ ids <-> is_Some (active_sessions m !! id)) as Hids.
  { intros id. unfold ids. rewrite list_elem_of_fmap. split.
    - intros ([i s] & -> & Hs%elem_of_iter_ids). by eexists.
    - intros [s Hs]. exists (id, s). split; [done|]. by apply elem_of_iter_ids. }
  destruct (current_terminate_all (fun i => i) clock (fun _ => "Server shutdown"%string) Failed ids m)
    as [_ Hcur]; [done|done|rewrite Hid; apply nodup_iter_ids|].
  assert (consistent m1) as (w & Hb & Hp).
  { by apply (consistent_terminate_all (fun i => i) clock (fun _ => "Server shutdown"%string)). }
  split_and!.
  - apply map_eq. intros id. rewrite lookup_empty. cbn.
    unfold m1. rewrite (active_terminate_all (fun i => i)), Hid. case_decide as Hd; [done|].
    destruct (active_sessions m !! id) eqn:E; [|done]. destruct Hd. apply Hids. by eexists.
  - intros id s Hs. apply (Hcur id s); [|done]. apply Hids. by eexists.
  - exists (batch_shutdown o waiting w). cbn. rewrite Hb. split; [done|].
    split; [apply queue_flush|]. intros id s Hs. unfold batch_shutdown.
    rewrite <- (Hp id s Hs).
    pose proof (pending_row_flush o (mkBatchWriter (bw_config w) (store w) (queue w)
      (flush_permit w) (running w && negb waiting)) id (Hok _)) as Hf.
    unfold pending_row in Hf at 1. rewrite queue_flush in Hf. exact Hf.
Qed.
(** [shutdown] ends every active session as [Failed] and leaves nothing
    in the queue; if its flush is stored, the database holds the final version
    of every session that the manager ever had. *)
Theorem shutdown_persists t config os m clock o waiting :
  runs saving_op (with_store t config SessionMetrics_init) os m ->
  (forall w, flush_ok o w) ->
  let m' := shutdown clock o waiting m in
  active_sessions m' = ∅ /\
  (forall id s, active_sessions m !! id = Some s ->
     current m' id = Some (close (clock id) (Some "Server shutdown"%string) Failed s)) /\
  exists w, batch_writer m' = Some w /\ queue w = [] /\
    forall id s, current m' id = Some s -> stored (store w) id = Some (encode s).
Proof. apply shutdown_state. Qed.
End reachable.

(** ** A concrete manager *)

(** A database that is the list of the versions it was given. *)
#[refine] Definition mem_sink : SessionSink (list Session) := {|
  outcome := bool;
  row := Session;
  encode s := s;
  stored t id := last_version id t;
  save_batch o b t := if o then (Ok (), t ++ b) else (Err "disk full"%string, t) |}.
Proof.
  - intros [] b t id; [intros _; apply last_version_app|done].
  - intros [] b t e; done.
Defined.

#[local] Existing Instance mem_sink.
#[local] Existing Instance map_order.
#[local] Existing Instance stable_unstable_sort.

Definition demo_conn (dest : string) : ConnectionInfo :=
  mkConnectionInfo (V4 (Z_to_u8 <$> [10; 0; 0; 2])) 50000 dest 443 Tcp.

(** Two sessions, with traffic for the first, before and after it is closed. *)
Definition demo_ops : list (@op _ mem_sink demo_deps) :=
  [ONew 1 11 (5 * 10 ^ 9) "alice" (demo_conn "10.0.0.1") "allow" None None;
   OTraffic (mkTrafficUpdate 1 1000 2000 3 4);
   ONew 2 12 (6 * 10 ^ 9) "alice" (demo_conn "admin.example.com") "allow" None (Some 77);
   OReject 3 (7 * 10 ^ 9) (7 * 10 ^ 9) "bob" (demo_conn "10.0.0.9") (Some "rule"%string);
   OTick true;
   OTraffic (mkTrafficUpdate 1 u64_max 1 1 1);
   OClose 1 (9 * 10 ^ 9 + 5) None Closed;
   OTraffic (mkTrafficUpdate 1 5 5 5 5);
   OQueue (mkTrafficUpdate 2 5 5 5 5)].

Definition demo_manager : SessionManager (list Session) :=
  with_store [] BatchConfig_default SessionMetrics_init.
Definition demo_after : SessionManager (list Session) :=
  fold_left (fun m o => exec o m) demo_ops demo_manager.

Lemma runs_cons {T} `{!SessionSink T} `{!IterOrder} `{!AclDeps} `{!UnstableSort rule_leb}
    (P : op -> SessionManager T -> Prop) m0 o os m :
  P o m0 -> runs P (exec o m0) os m -> runs P m0 (o :: os) m.
Proof.
  intros Ho. induction 1 as [|os o' m Hr IH Ho'].
  - by apply (runs_snoc P m0 [] o m0); [constructor|].
  - by apply (runs_snoc P m0 (o :: os)).
Qed.

(** Decide by computation that a concrete operation may run. *)
Ltac saving_step :=
  split; [|try exact I; intros ? _; reflexivity]; cbn [allowed_op];
  first [exact I | discriminate
        | split; [vm_compute; reflexivity | apply (bool_decide_unpack _); vm_compute; reflexivity]
        | repeat split; apply (bool_decide_unpack _); vm_compute; reflexivity].

Lemma demo_runs : runs saving_op demo_manager demo_ops demo_after.
Proof.
  unfold demo_after, demo_ops. repeat (apply runs_cons; [saving_step|]). constructor.
Qed.

Lemma demo_allowed_runs : runs allowed_op demo_manager demo_ops demo_after.
Proof. eapply runs_impl; [|exact demo_runs]. by intros o m []. Qed.

Lemma demo_wf : manager_wf demo_after.
Proof.
  apply (manager_wf_runs demo_manager demo_ops); [apply manager_wf_init; constructor|].
  exact demo_allowed_runs.
Qed.

Lemma session_lifecycle_witness :
  initial demo_manager /\ runs allowed_op demo_manager demo_ops demo_after /\ manager_wf demo_after /\
  active_session_count demo_after = 1 /\ length (closed_sessions demo_after) = 1%nat.
Proof.
  split; [constructor|]. split; [exact demo_allowed_runs|].
  split; [apply (session_lifecycle demo_manager demo_ops); [constructor|exact demo_allowed_runs]|].
  split; vm_compute; reflexivity.
Defined.

Lemma queued_traffic_lost_witness :
  runs allowed_op demo_manager demo_ops demo_after /\ length (traffic_rx demo_after) = 1%nat /\
  traffic_worker_step demo_after = set_worker (tail (traffic_rx demo_after)) ∅ None demo_after.
Proof.
  split; [exact demo_allowed_runs|]. split; [vm_compute; reflexivity|].
  apply (queued_traffic_lost demo_manager demo_ops); [constructor|exact demo_allowed_runs].
Defined.

Lemma traffic_accounting_witness :
  exists s, current demo_after 1 = Some s /\ bytes_sent s = u64_max /\ bytes_received s = 2001 /\
    accounts (applied 1 demo_manager demo_ops) s.
Proof.
  destruct (current demo_after 1) as [s|] eqn:E; [|vm_compute in E; discriminate E].
  exists s. split; [reflexivity|].
  split; [apply (f_equal (fmap bytes_sent)) in E; vm_compute in E; by injection E|].
  split; [apply (f_equal (fmap bytes_received)) in E; vm_compute in E; by injection E|].
  apply (traffic_accounting demo_manager demo_ops demo_after 1);
    [constructor|exact demo_allowed_runs|exact E].
Defined.

Lemma write_behind_consistent_witness :
  exists s w, current demo_after 1 = Some s /\ batch_writer demo_after = Some w /\
    status s = Closed /\ pending_row w 1 = Some s.
Proof.
  destruct (current demo_after 1) as [s|] eqn:E; [|vm_compute in E; discriminate E].
  destruct (write_behind_consistent [] BatchConfig_default demo_ops demo_after 1 s demo_runs E)
    as (w & Hw & Hp).
  exists s, w. split; [reflexivity|]. split; [exact Hw|].
  split; [|exact Hp].
  apply (f_equal (fmap status)) in E; vm_compute in E; by injection E.
Defined.

Lemma shutdown_persists_witness :
  let m' := shutdown (fun _ => 10 ^ 10) true true demo_after in
  runs saving_op demo_manager demo_ops demo_after /\
  active_sessions m' = ∅ /\
  (forall id s, active_sessions demo_after !! id = Some s ->
     current m' id = Some (close (10 ^ 10) (Some "Server shutdown"%string) Failed s)) /\
  exists w, batch_writer m' = Some w /\ queue w = [] /\
    forall id s, current m' id = Some s -> stored (store w) id = Some s.
Proof.
  intros m'. split; [exact demo_runs|].
  apply (shutdown_persists [] BatchConfig_default demo_ops demo_after (fun _ => 10 ^ 10) true true);
    [exact demo_runs|]. intros w. reflexivity.
Defined.

Lemma enforce_acl_exact_witness :
  exists eng, AclEngine_new demo_config = Ok eng /\ manager_wf demo_after /\
    let m' := enforce_acl (fun _ => 10 ^ 10) eng demo_after in
    (forall id s, active_sessions demo_after !! id = Some s ->
       match session_verdict eng s with
       | (DecisionAllow, _) => active_sessions m' !! id = Some s
       | (DecisionBlock, rule) =>
         active_sessions m' !! id = None /\
         current m' id = Some (close (10 ^ 10) (Some (acl_reason rule)) Failed s) /\
         exists c, session_controls demo_after !! id = Some c /\ cancel_token c ∈ cancelled m'
       end) /\
    size (active_sessions m') = 0%nat.
Proof.
  assert (Hf : (fun eng => size (active_sessions (enforce_acl (fun _ => 10 ^ 10) eng demo_after))) <$>
            AclEngine_new demo_config = Ok 0%nat) by (vm_compute; reflexivity).
  destruct (AclEngine_new demo_config) as [eng|e]; [|discriminate Hf].
  exists eng. split; [reflexivity|].
  split; [exact demo_wf|].
  split; [|exact (f_equal (fun r => match r with Ok n => n | Err _ => 1%nat end) Hf)].
  exact (proj1 (enforce_acl_exact (fun _ => 10 ^ 10) eng demo_after demo_wf)).
Defined.
