(* ===== verification/StatsSpec.v ===== *)
(** * The session statistics and the metrics history: theorems

    [get_stats] of src/src/session/manager.rs against counts and sums over the
    sessions in the window, and its independence of the order in which the
    concurrent maps are iterated; the bounds of the history of
    src/src/session/history.rs; the names of src/src/session/types.rs. *)
From S2P Require Import Prelude Rust Net Session Manager ManagerSpec.

(** ** Ranking *)

Lemma count_leb_total x y : count_leb x y = true \/ count_leb y x = true.
Proof.
  unfold count_leb. destruct (String.leb_total x.1 y.1); zcases; auto; lia.
Qed.

Lemma count_leb_trans x y z : count_leb x y = true -> count_leb y z = true -> count_leb x z = true.
Proof.
  unfold count_leb. zcases; try done; try lia. intros Hxy%Is_true_true Hyz%Is_true_true.
  apply Is_true_true. by transitivity y.1.
Qed.

#[export] Instance count_leb_antisym : AntiSymm (=) (fun x y => count_leb x y = true).
Proof.
  intros [x a] [y b]. unfold count_leb; cbn. zcases; try done; try lia.
  intros Hxy Hyx. f_equal; [by apply String.leb_antisym|lia].
Qed.

(** Sorting by a total order forgets the order of the input. *)
Lemma sort_by_count_perm l l' : l ≡ₚ l' -> sort_by count_leb l = sort_by count_leb l'.
Proof.
  intros Hp. apply (StronglySorted_unique (fun x y => count_leb x y = true)).
  - apply sort_by_sorted; [apply count_leb_total|apply count_leb_trans].
  - apply sort_by_sorted; [apply count_leb_total|apply count_leb_trans].
  - by rewrite !sort_by_perm.
Qed.

Lemma filter_perm {A} (f : A -> bool) l l' : l ≡ₚ l' -> List.filter f l ≡ₚ List.filter f l'.
Proof.
  induction 1; cbn; [done|by case_match; rewrite ?IHPermutation| |by etrans].
  repeat case_match; try done. constructor.
Qed.

Lemma sort_by_count_iter (O1 O2 : IterOrder) (x : gmap string Z) :
  sort_by count_leb (@iter O1 Z x) = sort_by count_leb (@iter O2 Z x).
Proof. apply sort_by_count_perm. by rewrite !iter_perm. Qed.

(** ** Counts *)

Section counts.
Context (key : Session -> string).

Definition occurrences (k : string) (l : list Session) : Z :=
  Z.of_nat (length (List.filter (fun s => bool_decide (key s = k)) l)).

Definition counts (m : gmap string Z) (l : list Session) : Prop :=
  forall k, m !! k = if occurrences k l =? 0 then None else Some (occurrences k l).

Lemma occurrences_app k l1 l2 : occurrences k (l1 ++ l2) = occurrences k l1 + occurrences k l2.
Proof. unfold occurrences. rewrite List.filter_app, length_app. lia. Qed.

Lemma occurrences_nonneg k l : 0 <= occurrences k l.
Proof. unfold occurrences. lia. Qed.

Lemma counts_snoc m l s : counts m l -> counts (count_entry (key s) m) (l ++ [s]).
Proof.
  intros Hc k. unfold count_entry. rewrite occurrences_app.
  pose proof (occurrences_nonneg k l). unfold occurrences at 2 4. cbn.
  case_bool_decide as Hk; cbn.
  - subst k. rewrite lookup_insert_eq, Hc.
    destruct (Z.eqb_spec (occurrences (key s) l) 0) as [->|]; [done|]. zcases; [lia|done].
  - by rewrite lookup_insert_ne, Hc, Z.add_0_r by done.
Qed.

Lemma counts_perm m m' l l' : l ≡ₚ l' -> counts m l -> counts m' l' -> m = m'.
Proof.
  intros Hp Hm Hm'. apply map_eq. intros k. rewrite Hm, Hm'. unfold occurrences.
  by rewrite (Permutation_length (filter_perm _ _ _ Hp)).
Qed.
End counts.

(** ** Aggregation *)

Definition no_aggregate : aggregate := mkAggregate ∅ ∅ 0 0 0 0.

Definition total_traffic (l : list Session) : Z :=
  foldr Z.add 0 ((fun s => bytes_sent s + bytes_received s) <$> l).

(** How many sessions carry a decision, whatever the case of its letters. *)
Definition decided (d : string) (l : list Session) : Z :=
  Z.of_nat (length (List.filter (fun s => eq_ignore_ascii_case (acl_decision s) d) l)).

Definition nonneg_traffic (s : Session) : Prop := 0 <= bytes_sent s /\ 0 <= bytes_received s.

Lemma foldr_add_app l1 l2 : foldr Z.add 0 (l1 ++ l2) = foldr Z.add 0 l1 + foldr Z.add 0 l2.
Proof. induction l1 as [|x l IH]; cbn; lia. Qed.

Lemma total_traffic_snoc l s :
  total_traffic (l ++ [s]) = total_traffic l + (bytes_sent s + bytes_received s).
Proof. unfold total_traffic. rewrite fmap_app, foldr_add_app. cbn. lia. Qed.

Lemma total_traffic_perm l l' : l ≡ₚ l' -> total_traffic l = total_traffic l'.
Proof. unfold total_traffic. induction 1; cbn in *; lia. Qed.

Lemma total_traffic_nonneg l : Forall nonneg_traffic l -> 0 <= total_traffic l.
Proof.
  unfold total_traffic, nonneg_traffic. induction 1 as [|s l [Ha Hb] _ IH]; cbn; [done|]. lia.
Qed.

Lemma allow_not_block s :
  eq_ignore_ascii_case s "allow" = true -> eq_ignore_ascii_case s "block" = true -> False.
Proof.
  unfold eq_ignore_ascii_case. intros Ha%bool_decide_eq_true Hb%bool_decide_eq_true.
  rewrite Ha in Hb. done.
Qed.

Lemma aggregate_correct l :
  Forall nonneg_traffic l ->
  let a := fold_left aggregate_session l no_aggregate in
  counts user (user_counts a) l /\ counts dest_ip (destination_counts a) l /\
  acl_allowed a = decided "allow" l /\ acl_blocked a = decided "block" l /\
  ag_total_sessions a = Z.of_nat (length l) /\
  ag_total_bytes a = Z.min (total_traffic l) u64_max.
Proof.
  induction l as [|s l IH] using rev_ind; intros Hl; cbn zeta.
  { by split_and!. }
  apply Forall_app in Hl as [Hl Hs]. inversion Hs as [|? ? [Ha Hb] _]; subst.
  destruct (IH Hl) as (H1 & H2 & H3 & H4 & H5 & H6). clear IH. rewrite fold_left_app; cbn.
  pose proof (total_traffic_nonneg l Hl).
  split_and!.
  - by apply counts_snoc.
  - by apply counts_snoc.
  - unfold decided in *. rewrite List.filter_app, length_app. cbn. rewrite H3.
    case_match; cbn; lia.
  - unfold decided in *. rewrite List.filter_app, length_app. cbn. rewrite H4.
    pose proof (allow_not_block (acl_decision s)). repeat case_match; cbn; lia.
  - rewrite H5, length_app. cbn. lia.
  - rewrite H6, total_traffic_snoc. unfold sat_add64.
    generalize dependent (total_traffic l). intros t ? Ht.
    assert (0 <= u64_max) by done. lia.
Qed.

Lemma nonneg_counters s : counters_ok s -> nonneg_traffic s.
Proof. intros (H1 & H2 & _). split; [apply H1|apply H2]. Qed.

(** The three loops are one pass over all the sessions. *)
Lemma aggregate_app f l1 l2 l3 a :
  fold_left aggregate_session (List.filter f l3)
    (fold_left aggregate_session (List.filter f l2)
       (fold_left aggregate_session (List.filter f l1) a)) =
  fold_left aggregate_session (List.filter f (l1 ++ l2 ++ l3)) a.
Proof. by rewrite !List.filter_app, !fold_left_app. Qed.

(** ** The statistics *)

(** The ranking of the keys of [l]: at most ten of them, each with the number of
    its sessions, in decreasing order, ties by name; whoever is left out stands
    behind all of them. *)
Definition ranking (key : Session -> string) (l : list Session) (res : list (string * Z)) : Prop :=
  NoDup res.*1 /\ sorted count_leb res /\ (length res <= TOP_LIMIT)%nat /\
  (forall k n, (k, n) ∈ res -> n = occurrences key k l /\ 0 < n) /\
  (forall k, 0 < occurrences key k l -> k ∉ res.*1 ->
     length res = TOP_LIMIT /\ Forall (fun p => count_leb p (k, occurrences key k l) = true) res).

Lemma sorted_take {A} (leb : A -> A -> bool) n l :
  sorted leb l -> sorted leb (take n l) /\
  forall x y, x ∈ take n l -> y ∈ drop n l -> leb x y = true.
Proof.
  unfold sorted. rewrite <- (take_drop n l) at 1. intros Hs. split.
  - by apply StronglySorted_app_1_l in Hs.
  - intros x y Hx Hy. by eapply (StronglySorted_app_1_elem_of (fun x y => leb x y = true)).
Qed.

Lemma fmap_retract {A B} (f : B -> A) (g : A -> B) (l : list A) :
  (forall a, f (g a) = a) -> f <$> (g <$> l) = l.
Proof. intros Hfg. induction l as [|a l IH]; [done|]. cbn. by rewrite Hfg, IH. Qed.

Section stats.
Context {T : Type}.
Implicit Types (m : SessionManager T).

Lemma ranking_top `{!IterOrder} key (x : gmap string Z) l :
  counts key x l -> ranking key l (take TOP_LIMIT (sort_by count_leb (iter x))).
Proof.
  intros Hc. set (r := sort_by count_leb (iter x)).
  assert (r ≡ₚ map_to_list x) as Hp by (unfold r; by rewrite sort_by_perm, iter_perm).
  assert (forall k n, (k, n) ∈ r <-> x !! k = Some n) as Hin
    by (intros k n; rewrite Hp; apply elem_of_map_to_list).
  assert (NoDup r.*1) as Hnd by (rewrite Hp; apply NoDup_fst_map_to_list).
  destruct (sorted_take count_leb TOP_LIMIT r) as [Hs Hd].
  { apply sort_by_sorted; [apply count_leb_total|apply count_leb_trans]. }
  split_and!; [|done|rewrite length_take; lia|..].
  - rewrite fmap_take. eapply sublist_NoDup; [exact Hnd|]. apply sublist_take.
  - intros k n Hk%subseteq_take%Hin. rewrite Hc in Hk.
    pose proof (occurrences_nonneg key k l). zcases; simplify_eq. lia.
  - intros k Hk Hn.
    assert ((k, occurrences key k l) ∈ r) as Hr.
    { apply Hin. rewrite Hc. zcases; [lia|done]. }
    rewrite <- (take_drop TOP_LIMIT r), elem_of_app in Hr. destruct Hr as [Hr|Hr].
    { destruct Hn. apply list_elem_of_fmap. by exists (k, occurrences key k l). }
    split.
    + apply list_elem_of_lookup in Hr as [i Hi%lookup_lt_Some].
      rewrite length_take. rewrite length_drop in Hi. lia.
    + apply Forall_forall. intros p Hpi. by apply Hd.
Qed.

(** The sessions that started in the window. *)
Definition window `{!IterOrder} (now : Z) (lookback : option Z) m : list Session :=
  List.filter (fun s => now - default (24 * 3600 * 10 ^ 9) lookback <=? start_time s)
    (get_all_sessions m).

Lemma get_all_nonneg `{!IterOrder} m : manager_wf m -> Forall nonneg_traffic (get_all_sessions m).
Proof.
  intros [Hl _]. destruct (lc_counters _ _ _ _ _ Hl) as [Ha He].
  apply Forall_app. split; [|by eapply Forall_impl; [exact He|apply nonneg_counters]].
  apply Forall_forall. intros s [id Hs]%elem_of_active_sessions.
  by apply nonneg_counters, (Ha id s).
Qed.

Lemma window_nonneg `{!IterOrder} now lookback m :
  manager_wf m -> Forall nonneg_traffic (window now lookback m).
Proof.
  intros Hw. apply Forall_forall. intros s [Hs _]%list_elem_of_In%List.filter_In.
  pose proof (get_all_nonneg m Hw) as Hall. rewrite Forall_forall in Hall.
  apply Hall. by apply list_elem_of_In.
Qed.

(** The statistics count the sessions that started in the window, active,
    closed and rejected ones, and add up their bytes, saturated at the largest
    64-bit integer; the decisions are counted whatever the case of their
    letters; the two rankings are the ten users and the ten destinations with
    most sessions in the window, ties by name; the number of active sessions is
    that of all of them. *)
Theorem get_stats_correct `{!IterOrder} now lookback m :
  manager_wf m ->
  let l := window now lookback m in
  let st := get_stats now lookback m in
  st_active_sessions st = Z.of_nat (size (active_sessions m)) /\
  st_total_sessions st = Z.of_nat (length l) /\
  st_total_bytes st = Z.min (total_traffic l) u64_max /\
  ad_allowed (st_acl st) = decided "allow" l /\ ad_blocked (st_acl st) = decided "block" l /\
  ranking user l ((fun u => (us_user u, us_sessions u)) <$> top_users st) /\
  ranking dest_ip l ((fun d => (dst_dest_ip d, dst_connections d)) <$> top_destinations st).
Proof.
  intros Hw. cbn zeta. unfold get_stats. cbn. rewrite aggregate_app.
  change (fold_left aggregate_session _ _) with
    (fold_left aggregate_session (window now lookback m) no_aggregate).
  destruct (aggregate_correct _ (window_nonneg now lookback m Hw)) as (H1 & H2 & H3 & H4 & H5 & H6).
  rewrite !fmap_retract by (by intros []).
  split_and!; [done|done|done|done|done|by apply ranking_top|by apply ranking_top].
Qed.
End stats.

(** The statistics do not depend on the order in which the concurrent map
    of the sessions and the hash maps of the counts are iterated. *)
Theorem get_stats_order_independent {T} (O1 O2 : IterOrder) now lookback
    (m : SessionManager T) :
  manager_wf m -> @get_stats T O1 now lookback m = @get_stats T O2 now lookback m.
Proof.
  intros Hw. unfold get_stats. cbn. rewrite !aggregate_app.
  change (fold_left aggregate_session (List.filter _ (@get_active_sessions T O1 m ++ _)) _)
    with (fold_left aggregate_session (@window T O1 now lookback m) no_aggregate).
  change (fold_left aggregate_session (List.filter _ (@get_active_sessions T O2 m ++ _)) _)
    with (fold_left aggregate_session (@window T O2 now lookback m) no_aggregate).
  assert (@window T O1 now lookback m ≡ₚ @window T O2 now lookback m) as Hp.
  { apply filter_perm, Permutation_app; [|done]. unfold get_active_sessions.
    by rewrite !iter_ids_perm. }
  destruct (aggregate_correct _ (@window_nonneg T O1 now lookback m Hw)) as (A1 & A2 & A3 & A4 & A5 & A6).
  destruct (aggregate_correct _ (@window_nonneg T O2 now lookback m Hw)) as (B1 & B2 & B3 & B4 & B5 & B6).
  pose proof (counts_perm user _ _ _ _ Hp A1 B1) as ->.
  pose proof (counts_perm dest_ip _ _ _ _ Hp A2 B2) as ->.
  rewrite A3, A4, A5, A6, B3, B4, B5, B6. unfold decided.
  rewrite !(Permutation_length (filter_perm _ _ _ Hp)), (Permutation_length Hp).
  by rewrite (total_traffic_perm _ _ Hp), !(sort_by_count_iter O1 O2).
Qed.

(** ** The history of the metrics *)

Definition in_order (l : list MetricsSnapshot) : Prop :=
  StronglySorted (fun a b => timestamp a <= timestamp b) l.

Lemma drop_old_suffix cutoff l : exists l0, l = l0 ++ drop_old cutoff l /\
  Forall (fun s => timestamp s < cutoff) l0.
Proof.
  induction l as [|s l (l0 & Hl & Hf)]; [by exists []|]. cbn.
  destruct (Z.ltb_spec (timestamp s) cutoff) as [Hlt|Hge]; [|by exists []].
  exists (s :: l0). split; [by rewrite Hl at 1|by constructor].
Qed.

Lemma drop_old_sorted cutoff l :
  in_order l -> drop_old cutoff l = List.filter (fun s => cutoff <=? timestamp s) l.
Proof.
  induction 1 as [|s l Hs IH Hall]; [done|]. cbn.
  destruct (Z.ltb_spec (timestamp s) cutoff) as [Hlt|Hge].
  - by rewrite (proj2 (Z.leb_gt _ _)).
  - rewrite (proj2 (Z.leb_le _ _)) by done. f_equal. symmetry. apply List.forallb_filter_id.
    apply List.forallb_forall. intros x Hx%list_elem_of_In.
    rewrite Forall_forall in Hall. specialize (Hall x Hx). apply Z.leb_le. lia.
Qed.

Lemma trim_front_drop max l : 0 <= max -> trim_front max l = drop (length l - Z.to_nat max) l.
Proof.
  intros Hm. induction l as [|s l IH]; [done|]. cbn [trim_front].
  destruct (Z.ltb_spec max (Z.of_nat (length (s :: l)))) as [Hlt|Hge]; cbn [length] in *.
  - rewrite IH, Nat.sub_succ_l by lia. done.
  - replace (S (length l) - Z.to_nat max)%nat with 0%nat by lia. done.
Qed.

(** Adding a snapshot to a history in the order of time keeps that order and
    leaves the newest snapshots that are young enough: the older ones go, the
    new one comes last, and of these the last [max_snapshots] are kept; the
    snapshots since a moment are those of the history with a later timestamp. *)
Theorem add_snapshot_correct {delta : TimeDelta} now snapshot h h' :
  in_order (snapshots h) -> Forall (fun s => timestamp s <= timestamp snapshot) (snapshots h) ->
  0 <= max_snapshots h -> add_snapshot now snapshot h = Some h' ->
  let young := List.filter (fun s => now - max_age h <=? timestamp s) (snapshots h) in
  snapshots h' = drop (length young + 1 - Z.to_nat (max_snapshots h)) (young ++ [snapshot]) /\
  in_order (snapshots h') /\ Z.of_nat (length (snapshots h')) <= max_snapshots h /\
  (0 < max_snapshots h -> last (snapshots h') = Some snapshot) /\
  (forall now' minutes l, get_snapshots_since now' minutes h' = Some l ->
     forall s, s ∈ l <-> s ∈ snapshots h' /\ now' - minutes * 60 * 10 ^ 9 <= timestamp s).
Proof.
  intros Ho Hn Hm (cutoff & ->%sub_delta_Some & [= <-])%bind_Some. cbn zeta. cbn. rewrite drop_old_sorted by done.
  set (young := List.filter _ _).
  rewrite trim_front_drop, length_app by done. cbn [length].
  assert (in_order (young ++ [snapshot])) as Hs.
  { apply StronglySorted_app. split_and!.
    - intros x y [Hx _]%list_elem_of_In%List.filter_In Hy%list_elem_of_singleton. subst y.
      rewrite Forall_forall in Hn. by apply Hn, list_elem_of_In.
    - unfold young. clear Hn. induction Ho as [|s l Hs IH Hall]; cbn; [constructor|].
      case_match; [|done]. constructor; [done|].
      apply Forall_forall. intros x [Hx _]%list_elem_of_In%List.filter_In.
      rewrite Forall_forall in Hall. by apply Hall, list_elem_of_In.
    - repeat constructor. }
  split_and!.
  - done.
  - rewrite <- (take_drop (length young + 1 - Z.to_nat (max_snapshots h)) (young ++ [snapshot])) in Hs.
    by apply StronglySorted_app_1_r in Hs.
  - rewrite length_drop, length_app. cbn. lia.
  - intros Hpos. rewrite drop_app_le by lia. apply last_snoc.
  - intros now' minutes l (d & ->%delta_minutes_Some & (c & ->%sub_delta_Some & [= <-])%bind_Some)%bind_Some s. cbn.
    rewrite !list_elem_of_In, List.filter_In. by rewrite Z.leb_le.
Qed.

(** ** Names *)

(** Reading the name of a status, or of a protocol, gives it back, in lower or
    in upper case and in no other spelling. *)
Theorem session_names_roundtrip :
  (forall st v, SessionStatus_from_str v = Ok st <->
     v = SessionStatus_as_str st \/
     v = match st with
         | Active => "ACTIVE" | Closed => "CLOSED" | Failed => "FAILED"
         | RejectedByAcl => "REJECTED_BY_ACL"
         end%string) /\
  (forall p v, Protocol_from_str v = Ok p <->
     v = Protocol_as_str p \/ v = match p with Tcp => "TCP" | Udp => "UDP" end%string).
Proof.
  split; intros x v; unfold SessionStatus_from_str, Protocol_from_str;
    repeat (let Hd := fresh in case_decide as Hd; [destruct Hd as [->| ->], x;
      split; try done; try (by intros [?|?]); auto|]);
    destruct x; (split; [done|]); cbn; tauto.
Qed.

(** ** Concrete inputs *)

Lemma get_stats_correct_witness :
  let st := @get_stats (list Session) map_order (8 * 10 ^ 9) (Some (3 * 10 ^ 9)) demo_after in
  manager_wf demo_after /\
  st_total_sessions st = 3 /\ st_total_bytes st = u64_max /\
  st_total_sessions st =
    Z.of_nat (length (@window (list Session) map_order (8 * 10 ^ 9) (Some (3 * 10 ^ 9)) demo_after)) /\
  top_users st = [mkUserSessionStat "alice" 2; mkUserSessionStat "bob" 1].
Proof.
  intros st.
  destruct (@get_stats_correct (list Session) map_order (8 * 10 ^ 9) (Some (3 * 10 ^ 9)) demo_after demo_wf)
    as (_ & Hn & _).
  split; [exact demo_wf|]. split; [vm_compute; reflexivity|]. split; [vm_compute; reflexivity|].
  split; [exact Hn|]. vm_compute. reflexivity.
Defined.

(** The other order. *)
Definition rev_order : IterOrder.
Proof.
  refine {| iter V m := rev (map_to_list m); iter_ids V m := rev (map_to_list m) |};
    intros V m; by rewrite <- Permutation_rev.
Defined.

Lemma get_stats_order_independent_witness :
  manager_wf demo_after /\
  @get_stats (list Session) map_order (8 * 10 ^ 9) None demo_after =
  @get_stats (list Session) rev_order (8 * 10 ^ 9) None demo_after.
Proof.
  split; [exact demo_wf|]. apply (get_stats_order_independent map_order rev_order). exact demo_wf.
Defined.

Lemma add_snapshot_correct_witness :
  let old := mkMetricsSnapshot 10 1 1 1 in
  let mid := mkMetricsSnapshot 20 1 2 2 in
  let new := mkMetricsSnapshot 30 1 3 3 in
  let h := mkMetricsHistory [old; mid] 2 15 in
  exists h', in_order (snapshots h) /\ add_snapshot (delta := demo_delta) 30 new h = Some h' /\
  snapshots h' = [mid; new] /\ snapshots h' = drop (length [mid] + 1 - Z.to_nat (max_snapshots h)) ([mid] ++ [new]).
Proof.
  intros old mid new h.
  assert (Ho : in_order (snapshots h)) by (repeat constructor; vm_compute; discriminate).
  assert (Hf : Forall (fun s => timestamp s <= timestamp new) (snapshots h))
    by (repeat constructor; vm_compute; discriminate).
  assert (Hm : 0 <= max_snapshots h) by (vm_compute; discriminate).
  eexists. split; [exact Ho|]. split; [reflexivity|]. split; [reflexivity|].
  exact (proj1 (add_snapshot_correct (delta := demo_delta) 30 new h _ Ho Hf Hm eq_refl)).
Defined.
