(* ===== verification/SessionRace.v ===== *)
(** * The session manager under interleaving

    src/src/session/manager.rs once more, at the steps where its operations let
    others in: between two accesses to its maps, lists and locks, to the lock of
    a session and to the queue of the batch writer (src/src/session/batch.rs).
    [Manager] has the operations whole; here a thread is at one of their points.
    A session that was taken out of the map lives on in [detached], for the
    threads that still hold its [Arc].  The rules are in the state because a
    handler asks them some time before it opens a session
    (src/src/server/handler.rs). *)
From S2P Require Import Prelude Net Acl AclEngine Session Manager.
From S2P Require Protocol.

(** What is left to terminate: the session, the reason, the status. *)
Definition todo : Type := list (Z * string * SessionStatus).

Inductive thread : Type :=
| Idle
| Allowed (usr : string) (conn : ConnectionInfo) (rule : option string)
| Refused (usr : string) (conn : ConnectionInfo) (rule : option string)
| Opening (session : Session)
| Inserting (session : Session)
| Adding (update : TrafficUpdate)
| Terminating (id : Z) (reason : string) (st : SessionStatus) (rest : todo)
| Forgetting (id : Z) (reason : option string) (st : SessionStatus) (rest : todo)
| Removing (id : Z) (reason : option string) (st : SessionStatus) (rest : todo)
| Ending (id : Z) (reason : option string) (st : SessionStatus) (rest : todo)
| Pushing (snapshot : Session) (rest : todo)
| Queueing (snapshot : Session) (rest : todo)
| Rejecting (session : Session)
| PushRejected (session : Session)
| Scanning (ids : list Z) (found : todo)
| Saving (batch : list Session).

(** The loops of [close_all_active] and [enforce_acl]. *)
Definition proceed (rest : todo) : thread :=
  match rest with
  | [] => Idle
  | (id, reason, st) :: rest => Terminating id reason st rest
  end.

Section race.
Context {T : Type} `{!SessionSink T} `{!IterOrder} `{!AclDeps} `{!UnstableSort rule_leb}.

(** [issued] and [updates] are not in the program: the identifiers that were
    drawn, and the updates that reached a session. *)
Record state : Type := mkState {
  manager : SessionManager T;
  detached : gmap Z Session;
  engine : AclEngine;
  threads : list thread;
  issued : gset Z;
  updates : list TrafficUpdate;
}.

Definition set_thread (i : nat) (t : thread) (s : state) : state :=
  mkState (manager s) (detached s) (engine s) (<[i := t]> (threads s)) (issued s) (updates s).
Definition set_manager (m : SessionManager T) (s : state) : state :=
  mkState m (detached s) (engine s) (threads s) (issued s) (updates s).
Definition set_detached (d : gmap Z Session) (s : state) : state :=
  mkState (manager s) d (engine s) (threads s) (issued s) (updates s).
Definition issue (id : Z) (s : state) : state :=
  mkState (manager s) (detached s) (engine s) (threads s) ({[id]} ∪ issued s) (updates s).
Definition applied (u : TrafficUpdate) (s : state) : state :=
  mkState (manager s) (detached s) (engine s) (threads s) (issued s) (updates s ++ [u]).
Definition set_rules (e : AclEngine) (s : state) : state :=
  mkState (manager s) (detached s) e (threads s) (issued s) (updates s).

(** What the [Arc] of a session leads to, in the map or out of it. *)
Definition arc (id : Z) (s : state) : option Session :=
  match active_sessions (manager s) !! id with
  | Some session => Some session
  | None => detached s !! id
  end.
Definition write_arc (id : Z) (session : Session) (s : state) : state :=
  match active_sessions (manager s) !! id with
  | Some _ => set_manager (set_active (<[id := session]> (active_sessions (manager s))) (manager s)) s
  | None => set_detached (<[id := session]> (detached s)) s
  end.

(** One session in the loop of [enforce_acl]. *)
Definition visit (id : Z) (found : todo) (s : state) : todo :=
  match active_sessions (manager s) !! id with
  | Some session =>
    match revocation (engine s) session with
    | Some reason => found ++ [(session_id session, reason, Failed)]
    | None => found
    end
  | None => found
  end.

(** [mem::swap] of [flush], and the transaction that follows. *)
Definition take_batch (w : BatchWriter T) : BatchWriter T :=
  mkBatchWriter (bw_config w) (store w) [] (flush_permit w) (running w).
Definition commit (o : outcome) (batch : list Session) (w : BatchWriter T) : BatchWriter T :=
  mkBatchWriter (bw_config w) (save_batch o batch (store w)).2 (queue w) (flush_permit w) (running w).
Definition on_writer (f : BatchWriter T -> BatchWriter T) (s : state) : state :=
  set_manager (set_writer (f <$> batch_writer (manager s)) (manager s)) s.

(** The next step of a thread that is at work, at the instant [now]; [o] is what
    becomes of a transaction. *)
Definition next (now : Z) (o : outcome) (i : nat) (t : thread) (s : state) : option state :=
  let m := manager s in
  match t with
  | Idle | Allowed _ _ _ | Refused _ _ _ => None
  | Opening session => Some (set_thread i (Inserting session) (set_manager (enqueue_session session m) s))
  | Inserting session =>
    Some (set_thread i Idle
            (set_manager (set_active (<[session_id session := session]> (active_sessions m)) m) s))
  | Adding u =>
    session ← arc (tu_session_id u) s;
    let session := add_traffic u session in
    let s := applied u (write_arc (tu_session_id u) session s) in
    let mt := record_traffic (user session) (tu_bytes_sent u) (tu_bytes_received u) (metrics m) in
    Some (set_thread i (Queueing session []) (set_manager (set_metrics mt (manager s)) s))
  | Terminating id reason st rest =>
    let m := match session_controls m !! id with
             | Some control => cancel (cancel_token control) (udp_shutdown control) m
             | None => m
             end in
    Some (set_thread i (Forgetting id (Some reason) st rest) (set_manager m s))
  | Forgetting id reason st rest =>
    Some (set_thread i (Removing id reason st rest)
            (set_manager (set_controls (delete id (session_controls m)) m) s))
  | Removing id reason st rest =>
    match active_sessions m !! id with
    | Some session =>
      Some (set_thread i (Ending id reason st rest)
              (set_detached (<[id := session]> (detached s))
                 (set_manager (set_active (delete id (active_sessions m)) m) s)))
    | None => Some (set_thread i (proceed rest) s)
    end
  | Ending id reason st rest =>
    session ← arc id s;
    let session := close now reason st session in
    let s := write_arc id session s in
    let mt := record_session_close (duration_secs session) (metrics m) in
    Some (set_thread i (Pushing session rest) (set_manager (set_metrics mt (manager s)) s))
  | Pushing snapshot rest =>
    Some (set_thread i (Queueing snapshot rest) (set_manager (push_closed snapshot m) s))
  | Queueing snapshot rest =>
    Some (set_thread i (proceed rest) (set_manager (enqueue_session snapshot m) s))
  | Rejecting session =>
    Some (set_thread i (PushRejected session) (set_manager (enqueue_session session m) s))
  | PushRejected session => Some (set_thread i Idle (set_manager (push_rejected session m) s))
  | Scanning [] found => Some (set_thread i (proceed found) s)
  | Scanning (id :: ids) found => Some (set_thread i (Scanning ids (visit id found s)) s)
  | Saving batch => Some (set_thread i Idle (on_writer (commit o batch) s))
  end.

(** The starts of the operations.  [ADecide]: [enforce] of the handler asks the
    rules; [AAdmit]: they are not in use.  [AVisit]: the iteration of a concurrent
    map may also come to a session that was not there when it began. *)
Inductive action : Type :=
| ADecide (usr : string) (groups : list string) (dest : Protocol.Address) (port : Z)
    (protocol : AclProtocol) (conn : ConnectionInfo)
| AAdmit (usr : string) (conn : ConnectionInfo)
| AOpen (id token : Z) (udp : option Z)
| AReject (id now1 : Z)
| ATraffic (u : TrafficUpdate)
| AClose (id : Z) (reason : option string) (st : SessionStatus)
| ATerminate (id : Z) (reason : string) (st : SessionStatus)
| ACloseAll (reason : string) (st : SessionStatus)
| AEnforce
| AVisit (id : Z)
| AFlush
| AReload (e : AclEngine)
| ANext.

Definition decide_request (e : AclEngine) (usr : string) (groups : list string) (dest : Protocol.Address)
    (port : Z) (protocol : AclProtocol) (conn : ConnectionInfo) : thread :=
  match evaluate_with_groups e usr groups dest port protocol with
  | (DecisionAllow, rule) => Allowed usr conn rule
  | (DecisionBlock, rule) => Refused usr conn rule
  end.

(** [new_session_with_control], until the first wait. *)
Definition open (i : nat) (id token now : Z) (usr : string) (conn : ConnectionInfo) (rule : option string)
    (udp : option Z) (s : state) : state :=
  let session := set_status Active (Session_new id now usr conn "allow" rule) in
  let m := manager s in
  let m := set_controls (<[id := mkSessionControl token udp]> (session_controls m)) m in
  let m := set_metrics (record_session_start (user session) (metrics m)) m in
  set_thread i (Opening session) (issue id (set_manager m s)).

(** [track_rejected_session], until the first wait. *)
Definition reject (i : nat) (id now1 now2 : Z) (usr : string) (conn : ConnectionInfo) (rule : option string)
    (s : state) : state :=
  let session := close now2 (Some "Rejected by ACL"%string) RejectedByAcl
                   (Session_new id now1 usr conn "block" rule) in
  let m := set_metrics (record_rejected_session usr (metrics (manager s))) (manager s) in
  set_thread i (Rejecting session) (issue id (set_manager m s)).

Definition start_flush (i : nat) (s : state) : state :=
  match batch_writer (manager s) with
  | Some w =>
    match queue w with
    | [] => s
    | batch => set_thread i (Saving batch) (on_writer take_batch s)
    end
  | None => s
  end.

Definition exec (now : Z) (o : outcome) (i : nat) (a : action) (s : state) : option state :=
  t ← threads s !! i;
  match a, t with
  | ADecide usr groups dest port protocol conn, Idle =>
    Some (set_thread i (decide_request (engine s) usr groups dest port protocol conn) s)
  | AAdmit usr conn, Idle => Some (set_thread i (Allowed usr conn None) s)
  | AOpen id token udp, Allowed usr conn rule =>
    if decide (id ∈ issued s) then None else Some (open i id token now usr conn rule udp s)
  | AReject id now1, Refused usr conn rule =>
    if decide (id ∈ issued s) then None else Some (reject i id now1 now usr conn rule s)
  | ATraffic u, Idle =>
    Some (match active_sessions (manager s) !! tu_session_id u with
          | Some _ => set_thread i (Adding u) s
          | None => s
          end)
  | AClose id reason st, Idle => Some (set_thread i (Forgetting id reason st []) s)
  | ATerminate id reason st, Idle => Some (set_thread i (Terminating id reason st []) s)
  | ACloseAll reason st, Idle =>
    Some (set_thread i (proceed ((fun id => (id, reason, st)) <$> (iter_ids (active_sessions (manager s))).*1)) s)
  | AEnforce, Idle => Some (set_thread i (Scanning (iter_ids (active_sessions (manager s))).*1 []) s)
  | AVisit id, Scanning ids found => Some (set_thread i (Scanning ids (visit id found s)) s)
  | AFlush, Idle => Some (start_flush i s)
  | AReload e, _ => Some (set_rules e s)
  | ANext, t => next now o i t s
  | _, _ => None
  end.

Record event : Type := mkEvent { ev_now : Z; ev_outcome : outcome; ev_thread : nat; ev_action : action }.
Definition run (tr : list event) (s : state) : option state :=
  foldl (fun o e => s ← o; exec (ev_now e) (ev_outcome e) (ev_thread e) (ev_action e) s) (Some s) tr.

(** [n] threads and a manager that was just made. *)
Definition initial (n : nat) (store : T) (config : BatchConfig) (e : AclEngine) : state :=
  mkState (with_store store config SessionMetrics_init) ∅ e (replicate n Idle) ∅ [].
End race.
