(* ===== verification/SessionRaceSpec.v ===== *)
(** * Properties of the session manager under interleaving

    What every interleaving of its operations keeps, what an operation that
    nobody interrupts does, what the revocation reaches while others go on, and
    what two threads can do that one cannot. *)
From S2P Require Import Prelude Net Acl Wildcard AclEngine AclSpec Session Manager ManagerSpec SessionRace.
From S2P Require Protocol.

Section spec.
Context {T : Type} `{!SessionSink T} `{!IterOrder} `{!AclDeps} `{!UnstableSort rule_leb}.
Implicit Types (s : state (T := T)).

(** ** Where a session is *)

(** The sessions that a thread is about to file, and those it is about to end. *)
Definition own (t : thread) : list Z :=
  match t with
  | Opening x | Inserting x | Rejecting x | PushRejected x => [session_id x]
  | _ => []
  end.
Definition gone (t : thread) : list Z :=
  match t with Ending id _ _ _ => [id] | Pushing x _ => [session_id x] | _ => [] end.
Definition held (t : thread) : list Z := own t ++ gone t.

Definition filed (m : SessionManager T) : list Z := (map_to_list (active_sessions m)).*1 ++ ended_ids m.
Definition places s : list Z := concat (held <$> threads s) ++ filed (manager s).

(** The updates of a session. *)
Definition of_session (id : Z) (us : list TrafficUpdate) : list TrafficUpdate :=
  List.filter (fun u => tu_session_id u =? id) us.
Definition counted (us : list TrafficUpdate) (x : Session) : Prop := accounts (of_session (session_id x) us) x.

(** A record of the end counts the updates up to some point. *)
Definition closed_ok (us : list TrafficUpdate) (x : Session) : Prop :=
  end_time x <> None /\ exists k, accounts (of_session (session_id x) (take k us)) x.

Definition thread_ok s (t : thread) : Prop :=
  match t with
  | Opening x | Inserting x => accounts [] x
  | Adding u => wf_update u /\ arc (tu_session_id u) s <> None
  | Ending id _ _ _ => detached s !! id <> None
  | Pushing x _ => closed_ok (updates s) x
  | _ => True
  end.

Record race_wf s : Prop := mkRaceWf {
  rw_places : NoDup (places s);
  rw_issued : forall id, id ∈ issued s <-> id ∈ places s;
  rw_active : forall id x, active_sessions (manager s) !! id = Some x ->
    session_id x = id /\ counted (updates s) x;
  rw_detached : forall id x, detached s !! id = Some x ->
    session_id x = id /\ counted (updates s) x /\
    id ∈ concat (gone <$> threads s) ++ (session_id <$> closed_sessions (manager s));
  rw_updates : forall u, u ∈ updates s -> arc (tu_session_id u) s <> None;
  rw_threads : Forall (thread_ok s) (threads s);
  rw_closed : Forall (closed_ok (updates s)) (closed_sessions (manager s));
}.

(** ** Generic facts *)

Lemma concat_swap {A} (f : thread -> list A) ts i t t' : ts !! i = Some t -> exists rest,
  concat (f <$> ts) ≡ₚ f t ++ rest /\ concat (f <$> <[i := t']> ts) ≡ₚ f t' ++ rest.
Proof.
  revert i. induction ts as [|u ts IH]; intros [|i]; cbn; try done.
  - intros [= ->]. by exists (concat (f <$> ts)).
  - intros Hi. destruct (IH i Hi) as (rest & H1 & H2). exists (f u ++ rest).
    rewrite H1, H2. split; solve_Permutation.
Qed.

Lemma closed_ok_mono us l x : closed_ok us x -> closed_ok (us ++ l) x.
Proof.
  intros (He & k & Ha). split; [done|]. exists (k `min` length us)%nat.
  rewrite take_app_le by lia. destruct (Nat.le_gt_cases k (length us)) as [Hk|Hk].
  - by rewrite Nat.min_l.
  - rewrite Nat.min_r by lia. rewrite take_ge in Ha |- * by lia. done.
Qed.

Lemma of_session_app id us vs : of_session id (us ++ vs) = of_session id us ++ of_session id vs.
Proof. apply List.filter_app. Qed.

Lemma of_session_one id u : of_session id [u] = if tu_session_id u =? id then [u] else [].
Proof. done. Qed.

Lemma of_session_none id us : (forall u, u ∈ us -> tu_session_id u <> id) -> of_session id us = [].
Proof.
  intros Hn. induction us as [|u us IH]; [done|]. cbn.
  destruct (Z.eqb_spec (tu_session_id u) id) as [E|E]; [by destruct (Hn u ltac:(left))|].
  apply IH. intros v Hv. apply Hn. by right.
Qed.

Lemma thread_ok_mono s s' l t :
  (forall id, arc id s <> None -> arc id s' <> None) ->
  (forall id, detached s !! id <> None -> detached s' !! id <> None) ->
  updates s' = updates s ++ l -> thread_ok s t -> thread_ok s' t.
Proof.
  intros Ha Hd Hu. destruct t; cbn; try done.
  - intros [? ?]. auto.
  - apply Hd.
  - rewrite Hu. apply closed_ok_mono.
Qed.

(** ** Each step keeps the invariant *)

(** A step that moves identifiers about, and draws [new] ones. *)
Lemma places_move s s' i t t' new :
  race_wf s -> threads s !! i = Some t -> threads s' = <[i := t']> (threads s) ->
  held t' ++ filed (manager s') ≡ₚ new ++ held t ++ filed (manager s) ->
  NoDup new -> (forall id, id ∈ new -> id ∉ issued s) ->
  (forall id, id ∈ issued s' <-> id ∈ new \/ id ∈ issued s) ->
  NoDup (places s') /\ forall id, id ∈ issued s' <-> id ∈ places s'.
Proof.
  intros Hw Hi Hts Hp Hnd Hnew Hiss. destruct (concat_swap held _ _ _ t' Hi) as (rest & H1 & H2).
  assert (Hall : places s' ≡ₚ new ++ places s).
  { unfold places. rewrite Hts, H1, H2. transitivity (rest ++ held t' ++ filed (manager s')); [solve_Permutation|].
    rewrite Hp. solve_Permutation. }
  split.
  - rewrite Hall. apply NoDup_app. split; [done|]. split; [|apply (rw_places s Hw)].
    intros id Hin Hpl. by apply (Hnew id Hin), (rw_issued s Hw).
  - intros id. rewrite Hall, elem_of_app, Hiss, (rw_issued s Hw). done.
Qed.

(** A step that leaves the sessions, their lists and the updates alone. *)
Lemma wf_frame s s' i t t' :
  race_wf s -> threads s !! i = Some t -> threads s' = <[i := t']> (threads s) -> gone t' = gone t -> thread_ok s t' ->
  active_sessions (manager s') = active_sessions (manager s) -> detached s' = detached s ->
  closed_sessions (manager s') = closed_sessions (manager s) -> updates s' = updates s ->
  NoDup (places s') /\ (forall id, id ∈ issued s' <-> id ∈ places s') -> race_wf s'.
Proof.
  intros Hw Hi Hts Hg Ht Ha Hd Hc Hu [Hnd Hiss].
  assert (Harc : forall id, arc id s' = arc id s) by (intros id; unfold arc; by rewrite Ha, Hd).
  assert (Hok : forall u, thread_ok s u -> thread_ok s' u).
  { intros u. apply (thread_ok_mono s s' []); [by intros id; rewrite Harc|by rewrite Hd|by rewrite app_nil_r]. }
  constructor; [done|done| | | | |].
  - rewrite Ha, Hu. apply (rw_active s Hw).
  - intros id x. rewrite Hd, Hu, Hc, Hts. intros Hx. destruct (rw_detached s Hw id x Hx) as (? & ? & Hin).
    destruct (concat_swap gone _ _ _ t' Hi) as (rest & E1 & E2). rewrite E2, Hg. by rewrite E1 in Hin.
  - intros u. rewrite Harc, Hu. by apply (rw_updates s Hw).
  - rewrite Hts. apply Forall_insert; [apply (Forall_impl _ _ _ (rw_threads s Hw)), Hok|by apply Hok].
  - rewrite Hc, Hu. apply (rw_closed s Hw).
Qed.

Lemma wf_quiet s i t t' m' :
  race_wf s -> threads s !! i = Some t -> own t' = own t -> gone t' = gone t -> thread_ok s t' ->
  active_sessions m' = active_sessions (manager s) -> closed_sessions m' = closed_sessions (manager s) ->
  rejected_sessions m' = rejected_sessions (manager s) ->
  race_wf (set_thread i t' (set_manager m' s)).
Proof.
  intros Hw Hi Ho Hg Ht Ha Hc Hr. apply (wf_frame s _ i t t'); try done.
  apply (places_move s _ i t t' [] Hw Hi); [done| |constructor|set_solver|set_solver].
  unfold held, filed, ended_ids. cbn. by rewrite Ho, Hg, Ha, Hc, Hr.
Qed.

Lemma proceed_quiet s rest : own (proceed rest) = [] /\ gone (proceed rest) = [] /\ thread_ok s (proceed rest).
Proof. by destruct rest as [|[[id r] st] rest]. Qed.

Lemma wf_rules s e : race_wf s -> race_wf (set_rules e s).
Proof. by intros []. Qed.

(** A session is opened or refused: its identifier is new. *)
Lemma wf_issue s i t t' m' id :
  race_wf s -> threads s !! i = Some t -> own t = [] -> gone t = [] -> own t' = [id] -> gone t' = [] ->
  thread_ok s t' -> id ∉ issued s ->
  active_sessions m' = active_sessions (manager s) -> closed_sessions m' = closed_sessions (manager s) ->
  rejected_sessions m' = rejected_sessions (manager s) ->
  race_wf (set_thread i t' (issue id (set_manager m' s))).
Proof.
  intros Hw Hi Ho Hg Ho' Hg' Hok Hid Ha Hc Hr. apply (wf_frame s _ i t t'); try done; [congruence|].
  apply (places_move s _ i t t' [id] Hw Hi); [done| |apply NoDup_singleton|set_solver|set_solver].
  unfold held, filed, ended_ids. cbn. by rewrite Ho, Hg, Ho', Hg', Ha, Hc, Hr.
Qed.

(** *** Steps on a session *)

Lemma keys_dom (m1 m2 : gmap Z Session) : dom m1 = dom m2 -> (map_to_list m1).*1 ≡ₚ (map_to_list m2).*1.
Proof.
  intros Hd. apply NoDup_Permutation; [apply NoDup_fst_map_to_list..|]. intros id.
  assert (Hk : forall m : gmap Z Session, id ∈ (map_to_list m).*1 <-> id ∈ dom m).
  { intros m. rewrite elem_of_dom, list_elem_of_fmap. split.
    - intros ([j x] & -> & Hx%elem_of_map_to_list). by exists x.
    - intros [x Hx]. exists (id, x). split; [done|]. by apply elem_of_map_to_list. }
  by rewrite !Hk, Hd.
Qed.

Lemma keys_elem (m : gmap Z Session) id x : m !! id = Some x -> id ∈ (map_to_list m).*1.
Proof. intros Hx. apply list_elem_of_fmap. exists (id, x). split; [done|]. by apply elem_of_map_to_list. Qed.

Lemma keys_insert (m : gmap Z Session) id x : m !! id = None -> (map_to_list (<[id := x]> m)).*1 ≡ₚ id :: (map_to_list m).*1.
Proof. intros Hn. by rewrite map_to_list_insert. Qed.

Lemma keys_delete (m : gmap Z Session) id x : m !! id = Some x -> (map_to_list m).*1 ≡ₚ id :: (map_to_list (delete id m)).*1.
Proof. intros Hx. rewrite <- (keys_insert _ id x) by apply lookup_delete_eq. by rewrite insert_delete_id. Qed.

Lemma arc_elem s id x : race_wf s -> arc id s = Some x ->
  session_id x = id /\ counted (updates s) x /\
  id ∈ concat (gone <$> threads s) ++ (map_to_list (active_sessions (manager s))).*1 ++ (session_id <$> closed_sessions (manager s)).
Proof.
  intros Hw. unfold arc. destruct (active_sessions (manager s) !! id) as [y|] eqn:E; intros Hx.
  - simplify_eq. destruct (rw_active s Hw id x E). split_and!; [done|done|]. apply keys_elem in E. set_solver.
  - destruct (rw_detached s Hw id x Hx) as (? & ? & ?). split_and!; [done|done|]. set_solver.
Qed.

Lemma places_parts s : places s ≡ₚ concat (own <$> threads s) ++ concat (gone <$> threads s) ++
  (map_to_list (active_sessions (manager s))).*1 ++
  (session_id <$> closed_sessions (manager s)) ++ (session_id <$> rejected_sessions (manager s)).
Proof.
  unfold places, filed, ended_ids. rewrite fmap_app.
  assert (Hh : forall ts, concat (held <$> ts) ≡ₚ concat (own <$> ts) ++ concat (gone <$> ts)).
  { induction ts as [|u ts IH]; [done|]. cbn. rewrite IH. unfold held. solve_Permutation. }
  rewrite Hh. solve_Permutation.
Qed.

Lemma places_split s i t : threads s !! i = Some t -> exists ro rg,
  concat (gone <$> threads s) ≡ₚ gone t ++ rg /\
  places s ≡ₚ own t ++ gone t ++ ro ++ rg ++ (map_to_list (active_sessions (manager s))).*1 ++
    (session_id <$> closed_sessions (manager s)) ++ (session_id <$> rejected_sessions (manager s)).
Proof.
  intros Hi. destruct (concat_swap own _ _ _ t Hi) as (ro & H1 & _). destruct (concat_swap gone _ _ _ t Hi) as (rg & H2 & _).
  exists ro, rg. split; [done|]. rewrite places_parts, H1, H2. solve_Permutation.
Qed.

Lemma detached_inactive s id : race_wf s -> detached s !! id <> None -> active_sessions (manager s) !! id = None.
Proof.
  intros Hw Hd. destruct (detached s !! id) as [x|] eqn:E; [|done]. destruct (rw_detached s Hw id x E) as (_ & _ & Hin).
  destruct (active_sessions (manager s) !! id) as [y|] eqn:Ea; [|done]. apply keys_elem in Ea.
  pose proof (rw_places s Hw) as Hnd. rewrite places_parts in Hnd.
  apply NoDup_app in Hnd as (_ & _ & Hnd). apply elem_of_app in Hin as [Hin|Hin].
  - apply NoDup_app in Hnd as (_ & Hdis & _). destruct (Hdis id Hin). set_solver.
  - apply NoDup_app in Hnd as (_ & _ & Hnd). apply NoDup_app in Hnd as (_ & Hdis & _). destruct (Hdis id Ea). set_solver.
Qed.

(** The session that a thread is about to file has no [Arc] yet, and no update. *)
Lemma own_unfiled s i t id : race_wf s -> threads s !! i = Some t -> id ∈ own t ->
  arc id s = None /\ of_session id (updates s) = [].
Proof.
  intros Hw Hi Hin. assert (Ha : arc id s = None).
  { destruct (arc id s) as [x|] eqn:E; [|done]. apply (arc_elem s id x Hw) in E as (_ & _ & He).
    destruct (places_split s i t Hi) as (ro & rg & Hg & Hp). pose proof (rw_places s Hw) as Hnd.
    rewrite Hp in Hnd. rewrite Hg in He. apply NoDup_app in Hnd as (_ & Hdis & _). destruct (Hdis id Hin).
    set_solver. }
  split; [done|]. apply of_session_none. intros u Hu <-. by apply (rw_updates s Hw) in Hu.
Qed.

(** The session that a thread is about to end is not in the map. *)
Lemma gone_detached s i t id : race_wf s -> threads s !! i = Some t -> id ∈ gone t ->
  active_sessions (manager s) !! id = None.
Proof.
  intros Hw Hi Hin. destruct (active_sessions (manager s) !! id) as [x|] eqn:E; [|done]. apply keys_elem in E.
  destruct (places_split s i t Hi) as (ro & rg & Hg & Hp). pose proof (rw_places s Hw) as Hnd. rewrite Hp in Hnd.
  apply NoDup_app in Hnd as (_ & _ & Hnd). apply NoDup_app in Hnd as (_ & Hdis & _). destruct (Hdis id Hin). set_solver.
Qed.

Lemma counted_other us l x : (forall u, u ∈ l -> tu_session_id u <> session_id x) -> counted us x -> counted (us ++ l) x.
Proof. intros Hl. unfold counted. by rewrite of_session_app, (of_session_none _ l), app_nil_r. Qed.

Lemma closed_ok_all us x : end_time x <> None -> counted us x -> closed_ok us x.
Proof. intros He Hc. split; [done|]. exists (length us). by rewrite firstn_all. Qed.

Lemma arc_write_arc id x s j : arc id s <> None -> arc j (write_arc id x s) = if decide (j = id) then Some x else arc j s.
Proof.
  unfold arc, write_arc. destruct (active_sessions (manager s) !! id) as [y|] eqn:E; cbn; intros Hn.
  - case_decide as Hj; [subst j; by rewrite lookup_insert_eq|by rewrite lookup_insert_ne].
  - case_decide as Hj; [subst j; by rewrite E, lookup_insert_eq|by rewrite (lookup_insert_ne _ id)].
Qed.

Lemma detached_write_arc id x s j : detached s !! j <> None -> detached (write_arc id x s) !! j <> None.
Proof.
  unfold write_arc. destruct (active_sessions (manager s) !! id); cbn; [done|].
  destruct (decide (j = id)) as [->|Hj]; [by rewrite lookup_insert_eq|by rewrite lookup_insert_ne].
Qed.

Lemma write_arc_frame id x s :
  arc id s <> None ->
  dom (active_sessions (manager (write_arc id x s))) = dom (active_sessions (manager s)) /\
  closed_sessions (manager (write_arc id x s)) = closed_sessions (manager s) /\
  rejected_sessions (manager (write_arc id x s)) = rejected_sessions (manager s) /\
  threads (write_arc id x s) = threads s /\ issued (write_arc id x s) = issued s /\ updates (write_arc id x s) = updates s.
Proof.
  intros Hn. unfold write_arc. destruct (active_sessions (manager s) !! id) as [y|] eqn:E; cbn; [|done].
  split_and!; try done. rewrite dom_insert_L. apply elem_of_dom_2 in E. set_solver.
Qed.

(** The state after a thread has written through an [Arc]; [l] are the updates it made. *)
Definition after_write (i : nat) (t' : thread) (id : Z) (x' : Session) (l : list TrafficUpdate) (mt : SessionMetrics) s : state :=
  let s' := write_arc id x' s in
  mkState (set_metrics mt (manager s')) (detached s') (engine s') (<[i := t']> (threads s')) (issued s') (updates s' ++ l).

Lemma wf_write s i t t' id x x' l mt :
  race_wf s -> threads s !! i = Some t -> arc id s = Some x ->
  session_id x' = id -> counted (updates s ++ l) x' -> (forall u, u ∈ l -> tu_session_id u = id) ->
  own t' = own t -> gone t' = gone t -> thread_ok (after_write i t' id x' l mt s) t' ->
  race_wf (after_write i t' id x' l mt s).
Proof.
  intros Hw Hi Hx Hid Hc Hl Ho Hg Hok. set (s' := after_write i t' id x' l mt s) in *.
  assert (Hn : arc id s <> None) by congruence.
  destruct (write_arc_frame id x' s Hn) as (Fa & Fc & Fr & Ft & Fi & Fu).
  assert (Harc : forall j, arc j s' = if decide (j = id) then Some x' else arc j s) by (intros j; exact (arc_write_arc id x' s j Hn)).
  assert (Hcont : forall j y, arc j s' = Some y -> session_id y = j /\ counted (updates s ++ l) y).
  { intros j y. rewrite Harc. case_decide as Hj; [subst j; by intros [= <-]|].
    intros (E & Hy & _)%(arc_elem s j y Hw). split; [done|]. apply counted_other; [|done]. intros u Hu. rewrite (Hl u Hu). congruence. }
  destruct (places_move s s' i t t' [] Hw Hi) as [Hnd Hiss]; [cbn; by rewrite Ft| |constructor|set_solver|cbn; rewrite Fi; set_solver|].
  { unfold held, filed, ended_ids. cbn. rewrite Ho, Hg, Fc, Fr. by rewrite (keys_dom _ _ Fa). }
  constructor; [done|done| | | | |].
  - cbn. rewrite Fu. intros j y Hy. apply Hcont. unfold arc. change (active_sessions (manager s') !! j = Some y) in Hy. by rewrite Hy.
  - intros j y Hy. destruct (concat_swap gone _ _ _ t' Hi) as (rest & G1 & G2).
    assert (Hmem : forall z, detached s !! j = Some z -> j ∈ concat (gone <$> threads s') ++ (session_id <$> closed_sessions (manager s'))).
    { intros z Hz. cbn. rewrite Fc, Ft, G2, Hg, <- G1. by apply (rw_detached s Hw j z). }
    assert (Hj : arc j s' = Some y /\ exists z, detached s !! j = Some z).
    { revert Hy. rewrite Harc. subst s'. unfold after_write, write_arc, arc in *.
      destruct (active_sessions (manager s) !! id) as [z|] eqn:Ez; cbn.
      - intros Hy. assert (Hna : active_sessions (manager s) !! j = None) by (apply detached_inactive; [done|congruence]).
        rewrite decide_False, Hna by congruence. by split; [|exists y].
      - destruct (decide (j = id)) as [->|Hj].
        + rewrite lookup_insert_eq. intros [= <-]. by split; [|exists x].
        + rewrite lookup_insert_ne by done. intros Hy. rewrite (detached_inactive s j Hw) by congruence. by split; [|exists y]. }
    destruct Hj as (Hj & z & Hz). cbn [updates s' after_write]. subst s'. cbn. rewrite Fu.
    destruct (Hcont j y Hj). split_and!; [done|done|]. exact (Hmem z Hz).
  - cbn. rewrite Fu. intros u [Hu|Hu]%elem_of_app.
    + change (arc (tu_session_id u) s' <> None). rewrite Harc. case_decide; [done|]. by apply (rw_updates s Hw).
    + change (arc (tu_session_id u) s' <> None). rewrite Harc, decide_True by (by apply Hl). done.
  - cbn. rewrite Ft. apply Forall_insert; [|done]. apply (Forall_impl _ _ _ (rw_threads s Hw)). intros u.
    apply (thread_ok_mono s s' l); [|by intros j; apply detached_write_arc|cbn; by rewrite Fu].
    intros j Hj. rewrite Harc. by case_decide.
  - cbn. rewrite Fc, Fu. apply (Forall_impl _ _ _ (rw_closed s Hw)). intros y. apply closed_ok_mono.
Qed.

(** A new session enters the map. *)
Lemma wf_insert s i x : race_wf s -> threads s !! i = Some (Inserting x) ->
  race_wf (set_thread i Idle
    (set_manager (set_active (<[session_id x := x]> (active_sessions (manager s))) (manager s)) s)).
Proof.
  intros Hw Hi. destruct (own_unfiled s i _ (session_id x) Hw Hi) as [Harc Hof]; [by left|].
  assert (Hna : active_sessions (manager s) !! session_id x = None /\ detached s !! session_id x = None).
  { unfold arc in Harc. by destruct (active_sessions (manager s) !! session_id x). }
  destruct Hna as [Hna Hnd]. set (s' := set_thread _ _ _).
  assert (Ha : forall j, arc j s <> None -> arc j s' <> None).
  { intros j. unfold arc. cbn. destruct (decide (j = session_id x)) as [->|Hj]; [by rewrite lookup_insert_eq|by rewrite lookup_insert_ne]. }
  destruct (places_move s s' i _ Idle [] Hw Hi) as [Hp Hiss]; [done| |constructor|set_solver|set_solver|].
  { unfold filed, ended_ids. cbn. by rewrite keys_insert. }
  constructor; [done|done| | | | |].
  - intros j y. cbn. destruct (decide (j = session_id x)) as [->|Hj].
    + rewrite lookup_insert_eq. intros [= <-]. split; [done|]. unfold counted. rewrite Hof.
      exact (Forall_lookup_1 _ _ _ _ (rw_threads s Hw) Hi).
    + rewrite lookup_insert_ne by done. apply (rw_active s Hw).
  - intros j y Hy. destruct (rw_detached s Hw j y Hy) as (? & ? & Hin). split_and!; [done|done|]. cbn.
    destruct (concat_swap gone _ _ _ Idle Hi) as (rest & G1 & G2). rewrite G2. by rewrite G1 in Hin.
  - intros u Hu. by apply Ha, (rw_updates s Hw).
  - cbn. apply Forall_insert; [|done]. apply (Forall_impl _ _ _ (rw_threads s Hw)). intros u.
    apply (thread_ok_mono s s' []); [done|done|by rewrite app_nil_r].
  - apply (rw_closed s Hw).
Qed.

(** A session leaves the map. *)
Lemma wf_remove s i id reason st rest x :
  race_wf s -> threads s !! i = Some (Removing id reason st rest) -> active_sessions (manager s) !! id = Some x ->
  race_wf (set_thread i (Ending id reason st rest)
    (set_detached (<[id := x]> (detached s)) (set_manager (set_active (delete id (active_sessions (manager s))) (manager s)) s))).
Proof.
  intros Hw Hi Hx. set (s' := set_thread _ _ _). destruct (rw_active s Hw id x Hx) as [Hid Hc].
  assert (Harc : forall j, arc j s' = arc j s).
  { intros j. unfold arc. cbn. destruct (decide (j = id)) as [->|Hj]; [by rewrite lookup_delete_eq, lookup_insert_eq, Hx|].
    by rewrite lookup_delete_ne, lookup_insert_ne. }
  destruct (places_move s s' i _ (Ending id reason st rest) [] Hw Hi) as [Hp Hiss]; [done| |constructor|set_solver|set_solver|].
  { unfold filed, ended_ids. cbn. by rewrite (keys_delete _ id x Hx). }
  destruct (concat_swap gone _ _ _ (Ending id reason st rest) Hi) as (rg & G1 & G2).
  constructor; [done|done| | | | |].
  - intros j y. cbn. rewrite lookup_delete_Some. intros [_ Hy]. by apply (rw_active s Hw).
  - intros j y. cbn. rewrite G2. destruct (decide (j = id)) as [->|Hj].
    + rewrite lookup_insert_eq. intros [= <-]. split_and!; [done|done|]. by left.
    + rewrite lookup_insert_ne by done. intros Hy. destruct (rw_detached s Hw j y Hy) as (? & ? & Hin).
      split_and!; [done|done|]. rewrite G1 in Hin. right. exact Hin.
  - intros u. rewrite Harc. apply (rw_updates s Hw).
  - assert (Hd : forall j, detached s !! j <> None -> detached s' !! j <> None).
    { intros j. cbn. destruct (decide (j = id)) as [->|Hj]; [by rewrite lookup_insert_eq|by rewrite lookup_insert_ne]. }
    cbn. apply Forall_insert; [|cbn; by rewrite lookup_insert_eq]. apply (Forall_impl _ _ _ (rw_threads s Hw)). intros u.
    apply (thread_ok_mono s s' []); [by intros j; rewrite Harc|exact Hd|by rewrite app_nil_r].
  - apply (rw_closed s Hw).
Qed.

(** An ended or a refused session is filed. *)
Lemma wf_file s i t t' m' :
  race_wf s -> threads s !! i = Some t -> thread_ok s t' -> held t' = [] ->
  active_sessions m' = active_sessions (manager s) ->
  ended_ids m' ≡ₚ held t ++ ended_ids (manager s) ->
  (forall j, j ∈ gone t ++ (session_id <$> closed_sessions (manager s)) -> j ∈ session_id <$> closed_sessions m') ->
  Forall (closed_ok (updates s)) (closed_sessions m') ->
  race_wf (set_thread i t' (set_manager m' s)).
Proof.
  intros Hw Hi Hok Ht Ha He Hg Hc. set (s' := set_thread i t' (set_manager m' s)).
  assert (Harc : forall id, arc id s' = arc id s) by (intros id; unfold arc; cbn; by rewrite Ha).
  destruct (places_move s s' i t t' [] Hw Hi) as [Hp Hiss]; [done| |constructor|set_solver|set_solver|].
  { unfold filed. cbn. rewrite Ht, He, Ha. solve_Permutation. }
  assert (Hmono : forall u, thread_ok s u -> thread_ok s' u).
  { intros u. apply (thread_ok_mono s s' []); [by intros j; rewrite Harc|done|by rewrite app_nil_r]. }
  constructor; [done|done| | | | |].
  - cbn. rewrite Ha. apply (rw_active s Hw).
  - intros j y Hy. destruct (rw_detached s Hw j y Hy) as (? & ? & Hin). split_and!; [done|done|]. cbn.
    destruct (concat_swap gone _ _ _ t' Hi) as (rg & G1 & G2). rewrite G2. rewrite G1 in Hin. specialize (Hg j). set_solver.
  - intros u. rewrite Harc. apply (rw_updates s Hw).
  - cbn. apply Forall_insert; [|by apply Hmono]. apply (Forall_impl _ _ _ (rw_threads s Hw)), Hmono.
  - exact Hc.
Qed.

(** ** All steps *)

Lemma wf_adding now o i u s s' :
  race_wf s -> threads s !! i = Some (Adding u) -> next now o i (Adding u) s = Some s' -> race_wf s'.
Proof.
  intros Hw Hi Hn. destruct (Forall_lookup_1 _ _ _ _ (rw_threads s Hw) Hi) as [Hu Ha]. cbn in Hn.
  destruct (arc (tu_session_id u) s) as [x|] eqn:E; [|done]. cbn in Hn. injection Hn as <-.
  destruct (arc_elem s _ x Hw E) as (Hid & Hc & _).
  apply (wf_write s i (Adding u) (Queueing (add_traffic u x) []) (tu_session_id u) x (add_traffic u x) [u]); try done.
  - unfold counted. cbn. rewrite of_session_app, of_session_one, Hid, Z.eqb_refl. rewrite <- Hid in *. by apply accounts_add.
  - by intros v ->%list_elem_of_singleton.
Qed.

Lemma wf_ending now o i id reason st rest s s' :
  race_wf s -> threads s !! i = Some (Ending id reason st rest) ->
  next now o i (Ending id reason st rest) s = Some s' -> race_wf s'.
Proof.
  intros Hw Hi Hn. pose proof (Forall_lookup_1 _ _ _ _ (rw_threads s Hw) Hi) as Hd. cbn in Hd, Hn.
  destruct (arc id s) as [x|] eqn:E; [|done]. cbn in Hn. injection Hn as <-.
  destruct (arc_elem s _ x Hw E) as (Hid & Hc & _).
  assert (Hcl : counted (updates s ++ []) (close now reason st x)) by (rewrite app_nil_r; exact Hc).
  destruct (write_arc_frame id (close now reason st x) s) as (_ & _ & _ & _ & _ & Fu); [congruence|].
  pose proof (wf_write s i _ (Pushing (close now reason st x) rest) id x (close now reason st x) []
    (record_session_close (duration_secs (close now reason st x)) (metrics (manager s))) Hw Hi E) as Hwr.
  unfold after_write in Hwr. rewrite !app_nil_r in Hwr. apply Hwr; try done; [by intros u ?%elem_of_nil|by cbn; rewrite Hid|].
  cbn. rewrite Fu. apply closed_ok_all; [done|]. by rewrite app_nil_r in Hcl.
Qed.

Lemma wf_pushing i x rest s : race_wf s -> threads s !! i = Some (Pushing x rest) ->
  race_wf (set_thread i (Queueing x rest) (set_manager (push_closed x (manager s)) s)).
Proof.
  intros Hw Hi. apply (wf_file s i _ _ _ Hw Hi); try done.
  - unfold ended_ids. cbn. rewrite !fmap_app. cbn. solve_Permutation.
  - intros j. cbn. rewrite fmap_app. cbn. set_solver.
  - cbn. apply Forall_app. split; [apply (rw_closed s Hw)|]. apply Forall_singleton.
    exact (Forall_lookup_1 _ _ _ _ (rw_threads s Hw) Hi).
Qed.

Lemma wf_push_rejected i x s : race_wf s -> threads s !! i = Some (PushRejected x) ->
  race_wf (set_thread i Idle (set_manager (push_rejected x (manager s)) s)).
Proof.
  intros Hw Hi. apply (wf_file s i _ _ _ Hw Hi); try done.
  - unfold ended_ids. cbn. rewrite !fmap_app. cbn. solve_Permutation.
  - apply (rw_closed s Hw).
Qed.

Lemma wf_next now o i t s s' : race_wf s -> threads s !! i = Some t -> next now o i t s = Some s' -> race_wf s'.
Proof.
  intros Hw Hi Hn.
  assert (Hq : forall t' m', own t' = own t -> gone t' = gone t -> thread_ok s t' ->
    active_sessions m' = active_sessions (manager s) -> closed_sessions m' = closed_sessions (manager s) ->
    rejected_sessions m' = rejected_sessions (manager s) -> race_wf (set_thread i t' (set_manager m' s))).
  { intros t' m' ? ? ? ? ? ?. by apply (wf_quiet s i t). }
  pose proof (Forall_lookup_1 _ _ _ _ (rw_threads s Hw) Hi) as Hok.
  destruct t as [| | |x|x|u|id r st rest|id r st rest|id r st rest|id r st rest|x rest|x rest|x|x|[|id ids] found|batch];
    try discriminate Hn.
  - injection Hn as <-. by apply Hq.
  - injection Hn as <-. by apply wf_insert.
  - by apply (wf_adding now o i u s).
  - injection Hn as <-. destruct (session_controls (manager s) !! id); by apply Hq.
  - injection Hn as <-. by apply Hq.
  - cbn in Hn. destruct (active_sessions (manager s) !! id) as [x|] eqn:E; injection Hn as <-; [by apply wf_remove|].
    destruct (proceed_quiet s rest) as (? & ? & ?). by apply (Hq (proceed rest) (manager s)).
  - by apply (wf_ending now o i id r st rest s).
  - injection Hn as <-. by apply wf_pushing.
  - injection Hn as <-. destruct (proceed_quiet s rest) as (? & ? & ?). by apply Hq.
  - injection Hn as <-. by apply Hq.
  - injection Hn as <-. by apply wf_push_rejected.
  - injection Hn as <-. destruct (proceed_quiet s found) as (? & ? & ?). by apply (Hq (proceed found) (manager s)).
  - injection Hn as <-. by apply (Hq (Scanning ids (visit id found s)) (manager s)).
  - injection Hn as <-. by apply Hq.
Qed.

(** The counters of an update are machine integers. *)
Definition action_ok (a : action) : Prop := match a with ATraffic u => wf_update u | _ => True end.

Lemma wf_exec now o i a s s' : race_wf s -> action_ok a -> exec now o i a s = Some s' -> race_wf s'.
Proof.
  intros Hw Ha He. unfold exec in He. destruct (threads s !! i) as [t|] eqn:Hi; cbn in He; [|done].
  destruct a as [usr gs d p pr c|usr c|id tok udp|id now1|u|id r st|id r st|r st| |id| |e|]; try (destruct t; try discriminate He).
  all: try (by injection He as <-; apply wf_rules).
  all: try (by apply (wf_next now o i _ s s' Hw Hi)).
  - injection He as <-. unfold decide_request. destruct (evaluate_with_groups _ _ _ _ _ _) as [[] rule];
      by apply (wf_quiet s i Idle _ (manager s)).
  - injection He as <-. by apply (wf_quiet s i Idle _ (manager s)).
  - case_decide as Hf; [done|]. injection He as <-. by apply (wf_issue s i _ _ _ id Hw Hi).
  - case_decide as Hf; [done|]. injection He as <-. by apply (wf_issue s i _ _ _ id Hw Hi).
  - injection He as <-. destruct (active_sessions (manager s) !! tu_session_id u) as [x|] eqn:E; [|done].
    apply (wf_quiet s i Idle _ (manager s)); try done. split; [done|]. unfold arc. by rewrite E.
  - injection He as <-. by apply (wf_quiet s i Idle _ (manager s)).
  - injection He as <-. by apply (wf_quiet s i Idle _ (manager s)).
  - injection He as <-. destruct (proceed_quiet s ((fun id => (id, r, st)) <$> (iter_ids (active_sessions (manager s))).*1)) as (? & ? & ?).
    by apply (wf_quiet s i Idle _ (manager s)).
  - injection He as <-. by apply (wf_quiet s i Idle _ (manager s)).
  - injection He as <-. by apply (wf_quiet s i (Scanning ids found) _ (manager s)).
  - injection He as <-. unfold start_flush. destruct (batch_writer (manager s)) as [w|]; [|done].
    destruct (queue w); [done|]. by apply (wf_quiet s i Idle).
Qed.

Lemma wf_initial n st config e : race_wf (initial n st config e).
Proof.
  assert (Hc : forall f : thread -> list Z, f Idle = [] -> concat (f <$> replicate n Idle) = []).
  { intros f Hf. induction n as [|k IH]; [done|]. cbn. by rewrite Hf. }
  assert (Hp : places (initial n st config e) = []) by (unfold places; cbn; by rewrite Hc).
  constructor; try done.
  - rewrite Hp. constructor.
  - intros id. rewrite Hp. set_solver.
  - by intros u ?%elem_of_nil.
  - by apply Forall_replicate.
Qed.

Definition event_ok (e : event) : Prop := action_ok (ev_action e).

Lemma session_run_snoc tr e s : run (tr ++ [e]) s =
  (s ← run tr s; exec (ev_now e) (ev_outcome e) (ev_thread e) (ev_action e) s).
Proof. unfold run. by rewrite foldl_app. Qed.

Lemma wf_run tr s s' : race_wf s -> Forall event_ok tr -> run tr s = Some s' -> race_wf s'.
Proof.
  intros Hw Hok. revert s'. induction tr as [|e tr IH] using rev_ind; intros s'.
  - by intros [= <-].
  - rewrite Forall_app, Forall_singleton in Hok. destruct Hok as [Hok He]. rewrite session_run_snoc.
    destruct (run tr s) as [s1|]; cbn; [|done]. apply wf_exec; [by apply IH|done].
Qed.

(** A thread between two requests. *)
Definition waiting (t : thread) : Prop :=
  match t with Idle | Allowed _ _ _ | Refused _ _ _ => True | _ => False end.

Lemma next_total now o i t s : race_wf s -> threads s !! i = Some t -> waiting t \/ next now o i t s <> None.
Proof.
  intros Hw Hi. pose proof (Forall_lookup_1 _ _ _ _ (rw_threads s Hw) Hi) as Hok.
  destruct t as [| | |x|x|u|id r st rest|id r st rest|id r st rest|id r st rest|x rest|x rest|x|x|[|id ids] found|batch];
    try (by left); right; cbn; try done.
  - destruct Hok as [_ Ha]. by destruct (arc (tu_session_id u) s).
  - by destruct (active_sessions (manager s) !! id).
  - cbn in Hok. unfold arc. destruct (active_sessions (manager s) !! id); [done|]. by destruct (detached s !! id).
Qed.

(** ** A thread that nobody interrupts *)

Definition alone_step (now : Z) (o : outcome) (i : nat) s s' : Prop :=
  exists t, threads s !! i = Some t /\ next now o i t s = Some s'.

(** From [s] the thread goes on to [t'], with the manager in state [m']. *)
Definition leads_to (now : Z) (o : outcome) (i : nat) s (t' : thread) (m' : SessionManager T) : Prop :=
  exists s', rtc (alone_step now o i) s s' /\ manager s' = m' /\ threads s' = <[i := t']> (threads s) /\
    engine s' = engine s /\ issued s' = issued s.

Lemma leads_refl now o i s t : threads s !! i = Some t -> leads_to now o i s t (manager s).
Proof. intros Hi. exists s. split; [apply rtc_refl|]. split_and!; try done. symmetry. by apply list_insert_id. Qed.

Lemma leads_step now o i s t s1 t' m' :
  threads s !! i = Some t -> next now o i t s = Some s1 ->
  (exists u, threads s1 = <[i := u]> (threads s)) -> engine s1 = engine s -> issued s1 = issued s ->
  leads_to now o i s1 t' m' -> leads_to now o i s t' m'.
Proof.
  intros Hi Hn [u Hu] He Hiss (s' & Hr & Hm & Ht & He' & Hi'). exists s'. split; [|split_and!; try congruence].
  - exact (rtc_l _ _ _ _ (ex_intro _ t (conj Hi Hn)) Hr).
  - rewrite Ht, Hu. by rewrite list_insert_insert_eq.
Qed.

Lemma leads_trans now o i s t1 m1 t' m' :
  leads_to now o i s t1 m1 ->
  (forall s1, manager s1 = m1 -> threads s1 = <[i := t1]> (threads s) -> engine s1 = engine s -> issued s1 = issued s -> leads_to now o i s1 t' m') ->
  leads_to now o i s t' m'.
Proof.
  intros (s1 & Hr1 & Hm1 & Ht1 & He1 & Hi1) H1. destruct (H1 s1 Hm1 Ht1 He1 Hi1) as (s' & Hr & Hm & Ht & He & Hi).
  exists s'. split; [by transitivity s1|]. split_and!; try congruence. rewrite Ht, Ht1. by rewrite list_insert_insert_eq.
Qed.

Ltac flat := unfold set_thread, set_manager, set_detached, applied, issue, on_writer;
  cbn [manager detached engine threads issued updates]; rewrite ?list_insert_insert_eq.
Ltac here := cbn [threads]; by rewrite ?list_lookup_insert_eq by done.
Ltac step_by tac :=
  eapply leads_step; [here|tac|eexists; cbn [threads set_thread]; reflexivity|reflexivity|reflexivity|]; flat.
Ltac step := step_by ltac:(reflexivity).
Ltac stop := match goal with |- leads_to _ _ _ ?s _ _ => apply (leads_refl _ _ _ s); here end.

Lemma close_alone now o i id r st rest s :
  threads s !! i = Some (Forgetting id r st rest) ->
  leads_to now o i s (proceed rest) (close_session id now r st (manager s)).
Proof.
  intros Hi. pose proof (lookup_lt_Some _ _ _ Hi) as Hlen. destruct s as [m d e ts iss ups]; cbn [threads manager] in *.
  step. unfold close_session. cbn. destruct (active_sessions m !! id) as [x|] eqn:E.
  - step_by ltac:(cbn; rewrite E; reflexivity).
    step_by ltac:(unfold next, arc, write_arc; cbn; rewrite !lookup_delete_eq, lookup_insert_eq; reflexivity).
    step. step. stop.
  - step_by ltac:(cbn; rewrite E; reflexivity). stop.
Qed.

Lemma terminate_alone now o i id r st rest s :
  threads s !! i = Some (Terminating id r st rest) ->
  leads_to now o i s (proceed rest) (terminate_session id now r st (manager s)).
Proof.
  intros Hi. pose proof (lookup_lt_Some _ _ _ Hi) as Hlen. destruct s as [m d e ts iss ups]; cbn [threads manager] in *.
  step. unfold terminate_session. destruct (session_controls m !! id) as [c|]; apply close_alone; here.
Qed.

(** The loops over the sessions to terminate. *)
Lemma terminate_all_alone now o i rest s :
  threads s !! i = Some (proceed rest) ->
  leads_to now o i s Idle
    (fold_left (fun m (t : Z * string * SessionStatus) => terminate_session t.1.1 now t.1.2 t.2 m) rest (manager s)).
Proof.
  revert s. induction rest as [|[[id r] st] rest IH]; intros s Hi; [by apply leads_refl|].
  eapply leads_trans; [by apply terminate_alone|]. intros s1 Hm Ht _ _. cbn. rewrite <- Hm. apply IH.
  rewrite Ht. apply list_lookup_insert_eq. by apply lookup_lt_Some in Hi.
Qed.

Lemma scan_alone now o i (l : list (Z * Session)) found s :
  (forall id x, (id, x) ∈ l -> active_sessions (manager s) !! id = Some x) ->
  threads s !! i = Some (Scanning l.*1 found) ->
  leads_to now o i s (proceed (found ++ omap (fun x => (fun r => (session_id x, r, Failed)) <$> revocation (engine s) x) l.*2))
    (manager s).
Proof.
  revert found s. induction l as [|[id x] l IH]; intros found s Hl Hi; pose proof (lookup_lt_Some _ _ _ Hi) as Hlen.
  - cbn. rewrite app_nil_r. eapply leads_step; [exact Hi|reflexivity|by eexists|done|done|]. apply (leads_refl _ _ _ (set_thread _ _ s)).
    cbn. by apply list_lookup_insert_eq.
  - eapply leads_step; [exact Hi|reflexivity|by eexists|done|done|].
    assert (Hv : visit id found s = found ++ option_list ((fun r => (session_id x, r, Failed)) <$> revocation (engine s) x)).
    { unfold visit. rewrite (Hl id x) by (by left). destruct (revocation (engine s) x); [done|]. cbn. by rewrite app_nil_r. }
    pose proof (IH (visit id found s) (set_thread i (Scanning l.*1 (visit id found s)) s)) as IH'.
    destruct IH' as (s' & Hr & Hm & Ht & He & Hi').
    + intros j y Hj. apply Hl. by right.
    + cbn. by apply list_lookup_insert_eq.
    + exists s'. split; [exact Hr|]. split_and!; [exact Hm| |exact He|exact Hi']. rewrite Ht. cbn [engine set_thread]. f_equal. f_equal.
      rewrite Hv, <- (assoc_L (++)). f_equal. cbn. by destruct (revocation (engine s) x).
Qed.

Lemma open_alone now o i id token usr conn rule udp s t :
  threads s !! i = Some t ->
  leads_to now o i (open i id token now usr conn rule udp s) Idle
    (new_session_with_control id token now usr conn "allow" rule udp (manager s)).2.
Proof.
  intros Hi. pose proof (lookup_lt_Some _ _ _ Hi) as Hlen. destruct s as [m d e ts iss ups]; cbn [threads manager] in *.
  unfold open. flat. step. step. stop.
Qed.

Lemma reject_alone now o i id now1 usr conn rule s t :
  threads s !! i = Some t ->
  leads_to now o i (reject i id now1 now usr conn rule s) Idle
    (track_rejected_session id now1 now usr conn rule (manager s)).2.
Proof.
  intros Hi. pose proof (lookup_lt_Some _ _ _ Hi) as Hlen. destruct s as [m d e ts iss ups]; cbn [threads manager] in *.
  unfold reject. flat. step. step. stop.
Qed.

Lemma traffic_alone now o i u s x :
  threads s !! i = Some (Adding u) -> active_sessions (manager s) !! tu_session_id u = Some x ->
  leads_to now o i s Idle (update_traffic u (manager s)).
Proof.
  intros Hi Hx. pose proof (lookup_lt_Some _ _ _ Hi) as Hlen. destruct s as [m d e ts iss ups]; cbn [threads manager] in *.
  unfold update_traffic, apply_traffic_update. rewrite Hx.
  step_by ltac:(unfold next, arc, write_arc; cbn; rewrite !Hx; reflexivity). step. stop.
Qed.

Lemma flush_alone now o i s :
  threads s !! i = Some Idle ->
  leads_to now o i (start_flush i s) Idle (set_writer (flush o <$> batch_writer (manager s)) (manager s)).
Proof.
  intros Hi. pose proof (lookup_lt_Some _ _ _ Hi) as Hlen. destruct s as [m d e ts iss ups]; cbn [threads manager] in *.
  unfold start_flush, flush. cbn. destruct (batch_writer m) as [w|] eqn:E; cbn.
  - destruct (queue w) as [|x q] eqn:Eq.
    + replace (set_writer (Some w) m) with m by (destruct m; cbn in *; by subst). stop.
    + flat. rewrite E. cbn. step. flat. stop.
  - replace (set_writer None m) with m by (destruct m; cbn in *; by subst). stop.
Qed.

(** What an action does when nobody interrupts it, by [Manager]. *)
Definition whole (now : Z) (o : outcome) (a : action) (t : thread) (e : AclEngine) (m : SessionManager T)
    : option (SessionManager T) :=
  match a, t with
  | AOpen id token udp, Allowed usr conn rule =>
    Some (new_session_with_control id token now usr conn "allow" rule udp m).2
  | AReject id now1, Refused usr conn rule => Some (track_rejected_session id now1 now usr conn rule m).2
  | ATraffic u, Idle => Some (update_traffic u m)
  | AClose id reason st, Idle => Some (close_session id now reason st m)
  | ATerminate id reason st, Idle => Some (terminate_session id now reason st m)
  | ACloseAll reason st, Idle => Some (close_all_active (fun _ => now) reason st m)
  | AEnforce, Idle => Some (enforce_acl (fun _ => now) e m)
  | AFlush, Idle => Some (set_writer (flush o <$> batch_writer m) m)
  | _, _ => None
  end.

Lemma close_all_fold now reason st (l : list Z) (m : SessionManager T) :
  fold_left (fun m (t : Z * string * SessionStatus) => terminate_session t.1.1 now t.1.2 t.2 m)
    ((fun id => (id, reason, st)) <$> l) m =
  fold_left (fun m id => terminate_session id now reason st m) l m.
Proof. revert m. induction l as [|id l IH]; intros m; [done|]. apply IH. Qed.

Lemma enforce_fold now e (l : list Session) (m : SessionManager T) :
  fold_left (fun m (t : Z * string * SessionStatus) => terminate_session t.1.1 now t.1.2 t.2 m)
    (omap (fun x => (fun r => (session_id x, r, Failed)) <$> revocation e x) l) m =
  fold_left (fun m t => terminate_session t.1 now t.2 Failed m)
    (omap (fun x => (fun r => (session_id x, r)) <$> revocation e x) l) m.
Proof. revert m. induction l as [|x l IH]; intros m; [done|]. cbn. destruct (revocation e x); cbn; apply IH. Qed.

Lemma enforce_alone now o i s :
  threads s !! i = Some (Scanning (iter_ids (active_sessions (manager s))).*1 []) ->
  leads_to now o i s Idle (enforce_acl (fun _ => now) (engine s) (manager s)).
Proof.
  intros Hi. eapply leads_trans.
  - apply (scan_alone now o i (iter_ids (active_sessions (manager s)))); [|done]. intros id x. apply elem_of_iter_ids.
  - intros s1 Hm Ht _ _. unfold enforce_acl, to_terminate, get_active_sessions.
    rewrite <- enforce_fold, <- Hm. apply terminate_all_alone. rewrite Ht, Hm.
    apply list_lookup_insert_eq. by apply lookup_lt_Some in Hi.
Qed.

Lemma whole_alone now o i a t s s1 m' :
  threads s !! i = Some t -> exec now o i a s = Some s1 -> whole now o a t (engine s) (manager s) = Some m' ->
  leads_to now o i s1 Idle m'.
Proof.
  intros Hi He Hm. pose proof (lookup_lt_Some _ _ _ Hi) as Hlen. unfold exec in He. rewrite Hi in He. cbn in He.
  destruct a as [usr gs d p pr c|usr c|id tok udp|id now1|u|id r st|id r st|r st| |id| |e|]; destruct t; try discriminate Hm;
    try discriminate He; cbn in Hm; injection Hm as <-.
  - case_decide; [done|]. injection He as <-. by eapply open_alone.
  - case_decide; [done|]. injection He as <-. by eapply reject_alone.
  - injection He as <-. destruct (active_sessions (manager s) !! tu_session_id u) as [x|] eqn:E.
    + apply (traffic_alone now o i u (set_thread i (Adding u) s) x); [cbn; by apply list_lookup_insert_eq|exact E].
    + unfold update_traffic, apply_traffic_update. rewrite E.
      replace (set_metrics _ _) with (manager s) by (by destruct (manager s)). by apply leads_refl.
  - injection He as <-. apply (close_alone now o i id r st [] (set_thread _ _ s)). cbn. by apply list_lookup_insert_eq.
  - injection He as <-. apply (terminate_alone now o i id r st [] (set_thread _ _ s)). cbn. by apply list_lookup_insert_eq.
  - injection He as <-. unfold close_all_active. rewrite <- close_all_fold.
    apply (terminate_all_alone now o i _ (set_thread _ _ s)). cbn. by apply list_lookup_insert_eq.
  - injection He as <-. apply (enforce_alone now o i (set_thread _ _ s)). cbn. by apply list_lookup_insert_eq.
  - injection He as <-. by apply flush_alone.
Qed.

(** ** Revocation while others go on *)

Definition same_request (x y : Session) : Prop :=
  session_id x = session_id y /\ user x = user y /\ dest_ip x = dest_ip y /\ dest_port x = dest_port y /\
  protocol x = protocol y.

Lemma revocation_same e x y : same_request x y -> revocation e x = revocation e y.
Proof.
  intros (_ & Hu & Hd & Hp & Hpr). unfold revocation, session_address, session_acl_protocol. by rewrite Hu, Hd, Hp, Hpr.
Qed.

(** A session that was opened stays reachable, and does not come back into the map. *)
Definition keeps (id : Z) s s' : Prop :=
  (arc id s <> None -> arc id s' <> None) /\
  (arc id s <> None -> forall y, active_sessions (manager s') !! id = Some y ->
     exists x, active_sessions (manager s) !! id = Some x /\ same_request x y).

Lemma keeps_view id s s' :
  active_sessions (manager s') = active_sessions (manager s) -> detached s' = detached s -> keeps id s s'.
Proof. intros Ha Hd. unfold keeps, arc. rewrite Ha, Hd. split; [done|]. intros _ y Hy. by exists y. Qed.

Lemma keeps_write id j x y s s' :
  arc j s = Some x -> same_request x y ->
  active_sessions (manager s') = active_sessions (manager (write_arc j y s)) -> detached s' = detached (write_arc j y s) ->
  keeps id s s'.
Proof.
  intros Hx Hs Ha Hd. assert (Hn : arc j s <> None) by congruence.
  assert (Harc : arc id s' = arc id (write_arc j y s)) by (unfold arc; by rewrite Ha, Hd). split.
  - rewrite Harc, arc_write_arc by done. by case_decide.
  - intros _ z. rewrite Ha. unfold write_arc, arc in *. destruct (active_sessions (manager s) !! j) as [w|] eqn:E; cbn.
    + destruct (decide (id = j)) as [->|Hj]; [|rewrite lookup_insert_ne by done; intros Hz; by exists z].
      rewrite lookup_insert_eq. intros [= <-]. exists w. simplify_eq. done.
    + intros Hz. by exists z.
Qed.

Lemma keeps_next now o i t id s s' :
  race_wf s -> threads s !! i = Some t -> next now o i t s = Some s' -> keeps id s s'.
Proof.
  intros Hw Hi Hn.
  destruct t as [| | |x|x|u|j r st rest|j r st rest|j r st rest|j r st rest|x rest|x rest|x|x|[|j ids] found|batch];
    try discriminate Hn; try (injection Hn as <-; by apply keeps_view).
  - injection Hn as <-. destruct (own_unfiled s i _ (session_id x) Hw Hi) as [Hx _]; [by left|]. split.
    + unfold arc. cbn. destruct (decide (id = session_id x)) as [->|Hj]; [by rewrite lookup_insert_eq|by rewrite lookup_insert_ne].
    + intros Ha y. cbn. rewrite lookup_insert_ne by congruence. intros Hy. by exists y.
  - cbn in Hn. destruct (arc (tu_session_id u) s) as [x|] eqn:E; [|done]. cbn in Hn. injection Hn as <-.
    by apply (keeps_write id (tu_session_id u) x (add_traffic u x)).
  - injection Hn as <-. destruct (session_controls (manager s) !! j); by apply keeps_view.
  - cbn in Hn. destruct (active_sessions (manager s) !! j) as [x|] eqn:E; injection Hn as <-; [|by apply keeps_view].
    unfold keeps, arc. cbn. destruct (decide (id = j)) as [->|Hj].
    + rewrite lookup_delete_eq, lookup_insert_eq. done.
    + rewrite lookup_delete_ne, lookup_insert_ne by done. split; [done|]. intros _ y Hy. by exists y.
  - cbn in Hn. destruct (arc j s) as [x|] eqn:E; [|done]. cbn in Hn. injection Hn as <-.
    by apply (keeps_write id j x (close now r st x)).
Qed.

Lemma keeps_exec now o i a id s s' : race_wf s -> exec now o i a s = Some s' -> keeps id s s'.
Proof.
  intros Hw He. unfold exec in He. destruct (threads s !! i) as [t|] eqn:Hi; cbn in He; [|done].
  destruct a; try (by apply (keeps_next now o i t id s s' Hw Hi)); destruct t; try discriminate He;
    try (injection He as <-; by apply keeps_view).
  - case_decide; [done|]. injection He as <-. by apply keeps_view.
  - case_decide; [done|]. injection He as <-. by apply keeps_view.
  - injection He as <-. destruct (active_sessions (manager s) !! tu_session_id u); by apply keeps_view.
  - injection He as <-. unfold start_flush. destruct (batch_writer (manager s)) as [w|]; [|by apply keeps_view].
    destruct (queue w); by apply keeps_view.
Qed.

Lemma write_arc_view j x s : threads (write_arc j x s) = threads s /\ engine (write_arc j x s) = engine s.
Proof. unfold write_arc. by destruct (active_sessions (manager s) !! j). Qed.

Lemma next_threads now o i t s s' : next now o i t s = Some s' ->
  (exists t', threads s' = <[i := t']> (threads s)) /\ engine s' = engine s.
Proof.
  intros Hn.
  destruct t as [| | |x|x|u|j r st rest|j r st rest|j r st rest|j r st rest|x rest|x rest|x|x|[|j ids] found|batch];
    try discriminate Hn; try (injection Hn as <-; split; [by eexists|done]).
  - cbn in Hn. destruct (arc (tu_session_id u) s) as [x|]; [|done]. cbn in Hn. injection Hn as <-.
    destruct (write_arc_view (tu_session_id u) (add_traffic u x) s) as [Ht He]. cbn. rewrite Ht, He. split; [by eexists|done].
  - cbn in Hn. destruct (active_sessions (manager s) !! j); injection Hn as <-; (split; [by eexists|done]).
  - cbn in Hn. destruct (arc j s) as [x|]; [|done]. cbn in Hn. injection Hn as <-.
    destruct (write_arc_view j (close now r st x) s) as [Ht He]. cbn. rewrite Ht, He. split; [by eexists|done].
Qed.

(** A step of one thread leaves the others where they are. *)
Lemma exec_threads now o i a s s' : exec now o i a s = Some s' ->
  (forall j, j <> i -> threads s' !! j = threads s !! j) /\ ((forall e, a <> AReload e) -> engine s' = engine s).
Proof.
  intros He. unfold exec in He. destruct (threads s !! i) as [t|] eqn:Hi; cbn in He; [|done].
  assert (Hset : forall t' s0, threads s0 = threads s -> engine s0 = engine s ->
    (forall j, j <> i -> threads (set_thread i t' s0) !! j = threads s !! j) /\ engine (set_thread i t' s0) = engine s).
  { intros t' s0 Ht He0. cbn. rewrite Ht. split; [|done]. intros j Hj. by apply list_lookup_insert_ne. }
  destruct a; try (apply next_threads in He as [[t' ->] ->]; split; [|done]; intros j Hj; by apply list_lookup_insert_ne);
    destruct t; try discriminate He; try case_decide; try discriminate He; injection He as <-;
    try (split; [by apply Hset|intros _; by apply Hset]); try (split; [done|intros Hr; by destruct (Hr e)]).
  - destruct (active_sessions (manager s) !! tu_session_id u); [|done]. split; [by apply Hset|done].
  - unfold start_flush. destruct (batch_writer (manager s)) as [w|]; [|done]. destruct (queue w); [done|].
    split; [by apply Hset|done].
Qed.

(** The thread that revokes has the session still before it. *)
Definition named (id : Z) (rest : todo) : Prop := id ∈ (fun x => x.1.1) <$> rest.
Definition covered (id : Z) (t : thread) : Prop :=
  match t with
  | Scanning ids found => id ∈ ids \/ named id found
  | Terminating j _ _ rest | Forgetting j _ _ rest | Removing j _ _ rest => j = id \/ named id rest
  | Ending _ _ _ rest | Pushing _ rest | Queueing _ rest => named id rest
  | _ => False
  end.

Lemma covered_proceed id rest : named id rest -> covered id (proceed rest).
Proof.
  destruct rest as [|[[j r] st] rest]; [by intros ?%elem_of_nil|]. unfold named. cbn.
  intros [->|Hin]%elem_of_cons; [by left|by right].
Qed.

Lemma named_visit s id j found :
  race_wf s ->
  (j = id /\ (exists x, active_sessions (manager s) !! id = Some x /\ revocation (engine s) x <> None)) \/ named id found ->
  named id (visit j found s).
Proof.
  intros Hw Hc. unfold visit, named in *. destruct Hc as [[-> (x & Hx & Hr)]|Hc].
  - rewrite Hx. destruct (revocation (engine s) x) as [r|]; [|done]. rewrite fmap_app. cbn.
    rewrite (proj1 (rw_active s Hw id x Hx)). set_solver.
  - destruct (active_sessions (manager s) !! j) as [y|]; [|done]. destruct (revocation (engine s) y); [|done].
    rewrite fmap_app. set_solver.
Qed.

Lemma covered_next now o i id t x s s' :
  race_wf s -> threads s !! i = Some t -> covered id t ->
  active_sessions (manager s) !! id = Some x -> revocation (engine s) x <> None ->
  next now o i t s = Some s' ->
  active_sessions (manager s') !! id = None \/ exists t', threads s' !! i = Some t' /\ covered id t'.
Proof.
  intros Hw Hi Hc Hx Hr Hn. pose proof (lookup_lt_Some _ _ _ Hi) as Hlen.
  assert (Hset : forall t' s0, threads s0 = threads s -> covered id t' -> exists t0, threads (set_thread i t' s0) !! i = Some t0 /\ covered id t0).
  { intros t' s0 Ht Hc'. exists t'. split; [|done]. cbn. rewrite Ht. by apply list_lookup_insert_eq. }
  destruct t as [| | |y|y|u|j r st rest|j r st rest|j r st rest|j r st rest|y rest|y rest|y|y|[|j ids] found|batch];
    cbn in Hc; try done.
  - injection Hn as <-. right. by apply Hset.
  - injection Hn as <-. right. by apply Hset.
  - cbn in Hn. destruct (decide (j = id)) as [->|Hj].
    + rewrite Hx in Hn. injection Hn as <-. left. cbn. apply lookup_delete_eq.
    + destruct Hc as [?|Hc]; [done|].
      destruct (active_sessions (manager s) !! j); injection Hn as <-; right; apply Hset; try done. by apply covered_proceed.
  - cbn in Hn. destruct (arc j s) as [y|]; [|done]. cbn in Hn. injection Hn as <-. right. apply Hset; [apply write_arc_view|done].
  - injection Hn as <-. right. by apply Hset.
  - injection Hn as <-. right. apply Hset; [done|]. by apply covered_proceed.
  - injection Hn as <-. right. apply Hset; [done|]. apply covered_proceed. destruct Hc as [Hc|Hc]; [by apply elem_of_nil in Hc|done].
  - injection Hn as <-. right. apply Hset; [done|]. cbn. destruct Hc as [[->|Hc]%elem_of_cons|Hc]; [|by left|].
    + right. apply named_visit; [done|]. left. split; [done|]. by exists x.
    + right. apply named_visit; [done|]. by right.
Qed.

(** The thread only goes on with the revocation, and the rules are not changed. *)
Definition undisturbed (i : nat) (e : event) : Prop :=
  (forall r, ev_action e <> AReload r) /\
  (ev_thread e = i -> ev_action e = ANext \/ exists id, ev_action e = AVisit id).

Definition revoking (i : nat) (id : Z) (x : Session) (e : AclEngine) s : Prop :=
  race_wf s /\ engine s = e /\ arc id s <> None /\
  (active_sessions (manager s) !! id = None \/
   (exists y, active_sessions (manager s) !! id = Some y /\ same_request x y) /\
   exists t, threads s !! i = Some t /\ covered id t).

Lemma revoking_exec i id x e now o j a s s' :
  revocation e x <> None -> revoking i id x e s -> action_ok a -> undisturbed i (mkEvent now o j a) ->
  exec now o j a s = Some s' -> revoking i id x e s'.
Proof.
  intros Hr (Hw & He & Ha & Hc) Hok [Hnr Hi] Hx. cbn in Hnr, Hi.
  destruct (keeps_exec now o j a id s s' Hw Hx) as [Hk1 Hk2]. destruct (exec_threads now o j a s s' Hx) as [Ht Heng].
  split; [by eapply wf_exec|]. split; [by rewrite Heng|]. split; [by apply Hk1|].
  destruct (active_sessions (manager s') !! id) as [z|] eqn:Ez; [|by left].
  destruct (Hk2 Ha z eq_refl) as (y' & Hy' & Hs'). destruct Hc as [Hc|[(y & Hy & Hs) (t & Hit & Hcov)]]; [congruence|].
  assert (y' = y) as -> by congruence. right. split.
  { exists z. split; [done|]. destruct Hs as (?&?&?&?&?), Hs' as (?&?&?&?&?). repeat split; congruence. }
  destruct (decide (j = i)) as [->|Hj]; [|exists t; by rewrite Ht].
  assert (Hry : revocation (engine s) y <> None) by (rewrite He, <- (revocation_same e x y Hs); done).
  unfold exec in Hx. rewrite Hit in Hx. cbn in Hx. destruct (Hi eq_refl) as [->|[k ->]].
  - destruct (covered_next now o i id t y s s' Hw Hit Hcov Hy Hry) as [Hn|Hn]; [by destruct t|congruence|done].
  - destruct t; try done. injection Hx as <-. eexists. split; [cbn; apply list_lookup_insert_eq; by apply lookup_lt_Some in Hit|].
    cbn in Hcov |- *. destruct Hcov as [?|Hcov]; [by left|]. right. apply named_visit; [done|]. by right.
Qed.

Lemma revoking_run i id x e tr s s' :
  revocation e x <> None -> revoking i id x e s -> Forall event_ok tr -> Forall (undisturbed i) tr ->
  run tr s = Some s' -> revoking i id x e s'.
Proof.
  intros Hr Hs Hok Hun. revert s'. induction tr as [|ev tr IH] using rev_ind; intros s'; [by intros [= <-]|].
  rewrite Forall_app, Forall_singleton in Hok, Hun. destruct Hok as [Hok1 Hok2], Hun as [Hun1 Hun2]. rewrite session_run_snoc.
  destruct (run tr s) as [s1|]; cbn; [|done]. destruct ev as [now o j a]. apply revoking_exec; [done|by apply IH|done|done].
Qed.

Lemma exec_length now o i a s s' : exec now o i a s = Some s' -> length (threads s') = length (threads s).
Proof.
  intros He. unfold exec in He. destruct (threads s !! i) as [t|] eqn:Hi; cbn in He; [|done].
  destruct a; try (apply next_threads in He as [[t' ->] _]; apply length_insert);
    destruct t; try discriminate He; try case_decide; try discriminate He; injection He as <-; try (cbn; apply length_insert); try done.
  - destruct (active_sessions (manager s) !! tu_session_id u); [apply length_insert|done].
  - unfold start_flush. destruct (batch_writer (manager s)) as [w|]; [|done]. destruct (queue w); [done|apply length_insert].
Qed.

Lemma session_run_cons e tr s : run (e :: tr) s =
  (s1 ← exec (ev_now e) (ev_outcome e) (ev_thread e) (ev_action e) s; run tr s1).
Proof.
  unfold run. cbn. destruct (exec _ _ _ _ s) as [s1|]; [done|]. cbn. by induction tr.
Qed.

(** ** The theorems *)

(** C24: the session manager under any interleaving of its operations with each
    other, with the flushes of the batch writer and with changes of the rules.
    Every identifier that was drawn is in exactly one place: with the thread that
    opens, refuses or ends the session, in the map, among the ended or among the
    refused ones; so a session is ended once, whoever else wants to end it.  What
    the handle of a session leads to, in the map or out of it, counts every
    update that was ever made through a handle and no other, saturated at 2^64 -
    1; a record of the end has counted them up to some moment.  And no thread is
    stuck at a session that is gone. *)
Theorem session_race_safe n st config e tr s :
  Forall event_ok tr -> run tr (initial n st config e) = Some s ->
  NoDup (places s) /\ (forall id, id ∈ issued s <-> id ∈ places s) /\
  (forall id x, arc id s = Some x -> session_id x = id /\ accounts (of_session id (updates s)) x) /\
  Forall (closed_ok (updates s)) (closed_sessions (manager s)) /\
  (forall i t now o, threads s !! i = Some t -> waiting t \/ next now o i t s <> None).
Proof.
  intros Hok Hrun. pose proof (wf_run tr _ s (wf_initial n st config e) Hok Hrun) as Hw.
  split; [apply (rw_places s Hw)|]. split; [apply (rw_issued s Hw)|]. split; [|split; [apply (rw_closed s Hw)|]].
  - intros id x (<- & Hc & _)%arc_elem; done.
  - intros i t now o. by apply next_total.
Qed.

(** An operation that no other thread interrupts ends, and has then done to
    the manager what [Manager] says of it as a whole: opening and refusing a
    session, adding traffic, closing and terminating one, closing all, enforcing
    the rules, flushing the batch. *)
Theorem session_race_alone now o i a t s s1 m' :
  threads s !! i = Some t -> exec now o i a s = Some s1 -> whole now o a t (engine s) (manager s) = Some m' ->
  exists s', rtc (alone_step now o i) s1 s' /\ manager s' = m' /\ threads s' !! i = Some Idle /\
    (forall j, j <> i -> threads s' !! j = threads s !! j) /\ (forall now o, next now o i Idle s' = None).
Proof.
  intros Hi He Hm. destruct (whole_alone now o i a t s s1 m' Hi He Hm) as (s' & Hr & Hm' & Ht & _ & _).
  destruct (exec_threads now o i a s s1 He) as [Hts _]. exists s'. split_and!; try done.
  - rewrite Ht. apply list_lookup_insert_eq. rewrite (exec_length now o i a s s1 He). by eapply lookup_lt_Some.
  - intros j Hj. rewrite Ht, list_lookup_insert_ne by done. by apply Hts.
Qed.

(** C38: revocation under interleaving.  A thread enforces the rules while all
    other threads go on: opening, closing, adding traffic, enforcing themselves.
    If the rules do not change meanwhile, then when the thread is done every
    session that was in the map when it began, and that the rules block, is out
    of it. *)
Theorem revocation_reaches_all n st config e tr0 s now o i tr s' id x :
  Forall event_ok tr0 -> run tr0 (initial n st config e) = Some s -> threads s !! i = Some Idle ->
  Forall event_ok tr -> Forall (undisturbed i) tr ->
  run (mkEvent now o i AEnforce :: tr) s = Some s' -> threads s' !! i = Some Idle ->
  active_sessions (manager s) !! id = Some x -> revocation (engine s) x <> None ->
  active_sessions (manager s') !! id = None.
Proof.
  intros Hok0 Hrun0 Hi Hok Hun Hrun Hi' Hx Hr.
  pose proof (wf_run tr0 _ s (wf_initial n st config e) Hok0 Hrun0) as Hw.
  rewrite session_run_cons in Hrun. cbn [ev_now ev_outcome ev_thread ev_action] in Hrun.
  destruct (exec now o i AEnforce s) as [s1|] eqn:E1; cbn in Hrun; [|done].
  assert (H1 : revoking i id x (engine s) s1).
  { assert (Hw1 : race_wf s1) by by eapply (wf_exec now o i AEnforce).
    unfold exec in E1. rewrite Hi in E1. cbn in E1. injection E1 as <-. split; [done|]. split; [done|].
    split; [unfold arc; cbn; by rewrite Hx|]. right. split; [by exists x|].
    eexists. split; [cbn; apply list_lookup_insert_eq; by eapply lookup_lt_Some|]. left.
    apply list_elem_of_fmap. exists (id, x). split; [done|]. by apply elem_of_iter_ids. }
  destruct (revoking_run i id x (engine s) tr s1 s' Hr H1 Hok Hun Hrun) as (_ & _ & _ & [Hn|[_ (t & Ht & Hc)]]); [done|].
  rewrite Hi' in Ht. by injection Ht as <-.
Qed.
End spec.

(** ** Concrete runs *)

#[local] Existing Instance mem_sink.
#[local] Existing Instance map_order.
#[local] Existing Instance stable_unstable_sort.

Definition race_rules (a : Action) : AclEngine := mkAclEngine (mkCompiledAclConfig (mkGlobalAclConfig a) ∅ ∅ ∅).
Definition race_conn : ConnectionInfo := demo_conn "10.0.0.1".
Definition race_start (n : nat) : state (T := list Session) := initial n [] BatchConfig_default (race_rules Allow).

Definition race_saved : @outcome (list Session) mem_sink := true.

(** Thread [i] takes these steps, one second apart from [now] on. *)
Definition race_acts (i : nat) (now : Z) (acts : list action) : list (event (T := list Session)) :=
  imap (fun k a => mkEvent ((now + Z.of_nat k) * 10 ^ 9) true i a) acts.

Definition race_dest : Protocol.Address := Protocol.IPv4 (Z_to_u8 <$> [10; 0; 0; 1]).
Definition race_ask : action := ADecide "alice" [] race_dest 443 Acl.Tcp race_conn.
Definition race_update : TrafficUpdate := mkTrafficUpdate 1 100 50 1 1.

(** Session 1 of alice is open. *)
Definition race_open : list (event (T := list Session)) :=
  race_acts 0 10 [race_ask; AOpen 1 11 None; ANext; ANext].

(** Its relay has counted traffic and has not queued the session yet; another
    thread closes it; the relay goes on; the batch is saved. *)
Definition race_stale : list (event (T := list Session)) :=
  race_open ++ race_acts 0 20 [ATraffic race_update; ANext] ++
  race_acts 1 30 (AClose 1 (Some "done"%string) Closed :: replicate 5 ANext) ++
  race_acts 0 40 [ANext] ++ race_acts 2 50 [AFlush; ANext].

(** The relay has the handle; the session is closed; the relay counts. *)
Definition race_late : list (event (T := list Session)) :=
  race_open ++ race_acts 0 20 [ATraffic race_update] ++
  race_acts 1 30 (AClose 1 (Some "done"%string) Closed :: replicate 5 ANext) ++
  race_acts 0 40 [ANext; ANext] ++ race_acts 2 50 [AFlush; ANext].

(** The writer has taken the batch with the open session; it is closed; the
    flush of the shutdown saves that before the writer saves its batch. *)
Definition race_overtaken : list (event (T := list Session)) :=
  race_open ++ race_acts 2 20 [AFlush] ++
  race_acts 1 30 (AClose 1 (Some "done"%string) Closed :: replicate 5 ANext) ++
  race_acts 3 40 [AFlush; ANext] ++ race_acts 2 50 [ANext].

(** A request is allowed; the rules change and are enforced; the session opens. *)
Definition race_newcomer : list (event (T := list Session)) :=
  race_acts 0 10 [race_ask] ++ race_acts 1 20 (AReload (race_rules Block) :: AEnforce :: [ANext]) ++
  race_acts 0 30 [AOpen 1 11 None; ANext; ANext].

(** What a session shows of itself. *)
Definition glance (x : Session) : SessionStatus * Z := (status x, bytes_sent x).

(** After a run: whether all threads rest, the session in the map and among the
    ended ones, its row in the database, and the batch. *)
Definition race_end (s : state (T := list Session)) : bool * option (SessionStatus * Z) * list (SessionStatus * Z) *
    option (SessionStatus * Z) * nat :=
  (forallb (fun t => match t with Idle => true | _ => false end) (threads s),
   glance <$> active_sessions (manager s) !! 1, glance <$> closed_sessions (manager s),
   w ← batch_writer (manager s); glance <$> (stored (store w) 1 : option Session),
   match batch_writer (manager s) with Some w => length (queue w) | None => 0%nat end).

(** What two threads can do to the session manager, that one cannot.  In all
    four runs every thread comes to rest.  (1) A relay has added traffic to its
    session and dropped the lock; the session is closed and queued before the
    relay queues its older copy: the database keeps the session as active, while
    the manager has it as closed.  (2) A relay that held the handle adds traffic
    after the end: the row in the database has it, the manager's record has not.
    (3) The flush at shutdown overtakes the one of the writer's task: the older
    batch is saved last, and the closed session is active in the database.  (4) A
    request is allowed, the rules are changed to block it and are enforced, and
    only then is its session opened: it stays, although the rules in force block
    it. *)
Theorem session_race_faults :
  race_end <$> run race_stale (race_start 3) = Some (true, None, [(Closed, 100)], Some (Active, 100), 0%nat) /\
  race_end <$> run race_late (race_start 3) = Some (true, None, [(Closed, 0)], Some (Closed, 100), 0%nat) /\
  race_end <$> run race_overtaken (race_start 4) = Some (true, None, [(Closed, 0)], Some (Active, 0), 0%nat) /\
  (race_end <$> run race_newcomer (race_start 2) = Some (true, Some (Active, 0), [], None, 1%nat) /\
   (s ← run race_newcomer (race_start 2); x ← active_sessions (manager s) !! 1; revocation (engine s) x) =
     Some "Terminated by ACL update (Default policy)"%string).
Proof. split_and!; vm_compute; reflexivity. Qed.

Lemma race_acts_ok i now acts : Forall action_ok acts -> Forall event_ok (race_acts i now acts).
Proof.
  intros Ha. apply Forall_forall. intros e (k & a & -> & Hk)%elem_of_lookup_imap. exact (Forall_lookup_1 _ _ _ _ Ha Hk).
Qed.

Lemma session_race_safe_witness :
  Forall event_ok race_late /\
  exists s, run race_late (race_start 3) = Some s /\ closed_sessions (manager s) <> [] /\ NoDup (places s).
Proof.
  assert (Hok : Forall event_ok race_late).
  { unfold race_late, race_open. repeat (apply Forall_app; split); apply race_acts_ok; repeat constructor; by vm_compute. }
  split; [exact Hok|].
  assert (Hend : race_end <$> run race_late (race_start 3) = Some (true, None, [(Closed, 0)], Some (Closed, 100), 0%nat))
    by (vm_compute; reflexivity).
  destruct (run race_late (race_start 3)) as [s|] eqn:E; [|discriminate Hend].
  apply (inj Some) in Hend. exists s. split; [reflexivity|]. split.
  - intros Hn. unfold race_end in Hend. rewrite Hn in Hend. discriminate Hend.
  - exact (proj1 (session_race_safe 3 [] BatchConfig_default (race_rules Allow) race_late s Hok E)).
Defined.

Lemma session_race_alone_witness :
  exists s1 s', exec 0 race_saved 0 race_ask (race_start 1) = Some s1 /\
    exec (10 ^ 9) race_saved 0 (AOpen 1 11 None) s1 = Some s' /\
    exists s2, rtc (alone_step (10 ^ 9) race_saved 0) s' s2 /\
      manager s2 = (new_session_with_control 1 11 (10 ^ 9) "alice" race_conn "allow" (Some "Default policy (no matching groups)"%string)
                      None (manager s1)).2.
Proof.
  eexists _, _. split; [reflexivity|]. split; [reflexivity|].
  destruct (session_race_alone (10 ^ 9) race_saved 0 (AOpen 1 11 None)
    (Allowed "alice" race_conn (Some "Default policy (no matching groups)"%string))
    (set_thread 0 (Allowed "alice" race_conn (Some "Default policy (no matching groups)"%string)) (race_start 1))
    _ _ eq_refl eq_refl eq_refl) as (s2 & Hr & Hm & _).
  exists s2. split; [exact Hr|exact Hm].
Defined.

(** Thread 1 enforces rules that block session 1 while thread 0 adds traffic to it. *)
Definition race_enforce : list (event (T := list Session)) :=
  race_acts 1 30 [ANext] ++ race_acts 0 40 [ATraffic race_update; ANext; ANext] ++ race_acts 1 50 (replicate 7 ANext).

Lemma revocation_reaches_all_witness :
  exists s s' x,
    run (race_open ++ race_acts 1 20 [AReload (race_rules Block)]) (race_start 2) = Some s /\
    active_sessions (manager s) !! 1 = Some x /\ revocation (engine s) x <> None /\
    run (mkEvent 0 race_saved 1 AEnforce :: race_enforce) s = Some s' /\ active_sessions (manager s') !! 1 = None.
Proof.
  assert (Hok0 : Forall event_ok (race_open ++ race_acts 1 20 [AReload (race_rules Block)])).
  { unfold race_open. repeat (apply Forall_app; split); apply race_acts_ok; repeat constructor. }
  assert (Hok : Forall event_ok race_enforce).
  { unfold race_enforce. repeat (apply Forall_app; split); apply race_acts_ok; repeat constructor; by vm_compute. }
  assert (Hun : Forall (undisturbed 1) race_enforce).
  { unfold race_enforce. apply Forall_forall. intros e He. cbn in He.
    repeat (apply elem_of_cons in He as [->|He]; [by split; [|intros; first [discriminate|left]]|]). by apply elem_of_nil in He. }
  assert (H1 : (s ← run (race_open ++ race_acts 1 20 [AReload (race_rules Block)]) (race_start 2);
    x ← active_sessions (manager s) !! 1; revocation (engine s) x) = Some "Terminated by ACL update (Default policy)"%string)
    by (vm_compute; reflexivity).
  assert (H2 : (s ← run (race_open ++ race_acts 1 20 [AReload (race_rules Block)]) (race_start 2);
    s' ← run (mkEvent 0 race_saved 1 AEnforce :: race_enforce) s; Some (threads s !! 1%nat, threads s' !! 1%nat)) = Some (Some Idle, Some Idle))
    by (vm_compute; reflexivity).
  destruct (run _ (race_start 2)) as [s|] eqn:E; [|discriminate H1]. cbn [mbind option_bind] in H1, H2.
  destruct (active_sessions (manager s) !! 1) as [x|] eqn:Ex; [|discriminate H1]. cbn [mbind option_bind] in H1.
  destruct (run (_ :: race_enforce) s) as [s'|] eqn:E'; [|discriminate H2]. cbn [mbind option_bind] in H2. injection H2 as Hi Hi'.
  exists s, s', x. split; [reflexivity|]. split; [exact Ex|]. split; [by rewrite H1|]. split; [exact E'|].
  apply (revocation_reaches_all 2 [] BatchConfig_default (race_rules Allow) _ s 0 race_saved 1 race_enforce s' 1 x Hok0 E Hi Hok Hun E' Hi' Ex).
  by rewrite H1.
Defined.
