(* ===== verification/NetSpec.v ===== *)
(** * The textual form of every internet address is parsed back to it

    The IPv6 case of the round trip of [Net]: groups of up to four hexadecimal
    digits, one run of zero groups compressed, and the dotted form of the
    addresses that embed an IPv4 address. *)
From S2P Require Import Prelude Net.

(** What follows a group: the end, or a colon. *)
Definition ends_group (s : string) : bool :=
  match s with EmptyString => true | String c _ => bool_decide (c = ":"%char) end.

Lemma read_digits_end radix r : ends_group r = true -> read_digits radix r = ([], r).
Proof.
  destruct r as [|c r]; [done|]. intros ->%bool_decide_eq_true. cbn.
  unfold digit_val. cbn. by rewrite Z.ltb_irrefl.
Qed.

Fixpoint dotless (s : string) : bool :=
  match s with EmptyString => true | String c s' => bool_decide (c <> "."%char) && dotless s' end.

Lemma read_digits_dotless radix s r :
  dotless s = true -> ends_group r = true ->
  read_given_char "." (read_digits radix (s +:+ r)).2 = None.
Proof.
  intros Hs Hr. induction s as [|c s IH].
  - change ("" +:+ r) with r. rewrite read_digits_end by done.
    destruct r as [|c r]; [done|]. by apply bool_decide_eq_true in Hr as ->.
  - rewrite str_app_cons. cbn in *. apply andb_true_iff in Hs as [Hc Hs].
    destruct (digit_val radix c); [|cbn].
    + destruct (read_digits radix (s +:+ r)) as [ds t]. by apply IH.
    + apply bool_decide_eq_true in Hc. by rewrite decide_False.
Qed.

Lemma read_octet_dotless s r a t :
  dotless s = true -> ends_group r = true ->
  read_octet 0 (s +:+ r) = Some (a, t) -> read_given_char "." t = None.
Proof.
  intros Hs Hr. pose proof (read_digits_dotless 10 s r Hs Hr) as Hd.
  unfold read_octet, read_separator, read_number.
  destruct (read_digits 10 (s +:+ r)) as [ds t']. cbn in Hd.
  repeat case_match; naive_solver.
Qed.

(** No IPv4 address starts where there is no dot. *)
Lemma read_ipv4_addr_dotless s r :
  dotless s = true -> ends_group r = true -> read_ipv4_addr (s +:+ r) = None.
Proof.
  intros Hs Hr. unfold read_ipv4_addr.
  destruct (read_octet 0 (s +:+ r)) as [[a t]|] eqn:E; [|done]. cbn.
  apply read_octet_dotless in E; [|done..].
  assert (read_octet 1 t = None) as -> by (unfold read_octet, read_separator; by rewrite E).
  done.
Qed.

Lemma read_ipv4_addr_end r : ends_group r = true -> read_ipv4_addr r = None.
Proof. by apply (read_ipv4_addr_dotless ""). Qed.

(** ** One group *)

Lemma hex_digit_val d : 0 <= d < 16 -> digit_val 16 (hex_digit d) = Some d.
Proof.
  intros Hd.
  assert (Hall : forallb (fun d => bool_decide (digit_val 16 (hex_digit d) = Some d)) (seqZ 0 16)
                 = true) by reflexivity.
  rewrite List.forallb_forall in Hall.
  apply (bool_decide_eq_true (digit_val 16 (hex_digit d) = Some d)), Hall, list_elem_of_In,
    elem_of_seqZ. lia.
Qed.

Lemma hex_digit_dotless d : 0 <= d < 16 -> bool_decide (hex_digit d <> "."%char) = true.
Proof.
  intros Hd%hex_digit_val. apply bool_decide_eq_true. intros He. rewrite He in Hd. discriminate.
Qed.

(** The hexadecimal digits of a group, most significant first. *)
Definition hex_digits (g : Z) : list Z :=
  if g <? 16 then [g mod 16]
  else if g <? 256 then [g / 16 mod 16; g mod 16]
  else if g <? 4096 then [g / 256 mod 16; g / 16 mod 16; g mod 16]
  else [g / 4096; g / 256 mod 16; g / 16 mod 16; g mod 16].
Definition hex_text (ds : list Z) : string := foldr (fun d s => String (hex_digit d) s) "" ds.

Lemma fmt_hex16_digits g : fmt_hex16 g = hex_text (hex_digits g).
Proof. unfold fmt_hex16, hex_digits. by zcases. Qed.

Lemma hex_digits_spec g :
  is_u16 g ->
  Forall (fun d => 0 <= d < 16) (hex_digits g) /\ digits_value 16 (hex_digits g) = g /\
  (0 < length (hex_digits g) <= 4)%nat.
Proof.
  unfold is_u16, u16_max. intros Hg.
  assert (E2 : g / 16 / 16 = g / 256) by (rewrite Z.div_div; done).
  assert (E3 : g / 256 / 16 = g / 4096) by (rewrite Z.div_div; done).
  pose proof (Z.mod_pos_bound g 16 eq_refl). pose proof (Z.mod_pos_bound (g / 16) 16 eq_refl).
  pose proof (Z.mod_pos_bound (g / 256) 16 eq_refl).
  pose proof (Z.div_mod g 16 ltac:(lia)). pose proof (Z.div_mod (g / 16) 16 ltac:(lia)).
  pose proof (Z.div_mod (g / 256) 16 ltac:(lia)). rewrite E2, E3 in *.
  assert (g / 4096 < 16) by (apply Z.div_lt_upper_bound; lia).
  assert (0 <= g / 4096) by (apply Z.div_pos; lia).
  assert (g < 4096 -> g / 4096 = 0) by (intros; apply Z.div_small; lia).
  assert (g < 256 -> g / 256 = 0) by (intros; apply Z.div_small; lia).
  assert (g < 16 -> g / 16 = 0) by (intros; apply Z.div_small; lia).
  unfold hex_digits, digits_value.
  zcases; cbn [length fold_left]; repeat split; try lia; repeat constructor; lia.
Qed.

Lemma read_digits_hex ds r :
  Forall (fun d => 0 <= d < 16) ds -> ends_group r = true ->
  read_digits 16 (hex_text ds +:+ r) = (ds, r).
Proof.
  intros Hds Hr. induction Hds as [|d ds Hd Hds IH]; [by apply read_digits_end|].
  change (hex_text (d :: ds)) with (String (hex_digit d) (hex_text ds)).
  rewrite str_app_cons. cbn [read_digits]. by rewrite hex_digit_val, IH.
Qed.

Lemma read_number_hex g r :
  is_u16 g -> ends_group r = true ->
  read_number 16 4 true u16_max (fmt_hex16 g +:+ r) = Some (g, r).
Proof.
  intros Hg Hr. destruct (hex_digits_spec g Hg) as (Hds & Hv & Hl).
  rewrite fmt_hex16_digits. unfold read_number. rewrite read_digits_hex by done. rewrite Hv.
  destruct (Nat.ltb_spec 4 (length (hex_digits g))) as [|_]; [lia|].
  destruct (hex_digits g) as [|d0 ds]; [cbn in Hl; lia|]. cbn [negb andb].
  destruct (Z.leb_spec g u16_max); [done|zsolve].
Qed.

Lemma fmt_hex16_dotless g : is_u16 g -> dotless (fmt_hex16 g) = true.
Proof.
  intros (Hds & _ & _)%hex_digits_spec. rewrite fmt_hex16_digits.
  induction Hds as [|d ds Hd Hds IH]; [done|].
  change (hex_text (d :: ds)) with (String (hex_digit d) (hex_text ds)). cbn [dotless].
  by rewrite hex_digit_dotless, IH.
Qed.

(** ** Lists of groups *)

(** The text of the groups from index [i] on: a colon before all but index 0. *)
Definition sep_text (i : nat) (s : string) : string :=
  match i with O => s | S _ => String ":" s end.
Fixpoint groups_text (i : nat) (gs : list Z) : string :=
  match gs with [] => "" | g :: gs' => sep_text i (fmt_hex16 g +:+ groups_text (S i) gs') end.

Lemma groups_text_S i j gs : groups_text (S i) gs = groups_text (S j) gs.
Proof. revert i j. induction gs as [|g gs IH]; intros i j; [done|]. cbn. by rewrite (IH _ (S j)). Qed.

Lemma fmt_groups_text gs : fmt_groups gs = groups_text 0 gs.
Proof.
  unfold fmt_groups. assert (Hg : forall g gs,
    String.concat ":" (fmt_hex16 <$> (g :: gs)) = fmt_hex16 g +:+ groups_text 1 gs).
  { intros g gs'. revert g. induction gs' as [|h gs' IH]; intros g; [by rewrite str_app_nil_r|].
    change (String.concat ":" (fmt_hex16 <$> (g :: h :: gs'))) with
      (fmt_hex16 g +:+ (":" +:+ String.concat ":" (fmt_hex16 <$> (h :: gs')))).
    rewrite IH, (groups_text_S 0 1). reflexivity. }
  destruct gs as [|g gs]; [done|]. apply Hg.
Qed.

Lemma groups_text_app i gs hs :
  groups_text i (gs ++ hs) = groups_text i gs +:+ groups_text (i + length gs) hs.
Proof.
  revert i. induction gs as [|g gs IH]; intros i; [by rewrite Nat.add_0_r|]. cbn.
  rewrite IH, <- Nat.add_succ_comm. destruct i; cbn [sep_text];
    rewrite ?str_app_cons; by rewrite ?str_app_assoc.
Qed.

(** Groups are followed by the end or by two colons. *)
Definition stops (r : string) : Prop := r = EmptyString \/ exists t, r = "::" +:+ t.

Lemma stops_ends r : stops r -> ends_group r = true.
Proof. by intros [->|[t ->]]. Qed.

Lemma stops_nil : stops "".
Proof. by left. Qed.
Lemma stops_colons t : stops ("::" +:+ t).
Proof. right. eauto. Qed.
#[local] Hint Resolve stops_nil stops_colons stops_ends fmt_hex16_dotless : core.

Lemma groups_text_ends i gs r :
  stops r -> ends_group (groups_text (S i) gs +:+ r) = true.
Proof. intros Hr. destruct gs; [by apply stops_ends|done]. Qed.

Lemma read_groups_stops k i r : stops r -> read_groups k i r = ([], false, r).
Proof.
  intros Hr. destruct k as [|k]; [done|]. cbn [read_groups].
  assert (Hn : forall {A} (p : parser A), p "" = None -> (forall s, p (String ":" s) = None) ->
    read_separator ":" i p r = None).
  { intros A p He Hc. destruct Hr as [->|[t ->]]; destruct i; rewrite ?str_app_cons; cbn; rewrite ?decide_True by done; auto. }
  rewrite !Hn; try done. by destruct (1 <? S k)%nat.
Qed.

Lemma read_groups_text k i gs r :
  (length gs <= k)%nat -> Forall is_u16 gs -> stops r ->
  read_groups k i (groups_text i gs +:+ r) = (gs ≫= to_be_bytes, false, r).
Proof.
  intros Hk Hgs Hr. revert k i Hk. induction Hgs as [|g gs Hg Hgs IH]; intros k i Hk.
  - by apply read_groups_stops.
  - destruct k as [|k]; [cbn in Hk; lia|]. cbn [groups_text].
    assert (Hsep : forall {A} (p : parser A),
      read_separator ":" i p (sep_text i (fmt_hex16 g +:+ groups_text (S i) gs) +:+ r) =
      p (fmt_hex16 g +:+ (groups_text (S i) gs +:+ r))).
    { intros A p. destruct i; cbn [sep_text]; rewrite ?str_app_cons, str_app_assoc; done. }
    cbn [read_groups]. rewrite !Hsep.
    rewrite read_ipv4_addr_dotless by auto using fmt_hex16_dotless, groups_text_ends.
    rewrite read_number_hex by auto using groups_text_ends.
    rewrite IH by (cbn in Hk; lia). by destruct (1 <? S k)%nat.
Qed.

(** ** The run of zero groups *)

Lemma longest_zeros_spec gs i start len bs bl all :
  drop i all = gs -> (i <= length all)%nat ->
  (0 < len -> start + len = i /\ take len (drop start all) = replicate len 0%Z)%nat ->
  (bs + bl <= length all /\ take bl (drop bs all) = replicate bl 0%Z)%nat ->
  let '(s, l) := longest_zeros gs i start len bs bl in
  (s + l <= length all /\ take l (drop s all) = replicate l 0%Z)%nat.
Proof.
  revert i start len bs bl. induction gs as [|g gs IH]; intros i start len bs bl Hd Hi Hrun Hbest;
    [done|]. cbn [longest_zeros].
  assert (Hg : all !! i = Some g) by (by rewrite <- (Nat.add_0_r i), <- lookup_drop, Hd).
  assert (Hd' : drop (S i) all = gs) by (rewrite (drop_S _ _ _ Hg) in Hd; congruence).
  assert (Hi' : (S i <= length all)%nat) by (by apply lookup_lt_Some in Hg; lia).
  destruct (Z.eqb_spec g 0) as [->|Hne]; [|apply IH; done || lia].
  set (start' := if (len =? 0)%nat then i else start).
  assert (Hn : (start' + S len = S i)%nat /\ take (S len) (drop start' all) = replicate (S len) 0).
  { unfold start'. destruct (Nat.eqb_spec len 0) as [->|Hl].
    - split; [lia|]. by rewrite (drop_S _ _ _ Hg).
    - destruct Hrun as [<- Ht]; [lia|]. split; [lia|].
      rewrite (take_S_r _ _ 0), Ht by (by rewrite lookup_drop).
      by rewrite <- replicate_cons_app. }
  destruct (Nat.ltb_spec bl (S len)); apply IH; try done; try lia.
  destruct Hn as [Hn ->]. split; [lia|done].
Qed.

Lemma zeros_bytes n : replicate n 0 ≫= to_be_bytes = replicate (2 * n) x00.
Proof.
  induction n as [|n IH]; [done|]. cbn [replicate mbind list_bind]. rewrite IH.
  replace (2 * S n)%nat with (S (S (2 * n))) by lia. done.
Qed.

(** ** Addresses *)

Lemma read_colon s : read_given_char ":" (String ":" s) = Some (tt, s).
Proof. reflexivity. Qed.
Lemma read_dotted i o :
  length o = 4%nat -> read_separator ":" (S i) read_ipv4_addr (String ":" (fmt_ipv4 o)) = Some (o, EmptyString).
Proof.
  intros Ho. pose proof (parse_fmt_ipv4 o Ho) as Hp. unfold parse_with in Hp.
  cbn [read_separator]. rewrite read_colon.
  destruct (read_ipv4_addr (fmt_ipv4 o)) as [[o' [|]]|]; by simplify_eq.
Qed.

Lemma groups_spec n o :
  length o = (2 * n)%nat ->
  length (groups o) = n /\ Forall is_u16 (groups o) /\ groups o ≫= to_be_bytes = o.
Proof.
  revert o. induction n as [|n IH]; intros o Ho.
  - destruct o; [|cbn in Ho; lia]. by split_and!; [| constructor |].
  - destruct o as [|hi [|lo o]]; cbn in Ho; [lia..|].
    destruct (IH o) as (Hl & Hu & Hb); [lia|]. cbn [groups].
    split_and!; [cbn; lia | constructor; auto with rsocks |].
    cbn [mbind list_bind]. rewrite to_from_be_bytes. cbn. by f_equal; f_equal.
Qed.

Lemma bytes_length gs : length (gs ≫= to_be_bytes) = (2 * length gs)%nat.
Proof. induction gs as [|g gs IH]; [done|]. cbn [mbind list_bind]. rewrite length_app, IH. cbn. lia. Qed.

Lemma groups_text_cut gs start len :
  Forall is_u16 gs -> length gs = 8%nat -> (start + len <= 8)%nat -> (1 < len)%nat ->
  take len (drop start gs) = replicate len 0 ->
  parse_with read_ipv6_addr
    (groups_text 0 (take start gs) +:+ "::" +:+ groups_text 0 (drop (start + len) gs)) =
  Some (gs ≫= to_be_bytes).
Proof.
  intros Hu H8 Hle Hlen Hz. set (head := take start gs). set (tail := drop (start + len) gs).
  assert (Hhd : length head = start) by (unfold head; rewrite length_take; lia).
  assert (Htl : length tail = (8 - (start + len))%nat) by (unfold tail; rewrite length_drop; lia).
  assert (Hgs : gs = head ++ replicate len 0 ++ tail).
  { unfold head, tail. rewrite <- Hz, <- drop_drop, take_drop. by rewrite take_drop. }
  assert (Hu1 : Forall is_u16 head) by (by apply Forall_take).
  assert (Hu2 : Forall is_u16 tail) by (by apply Forall_drop).
  unfold parse_with, read_ipv6_addr.
  rewrite read_groups_text by (try done; lia).
  rewrite bytes_length, Hhd.
  destruct (Nat.eqb_spec (2 * start) 16) as [|_]; [lia|].
  rewrite !str_app_cons, read_colon. cbn [mbind option_bind]. rewrite read_colon.
  cbn [mbind option_bind]. rewrite <- (str_app_nil_r ("" +:+ _)).
  change ("" +:+ groups_text 0 tail) with (groups_text 0 tail).
  rewrite read_groups_text by (try done; rewrite (Nat.mul_comm 2), Nat.div_mul; lia).
  rewrite bytes_length, Htl, Hgs, !bind_app, zeros_bytes. do 4 f_equal. lia.
Qed.

Lemma parse_fmt_ipv6_mapped v4 :
  length v4 = 4%nat ->
  parse_with read_ipv6_addr ("::ffff:" +:+ fmt_ipv4 v4) =
  Some (replicate 10 x00 ++ [xff; xff] ++ v4).
Proof.
  intros Hl. unfold parse_with, read_ipv6_addr.
  rewrite (read_groups_stops 8 0) by apply (stops_colons ("ffff:" +:+ fmt_ipv4 v4)).
  cbn [length Nat.eqb]. rewrite !str_app_cons, read_colon. cbn [mbind option_bind].
  rewrite read_colon. cbn [mbind option_bind].
  change (String "f" (String "f" (String "f" (String "f" (String ":" ("" +:+ fmt_ipv4 v4))))))
    with (fmt_hex16 65535 +:+ String ":" (fmt_ipv4 v4)).
  change (8 - (0 / 2 + 1))%nat with 7%nat. cbn [read_groups].
  change (read_separator ":" 0 ?p ?s) with (p s).
  rewrite read_ipv4_addr_dotless by reflexivity. rewrite read_number_hex by done.
  rewrite read_dotted by done. cbn. by rewrite Hl.
Qed.

Lemma parse_fmt_ipv6 o : length o = 16%nat -> parse_with read_ipv6_addr (fmt_ipv6 o) = Some o.
Proof.
  intros Ho. unfold fmt_ipv6, to_ipv4_mapped. case_decide as Hm.
  - rewrite parse_fmt_ipv6_mapped by (rewrite length_drop; lia).
    f_equal. by rewrite <- (take_drop 12 o) at 2; rewrite Hm, <- app_assoc.
  - destruct (groups_spec 8 o Ho) as (H8 & Hu & Hb).
    pose proof (longest_zeros_spec (groups o) 0 0 0 0 0 (groups o) eq_refl) as Hz.
    destruct (longest_zeros (groups o) 0 0 0 0 0) as [start len].
    destruct Hz as [Hle Hz]; [lia | lia | by split; [lia|] |].
    rewrite !fmt_groups_text. destruct (Nat.ltb_spec 1 len).
    + rewrite groups_text_cut by (done || lia). by rewrite Hb.
    + rewrite <- (str_app_nil_r (groups_text 0 _)). unfold parse_with, read_ipv6_addr.
      rewrite read_groups_text by (try done; lia). by rewrite bytes_length, H8, Hb.
Qed.

(** An IPv6 address is not taken for an IPv4 address, as it has a colon first. *)
Lemma read_ipv4_addr_fmt_ipv6 o : length o = 16%nat -> read_ipv4_addr (fmt_ipv6 o) = None.
Proof.
  intros Ho. unfold fmt_ipv6, to_ipv4_mapped. case_decide; [reflexivity|].
  destruct (groups_spec 8 o Ho) as (H8 & Hu & _).
  assert (Hhead : forall gs r, Forall is_u16 gs -> stops r ->
    read_ipv4_addr (groups_text 0 gs +:+ r) = None).
  { intros gs r Hgs Hr. destruct Hgs as [|g gs Hg Hgs]; [by apply read_ipv4_addr_end, stops_ends|].
    cbn [groups_text sep_text]. rewrite str_app_assoc.
    auto using read_ipv4_addr_dotless, fmt_hex16_dotless, groups_text_ends. }
  destruct (longest_zeros _ _ _ _ _ _) as [start len]. rewrite !fmt_groups_text.
  destruct (1 <? len)%nat; [apply Hhead; auto using Forall_take|].
  rewrite <- (str_app_nil_r (groups_text 0 _)). by apply Hhead.
Qed.

(** [ip.to_string().parse()] is the address, for every address. *)
Lemma parse_ip_fmt_ip ip : wf_ip ip -> parse_ip (fmt_ip ip) = Some ip.
Proof.
  destruct ip as [o|o]; intros Ho; [by apply parse_ip_fmt_ipv4|].
  unfold parse_ip, parse_with. cbn [fmt_ip]. rewrite read_ipv4_addr_fmt_ipv6 by done.
  pose proof (parse_fmt_ipv6 o Ho) as Hp. unfold parse_with in Hp.
  destruct (read_ipv6_addr (fmt_ipv6 o)) as [[o' [|]]|]; by simplify_eq.
Qed.
#[export] Hint Rewrite parse_ip_fmt_ip using done : rsocks.
