(* ===== verification/Store.v ===== *)
(** * The session store

    src/src/session/store.rs.  The statements that the store builds piece by
    piece are modelled as it builds them, text and bound values, and given the
    meaning that SQL gives to the fragment they use (Module [Sql]: a lexer, a
    parser and an evaluator with the three truth values of SQL).  The constant
    statements are functions on the tables.  [Chrono] and [UuidText] are what is
    used of the two crates, [SqlEngine] is the freedom of the database: the order
    among equal sort keys, and the arithmetic of [julianday]. *)
From S2P Require Import Prelude Net Session.

(** ** Libraries *)

(** Instants between the years 0 and 9999, which have a year of four digits. *)
Definition four_digit_year (z : Z) : Prop :=
  -62167219200 * 10 ^ 9 <= z < 253402300800 * 10 ^ 9.

(** [to_rfc3339] prints UTC with a decimal fraction of 0, 3, 6 or 9 digits, which
    byte order sorts like the instants.  [naive_parse format value] stands for
    [NaiveDateTime::parse_from_str(value, format)] followed by [and_utc].
    [sub_days]/[sub_hours] are the subtraction of a [TimeDelta], [None] where it panics. *)
Class Chrono := {
  to_rfc3339 : Z -> string;
  parse_from_rfc3339 : string -> option Z;
  naive_parse : string -> string -> option Z;
  sub_days : Z -> Z -> option Z;
  sub_hours : Z -> Z -> option Z;
  rfc3339_parse : forall z, four_digit_year z -> parse_from_rfc3339 (to_rfc3339 z) = Some z;
  rfc3339_order : forall a b, four_digit_year a -> four_digit_year b ->
    String.leb (to_rfc3339 a) (to_rfc3339 b) = (a <=? b);
  sub_days_spec : forall now d, 0 <= d ->
    four_digit_year now -> four_digit_year (now - d * 86400 * 10 ^ 9) ->
    sub_days now d = Some (now - d * 86400 * 10 ^ 9);
  sub_hours_spec : forall now h, 0 <= h ->
    four_digit_year now -> four_digit_year (now - h * 3600 * 10 ^ 9) ->
    sub_hours now h = Some (now - h * 3600 * 10 ^ 9);
}.

Class UuidText := {
  uuid_to_string : Z -> string;
  uuid_parse_str : string -> option Z;
  uuid_parse : forall id, uuid_parse_str (uuid_to_string id) = Some id;
}.

(** Casts between [u64] and [i64], and to [u16]. *)
Definition as_i64 (z : Z) : Z := (z + 2 ^ 63) mod 2 ^ 64 - 2 ^ 63.
Definition as_u64 (z : Z) : Z := z mod 2 ^ 64.
Definition as_u16 (z : Z) : Z := z mod 2 ^ 16.

Definition i64_max : Z := 2 ^ 63 - 1.

(** ** Rows *)

(** The columns of the table [sessions]; [SessionRow] of the code when read,
    the values of [SessionParams] when written. *)
Record SessionRow : Type := mkSessionRow {
  sr_session_id : string;
  sr_user : string;
  sr_start_time : string;
  sr_end_time : option string;
  sr_duration_secs : option Z;
  sr_source_ip : string;
  sr_source_port : Z;
  sr_dest_ip : string;
  sr_dest_port : Z;
  sr_protocol : string;
  sr_bytes_sent : Z;
  sr_bytes_received : Z;
  sr_packets_sent : Z;
  sr_packets_received : Z;
  sr_status : string;
  sr_close_reason : option string;
  sr_acl_rule_matched : option string;
  sr_acl_decision : string;
}.

Record MetricSnapshotRow : Type := mkMetricSnapshotRow {
  mr_timestamp : string;
  mr_active_sessions : Z;
  mr_total_sessions : Z;
  mr_bandwidth : Z;
}.

(** The errors of [sqlx] that are told apart. *)
Inductive SqlxError : Type :=
| Database                       (* the database refused or failed *)
| ColumnDecode (index : string)
| Configuration (message : string).

(** ** The fragment of SQL *)
Module Sql.

Inductive value : Type := Null | Integer (z : Z) | Text (s : string).
#[export] Instance value_eq_dec : EqDecision value.
Proof. solve_decision. Defined.

(** What [QueryBuilder] accumulates. *)
Inductive piece : Type := Push (sql : string) | Bind (v : value).
Definition QueryBuilder : Type := list piece.
Definition push (sql : string) (b : QueryBuilder) : QueryBuilder := b ++ [Push sql].
Definition push_bind (v : value) (b : QueryBuilder) : QueryBuilder := b ++ [Bind v].

Inductive cmp : Type := Eq | Ge | Le.
Inductive token : Type :=
| TWord (w : string) | TBind (v : value) | TCmp (c : cmp) | TPlus | TLpar | TRpar | TComma
| TSelect | TFrom | TWhere | TAnd | TIs | TNot | TNull | TIn | TTrue
| TOrder | TBy | TAsc | TDesc | TLimit | TOffset.

Definition keywords : list (string * token) :=
  [("SELECT", TSelect); ("FROM", TFrom); ("WHERE", TWhere); ("AND", TAnd); ("IS", TIs);
   ("NOT", TNot); ("NULL", TNull); ("IN", TIn); ("1=1", TTrue); ("ORDER", TOrder); ("BY", TBy);
   ("ASC", TAsc); ("DESC", TDesc); ("LIMIT", TLimit); ("OFFSET", TOffset);
   ("=", TCmp Eq); (">=", TCmp Ge); ("<=", TCmp Le); ("+", TPlus)]%string.

Definition word_token (w : string) : token :=
  match List.find (fun k => bool_decide (k.1 = w)) keywords with
  | Some (_, t) => t
  | None => TWord w
  end.

Definition flush (cur : string) : list token :=
  match cur with EmptyString => [] | _ => [word_token cur] end.
Definition is_space (c : ascii) : bool := let n := Ascii.N_of_ascii c in (n =? 32)%N || (n =? 10)%N.
Definition punctuation (c : ascii) : option token :=
  if decide (c = "("%char) then Some TLpar
  else if decide (c = ")"%char) then Some TRpar
  else if decide (c = ","%char) then Some TComma
  else None.
Fixpoint lex (cur s : string) : list token :=
  match s with
  | EmptyString => flush cur
  | String c s' =>
    if is_space c then flush cur ++ lex "" s'
    else match punctuation c with
         | Some t => flush cur ++ t :: lex "" s'
         | None => lex (cur +:+ String c "") s'
         end
  end.
Definition tokens (b : QueryBuilder) : list token :=
  b ≫= fun p => match p with Push sql => lex "" sql | Bind v => [TBind v] end.

Inductive expr : Type := Col (c : string) | Sum (a b : string).
Inductive cond : Type :=
| CTrue
| CCmp (e : expr) (c : cmp) (v : value)
| CNotNull (c : string)
| CIn (c : string) (vs : list value).

Record select : Type := mkSelect {
  columns : list string;
  table : string;
  conds : list cond;
  order : option (string * bool);  (* the column, and whether it ascends *)
  limit : option value;
  offset : option value;
}.

Fixpoint parse_columns (ts : list token) : option (list string * list token) :=
  match ts with
  | TWord c :: TComma :: r => '(cs, r') ← parse_columns r; Some (c :: cs, r')
  | TWord c :: TFrom :: r => Some ([c], r)
  | TWord f :: TLpar :: TWord c :: TRpar :: TWord _ :: TWord _ :: TFrom :: r =>
    Some ([f +:+ "(" +:+ c +:+ ")"], r) (* f(c) as name *)
  | _ => None
  end.

Fixpoint parse_values (ts : list token) : option (list value * list token) :=
  match ts with
  | TBind v :: TComma :: r => '(vs, r') ← parse_values r; Some (v :: vs, r')
  | TBind v :: TRpar :: r => Some ([v], r)
  | _ => None
  end.

Definition parse_cond (ts : list token) : option (cond * list token) :=
  match ts with
  | TTrue :: r => Some (CTrue, r)
  | TWord c :: TIs :: TNot :: TNull :: r => Some (CNotNull c, r)
  | TWord c :: TIn :: TLpar :: r => '(vs, r') ← parse_values r; Some (CIn c vs, r')
  | TWord c :: TCmp o :: TBind v :: r => Some (CCmp (Col c) o v, r)
  | TLpar :: TWord a :: TPlus :: TWord b :: TRpar :: TCmp o :: TBind v :: r =>
    Some (CCmp (Sum a b) o v, r)
  | _ => None
  end.

(** [n] bounds the number of conditions. *)
Fixpoint parse_conds (n : nat) (ts : list token) : option (list cond * list token) :=
  match n with
  | O => None
  | S n' =>
    '(c, r) ← parse_cond ts;
    match r with
    | TAnd :: r' => '(cs, r'') ← parse_conds n' r'; Some (c :: cs, r'')
    | _ => Some ([c], r)
    end
  end.

Definition parse_order (ts : list token) : option (option (string * bool) * list token) :=
  match ts with
  | TOrder :: TBy :: TWord c :: TAsc :: r => Some (Some (c, true), r)
  | TOrder :: TBy :: TWord c :: TDesc :: r => Some (Some (c, false), r)
  | TOrder :: _ => None
  | _ => Some (None, ts)
  end.

(** [OFFSET] is part of the [LIMIT] clause. *)
Definition parse_limit (ts : list token) : option (option value * option value) :=
  match ts with
  | [] => Some (None, None)
  | [TLimit; TBind l] => Some (Some l, None)
  | [TLimit; TBind l; TOffset; TBind o] => Some (Some l, Some o)
  | _ => None
  end.

Definition parse (ts : list token) : option select :=
  match ts with
  | TSelect :: r =>
    '(cols, r) ← parse_columns r;
    match r with
    | TWord t :: TWhere :: r =>
      '(cs, r) ← parse_conds (length r) r;
      '(o, r) ← parse_order r;
      '(l, off) ← parse_limit r;
      Some (mkSelect cols t cs o l off)
    | _ => None
    end
  | _ => None
  end.

(** [NULL] sorts before integers, integers before text. *)
Definition leb (a b : value) : bool :=
  match a, b with
  | Null, _ => true
  | _, Null => false
  | Integer x, Integer y => x <=? y
  | Integer _, Text _ => true
  | Text _, Integer _ => false
  | Text s, Text t => String.leb s t
  end.

(** A comparison with [NULL] is neither true nor false. *)
Definition eval_cmp (o : cmp) (a b : value) : option bool :=
  match a, b with
  | Null, _ | _, Null => None
  | _, _ => Some match o with Eq => bool_decide (a = b) | Ge => leb b a | Le => leb a b end
  end.

Definition cond_columns (c : cond) : list string :=
  match c with
  | CTrue => []
  | CCmp (Col c) _ _ | CNotNull c | CIn c _ => [c]
  | CCmp (Sum a b) _ _ => [a; b]
  end.

Section rows.
Context {R : Type} (get : R -> string -> option value).

Definition eval_expr (e : expr) (r : R) : option value :=
  match e with
  | Col c => get r c
  | Sum a b =>
    x ← get r a; y ← get r b;
    match x, y with Integer x, Integer y => Some (Integer (x + y)) | _, _ => Some Null end
  end.

(** The outer [None]: no such column. *)
Definition eval_cond (c : cond) (r : R) : option (option bool) :=
  match c with
  | CTrue => Some (Some true)
  | CCmp e o v => x ← eval_expr e r; Some (eval_cmp o x v)
  | CNotNull c => x ← get r c; Some (Some (negb (bool_decide (x = Null))))
  | CIn c vs => x ← get r c;
    Some (match x with
          | Null => match vs with [] => Some false | _ => None end
          | _ => if bool_decide (x ∈ vs) then Some true
                 else if bool_decide (Null ∈ vs) then None else Some false
          end)
  end.

(** A row is selected when every condition is true. *)
Definition selects (cs : list cond) (r : R) : bool :=
  forallb (fun c => bool_decide (eval_cond c r = Some (Some true))) cs.

Definition order_leb (c : string) (ascending : bool) (a b : R) : bool :=
  let x := default Null (get a c) in let y := default Null (get b c) in
  if ascending then leb x y else leb y x.
End rows.

(** A negative limit is no limit, a negative offset is none. *)
Definition apply_limit {A} (l o : option value) (rows : list A) : list A :=
  let rows := match o with Some (Integer n) => drop (Z.to_nat n) rows | _ => rows end in
  match l with
  | Some (Integer n) => if n <? 0 then rows else take (Z.to_nat n) rows
  | _ => rows
  end.
End Sql.
Import Sql (value, Null, Integer, Text, QueryBuilder, push, push_bind).

(** The order of the rows of a query is any order that its sort key allows. *)
Class SqlEngine := {
  order_rows : (SessionRow -> SessionRow -> bool) -> list SessionRow -> list SessionRow;
  order_rows_perm : forall le l, order_rows le l ≡ₚ l;
  order_rows_sorted : forall (le : SessionRow -> SessionRow -> bool) l,
    (forall x y, le x y = true \/ le y x = true) ->
    (forall x y z, le x y = true -> le y z = true -> le x z = true) ->
    sorted le (order_rows le l);
  (* CAST((julianday(a) - julianday(b)) * 86400 AS INTEGER) *)
  julian_secs : string -> string -> option Z;
}.

(** ** The columns of a row, by name *)

Definition opt_text (o : option string) : value := match o with Some s => Text s | None => Null end.
Definition opt_int (o : option Z) : value := match o with Some z => Integer z | None => Null end.

Definition row_columns : list string :=
  ["session_id"; "user"; "start_time"; "end_time"; "duration_secs"; "source_ip";
   "source_port"; "dest_ip"; "dest_port"; "protocol"; "bytes_sent"; "bytes_received";
   "packets_sent"; "packets_received"; "status"; "close_reason"; "acl_rule_matched"; "acl_decision"]%string.

Definition get_column (r : SessionRow) (c : string) : option value :=
  if decide (c = "session_id")%string then Some (Text (sr_session_id r))
  else if decide (c = "user")%string then Some (Text (sr_user r))
  else if decide (c = "start_time")%string then Some (Text (sr_start_time r))
  else if decide (c = "end_time")%string then Some (opt_text (sr_end_time r))
  else if decide (c = "duration_secs")%string then Some (opt_int (sr_duration_secs r))
  else if decide (c = "source_ip")%string then Some (Text (sr_source_ip r))
  else if decide (c = "source_port")%string then Some (Integer (sr_source_port r))
  else if decide (c = "dest_ip")%string then Some (Text (sr_dest_ip r))
  else if decide (c = "dest_port")%string then Some (Integer (sr_dest_port r))
  else if decide (c = "protocol")%string then Some (Text (sr_protocol r))
  else if decide (c = "bytes_sent")%string then Some (Integer (sr_bytes_sent r))
  else if decide (c = "bytes_received")%string then Some (Integer (sr_bytes_received r))
  else if decide (c = "packets_sent")%string then Some (Integer (sr_packets_sent r))
  else if decide (c = "packets_received")%string then Some (Integer (sr_packets_received r))
  else if decide (c = "status")%string then Some (Text (sr_status r))
  else if decide (c = "close_reason")%string then Some (opt_text (sr_close_reason r))
  else if decide (c = "acl_rule_matched")%string then Some (opt_text (sr_acl_rule_matched r))
  else if decide (c = "acl_decision")%string then Some (Text (sr_acl_decision r))
  else None.

Section store.
Context {chrono : Chrono} {uuids : UuidText}.

(** ** Rows and sessions *)

(** [SessionParams::from]: the eighteen values bound by the upsert. *)
Definition SessionParams_from (session : Session) : SessionRow :=
  {| sr_session_id := uuid_to_string (session_id session);
     sr_user := user session;
     sr_start_time := to_rfc3339 (start_time session);
     sr_end_time := to_rfc3339 <$> end_time session;
     sr_duration_secs := as_i64 <$> duration_secs session;
     sr_source_ip := fmt_ip (source_ip session);
     sr_source_port := source_port session;
     sr_dest_ip := dest_ip session;
     sr_dest_port := dest_port session;
     sr_protocol := Protocol_as_str (protocol session);
     sr_bytes_sent := as_i64 (bytes_sent session);
     sr_bytes_received := as_i64 (bytes_received session);
     sr_packets_sent := as_i64 (packets_sent session);
     sr_packets_received := as_i64 (packets_received session);
     sr_status := SessionStatus_as_str (status session);
     sr_close_reason := close_reason session;
     sr_acl_rule_matched := acl_rule_matched session;
     sr_acl_decision := acl_decision session |}.

Definition decode_error {A} (field : string) (o : option A) : result SqlxError A :=
  ok_or (ColumnDecode field) o.

Definition parse_legacy_timestamp (value : string) : option Z :=
  match naive_parse "%Y-%m-%dT%H:%M:%S%.f" value with Some t => Some t | None =>
  match naive_parse "%Y-%m-%d %H:%M:%S%.f" value with Some t => Some t | None =>
  match naive_parse "%Y-%m-%dT%H:%M:%S" value with Some t => Some t | None =>
  naive_parse "%Y-%m-%d %H:%M:%S" value end end end.

Definition parse_datetime (field value : string) : result SqlxError Z :=
  decode_error field
    match parse_from_rfc3339 value with Some t => Some t | None => parse_legacy_timestamp value end.

Definition sanitize_duration (value : option Z) : option Z :=
  v ← value; if 0 <=? v then Some (as_u64 v) else None.

Definition ok {E A} (r : result E A) : option A := match r with Ok a => Some a | Err _ => None end.

Definition into_session (r : SessionRow) : result SqlxError Session :=
  session_id ← decode_error "session_id" (uuid_parse_str (sr_session_id r));
  start_time ← parse_datetime "start_time" (sr_start_time r);
  end_time ← match sr_end_time r with
             | Some ts => Some <$> parse_datetime "end_time" ts
             | None => Ok None
             end;
  protocol ← decode_error "protocol" (ok (Protocol_from_str (sr_protocol r)));
  status ← decode_error "status" (ok (SessionStatus_from_str (sr_status r)));
  source_ip ← decode_error "source_ip" (parse_ip (sr_source_ip r));
  Ok {| session_id := session_id; user := sr_user r; start_time := start_time;
        end_time := end_time; duration_secs := sanitize_duration (sr_duration_secs r);
        source_ip := source_ip; source_port := as_u16 (sr_source_port r);
        dest_ip := sr_dest_ip r; dest_port := as_u16 (sr_dest_port r);
        protocol := protocol;
        bytes_sent := as_u64 (sr_bytes_sent r); bytes_received := as_u64 (sr_bytes_received r);
        packets_sent := as_u64 (sr_packets_sent r);
        packets_received := as_u64 (sr_packets_received r);
        status := status; close_reason := sr_close_reason r;
        acl_rule_matched := sr_acl_rule_matched r; acl_decision := sr_acl_decision r |}.

Definition into_metric (r : MetricSnapshotRow) : result SqlxError MetricsSnapshot :=
  timestamp ← parse_datetime "timestamp" (mr_timestamp r);
  Ok (mkMetricsSnapshot timestamp (as_u64 (mr_active_sessions r)) (as_u64 (mr_total_sessions r))
        (as_u64 (mr_bandwidth r))).

(** ** State *)

(** [stat1] is what the engine answers when the row count that [ANALYZE] left in
    [sqlite_stat1] is fetched as an integer: no row, an error or a number. *)
Record SessionStore : Type := mkSessionStore {
  is_sqlite : bool;
  sessions : list (Z * SessionRow);      (* with their row identifiers *)
  metrics_snapshots : list MetricSnapshotRow;
  stat1 : option (result SqlxError Z);
}.
Definition set_sessions (t : list (Z * SessionRow)) (st : SessionStore) : SessionStore :=
  mkSessionStore (is_sqlite st) t (metrics_snapshots st) (stat1 st).
Definition set_snapshots (t : list MetricSnapshotRow) (st : SessionStore) : SessionStore :=
  mkSessionStore (is_sqlite st) (sessions st) t (stat1 st).

(** A new row gets the identifier after the largest one in use. *)
Definition max_rowid (t : list (Z * SessionRow)) : Z := foldr Z.max 0 t.*1.

(** INSERT INTO sessions ... ON CONFLICT(session_id) DO UPDATE SET <every other column> *)
Fixpoint update_row (row : SessionRow) (t : list (Z * SessionRow)) : option (list (Z * SessionRow)) :=
  match t with
  | [] => None
  | (i, r) :: t' =>
    if decide (sr_session_id r = sr_session_id row) then Some ((i, row) :: t')
    else cons (i, r) <$> update_row row t'
  end.
Definition upsert (row : SessionRow) (t : list (Z * SessionRow)) : list (Z * SessionRow) :=
  match update_row row t with
  | Some t' => t'
  | None => t ++ [(max_rowid t + 1, row)]
  end.

(** ** Writing: [db] says whether the database carries the statement out *)

Definition upsert_session (db : bool) (session : Session) (st : SessionStore)
    : result SqlxError () * SessionStore :=
  if db then (Ok (), set_sessions (upsert (SessionParams_from session) (sessions st)) st)
  else (Err Database, st).
Definition insert_session := upsert_session.
Definition update_session := upsert_session.

(** What becomes of a transaction: whether it begins, the statement that fails,
    whether it commits. *)
Record transaction : Type := mkTransaction {
  begins : bool; fails_at : option nat; commits : bool }.

Fixpoint execute_all (fails_at : option nat) (batch : list Session) (t : list (Z * SessionRow))
    : result SqlxError (list (Z * SessionRow)) :=
  match batch with
  | [] => Ok t
  | session :: batch' =>
    match fails_at with
    | Some O => Err Database
    | _ => execute_all (pred <$> fails_at) batch' (upsert (SessionParams_from session) t)
    end
  end.

(** A transaction that is dropped before its commit is rolled back. *)
Definition save_batch (tx : transaction) (batch : list Session) (st : SessionStore)
    : result SqlxError () * SessionStore :=
  if begins tx then
    match execute_all (fails_at tx) batch (sessions st) with
    | Ok t => if commits tx then (Ok (), set_sessions t st) else (Err Database, st)
    | Err e => (Err e, st)
    end
  else (Err Database, st).

Context {engine : SqlEngine}.

(** UPDATE sessions SET status = 'closed', ... WHERE status = 'active' *)
Definition close_row (now : string) (r : SessionRow) : SessionRow :=
  {| sr_session_id := sr_session_id r; sr_user := sr_user r; sr_start_time := sr_start_time r;
     sr_end_time := Some now; sr_duration_secs := julian_secs now (sr_start_time r);
     sr_source_ip := sr_source_ip r; sr_source_port := sr_source_port r;
     sr_dest_ip := sr_dest_ip r; sr_dest_port := sr_dest_port r; sr_protocol := sr_protocol r;
     sr_bytes_sent := sr_bytes_sent r; sr_bytes_received := sr_bytes_received r;
     sr_packets_sent := sr_packets_sent r; sr_packets_received := sr_packets_received r;
     sr_status := "closed"; sr_close_reason := Some "Server restart"%string;
     sr_acl_rule_matched := sr_acl_rule_matched r; sr_acl_decision := sr_acl_decision r |}.
Definition close_all_active_sessions (db : bool) (now : Z) (st : SessionStore)
    : result SqlxError Z * SessionStore :=
  if db then
    let active (p : Z * SessionRow) := bool_decide (sr_status p.2 = "active"%string) in
    (Ok (Z.of_nat (length (List.filter active (sessions st)))),
     set_sessions ((fun p => if active p then (p.1, close_row (to_rfc3339 now) p.2) else p)
                     <$> sessions st) st)
  else (Err Database, st).

(** DELETE FROM sessions WHERE start_time < ?; the outer [None] is a panic of the
    subtraction of instants. *)
Definition text_lt (a b : string) : bool := negb (String.leb b a).
Definition cleanup_older_than (db : bool) (now retention_days : Z) (st : SessionStore)
    : option (result SqlxError Z * SessionStore) :=
  if retention_days =? 0 then Some (Ok 0, st)
  else
    cutoff ← sub_days now (as_i64 retention_days);
    Some (if db then
      let old (p : Z * SessionRow) := text_lt (sr_start_time p.2) (to_rfc3339 cutoff) in
      (Ok (Z.of_nat (length (List.filter old (sessions st)))),
       set_sessions (List.filter (fun p => negb (old p)) (sessions st)) st)
    else (Err Database, st)).

(** The period of [spawn_cleanup] and [spawn_metrics_cleanup] in seconds, if they run. *)
Definition cleanup_interval_secs (retention interval_hours : Z) : option Z :=
  if retention =? 0 then None else Some (wrap64 (Z.max interval_hours 1 * 3600)).

Definition insert_metric (db : bool) (m : MetricsSnapshot) (st : SessionStore)
    : result SqlxError () * SessionStore :=
  if db then
    (Ok (), set_snapshots (metrics_snapshots st ++
      [mkMetricSnapshotRow (to_rfc3339 (timestamp m)) (as_i64 (ms_active_sessions m))
         (as_i64 (ms_total_sessions m)) (as_i64 (bandwidth m))]) st)
  else (Err Database, st).

Definition cleanup_old_metrics (db : bool) (now retention_hours : Z) (st : SessionStore)
    : option (result SqlxError Z * SessionStore) :=
  if retention_hours =? 0 then Some (Ok 0, st)
  else
    cutoff ← sub_hours now (as_i64 retention_hours);
    Some (if db then
      let old r := text_lt (mr_timestamp r) (to_rfc3339 cutoff) in
      (Ok (Z.of_nat (length (List.filter old (metrics_snapshots st)))),
       set_snapshots (List.filter (fun r => negb (old r)) (metrics_snapshots st)) st)
    else (Err Database, st)).

(** ** Reading *)

(** Running a built query: the rows in the order in which they are fetched. *)
Definition known (c : string) : bool := bool_decide (c ∈ row_columns).
Definition run_select (b : QueryBuilder) (st : SessionStore)
    : result SqlxError (Sql.select * list SessionRow) :=
  match Sql.parse (Sql.tokens b) with
  | Some q =>
    let cols := (Sql.conds q ≫= Sql.cond_columns) ++
                match Sql.order q with Some (c, _) => [c] | None => [] end in
    if bool_decide (Sql.table q = "sessions"%string) && forallb known cols then
      let selected := List.filter (Sql.selects get_column (Sql.conds q)) (sessions st).*2 in
      let le := match Sql.order q with
                | Some (c, ascending) => Sql.order_leb get_column c ascending
                | None => fun _ _ => true
                end in
      Ok (q, Sql.apply_limit (Sql.limit q) (Sql.offset q) (order_rows le selected))
    else Err Database
  | None => Err Database
  end.

(** [FromRow] looks every field up by its name. *)
Definition fetch_all (db : bool) (fields : list string) (b : QueryBuilder) (st : SessionStore)
    : result SqlxError (list SessionRow) :=
  if db then
    '(q, rows) ← run_select b st;
    match List.find (fun c => negb (bool_decide (c ∈ Sql.columns q))) fields with
    | Some missing => Err (ColumnDecode missing)
    | None => Ok rows
    end
  else Err Database.

Definition push_filters (filter : SessionFilter) (builder : QueryBuilder) : QueryBuilder :=
  let builder := match sf_user filter with
    | Some user => push_bind (Text user) (push " AND user = " builder)
    | None => builder end in
  let builder := match sf_status filter with
    | Some status => push_bind (Text (SessionStatus_as_str status)) (push " AND status = " builder)
    | None => builder end in
  let builder := match sf_start_after filter with
    | Some start_after =>
      push_bind (Text (to_rfc3339 start_after)) (push " AND start_time >= " builder)
    | None => builder end in
  let builder := match sf_start_before filter with
    | Some start_before =>
      push_bind (Text (to_rfc3339 start_before)) (push " AND start_time <= " builder)
    | None => builder end in
  let builder := match sf_dest_ip filter with
    | Some dest_ip => push_bind (Text dest_ip) (push " AND dest_ip = " builder)
    | None => builder end in
  let builder := match sf_min_duration_secs filter with
    | Some min_duration =>
      push_bind (Integer (as_i64 min_duration))
        (push " AND duration_secs IS NOT NULL AND duration_secs >= " builder)
    | None => builder end in
  match sf_min_bytes filter with
  | Some min_bytes =>
    push_bind (Integer (as_i64 min_bytes)) (push " AND (bytes_sent + bytes_received) >= " builder)
  | None => builder end.

(** The columns that a caller may sort by; anything else is the start. *)
Definition sort_column (sort_by : option string) : string :=
  let sort_column := default "start_time"%string sort_by in
  (if decide (sort_column = "user") then "user"
   else if decide (sort_column = "source_ip") then "source_ip"
   else if decide (sort_column = "dest_ip") then "dest_ip"
   else if decide (sort_column = "protocol") then "protocol"
   else if decide (sort_column = "status") then "status"
   else if decide (sort_column = "acl_decision") then "acl_decision"
   else if decide (sort_column = "bytes_sent") then "bytes_sent"
   else if decide (sort_column = "bytes_received") then "bytes_received"
   else if decide (sort_column = "duration_seconds" \/ sort_column = "duration_secs")
   then "duration_secs"
   else "start_time")%string.
Definition sort_direction (sort_dir : option string) : string :=
  if eq_ignore_ascii_case (default "desc"%string sort_dir) "asc" then "ASC" else "DESC".

Definition build_query (filter : SessionFilter) : QueryBuilder :=
  let builder := [Sql.Push "
            SELECT
                session_id,
                user,
                start_time,
                end_time,
                duration_secs,
                source_ip,
                source_port,
                dest_ip,
                dest_port,
                protocol,
                bytes_sent,
                bytes_received,
                packets_sent,
                packets_received,
                status,
                close_reason,
                acl_rule_matched,
                acl_decision
            FROM sessions
            WHERE 1=1
            "] in
  let builder := push_filters filter builder in
  let builder := push (" ORDER BY " +:+ sort_column (sf_sort_by filter) +:+ " " +:+
                       sort_direction (sf_sort_dir filter) +:+ " ") builder in
  let builder := match sf_limit filter with
    | Some limit => push_bind (Integer (as_i64 limit)) (push " LIMIT " builder)
    | None => builder end in
  match sf_offset filter with
  | Some offset => push_bind (Integer (as_i64 offset)) (push " OFFSET " builder)
  | None => builder end.

Definition query_sessions (db : bool) (filter : SessionFilter) (st : SessionStore)
    : result SqlxError (list Session) :=
  rows ← fetch_all db row_columns (build_query filter) st;
  collect into_session rows.

Definition get_session (db : bool) (session_id : Z) (st : SessionStore)
    : result SqlxError (option Session) :=
  let builder := push_bind (Text (uuid_to_string session_id)) [Sql.Push "
            SELECT
                session_id,
                user,
                start_time,
                end_time,
                duration_secs,
                source_ip,
                source_port,
                dest_ip,
                dest_port,
                protocol,
                bytes_sent,
                bytes_received,
                packets_sent,
                packets_received,
                status,
                close_reason,
                acl_rule_matched,
                acl_decision
            FROM sessions
            WHERE session_id = 
            "] in
  rows ← fetch_all db row_columns builder st;
  match rows with
  | [] => Ok None
  | row :: _ => Some <$> into_session row
  end.

(** [separated.push_bind]: a comma between the values. *)
Definition push_separated (ids : list Z) (builder : QueryBuilder) : QueryBuilder :=
  match ids with
  | [] => builder
  | id :: ids =>
    fold_left (fun b id => push_bind (Text (uuid_to_string id)) (push ", " b)) ids
      (push_bind (Text (uuid_to_string id)) builder)
  end.
Definition existing_session_ids (db : bool) (ids : list Z) (st : SessionStore)
    : result SqlxError (gset Z) :=
  match ids with
  | [] => Ok ∅
  | _ =>
    let builder := [Sql.Push "
            SELECT session_id FROM sessions WHERE session_id IN (
            "] in
    let builder := push ")" (push_separated ids builder) in
    rows ← fetch_all db ["session_id"%string] builder st;
    Ok (list_to_set (omap (fun r => uuid_parse_str (sr_session_id r)) rows))
  end.

(** [MAX(ROWID)] of an empty table is [NULL], which is not an [i64]. *)
Definition approximate_total_sessions (db : bool) (st : SessionStore) : result SqlxError Z :=
  if negb db then Err Database
  else if is_sqlite st then
    match stat1 st with
    | Some (Err e) => Err e
    | other =>
      match (match other with
             | Some (Ok stat) => parse_uint u64_max (fmt_Z stat)
             | _ => None end) with
      | Some count => Ok count
      | None =>
        match sessions st with
        | [] => Err (ColumnDecode "0")
        | t => Ok (as_u64 (max_rowid t))
        end
      end
    end
  else Ok (Z.of_nat (length (sessions st))).

Definition count_sessions (db : bool) (filter : SessionFilter) (st : SessionStore)
    : result SqlxError Z :=
  match sf_user filter, sf_dest_ip filter, sf_status filter, sf_start_after filter with
  | None, None, None, None => approximate_total_sessions db st
  | _, _, _, _ =>
    let builder := [Sql.Push "
            SELECT COUNT(*) as count
            FROM sessions
            WHERE 1=1
            "] in
    rows ← fetch_all db ["COUNT(*)"%string] (push_filters filter builder) st;
    Ok (Z.of_nat (length rows))
  end.

(** SELECT ... FROM metrics_snapshots WHERE timestamp >= ? ORDER BY timestamp DESC LIMIT n;
    [order_metrics] is the order of the engine. *)
Definition query_metrics (order_metrics : list MetricSnapshotRow -> list MetricSnapshotRow)
    (db : bool) (start limit : option Z) (st : SessionStore)
    : result SqlxError (list MetricsSnapshot) :=
  if db then
    let selected := match start with
      | Some start_time =>
        List.filter (fun r => String.leb (to_rfc3339 start_time) (mr_timestamp r))
          (metrics_snapshots st)
      | None => metrics_snapshots st end in
    let ordered := order_metrics selected in
    rows ← match limit with
      | Some n => if n <=? i64_max then Ok (take (Z.to_nat n) ordered) else Err Database
      | None => Ok ordered end;
    collect into_metric rows
  else Err Database.
End store.
