(* ===== verification/StoreSpec.v ===== *)
(** * What the session store promises

    Sessions survive the round trip through their rows; a built query means what
    its filter says, whatever strings the filter holds; a page of a query is a
    page of the sorted matching sessions; the batch insertion is the sink that
    the batch writer of [Session] expects; what the other statements change. *)
From S2P Require Import Prelude Net NetSpec Session Store.
Import Sql (value, Null, Integer, Text, QueryBuilder, push, push_bind).
#[local] Existing Instance Sql.value_eq_dec.

(** ** Casts *)

Lemma as_u64_as_i64 z : is_u64 z -> as_u64 (as_i64 z) = z.
Proof.
  intros Hz. unfold as_u64, as_i64. rewrite Zminus_mod_idemp_l.
  replace (z + 2 ^ 63 - 2 ^ 63) with z by lia. apply Z.mod_small. zsolve.
Qed.

Lemma as_i64_small z : 0 <= z <= i64_max -> as_i64 z = z.
Proof. unfold as_i64, i64_max. intros Hz. rewrite Z.mod_small; lia. Qed.

Lemma as_u64_small z : is_u64 z -> as_u64 z = z.
Proof. intros Hz. apply Z.mod_small. zsolve. Qed.

Lemma as_u16_small z : is_u16 z -> as_u16 z = z.
Proof. intros Hz. apply Z.mod_small. zsolve. Qed.
#[export] Hint Rewrite as_u64_as_i64 as_u16_small using done : rsocks.

(** ** Sessions that the manager produces *)

Record wf_session (s : Session) : Prop := {
  wf_start : four_digit_year (start_time s);
  wf_end : forall t, end_time s = Some t -> four_digit_year t;
  wf_duration : forall d, duration_secs s = Some d -> 0 <= d <= i64_max;
  wf_source_ip : wf_ip (source_ip s);
  wf_source_port : is_u16 (source_port s);
  wf_dest_port : is_u16 (dest_port s);
  wf_bytes_sent : is_u64 (bytes_sent s);
  wf_bytes_received : is_u64 (bytes_received s);
  wf_packets_sent : is_u64 (packets_sent s);
  wf_packets_received : is_u64 (packets_received s);
}.

Section store_spec.
Context {chrono : Chrono} {uuids : UuidText}.

#[export] Instance uuid_to_string_inj : Inj (=) (=) uuid_to_string.
Proof. intros a b H. pose proof (uuid_parse a) as Ha. rewrite H, uuid_parse in Ha. congruence. Qed.

Lemma rfc3339_inj a b :
  four_digit_year a -> four_digit_year b -> to_rfc3339 a = to_rfc3339 b -> a = b.
Proof.
  intros Ha Hb He. pose proof (rfc3339_parse a Ha) as Hp. rewrite He, rfc3339_parse in Hp by done.
  congruence.
Qed.

Lemma parse_datetime_rfc3339 field z :
  four_digit_year z -> parse_datetime field (to_rfc3339 z) = Ok z.
Proof. intros Hz. unfold parse_datetime. by rewrite rfc3339_parse. Qed.

Lemma protocol_roundtrip p : Protocol_from_str (Protocol_as_str p) = Ok p.
Proof. by destruct p. Qed.
Lemma status_roundtrip s : SessionStatus_from_str (SessionStatus_as_str s) = Ok s.
Proof. by destruct s. Qed.

Lemma sanitize_roundtrip d :
  (forall z, d = Some z -> 0 <= z <= i64_max) -> sanitize_duration (as_i64 <$> d) = d.
Proof.
  intros Hd. destruct d as [d|]; [|done]. specialize (Hd d eq_refl). cbn.
  rewrite as_i64_small by done. destruct (Z.leb_spec 0 d); [|lia].
  rewrite as_u64_small; [done|]. unfold i64_max in *. zsolve.
Qed.

Lemma into_session_params s : wf_session s -> into_session (SessionParams_from s) = Ok s.
Proof.
  intros [Hst Hen Hdu Hip Hsp Hdp Hbs Hbr Hps Hpr]. unfold into_session.
  cbn [SessionParams_from sr_session_id sr_user sr_start_time sr_end_time sr_duration_secs
    sr_source_ip sr_source_port sr_dest_ip sr_dest_port sr_protocol sr_bytes_sent
    sr_bytes_received sr_packets_sent sr_packets_received sr_status sr_close_reason
    sr_acl_rule_matched sr_acl_decision].
  rewrite uuid_parse, parse_datetime_rfc3339, protocol_roundtrip, status_roundtrip by done.
  rewrite parse_ip_fmt_ip by done.
  assert (match to_rfc3339 <$> end_time s with
          | Some ts => Some <$> parse_datetime "end_time" ts
          | None => Ok None
          end = Ok (end_time s)) as ->.
  { destruct (end_time s) as [t|]; [|done]. cbn. by rewrite parse_datetime_rfc3339 by auto. }
  cbn. rewrite sanitize_roundtrip by done.
  rewrite !as_u64_as_i64, !as_u16_small by done. by destruct s.
Qed.

(** ** The table *)

(** The row with a key. *)
Definition find_row (key : string) (t : list (Z * SessionRow)) : option SessionRow :=
  snd <$> List.find (fun p => bool_decide (sr_session_id p.2 = key)) t.
#[global] Arguments find_row : simpl never.
Definition keys (t : list (Z * SessionRow)) : list string := (fun p => sr_session_id p.2) <$> t.

Lemma find_row_cons key i r t :
  find_row key ((i, r) :: t) = if decide (sr_session_id r = key) then Some r else find_row key t.
Proof.
  unfold find_row. cbn. case_decide as He.
  - by rewrite bool_decide_true.
  - by rewrite bool_decide_false.
Qed.

Lemma find_row_app key t i r :
  find_row key (t ++ [(i, r)]) =
  match find_row key t with
  | Some r' => Some r'
  | None => if decide (sr_session_id r = key) then Some r else None
  end.
Proof.
  induction t as [|[j r'] t IH]; [apply find_row_cons|]. cbn [app].
  rewrite !find_row_cons. by destruct (decide (sr_session_id r' = key)).
Qed.

Lemma update_row_find row t :
  match update_row row t with
  | Some t' => keys t' = keys t /\ t'.*1 = t.*1 /\ sr_session_id row ∈ keys t /\
      forall key, find_row key t' = (if decide (sr_session_id row = key) then Some row else find_row key t)
  | None => (sr_session_id row ∉ keys t) /\ find_row (sr_session_id row) t = None
  end.
Proof.
  induction t as [|[i r] t IH]; [split; [apply not_elem_of_nil|done]|]. cbn [update_row].
  case_decide as He.
  - split_and!; [by cbn; rewrite He | done | rewrite <- He; apply list_elem_of_here|].
    intros key. rewrite !find_row_cons, He. by case_decide.
  - destruct (update_row row t) as [t'|]; cbn.
    + destruct IH as (Hk & Hi & Hin & Hf).
      split_and!; [by cbn; f_equal | by cbn; f_equal | by apply list_elem_of_further|].
      intros key. rewrite !find_row_cons, Hf. repeat case_decide; congruence.
    + destruct IH as [Hn Hf]. split; [|by rewrite find_row_cons, decide_False].
      cbn. by intros [|]%elem_of_cons.
Qed.

(** An upsert changes the row with its key and no other. *)
Lemma upsert_find row t key :
  find_row key (upsert row t) = if decide (sr_session_id row = key) then Some row else find_row key t.
Proof.
  unfold upsert. pose proof (update_row_find row t) as H. destruct (update_row row t) as [t'|].
  - apply H.
  - destruct H as [_ Hn]. rewrite find_row_app. case_decide as He; [|by destruct (find_row key t)].
    subst. by rewrite Hn.
Qed.

(** The primary key stays one, and row identifiers are distinct. *)
Lemma upsert_keys row t : NoDup (keys t) -> NoDup (keys (upsert row t)).
Proof.
  intros Hn. unfold upsert. pose proof (update_row_find row t) as H.
  destruct (update_row row t) as [t'|]; [by destruct H as [-> _]|].
  destruct H as [H _]. unfold keys. rewrite fmap_app. apply NoDup_app. split_and!; [done| |].
  - intros k Hk ->%list_elem_of_singleton. done.
  - apply NoDup_singleton.
Qed.

Lemma max_rowid_le t i : i ∈ t.*1 -> i <= max_rowid t.
Proof.
  unfold max_rowid. induction t.*1 as [|j l IH]; [by intros ?%elem_of_nil|].
  cbn. intros [->|Hi]%elem_of_cons; [lia|]. apply IH in Hi. lia.
Qed.

Lemma upsert_rowids row t : NoDup t.*1 -> NoDup (upsert row t).*1.
Proof.
  intros Hn. unfold upsert. pose proof (update_row_find row t) as H.
  destruct (update_row row t) as [t'|]; [by destruct H as (_ & -> & _)|].
  rewrite fmap_app. apply NoDup_app. split_and!; [done| |apply NoDup_singleton].
  intros k Hk%max_rowid_le ->%list_elem_of_singleton. cbn in Hk. lia.
Qed.

(** ** A batch *)

Definition write_all (batch : list Session) (t : list (Z * SessionRow)) : list (Z * SessionRow) :=
  fold_left (fun t s => upsert (SessionParams_from s) t) batch t.

Lemma execute_all_Ok fails_at batch t t' :
  execute_all fails_at batch t = Ok t' -> t' = write_all batch t.
Proof.
  revert fails_at t. induction batch as [|s batch IH]; intros fa t; [by intros [= ->]|].
  cbn. destruct fa as [[|k]|]; [done| |]; apply IH.
Qed.

Lemma execute_all_None batch t : execute_all None batch t = Ok (write_all batch t).
Proof. revert t. induction batch as [|s batch IH]; intros t; [done|]. apply IH. Qed.

Lemma write_all_find batch t id :
  find_row (uuid_to_string id) (write_all batch t) =
  match last_version id batch with
  | Some s => Some (SessionParams_from s)
  | None => find_row (uuid_to_string id) t
  end.
Proof.
  revert t. induction batch as [|s batch IH]; intros t; [done|].
  change (s :: batch) with ([s] ++ batch). rewrite last_version_app, last_version_one.
  unfold write_all. cbn [fold_left app]. fold (write_all batch (upsert (SessionParams_from s) t)).
  rewrite IH, upsert_find. destruct (last_version id batch); [done|].
  cbn [SessionParams_from sr_session_id].
  destruct (Z.eqb_spec (session_id s) id) as [->|Hne]; [by rewrite decide_True|].
  rewrite decide_False; [done|]. by intros He%(inj uuid_to_string).
Qed.

(** A transaction that fails leaves the tables as they were. *)
Lemma save_batch_Err tx batch st e : (save_batch tx batch st).1 = Err e -> (save_batch tx batch st).2 = st.
Proof.
  unfold save_batch. destruct (begins tx); [|done].
  destruct (execute_all _ _ _); [|done]. by destruct (commits tx).
Qed.

Lemma save_batch_Ok tx batch st :
  (save_batch tx batch st).1 = Ok () ->
  (save_batch tx batch st).2 = set_sessions (write_all batch (sessions st)) st.
Proof.
  unfold save_batch. destruct (begins tx); [|done].
  destruct (execute_all _ _ _) as [t|] eqn:E; [|done]. apply execute_all_Ok in E as ->.
  by destruct (commits tx).
Qed.

(** The store is the sink of the batch writer. *)
#[refine, export] Instance store_sink : SessionSink SessionStore := {|
  outcome := transaction;
  row := SessionRow;
  encode := SessionParams_from;
  stored st id := find_row (uuid_to_string id) (sessions st);
  Session.save_batch tx b st :=
    (match (save_batch tx b st).1 with Ok _ => Ok () | Err _ => Err "database error"%string end,
     (save_batch tx b st).2)
|}.
Proof.
  - intros tx b st id Hok. cbn [fst snd] in *.
    destruct (save_batch tx b st).1 as [[]|] eqn:E; [|done].
    rewrite save_batch_Ok by done. apply write_all_find.
  - intros tx b st e. cbn [fst snd]. destruct (save_batch tx b st).1 eqn:E; [done|].
    intros _. by apply save_batch_Err in E.
Defined.

(** ** What a built query says *)

Definition opt_list {A B} (f : A -> list B) (o : option A) : list B :=
  match o with Some a => f a | None => [] end.

(** The conditions that a filter stands for, with its strings as values. *)
Definition filter_conds (f : SessionFilter) : list Sql.cond :=
  opt_list (fun u => [Sql.CCmp (Sql.Col "user") Sql.Eq (Text u)]) (sf_user f) ++
  opt_list (fun st => [Sql.CCmp (Sql.Col "status") Sql.Eq (Text (SessionStatus_as_str st))])
    (sf_status f) ++
  opt_list (fun t => [Sql.CCmp (Sql.Col "start_time") Sql.Ge (Text (to_rfc3339 t))])
    (sf_start_after f) ++
  opt_list (fun t => [Sql.CCmp (Sql.Col "start_time") Sql.Le (Text (to_rfc3339 t))])
    (sf_start_before f) ++
  opt_list (fun d => [Sql.CCmp (Sql.Col "dest_ip") Sql.Eq (Text d)]) (sf_dest_ip f) ++
  opt_list (fun n => [Sql.CNotNull "duration_secs";
                      Sql.CCmp (Sql.Col "duration_secs") Sql.Ge (Integer (as_i64 n))])
    (sf_min_duration_secs f) ++
  opt_list (fun n => [Sql.CCmp (Sql.Sum "bytes_sent" "bytes_received") Sql.Ge (Integer (as_i64 n))])
    (sf_min_bytes f).

(** The tokens of a condition, and of a conjunction after the first. *)
Definition cond_tokens (c : Sql.cond) : list Sql.token :=
  match c with
  | Sql.CTrue => [Sql.TTrue]
  | Sql.CNotNull c => [Sql.TWord c; Sql.TIs; Sql.TNot; Sql.TNull]
  | Sql.CCmp (Sql.Col c) o v => [Sql.TWord c; Sql.TCmp o; Sql.TBind v]
  | Sql.CCmp (Sql.Sum a b) o v =>
    [Sql.TLpar; Sql.TWord a; Sql.TPlus; Sql.TWord b; Sql.TRpar; Sql.TCmp o; Sql.TBind v]
  | Sql.CIn _ _ => []
  end.
Definition and_tokens (cs : list Sql.cond) : list Sql.token := cs ≫= fun c => Sql.TAnd :: cond_tokens c.
Definition is_in (c : Sql.cond) : bool := match c with Sql.CIn _ _ => true | _ => false end.

Lemma tokens_push_bind v b : Sql.tokens (push_bind v b) = Sql.tokens b ++ [Sql.TBind v].
Proof. unfold Sql.tokens, push_bind. by rewrite bind_app. Qed.
Lemma tokens_push t b : Sql.tokens (push t b) = Sql.tokens b ++ Sql.lex "" t.
Proof. unfold Sql.tokens, push. rewrite bind_app. cbn [mbind list_bind]. by rewrite app_nil_r. Qed.

Lemma tokens_opt {A} (o : option A) (g : A -> value) t b :
  Sql.tokens (match o with Some x => push_bind (g x) (push t b) | None => b end) =
  Sql.tokens b ++ opt_list (fun x => Sql.lex "" t ++ [Sql.TBind (g x)]) o.
Proof.
  destruct o; cbn [opt_list]; [|by rewrite app_nil_r].
  by rewrite tokens_push_bind, tokens_push, <- app_assoc.
Qed.

Lemma tokens_push_filters f b :
  Sql.tokens (push_filters f b) = Sql.tokens b ++ and_tokens (filter_conds f).
Proof.
  unfold push_filters. rewrite !tokens_opt, <- !app_assoc. f_equal.
  unfold and_tokens, filter_conds. rewrite !bind_app.
  repeat f_equal; match goal with |- context [opt_list _ ?o] => by destruct o end.
Qed.

Lemma filter_conds_no_in f : forallb (fun c => negb (is_in c)) (filter_conds f) = true.
Proof.
  unfold filter_conds. rewrite !forallb_app.
  repeat (apply andb_true_iff; split); match goal with |- context [opt_list _ ?o] => by destruct o end.
Qed.

Lemma parse_cond_tokens c r : is_in c = false -> Sql.parse_cond (cond_tokens c ++ r) = Some (c, r).
Proof. destruct c as [|[]| |]; done. Qed.

Lemma parse_conds_tokens n c cs r :
  (length cs < n)%nat -> is_in c = false -> forallb (fun c => negb (is_in c)) cs = true ->
  (forall r', r <> Sql.TAnd :: r') ->
  Sql.parse_conds n (cond_tokens c ++ and_tokens cs ++ r) = Some (c :: cs, r).
Proof.
  intros Hn Hc Hcs Hr. revert n c Hn Hc. induction cs as [|c' cs IH]; intros n c Hn Hc;
    (destruct n as [|n]; [cbn in Hn; lia|]); cbn [Sql.parse_conds];
    rewrite parse_cond_tokens by done; cbn [mbind option_bind].
  - destruct r as [|[] r]; try done. by destruct (Hr r).
  - cbn in Hcs. apply andb_true_iff in Hcs as [Hc'%negb_true_iff Hcs].
    unfold and_tokens. cbn [mbind list_bind app]. rewrite <- app_assoc.
    fold (and_tokens cs). rewrite IH by (try done; cbn in Hn; lia). done.
Qed.

(** ORDER BY: one of ten columns, ascending or descending. *)
Definition sortable : list string :=
  ["user"; "source_ip"; "dest_ip"; "protocol"; "status"; "acl_decision"; "bytes_sent";
   "bytes_received"; "duration_secs"; "start_time"]%string.
Definition ascending (f : SessionFilter) : bool :=
  eq_ignore_ascii_case (default "desc"%string (sf_sort_dir f)) "asc".

Lemma sort_column_sortable o : sort_column o ∈ sortable.
Proof. unfold sort_column. repeat case_decide; apply (bool_decide_unpack _); by vm_compute. Qed.

Lemma tokens_order f :
  Sql.lex "" (" ORDER BY " +:+ sort_column (sf_sort_by f) +:+ " " +:+
              sort_direction (sf_sort_dir f) +:+ " ") =
  [Sql.TOrder; Sql.TBy; Sql.TWord (sort_column (sf_sort_by f));
   if ascending f then Sql.TAsc else Sql.TDesc].
Proof.
  pose proof (sort_column_sortable (sf_sort_by f)) as Hin. unfold sort_direction.
  fold (ascending f). revert Hin. generalize (sort_column (sf_sort_by f)). intros c Hin.
  destruct (ascending f); unfold sortable in Hin;
    repeat (apply elem_of_cons in Hin as [->|Hin]; [reflexivity|]); by apply elem_of_nil in Hin.
Qed.

Lemma tokens_build_query f :
  Sql.tokens (build_query f) =
  Sql.TSelect :: (Sql.tokens [Sql.Push (String.concat "," row_columns)] ++
    [Sql.TFrom; Sql.TWord "sessions"; Sql.TWhere]) ++ cond_tokens Sql.CTrue ++
  and_tokens (filter_conds f) ++
  [Sql.TOrder; Sql.TBy; Sql.TWord (sort_column (sf_sort_by f));
   if ascending f then Sql.TAsc else Sql.TDesc] ++
  opt_list (fun l => [Sql.TLimit; Sql.TBind (Integer (as_i64 l))]) (sf_limit f) ++
  opt_list (fun o => [Sql.TOffset; Sql.TBind (Integer (as_i64 o))]) (sf_offset f).
Proof.
  unfold build_query. rewrite !tokens_opt, tokens_push, tokens_order, tokens_push_filters.
  rewrite <- !app_assoc. reflexivity.
Qed.

Lemma parse_row_columns r :
  Sql.parse_columns (Sql.tokens [Sql.Push (String.concat "," row_columns)] ++ Sql.TFrom :: r) =
  Some (row_columns, r).
Proof. reflexivity. Qed.

Lemma and_tokens_length cs : (length cs <= length (and_tokens cs))%nat.
Proof.
  induction cs as [|c cs IH]; [done|]. unfold and_tokens. cbn [mbind list_bind].
  rewrite length_app. fold (and_tokens cs). cbn. lia.
Qed.

Lemma parse_build_query f :
  Sql.parse (Sql.tokens (build_query f)) =
    match sf_limit f, sf_offset f with
    | None, Some _ => None
    | limit, offset =>
      Some (Sql.mkSelect row_columns "sessions" (Sql.CTrue :: filter_conds f)
              (Some (sort_column (sf_sort_by f), ascending f))
              ((fun n => Integer (as_i64 n)) <$> limit) ((fun n => Integer (as_i64 n)) <$> offset))
    end.
Proof.
  rewrite tokens_build_query. unfold Sql.parse. rewrite <- app_assoc. cbn [app].
  rewrite parse_row_columns. cbn [mbind option_bind].
  rewrite parse_conds_tokens; [|.. |apply filter_conds_no_in|]; [|..|done].
  - cbn [mbind option_bind]. destruct (ascending f); cbn [Sql.parse_order mbind option_bind];
      destruct (sf_limit f), (sf_offset f); done.
  - rewrite length_app. cbn [cond_tokens length]. rewrite length_app.
    pose proof (and_tokens_length (filter_conds f)). lia.
  - done.
Qed.

(** C23: For every filter, whatever strings and numbers it holds, the statement
    that query_sessions sends is read as the intended one: the eighteen columns
    of the table sessions, the conditions of the filter with its strings only as
    bound values, one of ten columns to sort by, and the limits; an offset
    without a limit is not a statement at all. *)
Theorem build_query_correct f :
  Sql.parse (Sql.tokens (build_query f)) =
    match sf_limit f, sf_offset f with
    | None, Some _ => None
    | limit, offset =>
      Some (Sql.mkSelect row_columns "sessions" (Sql.CTrue :: filter_conds f)
              (Some (sort_column (sf_sort_by f), ascending f))
              ((fun n => Integer (as_i64 n)) <$> limit) ((fun n => Integer (as_i64 n)) <$> offset))
    end /\
  sort_column (sf_sort_by f) ∈ sortable.
Proof. split; [apply parse_build_query|apply sort_column_sortable]. Qed.

(** ** What it selects, and in which order *)

Definition opt_all {A} (P : A -> bool) (o : option A) : bool :=
  match o with Some a => P a | None => true end.

(** The filter, read on sessions. *)
Definition matches (f : SessionFilter) (s : Session) : bool :=
  opt_all (fun u => bool_decide (user s = u)) (sf_user f) &&
  (opt_all (fun st => bool_decide (status s = st)) (sf_status f) &&
  (opt_all (fun t => t <=? start_time s) (sf_start_after f) &&
  (opt_all (fun t => start_time s <=? t) (sf_start_before f) &&
  (opt_all (fun d => bool_decide (dest_ip s = d)) (sf_dest_ip f) &&
  (opt_all (fun n => match duration_secs s with Some d => n <=? d | None => false end)
     (sf_min_duration_secs f) &&
   opt_all (fun n => n <=? bytes_sent s + bytes_received s) (sf_min_bytes f)))))).

(** Sessions whose counters fit the integers of the database, and filters whose
    instants and numbers do. *)
Record storable (s : Session) : Prop := {
  st_wf : wf_session s;
  st_sent : bytes_sent s <= i64_max;
  st_received : bytes_received s <= i64_max;
}.
Record wf_filter (f : SessionFilter) : Prop := {
  wf_after : forall t, sf_start_after f = Some t -> four_digit_year t;
  wf_before : forall t, sf_start_before f = Some t -> four_digit_year t;
  wf_min_duration : forall n, sf_min_duration_secs f = Some n -> 0 <= n <= i64_max;
  wf_min_bytes : forall n, sf_min_bytes f = Some n -> 0 <= n <= i64_max;
  wf_limit : forall n, sf_limit f = Some n -> 0 <= n <= i64_max;
  wf_offset : forall n, sf_offset f = Some n -> 0 <= n <= i64_max;
}.

Lemma selects_app cs ds r :
  Sql.selects get_column (cs ++ ds) r = Sql.selects get_column cs r && Sql.selects get_column ds r.
Proof. apply forallb_app. Qed.

Lemma selects_opt {A} (g : A -> list Sql.cond) o r :
  Sql.selects get_column (opt_list g o) r = opt_all (fun a => Sql.selects get_column (g a) r) o.
Proof. by destruct o. Qed.

Lemma opt_all_ext {A} (P Q : A -> bool) o : (forall a, o = Some a -> P a = Q a) -> opt_all P o = opt_all Q o.
Proof. destruct o; cbn; auto. Qed.

(** One comparison of a column that is not NULL. *)
Lemma selects_cmp e o v x r :
  Sql.eval_expr get_column e r = Some x -> x <> Null -> v <> Null ->
  Sql.selects get_column [Sql.CCmp e o v] r =
    match o with
    | Sql.Eq => bool_decide (x = v)
    | Sql.Ge => Sql.leb v x
    | Sql.Le => Sql.leb x v
    end.
Proof.
  intros He Hx Hv. unfold Sql.selects. cbn [forallb Sql.eval_cond]. rewrite He, andb_true_r. cbn.
  destruct x, v; try done; destruct o; cbn [Sql.eval_cmp];
    match goal with |- _ = ?b => by destruct b end.
Qed.

Lemma text_decide (s t : string) : bool_decide (Text s = Text t) = bool_decide (s = t).
Proof. apply bool_decide_ext. naive_solver. Qed.

Lemma selects_duration n s :
  wf_session s -> 0 <= n <= i64_max ->
  Sql.selects get_column
    [Sql.CNotNull "duration_secs"; Sql.CCmp (Sql.Col "duration_secs") Sql.Ge (Integer (as_i64 n))]
    (SessionParams_from s) =
  match duration_secs s with Some d => n <=? d | None => false end.
Proof.
  intros Hs Hn. pose proof (wf_duration s Hs) as Hd.
  assert (Hg : get_column (SessionParams_from s) "duration_secs" =
    Some (opt_int (as_i64 <$> duration_secs s))) by done.
  match goal with |- context [[?a; ?b]] => change [a; b] with ([a] ++ [b]) end. rewrite selects_app.
  destruct (duration_secs s) as [d|] eqn:E.
  - rewrite (selects_cmp _ _ _ (Integer (as_i64 d))) by done.
    unfold Sql.selects. cbn [forallb Sql.eval_cond]. rewrite Hg. cbn.
    by rewrite !as_i64_small by auto.
  - unfold Sql.selects. cbn [forallb Sql.eval_cond]. by rewrite Hg.
Qed.

Lemma status_text_inj a b : SessionStatus_as_str a = SessionStatus_as_str b -> a = b.
Proof. by destruct a, b. Qed.

(** On the rows of sessions the conditions of a filter decide what the filter means. *)
Lemma selects_filter f s :
  wf_filter f -> storable s ->
  Sql.selects get_column (Sql.CTrue :: filter_conds f) (SessionParams_from s) = matches f s.
Proof.
  intros Hf [Hs Hbs Hbr].
  change (Sql.CTrue :: filter_conds f) with ([Sql.CTrue] ++ filter_conds f).
  rewrite selects_app. change (Sql.selects get_column [Sql.CTrue] _) with true. rewrite andb_true_l.
  unfold filter_conds. rewrite !selects_app, !selects_opt. unfold matches.
  repeat apply (f_equal2 andb); apply opt_all_ext; intros a Ha; try (by apply selects_duration; [|apply Hf]);
    (erewrite selects_cmp by done).
  - apply text_decide.
  - rewrite text_decide. apply bool_decide_ext. split; [apply status_text_inj|by intros <-].
  - apply rfc3339_order; [by apply Hf|apply Hs].
  - apply rfc3339_order; [apply Hs|by apply (wf_before f Hf)].
  - apply text_decide.
  - pose proof (wf_min_bytes f Hf a Ha). destruct (wf_bytes_sent s Hs), (wf_bytes_received s Hs).
    cbn. by rewrite !as_i64_small by done.
Qed.

(** ** Sorting *)

(** The order by one of the columns, read on sessions. *)
Definition opt_leb (a b : option Z) : bool :=
  match a, b with None, _ => true | Some _, None => false | Some x, Some y => x <=? y end.
Definition key_leb (c : string) (a b : Session) : bool :=
  if decide (c = "user")%string then String.leb (user a) (user b)
  else if decide (c = "source_ip")%string then String.leb (fmt_ip (source_ip a)) (fmt_ip (source_ip b))
  else if decide (c = "dest_ip")%string then String.leb (dest_ip a) (dest_ip b)
  else if decide (c = "protocol")%string
  then String.leb (Protocol_as_str (protocol a)) (Protocol_as_str (protocol b))
  else if decide (c = "status")%string
  then String.leb (SessionStatus_as_str (status a)) (SessionStatus_as_str (status b))
  else if decide (c = "acl_decision")%string then String.leb (acl_decision a) (acl_decision b)
  else if decide (c = "bytes_sent")%string then bytes_sent a <=? bytes_sent b
  else if decide (c = "bytes_received")%string then bytes_received a <=? bytes_received b
  else if decide (c = "duration_secs")%string then opt_leb (duration_secs a) (duration_secs b)
  else start_time a <=? start_time b.
Definition session_leb (c : string) (asc : bool) (a b : Session) : bool :=
  if asc then key_leb c a b else key_leb c b a.

Lemma as_i64_leb a b : is_u64 a -> is_u64 b -> a <= i64_max -> b <= i64_max ->
  (as_i64 a <=? as_i64 b) = (a <=? b).
Proof. intros [] [] ? ?. by rewrite !as_i64_small by lia. Qed.

Lemma order_leb_params c asc a b :
  c ∈ sortable -> storable a -> storable b ->
  Sql.order_leb get_column c asc (SessionParams_from a) (SessionParams_from b) = session_leb c asc a b.
Proof.
  intros Hc Ha Hb.
  assert (Hkey : forall a b, storable a -> storable b ->
    Sql.order_leb get_column c true (SessionParams_from a) (SessionParams_from b) = key_leb c a b).
  { clear a b Ha Hb. intros a b [Ha Has Har] [Hb Hbs Hbr]. unfold sortable in Hc.
    repeat (apply elem_of_cons in Hc as [->|Hc];
      [first [reflexivity
             | by apply as_i64_leb; auto using wf_bytes_sent, wf_bytes_received
             | by apply rfc3339_order; auto using wf_start
             | idtac]|]); [|by apply elem_of_nil in Hc].
    change (Sql.leb (opt_int (as_i64 <$> duration_secs a)) (opt_int (as_i64 <$> duration_secs b)) =
            opt_leb (duration_secs a) (duration_secs b)).
    pose proof (wf_duration a Ha) as Hda. pose proof (wf_duration b Hb) as Hdb.
    destruct (duration_secs a), (duration_secs b); cbn; try done. by rewrite !as_i64_small by auto. }
  destruct asc; [by apply Hkey|]. by apply (Hkey b a).
Qed.

Lemma sql_leb_total a b : Sql.leb a b = true \/ Sql.leb b a = true.
Proof.
  destruct a as [|x|s], b as [|y|t]; cbn; auto; [|apply String.leb_total].
  destruct (Z.leb_spec x y); [by left|right]. by apply Z.leb_le; lia.
Qed.
Lemma sql_leb_trans a b c : Sql.leb a b = true -> Sql.leb b c = true -> Sql.leb a c = true.
Proof.
  destruct a as [|x|s], b as [|y|t], c as [|z|u]; cbn; try done.
  - rewrite !Z.leb_le. lia.
  - intros Hxy%Is_true_true Hyz%Is_true_true. apply Is_true_true. by transitivity t.
Qed.

Lemma order_leb_total c asc (r s : SessionRow) :
  Sql.order_leb get_column c asc r s = true \/ Sql.order_leb get_column c asc s r = true.
Proof. unfold Sql.order_leb. destruct asc; apply sql_leb_total. Qed.
Lemma order_leb_trans c asc (r s t : SessionRow) :
  Sql.order_leb get_column c asc r s = true -> Sql.order_leb get_column c asc s t = true ->
  Sql.order_leb get_column c asc r t = true.
Proof.
  unfold Sql.order_leb. generalize (default Null (get_column r c)), (default Null (get_column s c)),
    (default Null (get_column t c)). intros x y z.
  destruct asc; [apply sql_leb_trans|intros H1 H2; exact (sql_leb_trans z y x H2 H1)].
Qed.

Context {engine : SqlEngine}.

(** Whatever order the engine chooses among equal keys is one of the sessions. *)
Lemma order_rows_sessions c asc l :
  c ∈ sortable -> Forall storable l ->
  exists l', l' ≡ₚ l /\ sorted (session_leb c asc) l' /\
    order_rows (Sql.order_leb get_column c asc) (SessionParams_from <$> l) = SessionParams_from <$> l'.
Proof.
  intros Hc Hl. set (le := Sql.order_leb get_column c asc). set (rows := SessionParams_from <$> l).
  pose proof (order_rows_sorted le rows (order_leb_total c asc) (order_leb_trans c asc)) as Hs.
  pose proof (order_rows_perm le rows) as Hp. revert Hs Hp.
  generalize (order_rows le rows). intros rows' Hs Hp. 
  apply Permutation_map_inv in Hp as (l' & -> & Hp).
  exists l'. split_and!; [done| |done].
  assert (Hl' : Forall storable l') by (by rewrite <- Hp).
  clear Hp. induction Hl' as [|s l' Hs' Hl' IH]; [constructor|].
  inversion Hs as [|? ? Hss Hle]; subst. constructor; [by apply IH|].
  apply List.Forall_map in Hle. rewrite Forall_forall in Hle, Hl'.
  apply Forall_forall. intros t Ht. rewrite <- order_leb_params by auto. by apply Hle.
Qed.

(** ** Running a query *)

Lemma filter_conds_known f : forallb known ((Sql.CTrue :: filter_conds f) ≫= Sql.cond_columns) = true.
Proof.
  cbn [mbind list_bind Sql.cond_columns app]. unfold filter_conds. rewrite !bind_app, !forallb_app.
  repeat (apply andb_true_iff; split); match goal with |- context [opt_list _ ?o] => by destruct o end.
Qed.

Lemma sortable_known c : c ∈ sortable -> known c = true.
Proof.
  intros Hc. unfold sortable in Hc.
  repeat (apply elem_of_cons in Hc as [->|Hc]; [reflexivity|]). by apply elem_of_nil in Hc.
Qed.

Lemma filter_fmap_ext {A B} (f : A -> B) (p : B -> bool) (q : A -> bool) l :
  Forall (fun a => p (f a) = q a) l -> List.filter p (f <$> l) = f <$> List.filter q l.
Proof.
  induction 1 as [|a l Ha Hl IH]; [done|]. cbn. rewrite Ha, IH. by destruct (q a).
Qed.

Lemma apply_limit_fmap {A B} (f : A -> B) lim off l :
  Sql.apply_limit lim off (f <$> l) = f <$> Sql.apply_limit lim off l.
Proof.
  unfold Sql.apply_limit.
  destruct off as [[|o|]|], lim as [[|n|]|]; rewrite <- ?fmap_drop; try done;
    destruct (n <? 0); by rewrite <- ?fmap_take.
Qed.

(** A page, for a limit and an offset that fit. *)
Definition page {A} (limit offset : option Z) (l : list A) : list A :=
  let l := drop (Z.to_nat (default 0 offset)) l in
  match limit with Some n => take (Z.to_nat n) l | None => l end.

Lemma apply_limit_page {A} limit offset (l : list A) :
  (forall n, limit = Some n -> 0 <= n <= i64_max) -> (forall n, offset = Some n -> 0 <= n <= i64_max) ->
  Sql.apply_limit ((fun n => Integer (as_i64 n)) <$> limit) ((fun n => Integer (as_i64 n)) <$> offset) l =
  page limit offset l.
Proof.
  intros Hl Ho. unfold Sql.apply_limit, page.
  destruct limit as [n|], offset as [o|]; cbn; rewrite ?as_i64_small by auto; rewrite ?drop_0; try done;
    specialize (Hl n eq_refl); by (destruct (Z.ltb_spec n 0); [lia|]).
Qed.

Lemma collect_sessions l : Forall wf_session l -> collect into_session (SessionParams_from <$> l) = Ok l.
Proof.
  intros Hl. apply collect_Ok, Forall2_fmap_l.
  induction Hl; constructor; auto using into_session_params.
Qed.

Lemma storable_wf l : Forall storable l -> Forall wf_session l.
Proof. intros Hl. eapply Forall_impl; [exact Hl|]. by intros s []. Qed.

Lemma matches_storable f ss : Forall storable ss -> Forall storable (List.filter (matches f) ss).
Proof.
  rewrite !Forall_forall. intros Hss s [Hin _]%elem_of_bfilter.
  by apply Hss.
Qed.

Lemma page_elem {A} limit offset (l : list A) (P : A -> Prop) : Forall P l -> Forall P (page limit offset l).
Proof.
  intros Hl. unfold page. destruct limit; [apply Forall_take|]; by apply Forall_drop.
Qed.

(** The rows that a query of ten columns' order fetches from the rows of sessions. *)
Lemma run_select_sessions q f st ss :
  wf_filter f -> Forall storable ss -> (sessions st).*2 = SessionParams_from <$> ss ->
  Sql.parse (Sql.tokens q) =
    Some (Sql.mkSelect row_columns "sessions" (Sql.CTrue :: filter_conds f)
            (Some (sort_column (sf_sort_by f), ascending f))
            ((fun n => Integer (as_i64 n)) <$> sf_limit f)
            ((fun n => Integer (as_i64 n)) <$> sf_offset f)) ->
  exists ordered,
    ordered ≡ₚ List.filter (matches f) ss /\
    sorted (session_leb (sort_column (sf_sort_by f)) (ascending f)) ordered /\
    fetch_all true row_columns q st =
      Ok (SessionParams_from <$> page (sf_limit f) (sf_offset f) ordered).
Proof.
  intros Hf Hss Ht Hq.
  destruct (order_rows_sessions (sort_column (sf_sort_by f)) (ascending f)
    (List.filter (matches f) ss)) as (l & Hp & Hs & He);
    [apply sort_column_sortable|by apply matches_storable|].
  exists l. split_and!; [done..|]. unfold fetch_all, run_select. rewrite Hq, Ht.
  cbn [Sql.conds Sql.order Sql.table Sql.limit Sql.offset Sql.columns].
  rewrite forallb_app, filter_conds_known. cbn [forallb].
  rewrite sortable_known by apply sort_column_sortable.
  rewrite (filter_fmap_ext SessionParams_from _ (matches f)), He, apply_limit_fmap, apply_limit_page.
  - done.
  - apply Hf.
  - apply Hf.
  - eapply Forall_impl; [exact Hss|]. intros s Hss'. by apply selects_filter.
Qed.

Lemma query_sessions_page f st ss :
  wf_filter f -> Forall storable ss -> (sessions st).*2 = SessionParams_from <$> ss ->
  (sf_limit f = None -> sf_offset f = None) ->
  exists ordered,
    ordered ≡ₚ List.filter (matches f) ss /\
    sorted (session_leb (sort_column (sf_sort_by f)) (ascending f)) ordered /\
    query_sessions true f st = Ok (page (sf_limit f) (sf_offset f) ordered).
Proof.
  intros Hf Hss Ht Hlim. pose proof (parse_build_query f) as Hq.
  destruct (run_select_sessions (build_query f) f st ss Hf Hss Ht) as (l & Hp & Hs & Hr).
  { rewrite Hq. destruct (sf_limit f), (sf_offset f); try done. by specialize (Hlim eq_refl). }
  exists l. split_and!; [done..|]. unfold query_sessions. rewrite Hr. cbn [mbind result_bind].
  apply collect_sessions, page_elem, storable_wf. rewrite Hp. by apply matches_storable.
Qed.

(** On a table that holds the rows of some sessions, query_sessions returns
    the requested page (limit, offset) of the sessions that match the filter,
    sorted by the requested column and direction, decoded without loss; an
    offset without a limit is refused by the database. *)
Theorem query_sessions_correct f st ss :
  wf_filter f -> Forall storable ss -> (sessions st).*2 = SessionParams_from <$> ss ->
  match sf_limit f, sf_offset f with
  | None, Some _ => query_sessions true f st = Err Database
  | limit, offset => exists ordered,
      ordered ≡ₚ List.filter (matches f) ss /\
      sorted (session_leb (sort_column (sf_sort_by f)) (ascending f)) ordered /\
      query_sessions true f st = Ok (page limit offset ordered)
  end.
Proof.
  intros Hf Hss Ht. pose proof (query_sessions_page f st ss Hf Hss Ht) as Hpage.
  destruct (sf_limit f) as [n|] eqn:El, (sf_offset f) as [o|] eqn:Eo; try (by apply Hpage).
  unfold query_sessions, fetch_all, run_select. by rewrite parse_build_query, El, Eo.
Qed.

(** ** Looking sessions up *)

Lemma filter_key k t :
  NoDup (keys t) ->
  List.filter (fun r => bool_decide (sr_session_id r = k)) t.*2 =
  match find_row k t with Some r => [r] | None => [] end.
Proof.
  induction t as [|[i r] t IH]; intros Hn; [done|].
  apply NoDup_cons in Hn as [Hr Hn]. rewrite find_row_cons. cbn.
  case_decide as He; [rewrite bool_decide_true by done|by rewrite bool_decide_false, IH by done].
  subst k. rewrite IH by done. destruct (find_row (sr_session_id r) t) as [r'|] eqn:E; [|done].
  destruct Hr. unfold find_row in E.
  destruct (List.find _ t) as [[j r'']|] eqn:Ef; simplify_eq/=.
  apply List.find_some in Ef as [Hin He]. apply bool_decide_eq_true in He. cbn in He.
  rewrite <- He. apply list_elem_of_fmap. exists (j, r'). split; [done|]. by apply list_elem_of_In.
Qed.

Lemma order_rows_short le r : order_rows le [r] = [r].
Proof. apply Permutation_singleton_r, order_rows_perm. Qed.
Lemma order_rows_nil le : order_rows le [] = [].
Proof. apply Permutation_nil_r, order_rows_perm. Qed.

Lemma get_session_find id st :
  NoDup (keys (sessions st)) ->
  get_session true id st =
  match find_row (uuid_to_string id) (sessions st) with
  | None => Ok None
  | Some r => Some <$> into_session r
  end.
Proof.
  intros Hn. unfold get_session, fetch_all, run_select.
  match goal with |- context [Sql.parse ?ts] => assert (Sql.parse ts = Some (Sql.mkSelect row_columns
    "sessions" [Sql.CCmp (Sql.Col "session_id") Sql.Eq (Text (uuid_to_string id))] None None None))
    as -> by reflexivity end.
  cbn [Sql.table Sql.conds Sql.order Sql.limit Sql.offset Sql.columns].
  match goal with |- context [if ?b then Ok _ else _] => change b with true end. cbn iota.
  rewrite (List.filter_ext _ (fun r => bool_decide (sr_session_id r = uuid_to_string id))).
  - rewrite filter_key by done. destruct (find_row _ _) as [r|]; [rewrite order_rows_short|rewrite order_rows_nil];
      reflexivity.
  - intros r. rewrite (selects_cmp _ _ _ (Text (sr_session_id r))) by done. apply text_decide.
Qed.

(** The identifiers of a list that have a row. *)
Definition in_values (ids : list Z) : list value := (fun id => Text (uuid_to_string id)) <$> ids.

Lemma tokens_push_separated id ids b :
  Sql.tokens (push_separated (id :: ids) b) =
  Sql.tokens b ++ Sql.TBind (Text (uuid_to_string id)) ::
    (ids ≫= fun i => [Sql.TComma; Sql.TBind (Text (uuid_to_string i))]).
Proof.
  cbn [push_separated].
  assert (Hf : forall b, Sql.tokens (fold_left (fun b id => push_bind (Text (uuid_to_string id))
    (push ", " b)) ids b) = Sql.tokens b ++
    (ids ≫= fun i => [Sql.TComma; Sql.TBind (Text (uuid_to_string i))])).
  { induction ids as [|i ids IH]; intros b'; [by rewrite app_nil_r|].
    cbn [fold_left]. rewrite IH, tokens_push_bind, tokens_push, <- !app_assoc. done. }
  rewrite Hf, tokens_push_bind. by rewrite <- app_assoc.
Qed.

Lemma parse_values_tokens id ids :
  Sql.parse_values (Sql.TBind (Text (uuid_to_string id)) ::
    (ids ≫= fun i => [Sql.TComma; Sql.TBind (Text (uuid_to_string i))]) ++ [Sql.TRpar]) =
  Some (in_values (id :: ids), []).
Proof.
  revert id. induction ids as [|i ids IH]; intros id; [done|].
  specialize (IH i). unfold in_values. rewrite !fmap_cons. fold (in_values ids).
  transitivity ('(vs, r) ← Sql.parse_values (Sql.TBind (Text (uuid_to_string i)) ::
      (ids ≫= fun i => [Sql.TComma; Sql.TBind (Text (uuid_to_string i))]) ++ [Sql.TRpar]);
    Some (Text (uuid_to_string id) :: vs, r)); [done|]. by rewrite IH.
Qed.

Lemma selects_in ids r :
  Sql.selects get_column [Sql.CIn "session_id" (in_values ids)] r =
  bool_decide (sr_session_id r ∈ uuid_to_string <$> ids).
Proof.
  unfold Sql.selects. cbn [forallb Sql.eval_cond]. rewrite andb_true_r.
  change (get_column r "session_id") with (Some (Text (sr_session_id r))). cbn [mbind option_bind].
  assert (Hin : Text (sr_session_id r) ∈ in_values ids <-> sr_session_id r ∈ uuid_to_string <$> ids).
  { unfold in_values. rewrite !list_elem_of_fmap. split.
    - intros (id & [= ->] & Hid). eauto.
    - intros (id & -> & Hid). eauto. }
  assert (Hnull : Null ∉ in_values ids) by (by intros (id & ? & ?)%list_elem_of_fmap).
  rewrite (bool_decide_false _ Hnull). rewrite (bool_decide_ext _ _ Hin). by destruct (bool_decide (sr_session_id r ∈ _)).
Qed.

(** [existing_session_ids] answers with exactly those of the given identifiers
    that have a row. *)
Lemma existing_ids_found ids st :
  exists found, existing_session_ids true ids st = Ok found /\
    forall id, id ∈ found <-> id ∈ ids /\ uuid_to_string id ∈ keys (sessions st).
Proof.
  destruct ids as [|i ids]; [exists ∅; set_solver|].
  unfold existing_session_ids, fetch_all, run_select.
  match goal with |- context [Sql.parse ?ts] => assert (Sql.parse ts = Some (Sql.mkSelect
    ["session_id"%string] "sessions" [Sql.CIn "session_id" (in_values (i :: ids))] None None None)) as -> end.
  { rewrite tokens_push, tokens_push_separated. unfold Sql.parse.
    change (Sql.tokens [Sql.Push _]) with [Sql.TSelect; Sql.TWord "session_id"; Sql.TFrom;
      Sql.TWord "sessions"; Sql.TWhere; Sql.TWord "session_id"; Sql.TIn; Sql.TLpar].
    cbn [app Sql.parse_columns mbind option_bind length Sql.parse_conds Sql.parse_cond].
    change (Sql.lex "" ")") with [Sql.TRpar].
    by rewrite parse_values_tokens. }
  cbn [Sql.table Sql.conds Sql.order Sql.limit Sql.offset Sql.columns].
  match goal with |- context [if ?b then Ok _ else _] => change b with true end. cbn iota.
  eexists. split; [reflexivity|]. intros id.
  rewrite elem_of_list_to_set, list_elem_of_omap. unfold Sql.apply_limit.
  setoid_rewrite order_rows_perm. setoid_rewrite elem_of_bfilter.
  setoid_rewrite selects_in. setoid_rewrite bool_decide_eq_true.
  unfold keys. rewrite list_elem_of_fmap. split.
  - intros (r & [Hr (id' & He & Hid)%list_elem_of_fmap] & Hp). rewrite He, uuid_parse in Hp.
    simplify_eq. split; [done|]. apply list_elem_of_fmap in Hr as ([j r'] & -> & Hr).
    by exists (j, r').
  - intros [Hid ([j r] & He & Hr)]. exists r. cbn in He. rewrite <- He. split; [|apply uuid_parse].
    split; [by apply (list_elem_of_fmap_2 snd) in Hr|]. by apply list_elem_of_fmap_2.
Qed.

(** ** Counting *)

Definition counts_exactly (f : SessionFilter) : bool :=
  bool_decide (is_Some (sf_user f) \/ is_Some (sf_dest_ip f) \/ is_Some (sf_status f) \/
               is_Some (sf_start_after f)).

Lemma count_sessions_query db f st :
  counts_exactly f = true ->
  count_sessions db f st =
    (rows ← fetch_all db ["COUNT(*)"%string] (push_filters f [Sql.Push "
            SELECT COUNT(*) as count
            FROM sessions
            WHERE 1=1
            "]) st; Ok (Z.of_nat (length rows))).
Proof.
  intros Hf%bool_decide_eq_true. unfold count_sessions.
  destruct (sf_user f), (sf_dest_ip f), (sf_status f), (sf_start_after f); try done.
  by destruct Hf as [[]|[[]|[[]|[]]]].
Qed.

(** [count_sessions] counts the sessions that match a filter that asks for a
    user, a destination, a status or an earliest start; for every other filter,
    even one with a latest start, a duration or a number of bytes, its answer is
    the approximate size of the whole table. *)
Lemma count_sessions_correct f st ss :
  wf_filter f -> Forall storable ss -> (sessions st).*2 = SessionParams_from <$> ss ->
  count_sessions true f st =
    if counts_exactly f then Ok (Z.of_nat (length (List.filter (matches f) ss)))
    else approximate_total_sessions true st.
Proof.
  intros Hf Hss Ht. destruct (counts_exactly f) eqn:He.
  - rewrite count_sessions_query by done. unfold fetch_all, run_select.
    rewrite tokens_push_filters.
    match goal with |- context [Sql.parse ?ts] => assert (Sql.parse ts = Some (Sql.mkSelect
      ["COUNT(*)"%string] "sessions" (Sql.CTrue :: filter_conds f) None None None)) as -> end.
    { unfold Sql.parse.
      change (Sql.tokens [Sql.Push _]) with ([Sql.TSelect; Sql.TWord "COUNT"; Sql.TLpar; Sql.TWord "*";
        Sql.TRpar; Sql.TWord "as"; Sql.TWord "count"; Sql.TFrom; Sql.TWord "sessions"; Sql.TWhere] ++
        cond_tokens Sql.CTrue).
      rewrite <- app_assoc. cbn [app Sql.parse_columns mbind option_bind].
      rewrite <- (app_nil_r (and_tokens (filter_conds f))).
      rewrite parse_conds_tokens; [done| |done|apply filter_conds_no_in|done].
      rewrite !length_app. pose proof (and_tokens_length (filter_conds f)). cbn. lia. }
    cbn [Sql.table Sql.conds Sql.order Sql.limit Sql.offset Sql.columns].
    rewrite app_nil_r, filter_conds_known.
    rewrite Ht, (filter_fmap_ext SessionParams_from _ (matches f)).
    + transitivity (Ok (E := SqlxError) (Z.of_nat (length (order_rows (fun _ _ => true)
        (SessionParams_from <$> List.filter (matches f) ss))))); [reflexivity|].
      by rewrite order_rows_perm, length_fmap.
    + eapply Forall_impl; [exact Hss|]. intros s Hs. by apply selects_filter.
  - unfold counts_exactly in He. apply bool_decide_eq_false in He. unfold count_sessions.
    destruct (sf_user f), (sf_dest_ip f), (sf_status f), (sf_start_after f); try done;
      destruct He; eauto.
Qed.

(** ** Clean-up and restart *)

Lemma text_lt_rfc3339 a b :
  four_digit_year a -> four_digit_year b -> text_lt (to_rfc3339 a) (to_rfc3339 b) = (a <? b).
Proof. intros Ha Hb. unfold text_lt. rewrite rfc3339_order by done. by rewrite Z.leb_antisym, negb_involutive. Qed.

Lemma filter_rows (p : SessionRow -> bool) (t : list (Z * SessionRow)) :
  (List.filter (fun x => p x.2) t).*2 = List.filter p t.*2.
Proof. induction t as [|[i r] t IH]; [done|]. cbn. destruct (p r); cbn; by rewrite IH. Qed.

Lemma filter_rows_length (p : SessionRow -> bool) (t : list (Z * SessionRow)) :
  length (List.filter (fun x => p x.2) t) = length (List.filter p t.*2).
Proof. by rewrite <- filter_rows, length_fmap. Qed.

(** Older than a retention of [days] days, where zero days keep everything. *)
Definition expired (now days : Z) (s : Session) : bool :=
  (0 <? days) && (start_time s <? now - days * 86400 * 10 ^ 9).

Lemma filter_false {A} (p : A -> bool) l : (forall a, p a = false) -> List.filter p l = [].
Proof. intros Hp. induction l as [|a l IH]; [done|]. cbn. by rewrite Hp. Qed.
(** Cleanup_older_than removes exactly the sessions that started more than
    the given number of days ago, reports how many, and removes none when the
    retention is zero; a failed statement removes none. *)
Theorem cleanup_correct db now days st ss :
  0 <= days <= i64_max -> four_digit_year now -> four_digit_year (now - days * 86400 * 10 ^ 9) ->
  Forall wf_session ss -> (sessions st).*2 = SessionParams_from <$> ss ->
  exists st', cleanup_older_than db now days st =
    Some (if db || (days =? 0) then Ok (Z.of_nat (length (List.filter (expired now days) ss)))
          else Err Database, st') /\
    (sessions st').*2 = SessionParams_from <$>
      (if db then List.filter (fun s => negb (expired now days s)) ss else ss) /\
    metrics_snapshots st' = metrics_snapshots st.
Proof.
  intros Hd Hn Hc Hss Ht. unfold cleanup_older_than.
  destruct (Z.eqb_spec days 0) as [->|Hne].
  { exists st. rewrite orb_true_r, filter_false by done. split_and!; [done| |done].
    rewrite Ht. destruct db; [|done]. by rewrite filter_true by done. }
  rewrite as_i64_small, sub_days_spec by (done || lia). cbn [mbind option_bind].
  destruct db; [|by exists st].
  set (cutoff := now - days * 86400 * 10 ^ 9) in *.
  assert (Hold : Forall (fun s => text_lt (sr_start_time (SessionParams_from s)) (to_rfc3339 cutoff) =
    expired now days s) ss).
  { eapply Forall_impl; [exact Hss|]. intros s Hs. cbn [SessionParams_from sr_start_time].
    rewrite text_lt_rfc3339 by (done || apply Hs). unfold expired.
    by destruct (Z.ltb_spec 0 days); [|lia]. }
  exists (set_sessions (List.filter (fun p =>
    negb (text_lt (sr_start_time p.2) (to_rfc3339 cutoff))) (sessions st)) st).
  split; [|split; [|reflexivity]]; cbn [orb sessions set_sessions].
  - rewrite (filter_rows_length (fun r => text_lt (sr_start_time r) (to_rfc3339 cutoff))), Ht.
    by rewrite (filter_fmap_ext SessionParams_from (fun r => text_lt (sr_start_time r) (to_rfc3339 cutoff))
      _ _ Hold), length_fmap.
  - rewrite (filter_rows (fun r => negb (text_lt (sr_start_time r) (to_rfc3339 cutoff)))), Ht.
    apply filter_fmap_ext. eapply Forall_impl; [exact Hold|]. cbn. by intros s ->.
Qed.

Definition is_active (r : SessionRow) : bool := bool_decide (sr_status r = "active"%string).

(** What the restart makes of a row. *)
Definition restart_row (now : Z) (r : SessionRow) : SessionRow :=
  if is_active r then close_row (to_rfc3339 now) r else r.

Lemma restart_key now r : sr_session_id (restart_row now r) = sr_session_id r.
Proof. unfold restart_row. by destruct (is_active r). Qed.
Lemma restart_active now r : is_active (restart_row now r) = false.
Proof. unfold restart_row. by destruct (is_active r) eqn:E. Qed.

(** The tables after the restart. *)
Definition restart (now : Z) (st : SessionStore) : SessionStore :=
  set_sessions ((fun p => (p.1, restart_row now p.2)) <$> sessions st) st.

Lemma close_all_active_restart now st :
  close_all_active_sessions true now st =
  (Ok (Z.of_nat (length (List.filter is_active (sessions st).*2))), restart now st).
Proof.
  unfold close_all_active_sessions, restart. rewrite (filter_rows_length is_active).
  f_equal. apply (f_equal (fun t => set_sessions t st)), list_fmap_ext. intros j [i r] _. cbn.
  unfold restart_row, is_active. by destruct (bool_decide _).
Qed.

Lemma restart_keys now st : keys (sessions (restart now st)) = keys (sessions st).
Proof.
  unfold keys, restart. cbn [sessions set_sessions]. rewrite <- list_fmap_compose.
  apply list_fmap_ext. intros j [i r] _. apply restart_key.
Qed.

Lemma restart_find now st key :
  find_row key (sessions (restart now st)) = restart_row now <$> find_row key (sessions st).
Proof.
  cbn [sessions set_sessions restart]. induction (sessions st) as [|[i r] t IH]; [done|].
  rewrite fmap_cons, !find_row_cons. cbn [fst snd]. rewrite restart_key. by case_decide.
Qed.

Lemma restart_inactive now st : List.filter is_active (sessions (restart now st)).*2 = [].
Proof.
  cbn [sessions set_sessions restart]. rewrite <- list_fmap_compose.
  induction (sessions st) as [|[i r] t IH]; [done|].
  rewrite fmap_cons. cbn [List.filter compose snd]. by rewrite restart_active.
Qed.

(** Close_all_active_sessions, which runs when the server starts, keeps every
    key, closes exactly the rows still marked active, with the reason Server
    restart and the current instant as their end, reports how many, and leaves
    no row active. *)
Theorem close_all_active_correct now st :
  exists st', close_all_active_sessions true now st =
    (Ok (Z.of_nat (length (List.filter is_active (sessions st).*2))), st') /\
    keys (sessions st') = keys (sessions st) /\
    (forall key, find_row key (sessions st') =
       (fun r => if is_active r then close_row (to_rfc3339 now) r else r) <$> find_row key (sessions st)) /\
    List.filter is_active (sessions st').*2 = [].
Proof.
  exists (restart now st). split_and!.
  - apply close_all_active_restart.
  - apply restart_keys.
  - apply restart_find.
  - apply restart_inactive.
Qed.
End store_spec.

(** ** Concrete libraries

    Instances of the three classes with which the theorems compute: instants as
    twenty-one decimal digits, identifiers in decimal, a stable sort. *)

Fixpoint fixed_digits (n : nat) (z : Z) : string :=
  match n with
  | O => EmptyString
  | S k => String (dec_digit (z / 10 ^ Z.of_nat k)) (fixed_digits k (z mod 10 ^ Z.of_nat k))
  end.
Fixpoint undigits (acc : Z) (s : string) : Z :=
  match s with
  | EmptyString => acc
  | String c s' => undigits (acc * 10 + (Z.of_N (Ascii.N_of_ascii c) - 48)) s'
  end.

Lemma digit_range n z : 0 <= z < 10 ^ Z.of_nat (S n) -> 0 <= z / 10 ^ Z.of_nat n < 10.
Proof.
  rewrite Nat2Z.inj_succ, Z.pow_succ_r by lia. intros Hz.
  assert (0 < 10 ^ Z.of_nat n) by (apply Z.pow_pos_nonneg; lia). split.
  - apply Z.div_pos; lia.
  - apply Z.div_lt_upper_bound; lia.
Qed.

Lemma dec_digit_code d : 0 <= d < 10 -> Ascii.N_of_ascii (dec_digit d) = Z.to_N (48 + d).
Proof. intros Hd. unfold dec_digit. apply Ascii.N_ascii_embedding. lia. Qed.

Lemma undigits_fixed n z acc :
  0 <= z < 10 ^ Z.of_nat n -> undigits acc (fixed_digits n z) = acc * 10 ^ Z.of_nat n + z.
Proof.
  revert z acc. induction n as [|n IH]; intros z acc Hz; [cbn in *; lia|].
  pose proof (digit_range n z Hz). assert (Hp : 0 < 10 ^ Z.of_nat n) by (apply Z.pow_pos_nonneg; lia).
  cbn [fixed_digits undigits]. rewrite dec_digit_code by done. rewrite IH by (by apply Z.mod_pos_bound).
  rewrite Z2N.id by lia. rewrite Nat2Z.inj_succ, Z.pow_succ_r by lia.
  pose proof (Z.div_mod z (10 ^ Z.of_nat n)). nia.
Qed.

Lemma fixed_digits_compare n a b :
  0 <= a < 10 ^ Z.of_nat n -> 0 <= b < 10 ^ Z.of_nat n ->
  String.compare (fixed_digits n a) (fixed_digits n b) = (a ?= b).
Proof.
  revert a b. induction n as [|n IH]; intros a b Ha Hb; [cbn in *; symmetry; apply Z.compare_eq_iff; lia|].
  pose proof (digit_range n a Ha). pose proof (digit_range n b Hb).
  assert (Hp : 0 < 10 ^ Z.of_nat n) by (apply Z.pow_pos_nonneg; lia).
  set (p := 10 ^ Z.of_nat n) in *. cbn [fixed_digits String.compare].
  unfold Ascii.compare. rewrite !dec_digit_code by done. fold p.
  pose proof (Z.div_mod a p). pose proof (Z.div_mod b p).
  pose proof (Z.mod_pos_bound a p Hp). pose proof (Z.mod_pos_bound b p Hp).
  rewrite (Z2N.inj_compare (48 + a / p) (48 + b / p)) by lia. rewrite IH by done.
  assert (a / p < b / p -> a < b) by nia. assert (b / p < a / p -> b < a) by nia.
  assert (a / p = b / p -> (a - b) = a mod p - b mod p) by nia.
  destruct (Z.compare_spec (48 + a / p) (48 + b / p)), (Z.compare_spec a b); try done; try lia;
    first [apply Z.compare_eq_iff | apply Z.compare_lt_iff | apply Z.compare_gt_iff]; lia.
Qed.

Definition year_zero : Z := -62167219200 * 10 ^ 9.
Definition stamp (z : Z) : string := fixed_digits 21 (z - year_zero).

Lemma stamp_range z : four_digit_year z -> 0 <= z - year_zero < 10 ^ Z.of_nat 21.
Proof. unfold four_digit_year, year_zero. lia. Qed.

#[refine] Definition digits_chrono : Chrono := {|
  to_rfc3339 := stamp;
  parse_from_rfc3339 s := Some (undigits 0 s + year_zero);
  naive_parse _ _ := None;
  sub_days now d := Some (now - d * 86400 * 10 ^ 9);
  sub_hours now h := Some (now - h * 3600 * 10 ^ 9) |}.
Proof.
  - intros z Hz. unfold stamp. rewrite undigits_fixed by (by apply stamp_range). f_equal. lia.
  - intros a b Ha Hb. unfold stamp, String.leb.
    rewrite fixed_digits_compare by (by apply stamp_range).
    destruct (Z.compare_spec (a - year_zero) (b - year_zero)), (Z.leb_spec a b); done || lia.
  - done.
  - done.
Defined.

(** The binary digits of the number that [Countable] gives an identifier. *)
Fixpoint bits (p : positive) : string :=
  match p with xH => EmptyString | xO p => String "0" (bits p) | xI p => String "1" (bits p) end.
Fixpoint unbits (s : string) : option positive :=
  match s with
  | EmptyString => Some xH
  | String "0" s' => xO <$> unbits s'
  | String "1" s' => xI <$> unbits s'
  | _ => None
  end.

Lemma unbits_bits p : unbits (bits p) = Some p.
Proof. induction p as [p IH|p IH|]; cbn; [by rewrite IH..|done]. Qed.

Definition bits_uuid : UuidText.
Proof.
  refine {| uuid_to_string id := bits (countable.encode id); uuid_parse_str s := p ← unbits s; countable.decode p |}.
  intros id. rewrite unbits_bits. cbn. apply countable.decode_encode.
Defined.

#[refine] Definition stable_engine : SqlEngine := {|
  order_rows le l := sort_by le l;
  julian_secs _ _ := Some 0 |}.
Proof.
  - intros le l. apply sort_by_perm.
  - intros le l Ht Hr. by apply sort_by_sorted.
Defined.

#[local] Existing Instance digits_chrono.
#[local] Existing Instance bits_uuid.
#[local] Existing Instance stable_engine.

Definition demo_start : Z := 1700000000 * 10 ^ 9.
Definition demo_session (id started : Z) (usr dest : string) (sent : Z) (st : SessionStatus) : Session :=
  {| session_id := id; user := usr; start_time := demo_start + started;
     end_time := if decide (st = Active) then None else Some (demo_start + started + 10 ^ 10);
     duration_secs := if decide (st = Active) then None else Some 10;
     source_ip := V4 [x0a; x00; x00; x02]; source_port := 50000; dest_ip := dest; dest_port := 443;
     protocol := Tcp; bytes_sent := sent; bytes_received := 7; packets_sent := 1;
     packets_received := 1; status := st; close_reason := None; acl_rule_matched := None;
     acl_decision := "allow" |}.
Definition demo_sessions : list Session :=
  [demo_session 1 0 "alice" "a.example" 100 Closed; demo_session 2 (10 ^ 9) "bob" "b.example" 5 Active;
   demo_session 3 (2 * 10 ^ 9) "alice" "b.example" 900 Closed;
   demo_session 4 (3 * 10 ^ 9) "alice" "c.example" 30 Failed].
Definition demo_store : SessionStore :=
  (save_batch (mkTransaction true None true) demo_sessions (mkSessionStore true [] [] None)).2.
(** The injection attempt in [sf_sort_by] changes nothing. *)
Definition demo_filter : SessionFilter :=
  mkSessionFilter (Some "alice"%string) None (Some demo_start) None None None (Some 30) (Some 2) (Some 1)
    (Some "bytes_sent; DROP TABLE sessions"%string) (Some "asc"%string).

Example demo_page : query_sessions true demo_filter demo_store =
  Ok [demo_session 3 (2 * 10 ^ 9) "alice" "b.example" 900 Closed;
      demo_session 4 (3 * 10 ^ 9) "alice" "c.example" 30 Failed].
Proof. vm_compute. reflexivity. Qed.

Lemma demo_session_storable id started usr dest sent st :
  0 <= started <= 10 ^ 12 -> 0 <= sent <= 10 ^ 6 -> storable (demo_session id started usr dest sent st).
Proof.
  intros Hst Hse. assert (H64 : 10 ^ 6 <= i64_max) by done. assert (H7 : 7 <= i64_max) by done.
  split; [split|..]; cbn [demo_session start_time end_time duration_secs source_ip source_port dest_port
    bytes_sent bytes_received packets_sent packets_received]; try done.
  - unfold four_digit_year, demo_start. lia.
  - intros t. case_decide; intros [= <-]. unfold four_digit_year, demo_start. lia.
  - intros d. case_decide; by intros [= <-].
  - unfold is_u64, i64_max, u64_max in *. lia.
  - lia.
Qed.
Lemma demo_storable : Forall storable demo_sessions.
Proof. repeat (constructor; [by apply demo_session_storable|]). constructor. Qed.
Lemma demo_filter_wf : wf_filter demo_filter.
Proof.
  split; cbn; intros ? [= <-]; try done.
Qed.
Lemma demo_rows : (sessions demo_store).*2 = SessionParams_from <$> demo_sessions.
Proof. vm_compute. reflexivity. Qed.

Lemma query_sessions_correct_witness : exists ordered,
  ordered ≡ₚ List.filter (matches demo_filter) demo_sessions /\
  sorted (session_leb "start_time" true) ordered /\
  query_sessions true demo_filter demo_store = Ok (page (Some 2) (Some 1) ordered).
Proof.
  exact (query_sessions_correct demo_filter demo_store demo_sessions demo_filter_wf demo_storable demo_rows).
Defined.

Lemma count_sessions_correct_witness :
  count_sessions true demo_filter demo_store = Ok 3 /\
  count_sessions true demo_filter demo_store =
    (if counts_exactly demo_filter then Ok (Z.of_nat (length (List.filter (matches demo_filter) demo_sessions)))
     else approximate_total_sessions true demo_store).
Proof.
  split; [vm_compute; reflexivity|].
  exact (count_sessions_correct demo_filter demo_store demo_sessions demo_filter_wf demo_storable demo_rows).
Defined.

Lemma cleanup_correct_witness :
  exists st', cleanup_older_than true (demo_start + 86401 * 10 ^ 9) 1 demo_store = Some (Ok 1, st') /\
    (sessions st').*2 = SessionParams_from <$> List.filter (fun s => negb (expired (demo_start + 86401 * 10 ^ 9) 1 s))
      demo_sessions /\
    metrics_snapshots st' = metrics_snapshots demo_store.
Proof.
  apply (cleanup_correct true (demo_start + 86401 * 10 ^ 9) 1 demo_store demo_sessions);
    [done|done|done|exact (storable_wf _ demo_storable)|exact demo_rows].
Defined.

(** C21: A session of the manager, written to its row and read back, is the same
    session, for every address and every counter; the duration has to fit a
    signed integer. *)
Theorem session_roundtrip `{!Chrono} `{!UuidText} s :
  wf_session s -> into_session (SessionParams_from s) = Ok s.
Proof. apply into_session_params. Qed.

Lemma session_roundtrip_witness :
  let s := demo_session 9 0 "eve" "e.example" 12 Failed in
  wf_session s /\ into_session (SessionParams_from s) = Ok s.
Proof.
  cbn zeta. assert (H : wf_session (demo_session 9 0 "eve" "e.example" 12 Failed))
    by (by apply st_wf, demo_session_storable).
  split; [exact H|]. exact (session_roundtrip _ H).
Defined.
