(* ===== verification/PersistSpec.v ===== *)
(** * Sessions outlive the process

    The manager of [Manager] with the store of [Store] as its database: what a
    later process finds, after an orderly shutdown and after a crash. *)
From S2P Require Import Prelude Net NetSpec Acl AclEngine AclSpec Session Store StoreSpec Manager ManagerSpec.

(** ** What the database was given *)

Section batches.
Context {T : Type} `{!SessionSink T} {order : IterOrder} {deps : AclDeps} {unstable : UnstableSort rule_leb}.

Definition is_ok {E A} (r : result E A) : bool := match r with Ok _ => true | Err _ => false end.

(** A flush takes the whole queue; whether the transaction went through is the
    outcome's and the database's answer. *)
Definition attempt (o : outcome) (w : BatchWriter T) : list (bool * list Session) :=
  match queue w with [] => [] | batch => [(is_ok (Session.save_batch o batch (store w)).1, batch)] end.
Definition attempt_of (o : op) (m : SessionManager T) : list (bool * list Session) :=
  match batch_writer m, o with
  | Some w, OTick o => if running w then attempt o w else []
  | Some w, ONotified o => if running w && flush_permit w then attempt o w else []
  | _, _ => []
  end.

(** The batches of a run, in order, and whether each was stored. *)
Fixpoint batches (m : SessionManager T) (os : list op) : list (bool * list Session) :=
  match os with [] => [] | o :: os => attempt_of o m ++ batches (exec o m) os end.
Definition taken (bs : list (bool * list Session)) : list Session := concat bs.*2.
Definition written (bs : list (bool * list Session)) : list Session := concat (List.filter fst bs).*2.

Lemma batches_snoc m os o :
  batches m (os ++ [o]) = batches m os ++ attempt_of o (fold_left (fun m o => exec o m) os m).
Proof.
  revert m. induction os as [|o' os IH]; intros m; cbn; [by rewrite app_nil_r|]. by rewrite IH, app_assoc.
Qed.
Lemma taken_app bs bs' : taken (bs ++ bs') = taken bs ++ taken bs'.
Proof. unfold taken. by rewrite fmap_app, concat_app. Qed.
Lemma written_app bs bs' : written (bs ++ bs') = written bs ++ written bs'.
Proof. unfold written. by rewrite List.filter_app, fmap_app, concat_app. Qed.

Lemma taken_one b q : taken [(b, q)] = q.
Proof. apply app_nil_r. Qed.
Lemma written_one b q : written [(b, q)] = if b then q else [].
Proof. destruct b; [apply app_nil_r|done]. Qed.

(** Every version was taken by a flush or waits in the queue, in order; the
    database has what was written to it, on top of what it had. *)
Definition ledger (t : T) (bs : list (bool * list Session)) (m : SessionManager T) : Prop :=
  exists w, batch_writer m = Some w /\
    (forall id, current m id = last_version id (taken bs ++ queue w)) /\
    (forall id, stored (store w) id =
       match last_version id (written bs) with Some s => Some (encode s) | None => stored t id end).

Lemma ledger_evolves t bs l m m' : evolves l m m' -> ledger t bs m -> ledger t bs m'.
Proof.
  intros [Hc Hw] (w & Hb & Hcur & Hst). rewrite Hb in Hw.
  destruct (enqueue_all_Some l w) as (w' & Hw' & Hq & Hs). exists w'. split; [congruence|].
  rewrite Hs. split; [|done]. intros id. by rewrite Hc, Hq, app_assoc, last_version_app, Hcur.
Qed.

Lemma ledger_flush t bs o w m g :
  batch_writer m = Some w -> (queue g, store g) = (queue w, store w) -> ledger t bs m ->
  ledger t (bs ++ attempt o w) (set_writer (Some (flush o g)) m).
Proof.
  intros Hb [= Hgq Hgs] (w' & Hb' & Hcur & Hst). simplify_eq. exists (flush o g). split; [done|].
  rewrite taken_app, written_app. change (current (set_writer _ m)) with (current m).
  unfold attempt, flush. rewrite Hgq, Hgs. destruct (queue w) as [|s q] eqn:E.
  - rewrite !app_nil_r, Hgq. split; [intros id; by rewrite Hcur, app_nil_r|]. by rewrite Hgs.
  - cbn [queue store]. rewrite taken_one, written_one, app_nil_r. split; [done|].
    intros id. destruct (Session.save_batch o (s :: q) (store w)).1 as [[]|e] eqn:Eb; cbn [is_ok].
    + rewrite (save_batch_ok _ _ _ id Eb), last_version_app, Hst. by destruct (last_version id (s :: q)).
    + by rewrite (save_batch_err _ _ _ _ Eb), app_nil_r.
Qed.

(** Every operation but a flush makes some versions current and enqueues them. *)
Lemma exec_evolves o m :
  manager_wf m -> allowed_op o m ->
  match o with
  | OTick _ | ONotified _ => True
  | _ => exists l, evolves l m (exec o m)
  end.
Proof.
  intros Hw Ho. destruct o; cbn [exec]; cbn in Ho; try done.
  - eexists. by apply evolves_new.
  - eexists. by apply evolves_traffic.
  - by exists [].
  - rewrite worker_step_wf by done. by exists [].
  - eexists. by apply evolves_close.
  - eexists. by apply evolves_terminate.
  - eexists. by apply evolves_reject.
  - by apply evolves_terminate_all.
  - by apply (evolves_terminate_all fst (fun t => clock t.1) snd).
Qed.

Lemma ledger_exec t bs o m :
  manager_wf m -> allowed_op o m -> ledger t bs m -> ledger t (bs ++ attempt_of o m) (exec o m).
Proof.
  intros Hw Ho Hl. pose proof (exec_evolves o m Hw Ho) as He. pose proof Hl as (w & Hb & _).
  unfold attempt_of. rewrite Hb.
  destruct o;
    try (lazymatch type of He with ex _ => destruct He as [l He] end;
         rewrite app_nil_r; exact (ledger_evolves _ _ _ _ _ He Hl));
    clear He; cbn [exec]; rewrite Hb; cbn [fmap option_fmap option_map]; unfold on_tick, on_notified;
    match goal with |- context [if ?b then _ else _] => destruct b end;
    try (by apply (ledger_flush t bs _ w)); rewrite app_nil_r; destruct Hl as (w' & Hb' & Hl'); exists w';
    (split; [cbn; congruence|exact Hl']).
Qed.

Lemma ledger_runs t config os m :
  runs allowed_op (with_store t config SessionMetrics_init) os m ->
  manager_wf m /\ ledger t (batches (with_store t config SessionMetrics_init) os) m.
Proof.
  intros Hr. induction Hr as [|os o m Hr [IHw IHl] Ho].
  - split; [apply manager_wf_init; constructor|]. by eexists.
  - split; [by apply manager_wf_exec|]. rewrite batches_snoc, <- (runs_fold _ _ _ _ Hr). by apply ledger_exec.
Qed.

(** What every transaction preserves, for runs whose transactions may fail. *)
Lemma database_allowed (P : T -> Prop) t config os m :
  (forall o b t, P t -> P (Session.save_batch o b t).2) -> P t ->
  runs allowed_op (with_store t config SessionMetrics_init) os m -> database P m.
Proof.
  intros Hsave Ht Hr. induction Hr as [|os o m Hr IH Ho]; [by intros w [= <-]|].
  apply database_exec; [done| |done..]. by apply (ledger_runs t config os).
Qed.
End batches.

(** ** Restarts *)

Section persist.
Context {chrono : Chrono} {uuids : UuidText} {engine : SqlEngine}.
Context {order : IterOrder} {deps : AclDeps} {unstable : UnstableSort rule_leb}.

(** A transaction that goes through. *)
Definition committed : transaction := mkTransaction true None true.

Lemma committed_flush (w : BatchWriter SessionStore) : flush_ok committed w.
Proof.
  unfold flush_ok. cbn [Session.save_batch store_sink fst]. unfold Store.save_batch, committed.
  cbn [begins fails_at commits]. by rewrite execute_all_None.
Qed.

(** The database never holds two rows with one key. *)
Definition one_row_per_key (st : SessionStore) : Prop := NoDup (keys (sessions st)).

Lemma write_all_keys batch t : NoDup (keys t) -> NoDup (keys (write_all batch t)).
Proof. revert t. induction batch as [|s batch IH]; intros t Ht; [done|]. by apply IH, upsert_keys. Qed.

Lemma one_row_save tx batch st : one_row_per_key st -> one_row_per_key (Session.save_batch tx batch st).2.
Proof.
  intros Hst. cbn [Session.save_batch store_sink snd].
  destruct (Store.save_batch tx batch st).1 as [[]|e] eqn:E.
  - rewrite save_batch_Ok by done. by apply write_all_keys.
  - by rewrite (save_batch_Err _ _ _ _ E).
Qed.

(** What the next process makes of a session that it finds in the database. *)
Definition after_restart (now : Z) (s : Session) : Session :=
  match status s with
  | Active =>
    {| session_id := session_id s; user := user s; start_time := start_time s;
       end_time := Some now;
       duration_secs := sanitize_duration (julian_secs (to_rfc3339 now) (to_rfc3339 (start_time s)));
       source_ip := source_ip s; source_port := source_port s; dest_ip := dest_ip s;
       dest_port := dest_port s; protocol := protocol s;
       bytes_sent := bytes_sent s; bytes_received := bytes_received s;
       packets_sent := packets_sent s; packets_received := packets_received s;
       status := Closed; close_reason := Some "Server restart"%string;
       acl_rule_matched := acl_rule_matched s; acl_decision := acl_decision s |}
  | _ => s
  end.

Lemma is_active_params s : is_active (SessionParams_from s) = bool_decide (status s = Active).
Proof. unfold is_active. cbn [SessionParams_from sr_status]. by destruct (status s). Qed.

Lemma into_session_close now s :
  four_digit_year now -> wf_session s -> status s = Active ->
  into_session (close_row (to_rfc3339 now) (SessionParams_from s)) = Ok (after_restart now s).
Proof.
  intros Hn [Hst _ _ Hip Hsp Hdp Hbs Hbr Hps Hpr] Ha. unfold into_session, after_restart. rewrite Ha.
  cbn [close_row SessionParams_from sr_session_id sr_user sr_start_time sr_end_time sr_duration_secs
    sr_source_ip sr_source_port sr_dest_ip sr_dest_port sr_protocol sr_bytes_sent
    sr_bytes_received sr_packets_sent sr_packets_received sr_status sr_close_reason
    sr_acl_rule_matched sr_acl_decision].
  rewrite uuid_parse, !parse_datetime_rfc3339, protocol_roundtrip by done.
  change "closed"%string with (SessionStatus_as_str Closed).
  rewrite status_roundtrip, parse_ip_fmt_ip by done. cbn.
  by rewrite !as_u64_as_i64, !as_u16_small by done.
Qed.

Lemma into_session_restart now s :
  four_digit_year now -> wf_session s ->
  into_session (restart_row now (SessionParams_from s)) = Ok (after_restart now s).
Proof.
  intros Hn Hs. unfold restart_row. rewrite is_active_params.
  destruct (decide (status s = Active)) as [Ha|Ha].
  - rewrite bool_decide_true by done. by apply into_session_close.
  - rewrite bool_decide_false, into_session_params by done. unfold after_restart. by destruct (status s).
Qed.

Lemma restart_get now st id s :
  one_row_per_key st -> four_digit_year now -> wf_session s ->
  find_row (uuid_to_string id) (sessions st) = Some (SessionParams_from s) ->
  Store.get_session true id (restart now st) = Ok (Some (after_restart now s)).
Proof.
  intros Hk Hn Hs Hf. rewrite get_session_find by (by rewrite restart_keys).
  rewrite restart_find, Hf. cbn [fmap option_fmap option_map]. by rewrite into_session_restart.
Qed.

(** After an orderly shutdown whose last transaction goes through, a new
    process that has cleaned up the database still finds every session that the
    manager ever had, exactly as it was at the end, whatever the operations were. *)
Theorem shutdown_then_restart st config os m clock waiting now :
  one_row_per_key st ->
  runs saving_op (with_store st config SessionMetrics_init) os m ->
  four_digit_year now ->
  let m' := shutdown clock committed waiting m in
  exists w, batch_writer m' = Some w /\
    forall id s, current m' id = Some s -> wf_session s ->
      Store.get_session true id (restart now (store w)) = Ok (Some s).
Proof.
  intros Hk Hr Hn m'. pose proof (consistent_runs st config os m Hr) as [Hw _].
  destruct (shutdown_state st config os m clock committed waiting Hr committed_flush)
    as (Ha & _ & w & Hb & _ & Hst). fold m' in Ha, Hb, Hst.
  exists w. split; [done|]. intros id s Hs Hwf.
  assert (Hover : over s).
  { unfold current in Hs. rewrite Ha, lookup_empty in Hs.
    assert (manager_wf (exec (OCloseAll clock "Server shutdown" Failed) m)) as [Hl _]
      by (by apply manager_wf_exec).
    apply last_version_id in Hs as [_ [Hin|Hin]%elem_of_app].
    - by apply (proj1 (Forall_forall _ _) (lc_closed _ _ _ _ _ Hl)).
    - by apply (proj1 (Forall_forall _ _) (lc_rejected _ _ _ _ _ Hl)) in Hin as [? _]. }
  assert (Hsame : after_restart now s = s)
    by (unfold after_restart; destruct Hover as [Ho _]; by destruct (status s)).
  rewrite <- Hsame. apply restart_get; [|done..|by apply Hst].
  refine (database_shutdown one_row_per_key one_row_save clock committed waiting m Hw _ w Hb).
  exact (database_runs one_row_per_key one_row_save st config os m Hk Hr).
Qed.

Lemma restart_same now st st' id :
  one_row_per_key st -> one_row_per_key st' ->
  find_row (uuid_to_string id) (sessions st') = find_row (uuid_to_string id) (sessions st) ->
  Store.get_session true id (restart now st') = Store.get_session true id (restart now st).
Proof.
  intros Hk Hk' Hf. rewrite !get_session_find by (by rewrite restart_keys). by rewrite !restart_find, Hf.
Qed.

(** C7: What a crash leaves, whatever the operations were and whichever of the
    transactions of the flushes went through; a crash in the middle of a flush is
    one right after it, with or without its transaction.  Every version that
    the manager made of a session was taken into a batch by a flush, or waits in
    the queue, and the last one is the current one.  A batch whose transaction
    failed is lost, with whatever waits in the queue: a new process finds each
    session in the last version among the batches that were stored, as it was if
    it had ended there, and otherwise closed with the reason Server restart, with
    the traffic counted in that version; of a session in no stored batch it finds
    what the database held before, usually nothing. *)
Theorem crash_then_restart st config os m w id now :
  one_row_per_key st ->
  runs allowed_op (with_store st config SessionMetrics_init) os m ->
  four_digit_year now -> batch_writer m = Some w ->
  let bs := batches (with_store st config SessionMetrics_init) os in
  current m id = last_version id (taken bs ++ queue w) /\
  match last_version id (written bs) with
  | Some s => wf_session s -> Store.get_session true id (restart now (store w)) = Ok (Some (after_restart now s))
  | None => Store.get_session true id (restart now (store w)) = Store.get_session true id (restart now st)
  end.
Proof.
  intros Hk Hr Hn Hb bs. destruct (ledger_runs st config os m Hr) as [_ (w' & Hb' & Hcur & Hst)].
  rewrite Hb in Hb'. injection Hb' as <-. split; [apply Hcur|].
  pose proof (database_allowed one_row_per_key st config os m one_row_save Hk Hr w Hb) as Hk'.
  specialize (Hst id). fold bs in Hst. destruct (last_version id (written bs)) as [s|].
  - intros Hwf. by apply restart_get.
  - by apply restart_same.
Qed.
End persist.

(** ** A concrete run: one session that ends, one that does not *)

#[local] Existing Instance digits_chrono.
#[local] Existing Instance bits_uuid.
#[local] Existing Instance stable_engine.
#[local] Existing Instance map_order.
#[local] Existing Instance stable_unstable_sort.
#[local] Existing Instance Wildcard.demo_deps.

Definition empty_store : SessionStore := mkSessionStore true [] [] None.
Definition at_second (n : Z) : Z := demo_start + n * 10 ^ 9.
Definition persist_ops : list (op (T := SessionStore)) :=
  [ONew 1 11 (at_second 0) "alice" (demo_conn "a.example") "allow" None None;
   OTraffic (mkTrafficUpdate 1 1000 2000 3 4);
   ONew 2 12 (at_second 1) "bob" (demo_conn "b.example") "allow" None None;
   OClose 1 (at_second 60) None Closed;
   OTick committed].
Definition persist_manager : SessionManager SessionStore :=
  with_store empty_store BatchConfig_default SessionMetrics_init.
Definition persist_after : SessionManager SessionStore :=
  fold_left (fun m o => exec o m) persist_ops persist_manager.

Lemma persist_runs : runs saving_op persist_manager persist_ops persist_after.
Proof.
  unfold persist_after, persist_ops.
  repeat (apply runs_cons; [split; [|try exact I; intros ? _; apply committed_flush]; cbn [allowed_op];
    first [exact I | discriminate
          | split; [vm_compute; reflexivity | apply (bool_decide_unpack _); vm_compute; reflexivity]
          | repeat split; apply (bool_decide_unpack _); vm_compute; reflexivity]|]). constructor.
Qed.

Definition bob : Session :=
  Session_new 2 (at_second 1) "bob" (demo_conn "b.example") "allow" None.
Definition bob_ended : Session := close (at_second 90) (Some "Server shutdown"%string) Failed bob.

Lemma persist_current : current persist_after 2 = Some bob.
Proof. vm_compute. reflexivity. Qed.
Lemma persist_ended :
  current (shutdown (fun _ => at_second 90) committed true persist_after) 2 = Some bob_ended.
Proof. vm_compute. reflexivity. Qed.

Lemma bob_wf : wf_session bob.
Proof. by split. Qed.
Lemma bob_ended_wf : wf_session bob_ended.
Proof.
  split; first [intros ? E; vm_compute in E; injection E as <-; by vm_compute | by vm_compute].
Qed.

Lemma shutdown_then_restart_witness :
  exists w, batch_writer (shutdown (fun _ => at_second 90) committed true persist_after) = Some w /\
    Store.get_session true 2 (restart (at_second 100) (store w)) = Ok (Some bob_ended).
Proof.
  destruct (shutdown_then_restart empty_store BatchConfig_default persist_ops persist_after
    (fun _ => at_second 90) true (at_second 100)) as (w & Hw & Hget).
  - constructor.
  - exact persist_runs.
  - done.
  - exists w. split; [exact Hw|]. exact (Hget 2 bob_ended persist_ended bob_ended_wf).
Defined.

(** The first flush goes through, the second does not, and then the process
    dies: the traffic of the first session and the second session are lost. *)
Definition rolled_back : transaction := mkTransaction true None false.
Definition crash_ops : list (op (T := SessionStore)) :=
  [ONew 1 11 (at_second 0) "alice" (demo_conn "a.example") "allow" None None;
   OTick committed;
   OTraffic (mkTrafficUpdate 1 1000 2000 3 4);
   ONew 2 12 (at_second 1) "bob" (demo_conn "b.example") "allow" None None;
   OTick rolled_back].
Definition crash_after : SessionManager SessionStore :=
  fold_left (fun m o => exec o m) crash_ops persist_manager.

Lemma crash_runs : runs allowed_op persist_manager crash_ops crash_after.
Proof.
  unfold crash_after, crash_ops.
  repeat (apply runs_cons; [cbn [allowed_op];
    first [exact I | discriminate
          | split; [vm_compute; reflexivity | apply (bool_decide_unpack _); vm_compute; reflexivity]
          | repeat split; apply (bool_decide_unpack _); vm_compute; reflexivity]|]). constructor.
Qed.

Definition alice : Session :=
  Session_new 1 (at_second 0) "alice" (demo_conn "a.example") "allow" None.

Lemma crash_written : written (batches persist_manager crash_ops) = [alice].
Proof. vm_compute. reflexivity. Qed.
Lemma alice_wf : wf_session alice.
Proof. by split. Qed.

Lemma crash_then_restart_witness :
  exists w, batch_writer crash_after = Some w /\
    bytes_sent <$> current crash_after 1 = Some 1000 /\
    Store.get_session true 1 (restart (at_second 100) (store w)) =
      Ok (Some (after_restart (at_second 100) alice)) /\
    bytes_sent (after_restart (at_second 100) alice) = 0 /\ current crash_after 2 = Some bob /\
    Store.get_session true 2 (restart (at_second 100) (store w)) = Ok None.
Proof.
  destruct (batch_writer crash_after) as [w|] eqn:Hw; [|vm_compute in Hw; discriminate Hw].
  destruct (crash_then_restart empty_store BatchConfig_default crash_ops crash_after w 1 (at_second 100))
    as [_ H1]; [constructor|exact crash_runs|done|exact Hw|].
  destruct (crash_then_restart empty_store BatchConfig_default crash_ops crash_after w 2 (at_second 100))
    as [_ H2]; [constructor|exact crash_runs|done|exact Hw|].
  change (with_store _ _ _) with persist_manager in H1, H2. rewrite crash_written in H1, H2.
  exists w. split; [reflexivity|]. split; [vm_compute; reflexivity|]. split; [exact (H1 alice_wf)|].
  split; [reflexivity|]. split; [vm_compute; reflexivity|exact H2].
Defined.
