(* ===== verification/SessionsApi.v ===== *)
(** * The session endpoints of the REST interface

    src/src/api/handlers/sessions.rs, on the manager of [Manager] and the store of
    [Store].  A handler returns a status code with its body; [None] is a panic of
    the handler.  The order of the hash maps is [IterOrder], the division of the
    page counts is that of binary64 ([TokenBucket]). *)
From S2P Require Import Prelude Net TokenBucket Acl AclEngine Session Store Manager.
From Stdlib Require Import Floats.SpecFloat.

(** ** Data (api/types.rs) *)

Record SessionResponse : Type := mkSessionResponse {
  re_id : string;
  re_user : string;
  re_source_ip : string;
  re_source_port : Z;
  re_dest_ip : string;
  re_dest_port : Z;
  re_protocol : string;
  re_status : string;
  re_acl_decision : string;
  re_acl_rule : option string;
  re_bytes_sent : Z;
  re_bytes_received : Z;
  re_start_time : string;
  re_end_time : option string;
  re_duration_seconds : option Z;
}.

Record PagedResponse (A : Type) : Type := mkPagedResponse {
  data : list A;
  total : Z;
  page_number : Z;  (* page *)
  page_size : Z;
  total_pages : Z;
}.
Arguments mkPagedResponse {A} _ _ _ _ _.
Arguments data {A} _.
Arguments total {A} _.
Arguments page_number {A} _.
Arguments page_size {A} _.
Arguments total_pages {A} _.

Record SessionQueryParams : Type := mkSessionQueryParams {
  q_user : option string;
  q_hours : option Z;
  q_dest_ip : option string;
  q_status : option string;
  q_page : Z;
  q_page_size : Z;
  q_sort_by : option string;
  q_sort_dir : option string;
}.
Definition default_page : Z := 1.
Definition default_page_size : Z := 50.

Record UserStat : Type := mkUserStat {
  ust_user : string; ust_session_count : Z; ust_bytes_sent : Z; ust_bytes_received : Z }.
Record DestinationStat : Type := mkDestinationStat {
  ds_destination : string; ds_session_count : Z; ds_bytes_sent : Z; ds_bytes_received : Z }.
Record SessionStatsResponse : Type := mkSessionStatsResponse {
  sr_total_sessions : Z;
  sr_active_sessions : Z;
  sr_closed_sessions : Z;
  sr_failed_sessions : Z;
  sr_total_bytes_sent : Z;
  sr_total_bytes_received : Z;
  sr_top_users : list UserStat;
  sr_top_destinations : list DestinationStat;
}.

Definition OK : Z := 200.
Definition BAD_REQUEST : Z := 400.
Definition NOT_FOUND : Z := 404.

(** ** Sorting and filtering in memory *)

(** The closure given to [sort_by]; [Ord::cmp] of an [Option] puts [None] first. *)
Definition opt_compare (a b : option Z) : comparison :=
  match a, b with
  | None, None => Eq
  | None, Some _ => Lt
  | Some _, None => Gt
  | Some x, Some y => x ?= y
  end.
Definition field_compare (sort_field : string) (a b : Session) : comparison :=
  if decide (sort_field = "user")%string then String.compare (user a) (user b)
  else if decide (sort_field = "source_ip")%string
  then String.compare (fmt_ip (source_ip a)) (fmt_ip (source_ip b))
  else if decide (sort_field = "dest_ip")%string then String.compare (dest_ip a) (dest_ip b)
  else if decide (sort_field = "protocol")%string
  then String.compare (Protocol_as_str (protocol a)) (Protocol_as_str (protocol b))
  else if decide (sort_field = "status")%string
  then String.compare (SessionStatus_as_str (status a)) (SessionStatus_as_str (status b))
  else if decide (sort_field = "acl_decision")%string
  then String.compare (acl_decision a) (acl_decision b)
  else if decide (sort_field = "bytes_sent")%string then bytes_sent a ?= bytes_sent b
  else if decide (sort_field = "bytes_received")%string then bytes_received a ?= bytes_received b
  else if decide (sort_field = "duration_seconds" \/ sort_field = "duration_secs")%string
  then opt_compare (duration_secs a) (duration_secs b)
  else start_time a ?= start_time b.
Definition history_compare (sort_by sort_dir : option string) (a b : Session) : comparison :=
  let ordering := field_compare (default "start_time"%string sort_by) a b in
  let is_asc := match sort_dir with Some d => eq_ignore_ascii_case d "asc" | None => false end in
  if is_asc then ordering else CompOpp ordering.

(** [sort_by] leaves an element before a later one that is not smaller. *)
Definition compare_leb {A} (cmp : A -> A -> comparison) (a b : A) : bool :=
  match cmp a b with Gt => false | _ => true end.

Definition matches_history_filters (session : Session) (user_filter dest_filter : option string)
    (status_filter : option SessionStatus) (cutoff : option Z) : bool :=
  match user_filter with Some u => bool_decide (user session = u) | None => true end &&
  match dest_filter with Some d => bool_decide (dest_ip session = d) | None => true end &&
  match status_filter with Some st => bool_decide (status session = st) | None => true end &&
  match cutoff with
  | Some cutoff_time =>
    match end_time session with Some e => cutoff_time <? e | None => false end
  | None => true
  end.

(** [((total as f64) / (page_size as f64)).ceil() as u32] *)
Definition f64_ceil_u32 (f : f64) : Z :=
  match f with
  | S754_finite false m e =>
    Z.min (if 0 <=? e then Z.shiftl (Zpos m) e else - (- Zpos m / 2 ^ (- e))) u32_max
  | S754_infinity false => u32_max
  | _ => 0
  end.
Definition pages_of (total page_size : Z) : Z :=
  if total =? 0 then 0 else f64_ceil_u32 (f64_div (f64_of_Z total) (f64_of_Z page_size)).

Section handlers.
Context {chrono : Chrono} {uuids : UuidText} {engine : SqlEngine} {order : IterOrder}.

Definition session_to_response (session : Session) : SessionResponse :=
  {| re_id := uuid_to_string (session_id session); re_user := user session;
     re_source_ip := fmt_ip (source_ip session); re_source_port := source_port session;
     re_dest_ip := dest_ip session; re_dest_port := dest_port session;
     re_protocol := Protocol_as_str (protocol session);
     re_status := SessionStatus_as_str (status session);
     re_acl_decision := acl_decision session; re_acl_rule := acl_rule_matched session;
     re_bytes_sent := bytes_sent session; re_bytes_received := bytes_received session;
     re_start_time := to_rfc3339 (start_time session);
     re_end_time := to_rfc3339 <$> end_time session;
     re_duration_seconds := duration_secs session |}.

Context {T : Type} {sink : SessionSink T}.
Implicit Types (manager : SessionManager T).

(** GET /api/sessions/active *)
Definition get_active_sessions manager : Z * list SessionResponse :=
  (OK, session_to_response <$> Manager.get_active_sessions manager).

(** ** The history *)

(** The sessions that the manager has closed, as the filters leave them, sorted. *)
Definition sorted_history (sort_by sort_dir : option string) (l : list Session) : list Session :=
  Prelude.sort_by (compare_leb (history_compare sort_by sort_dir)) l.

Definition build_memory_history_response manager (user_filter dest_filter : option string)
    (status_filter : option SessionStatus) (cutoff : option Z) (page page_size_usize offset : Z)
    (sort_by sort_dir : option string) : PagedResponse SessionResponse :=
  let sessions := List.filter (fun session =>
    matches_history_filters session user_filter dest_filter status_filter cutoff)
    (get_closed_sessions manager) in
  let sessions := sorted_history sort_by sort_dir sessions in
  let total := Z.of_nat (length sessions) in
  mkPagedResponse
    (session_to_response <$> take (Z.to_nat page_size_usize) (drop (Z.to_nat offset) sessions))
    total page page_size_usize (pages_of total page_size_usize).

(** [db1], [db2], [db3] say whether the database answers the three queries. *)
Definition fetch_history_from_store (db1 db2 db3 : bool) (store : SessionStore) manager
    (user_filter dest_filter : option string) (status_filter : option SessionStatus)
    (cutoff : option Z) (offset page_size page : Z) (sort_by sort_dir : option string)
    : result SqlxError (PagedResponse SessionResponse) :=
  let in_memory := List.filter (fun session =>
    matches_history_filters session user_filter dest_filter status_filter cutoff)
    (get_closed_sessions manager) in
  persisted_ids ← existing_session_ids db1 (session_id <$> in_memory) store;
  let extra_sessions :=
    List.filter (fun session => negb (bool_decide (session_id session ∈ persisted_ids))) in_memory in
  let extra_sessions := sorted_history sort_by sort_dir extra_sessions in
  let extra_total := Z.of_nat (length extra_sessions) in
  let extra_slice_start := Z.min extra_total offset in
  let extra_slice_end := Z.min extra_total (offset + page_size) in
  let extra_page_len := sat_sub64 extra_slice_end extra_slice_start in
  let extra_page := take (Z.to_nat (extra_slice_end - extra_slice_start))
    (drop (Z.to_nat extra_slice_start) extra_sessions) in
  let db_offset := sat_sub64 offset extra_total in
  let db_limit := sat_sub64 page_size extra_page_len in
  let filter := mkSessionFilter user_filter status_filter cutoff None dest_filter None None
    (Some db_limit) (Some db_offset) sort_by sort_dir in
  let count_filter := mkSessionFilter user_filter status_filter cutoff None dest_filter None None
    None None sort_by sort_dir in
  db_total ← count_sessions db2 count_filter store;
  db_sessions ← (if 0 <? db_limit then query_sessions db3 filter store else Ok []);
  let combined := extra_page ++ db_sessions in
  let total := wrap64 (db_total + extra_total) in
  Ok (mkPagedResponse (session_to_response <$> combined) total page page_size
        (pages_of total page_size)).

(** [None]: the status is not one. *)
Definition status_filter_of (status : option string) : option (option SessionStatus) :=
  match status with
  | Some status_str =>
    match SessionStatus_from_str status_str with
    | Ok status => Some (Some status)
    | Err _ => None
    end
  | None => Some None
  end.

(** GET /api/sessions/history *)
Definition get_session_history (db1 db2 db3 : bool) (session_store : option SessionStore) manager
    (now : Z) (params : SessionQueryParams) : option (Z * PagedResponse SessionResponse) :=
  let page_size := Z.min (Z.max (q_page_size params) 1) 1000 in
  let page := Z.max (q_page params) 1 in
  let offset := (page - 1) * page_size in
  match status_filter_of (q_status params) with
  | None => Some (OK, mkPagedResponse [] 0 page page_size 0)
  | Some status_filter =>
    cutoff ← match q_hours params with
             | Some hours => Some <$> sub_hours now hours
             | None => Some None
             end;
    let in_memory := build_memory_history_response manager (q_user params) (q_dest_ip params)
      status_filter cutoff page page_size offset (q_sort_by params) (q_sort_dir params) in
    match session_store with
    | Some store =>
      match fetch_history_from_store db1 db2 db3 store manager (q_user params) (q_dest_ip params)
              status_filter cutoff offset page_size page (q_sort_by params) (q_sort_dir params) with
      | Ok response => Some (OK, response)
      | Err _ => Some (OK, in_memory)
      end
    | None => Some (OK, in_memory)
    end
  end.

(** ** One session, one user *)

(** GET /api/sessions/{id} *)
Definition get_session_detail (db : bool) (session_store : option SessionStore) manager (id : string)
    : result (Z * string) (Z * SessionResponse) :=
  match List.find (fun s => bool_decide (uuid_to_string (session_id s) = id))
          (get_all_sessions manager) with
  | Some session => Ok (OK, session_to_response session)
  | None =>
    match session_store with
    | Some store =>
      match uuid_parse_str id with
      | Some uuid =>
        match Store.get_session db uuid store with
        | Ok (Some session) => Ok (OK, session_to_response session)
        | _ => Err (NOT_FOUND, "Session not found"%string)
        end
      | None => Err (BAD_REQUEST, "Invalid session id"%string)
      end
    | None => Err (NOT_FOUND, "Session not found"%string)
    end
  end.

(** GET /api/users/{user}/sessions: a map from identifiers to sessions, the
    manager's sessions last. *)
Definition user_sessions_filter (user : string) : SessionFilter :=
  mkSessionFilter (Some user) None None None None None None (Some 1000) None
    (Some "start_time"%string) (Some "desc"%string).
Definition response_leb (a b : SessionResponse) : bool :=
  compare_leb (fun a b => String.compare (re_start_time b) (re_start_time a)) a b.
Definition get_user_sessions (db : bool) (session_store : option SessionStore) manager
    (usr : string) : Z * list SessionResponse :=
  let stored := match session_store with
    | Some store =>
      match query_sessions db (user_sessions_filter usr) store with Ok l => l | Err _ => [] end
    | None => [] end in
  let user_memory_sessions :=
    List.filter (fun s => bool_decide (user s = usr)) (get_all_sessions manager) in
  let insert (m : gmap Z Session) s := <[session_id s := s]> m in
  let session_map := fold_left insert user_memory_sessions (fold_left insert stored ∅) in
  let user_sessions := session_to_response <$> (iter_ids session_map).*2 in
  (OK, Prelude.sort_by response_leb user_sessions).

(** POST /api/sessions/{id}/terminate *)
Definition terminate_session (session_id : string) (now : Z) manager
    : (Z * string) * SessionManager T :=
  match uuid_parse_str session_id with
  | None => ((BAD_REQUEST, "Invalid session ID format"%string), manager)
  | Some session_uuid =>
    if existsb (fun s => Session.session_id s =? session_uuid)
         (Manager.get_active_sessions manager)
    then ((OK, "Session terminated successfully"%string),
          Manager.terminate_session session_uuid now "Terminated by admin" Closed manager)
    else ((NOT_FOUND, "Session not found or not active"%string), manager)
  end.

(** ** Statistics *)

(** The triples of a map entry: sessions, bytes sent, bytes received. *)
Definition count_traffic (key : Session -> string) (m : gmap string (Z * Z * Z)) (s : Session)
    : gmap string (Z * Z * Z) :=
  let '(n, sent, received) := default (0, 0, 0) (m !! key s) in
  <[key s := (wadd64 n 1, wadd64 sent (bytes_sent s), wadd64 received (bytes_received s))]> m.
Definition by_traffic (key : Session -> string) (l : list Session) : gmap string (Z * Z * Z) :=
  fold_left (count_traffic key) l ∅.
Definition destination_key (s : Session) : string :=
  dest_ip s +:+ ":" +:+ fmt_Z (dest_port s).

(** The ten keys with the most sessions. *)
Definition top_ten (m : gmap string (Z * Z * Z)) : list (string * (Z * Z * Z)) :=
  take 10 (Prelude.sort_by (compare_leb (fun a b : string * (Z * Z * Z) => b.2.1.1 ?= a.2.1.1)) (iter m)).
Definition sum_u64 (f : Session -> Z) (l : list Session) : Z := fold_left (fun n s => wadd64 n (f s)) l 0.
Definition count_status (name : string) (l : list Session) : Z :=
  Z.of_nat (length (List.filter (fun s => bool_decide (SessionStatus_as_str (status s) = name)) l)).

(** GET /api/sessions/stats *)
Definition get_session_stats manager : Z * SessionStatsResponse :=
  let all_sessions := get_all_sessions manager in
  (OK,
   {| sr_total_sessions := Z.of_nat (length all_sessions);
      sr_active_sessions := count_status "active" all_sessions;
      sr_closed_sessions := count_status "closed" all_sessions;
      sr_failed_sessions := count_status "failed" all_sessions;
      sr_total_bytes_sent := sum_u64 bytes_sent all_sessions;
      sr_total_bytes_received := sum_u64 bytes_received all_sessions;
      sr_top_users := (fun '(k, (n, s, r)) => mkUserStat k n s r) <$>
        top_ten (by_traffic user all_sessions);
      sr_top_destinations := (fun '(k, (n, s, r)) => mkDestinationStat k n s r) <$>
        top_ten (by_traffic destination_key all_sessions) |}).

(** GET /api/metrics/history *)
Definition get_metrics_history (order_metrics : list MetricSnapshotRow -> list MetricSnapshotRow)
    (db : bool) (session_store : option SessionStore) (metrics_history : option MetricsHistory)
    : Z * list MetricsSnapshot :=
  match match session_store with
        | Some store => ok (query_metrics order_metrics db None (Some 1440) store)
        | None => None
        end with
  | Some snapshots => (OK, reverse snapshots)
  | None => (OK, match metrics_history with Some h => get_snapshots h | None => [] end)
  end.
End handlers.
