(* ===== verification/SessionsApiSpec.v ===== *)
(** * The session endpoints: theorems

    The in-memory order is the order of the store's queries; a page of the history
    that is put together from the manager and the database is a page of one list;
    when the database holds the closed sessions the two sources of the history
    agree; what the other endpoints answer and change. *)
From S2P Require Import Prelude Net NetSpec TokenBucket Acl AclEngine AclSpec Session Store StoreSpec.
From S2P Require Import Manager ManagerSpec SessionsApi.

(** ** Comparisons *)

Definition is_asc (sort_dir : option string) : bool :=
  match sort_dir with Some d => eq_ignore_ascii_case d "asc" | None => false end.

Lemma leb_compare (a b : string) : String.leb a b = match String.compare a b with Gt => false | _ => true end.
Proof. unfold String.leb. by destruct (String.compare a b). Qed.
Lemma zleb_compare a b : (a <=? b) = match a ?= b with Gt => false | _ => true end.
Proof. done. Qed.
Lemma opt_leb_compare a b : opt_leb a b = match opt_compare a b with Gt => false | _ => true end.
Proof. by destruct a, b. Qed.

Lemma opt_compare_antisym a b : opt_compare b a = CompOpp (opt_compare a b).
Proof. destruct a, b; cbn; try done. apply Z.compare_antisym. Qed.

Lemma field_compare_antisym f a b : field_compare f b a = CompOpp (field_compare f a b).
Proof.
  unfold field_compare.
  repeat (case_decide; [first [apply String.compare_antisym | apply Z.compare_antisym
                              | apply opt_compare_antisym]|]).
  apply Z.compare_antisym.
Qed.

Lemma field_compare_leb sort_by a b :
  match field_compare (default "start_time"%string sort_by) a b with Gt => false | _ => true end =
  key_leb (sort_column sort_by) a b.
Proof.
  unfold field_compare, sort_column. generalize (default "start_time"%string sort_by). intros f.
  repeat (case_decide; [first [by rewrite <- leb_compare | reflexivity
                              | by rewrite <- opt_leb_compare]|]).
  reflexivity.
Qed.

(** The order of the handler is the one that the query asks the database for. *)
Lemma history_leb sort_by sort_dir a b :
  compare_leb (history_compare sort_by sort_dir) a b =
  session_leb (sort_column sort_by) (is_asc sort_dir) a b.
Proof.
  unfold compare_leb, history_compare, session_leb. fold (is_asc sort_dir).
  destruct (is_asc sort_dir); [apply field_compare_leb|].
  rewrite <- field_compare_leb, (field_compare_antisym _ a b).
  by destruct (field_compare _ a b).
Qed.

Lemma ascending_is_asc f : ascending f = is_asc (sf_sort_dir f).
Proof. unfold ascending, is_asc. by destruct (sf_sort_dir f). Qed.

Lemma key_leb_total c a b : key_leb c a b = true \/ key_leb c b a = true.
Proof.
  assert (Ho : forall x y, opt_leb x y = true \/ opt_leb y x = true).
  { intros [x|] [y|]; cbn; auto. rewrite !Z.leb_le. lia. }
  unfold key_leb. repeat (case_decide; [first [apply String.leb_total | apply Ho
    | rewrite !Z.leb_le; lia]|]). rewrite !Z.leb_le. lia.
Qed.

Lemma key_leb_trans c x y z : key_leb c x y = true -> key_leb c y z = true -> key_leb c x z = true.
Proof.
  assert (Hs : forall a b d : string, String.leb a b = true -> String.leb b d = true -> String.leb a d = true).
  { intros a b d Hab%Is_true_true Hbd%Is_true_true. apply Is_true_true. by transitivity b. }
  assert (Ho : forall a b d, opt_leb a b = true -> opt_leb b d = true -> opt_leb a d = true).
  { intros [a|] [b|] [d|]; cbn; try done. rewrite !Z.leb_le. lia. }
  unfold key_leb. repeat (case_decide; [first [apply Hs | apply Ho | rewrite !Z.leb_le; lia]|]).
  rewrite !Z.leb_le. lia.
Qed.

Lemma session_leb_total c asc a b : session_leb c asc a b = true \/ session_leb c asc b a = true.
Proof. unfold session_leb. destruct asc; apply key_leb_total. Qed.
Lemma session_leb_trans c asc x y z :
  session_leb c asc x y = true -> session_leb c asc y z = true -> session_leb c asc x z = true.
Proof. unfold session_leb. destruct asc; [apply key_leb_trans|]. intros H1 H2. by apply (key_leb_trans c z y x). Qed.

Lemma sorted_ext {A} (f g : A -> A -> bool) l : (forall x y, f x y = g x y) -> sorted f l -> sorted g l.
Proof.
  intros Hfg. induction 1 as [|x l Hl IH Hx]; constructor; [done|].
  eapply Forall_impl; [exact Hx|]. cbn. intros y. by rewrite Hfg.
Qed.

Lemma sorted_history_spec sort_by sort_dir l :
  sorted_history sort_by sort_dir l ≡ₚ l /\
  sorted (session_leb (sort_column sort_by) (is_asc sort_dir)) (sorted_history sort_by sort_dir l).
Proof.
  split; [apply sort_by_perm|]. apply (sorted_ext _ _ _ (history_leb sort_by sort_dir)).
  apply sort_by_sorted.
  - intros x y. rewrite !history_leb. apply session_leb_total.
  - intros x y z. rewrite !history_leb. apply session_leb_trans.
Qed.

(** ** Pages of two lists *)

Lemma page_of_two {A} (l k : list A) (offset size : nat) :
  take size (drop offset (l ++ k)) =
  take (length l `min` (offset + size) - length l `min` offset) (drop (length l `min` offset) l) ++
  take (size - (length l `min` (offset + size) - length l `min` offset)) (drop (offset - length l) k).
Proof.
  rewrite drop_app, take_app, length_drop.
  destruct (decide (offset <= length l)%nat).
  - rewrite (Nat.min_r (length l) offset) by lia. f_equal.
    + destruct (decide (offset + size <= length l)%nat).
      * f_equal. lia.
      * rewrite !take_ge by (rewrite length_drop; lia). done.
    + f_equal. lia.
  - rewrite (Nat.min_l (length l) offset) by lia.
    rewrite !(drop_ge l) by lia. rewrite !take_nil. f_equal. f_equal. lia.
Qed.

Section history.
Context {chrono : Chrono} {uuids : UuidText} {engine : SqlEngine} {order : IterOrder}.
Context {T : Type} {sink : SessionSink T}.
Implicit Types (manager : SessionManager T).

(** The filter on the database side. *)
Definition history_filter (user dest : option string) (st : option SessionStatus) (cutoff : option Z)
    (sort_by sort_dir : option string) : SessionFilter :=
  mkSessionFilter user st cutoff None dest None None None None sort_by sort_dir.

(** The closed sessions of the manager that the database does not have. *)
Definition unsaved (store : SessionStore) (l : list Session) : list Session :=
  List.filter (fun s => negb (bool_decide (uuid_to_string (session_id s) ∈ keys (sessions store)))) l.

Definition history_memory manager user dest st cutoff : list Session :=
  List.filter (fun s => matches_history_filters s user dest st cutoff) (get_closed_sessions manager).

Record wf_page (offset size : Z) : Prop := {
  wf_page_offset : 0 <= offset <= i64_max - 1000;
  wf_page_size : 1 <= size <= 1000;
}.

(** The extra sessions of [fetch_history_from_store]: the unsaved ones. *)
Lemma extra_unsaved store l found :
  (forall id, id ∈ found <-> id ∈ (session_id <$> l) /\ uuid_to_string id ∈ keys (sessions store)) ->
  List.filter (fun s => negb (bool_decide (session_id s ∈ (found : gset Z)))) l = unsaved store l.
Proof.
  intros Hf. unfold unsaved. apply filter_ext_elem. intros s Hs. f_equal. apply bool_decide_ext.
  rewrite Hf. split; [by intros []|]. intros Hk. split; [|done]. by apply list_elem_of_fmap_2.
Qed.

(** The part of a page that the database supplies. *)
Definition with_limit (n o : Z) (f : SessionFilter) : SessionFilter :=
  mkSessionFilter (sf_user f) (sf_status f) (sf_start_after f) (sf_start_before f) (sf_dest_ip f)
    (sf_min_duration_secs f) (sf_min_bytes f) (Some n) (Some o) (sf_sort_by f) (sf_sort_dir f).

Lemma db_page store ss f n o :
  Forall storable ss -> (sessions store).*2 = SessionParams_from <$> ss ->
  wf_filter (with_limit n o f) ->
  exists ordered,
    ordered ≡ₚ List.filter (matches f) ss /\
    sorted (session_leb (sort_column (sf_sort_by f)) (ascending f)) ordered /\
    (if 0 <? n then query_sessions true (with_limit n o f) store else Ok []) =
      Ok (take (Z.to_nat n) (drop (Z.to_nat o) ordered)).
Proof.
  intros Hss Ht Hf.
  destruct (query_sessions_page (with_limit n o f) store ss Hf Hss Ht) as (l & Hp & Hs & Hq); [done|].
  exists l. split_and!; [done..|]. destruct (Z.ltb_spec 0 n); [done|].
  by rewrite (Z2Nat.nonpos n) by done.
Qed.

Lemma fetch_history_pages store manager ss user dest st cutoff offset size page_no sort_by sort_dir n :
  wf_page offset size -> Forall storable ss ->
  (forall t, cutoff = Some t -> four_digit_year t) ->
  (sessions store).*2 = SessionParams_from <$> ss ->
  let filter := history_filter user dest st cutoff sort_by sort_dir in
  let extra := sorted_history sort_by sort_dir
                 (unsaved store (history_memory manager user dest st cutoff)) in
  count_sessions true filter store = Ok n ->
  exists ordered,
    ordered ≡ₚ List.filter (matches filter) ss /\
    sorted (session_leb (sort_column sort_by) (is_asc sort_dir)) ordered /\
    fetch_history_from_store true true true store manager user dest st cutoff offset size page_no
      sort_by sort_dir =
    Ok (let total := wrap64 (n + Z.of_nat (length extra)) in
        mkPagedResponse (session_to_response <$> page (Some size) (Some offset) (extra ++ ordered))
          total page_no size (pages_of total size)).
Proof.
  intros [Ho Hs] Hss Hcut Ht filter extra Hcount. unfold fetch_history_from_store.
  fold (history_memory manager user dest st cutoff).
  destruct (existing_ids_found (session_id <$> history_memory manager user dest st cutoff) store)
    as (found & -> & Hfound). cbn [mbind result_bind].
  rewrite (extra_unsaved store _ found Hfound). fold extra.
  fold (history_filter user dest st cutoff sort_by sort_dir). fold filter. rewrite Hcount.
  cbn [mbind result_bind].
  set (L := Z.of_nat (length extra)). set (len := sat_sub64 (Z.min L (offset + size)) (Z.min L offset)).
  destruct (db_page store ss filter (sat_sub64 size len) (sat_sub64 offset L))
    as (ordered & Hp & Hsorted & Hdb); [done|done| |].
  { assert (0 <= len) by (unfold len, sat_sub64; lia). assert (0 <= L) by (unfold L; lia).
    split; try done; cbn; intros ? [= <-]; unfold sat_sub64, i64_max in *; lia. }
  exists ordered. split_and!; [done|by rewrite ascending_is_asc in Hsorted|].
  match goal with |- context [query_sessions true ?f store] =>
    change f with (with_limit (sat_sub64 size len) (sat_sub64 offset L) filter) end.
  rewrite Hdb.
  cbn [mbind result_bind page default]. rewrite page_of_two. unfold id. do 4 f_equal.
  - f_equal; [unfold L; lia|]. f_equal. unfold L. lia.
  - f_equal; [unfold len, L, sat_sub64; lia|]. f_equal. unfold L, sat_sub64. lia.
Qed.
(** The history that is read from the database: its entries are the requested
    page of one list, which is the closed sessions that the database lacks,
    sorted, followed by the sessions of the database that match, sorted by the
    same key and direction; the total is the length of the first part plus what
    the database counts. *)
Theorem history_two_sources store manager ss user dest st cutoff offset size page_no sort_by sort_dir n :
  wf_page offset size -> Forall storable ss ->
  (forall t, cutoff = Some t -> four_digit_year t) ->
  (sessions store).*2 = SessionParams_from <$> ss ->
  let filter := history_filter user dest st cutoff sort_by sort_dir in
  let extra := sorted_history sort_by sort_dir
                 (unsaved store (history_memory manager user dest st cutoff)) in
  count_sessions true filter store = Ok n ->
  exists ordered,
    ordered ≡ₚ List.filter (matches filter) ss /\
    sorted (session_leb (sort_column sort_by) (is_asc sort_dir)) ordered /\
    fetch_history_from_store true true true store manager user dest st cutoff offset size page_no
      sort_by sort_dir =
    Ok (let total := wrap64 (n + Z.of_nat (length extra)) in
        mkPagedResponse (session_to_response <$> page (Some size) (Some offset) (extra ++ ordered))
          total page_no size (pages_of total size)).
Proof. apply fetch_history_pages. Qed.

Lemma matches_no_cutoff s user dest st sort_by sort_dir :
  matches_history_filters s user dest st None = matches (history_filter user dest st None sort_by sort_dir) s.
Proof.
  unfold matches_history_filters, matches. cbn.
  destruct user, dest, st; cbn; repeat destruct (bool_decide _); done.
Qed.

(** When the database has the matching closed sessions, nothing is left to add. *)
Lemma unsaved_nil store ss l :
  (sessions store).*2 = SessionParams_from <$> ss -> (forall s, s ∈ l -> s ∈ ss) ->
  unsaved store l = [].
Proof.
  intros Ht Hl. unfold unsaved. rewrite (filter_ext_elem _ (fun _ => false)); [by apply filter_false|].
  intros s Hs%Hl. rewrite bool_decide_true; [done|]. unfold keys.
  apply (list_elem_of_fmap_2 SessionParams_from) in Hs. rewrite <- Ht in Hs.
  apply list_elem_of_fmap in Hs as ([i r] & Hr & Hin). apply list_elem_of_fmap.
  exists (i, r). split; [|done]. cbn in *. by rewrite <- Hr.
Qed.

(** C16: Without a time window and with some other filter, when the database holds
    exactly the closed sessions that match (in any order) and no two of them have
    equal sort keys, the history endpoint answers the same, whether it reads the
    database or the manager's memory: same entries, page and totals. *)
Theorem history_sources_agree store manager ss st now params :
  q_hours params = None -> status_filter_of (q_status params) = Some st ->
  0 <= q_page params <= u32_max -> 0 <= q_page_size params <= u32_max ->
  let flt := history_filter (q_user params) (q_dest_ip params) st None (q_sort_by params)
               (q_sort_dir params) in
  let closed := history_memory manager (q_user params) (q_dest_ip params) st None in
  counts_exactly flt = true -> Forall storable ss ->
  (sessions store).*2 = SessionParams_from <$> ss ->
  List.filter (matches flt) ss ≡ₚ closed -> Z.of_nat (length closed) <= u64_max ->
  (forall a b, a ∈ closed -> b ∈ closed -> key_leb (sort_column (q_sort_by params)) a b = true ->
     key_leb (sort_column (q_sort_by params)) b a = true -> a = b) ->
  get_session_history true true true (Some store) manager now params =
  get_session_history true true true None manager now params.
Proof.
  intros Hh Hst Hp Hps flt closed Hc Hss Ht Hperm Hlen Hkeys. unfold get_session_history.
  rewrite Hst, Hh. cbn [mbind option_bind].
  set (size := Z.min (Z.max (q_page_size params) 1) 1000). set (page_no := Z.max (q_page params) 1).
  set (offset := (page_no - 1) * size).
  assert (Hwf : wf_page offset size).
  { unfold offset, size, page_no, u32_max in *. split; [|lia].
    split; [nia|]. assert (i64_max - 1000 = 9223372036854774807) as -> by done. nia. }
  assert (Hun : unsaved store (history_memory manager (q_user params) (q_dest_ip params) st None) = []).
  { apply (unsaved_nil store ss); [done|]. intros s Hs. fold closed in Hs. rewrite <- Hperm in Hs.
    by apply elem_of_bfilter in Hs as [? _]. }
  destruct (fetch_history_pages store manager ss (q_user params) (q_dest_ip params) st None offset size
    page_no (q_sort_by params) (q_sort_dir params) (Z.of_nat (length closed)))
    as (ordered & Hop & Hos & ->); [done|done|done|done| |].
  { fold flt. rewrite (count_sessions_correct flt store ss), Hc; [by rewrite Hperm| |done|done].
    split; try done. }
  rewrite Hun. fold flt in Hop. unfold build_memory_history_response.
  fold (history_memory manager (q_user params) (q_dest_ip params) st None). fold closed.
  destruct (sorted_history_spec (q_sort_by params) (q_sort_dir params) closed) as [Hmp Hms].
  assert (Heq : ordered = sorted_history (q_sort_by params) (q_sort_dir params) closed).
  { apply (StronglySorted_unique_strong
      (fun a b => session_leb (sort_column (q_sort_by params)) (is_asc (q_sort_dir params)) a b = true));
      [|done|done|by rewrite Hop, Hmp].
    intros a b Ha Hb. rewrite Hop, Hperm in Ha. rewrite Hmp in Hb.
    unfold session_leb. destruct (is_asc _); [by apply Hkeys|]. intros H1 H2. by apply Hkeys. }
  rewrite Heq, (Permutation_length Hmp).
  change (Z.of_nat (length (sorted_history _ _ []))) with 0. rewrite Z.add_0_r, wrap64_id by zsolve. done.
Qed.

(** A session that started before the window and ended in it is in the history of
    the manager; once it is saved, the same request does not show it. *)
Lemma window_hides_saved_session store s user dest st cutoff e sort_by sort_dir :
  start_time s < cutoff -> end_time s = Some e -> cutoff < e ->
  matches_history_filters s user dest st None = true ->
  uuid_to_string (session_id s) ∈ keys (sessions store) ->
  matches_history_filters s user dest st (Some cutoff) = true /\
  (s ∉ unsaved store [s]) /\
  matches (history_filter user dest st (Some cutoff) sort_by sort_dir) s = false.
Proof.
  intros Hs He Hc Hm Hk. split_and!.
  - unfold matches_history_filters in *. rewrite He. rewrite andb_true_r in Hm. rewrite Hm. cbn.
    by apply Z.ltb_lt.
  - unfold unsaved. cbn. rewrite bool_decide_true by done. cbn. by apply not_elem_of_nil.
  - unfold matches. cbn. destruct (Z.leb_spec cutoff (start_time s)); [lia|].
    by rewrite !andb_false_r.
Qed.

(** ** Ending a session *)

Context {deps : AclDeps} {unstable : UnstableSort rule_leb}.

(** The endpoint that ends a session refuses an identifier that is none (400)
    and one that is not active (404) and changes nothing then; otherwise it ends
    that session as Closed with the administrator's reason, cancels its token,
    and leaves every other session as it was. *)
Theorem terminate_session_correct text now manager :
  manager_wf manager ->
  let '(response, m') := SessionsApi.terminate_session text now manager in
  match uuid_parse_str text with
  | None => response.1 = BAD_REQUEST /\ m' = manager
  | Some id =>
    match active_sessions manager !! id with
    | None => response.1 = NOT_FOUND /\ m' = manager
    | Some s =>
      response.1 = OK /\
      active_sessions m' = delete id (active_sessions manager) /\
      current m' id = Some (close now (Some "Terminated by admin"%string) Closed s) /\
      (forall j, j <> id -> current m' j = current manager j) /\
      exists c, session_controls manager !! id = Some c /\ cancel_token c ∈ cancelled m'
    end
  end.
Proof.
  intros Hw. unfold SessionsApi.terminate_session.
  destruct (uuid_parse_str text) as [id|]; [|done].
  assert (Hact : existsb (fun s => session_id s =? id) (Manager.get_active_sessions manager) = true <->
    is_Some (active_sessions manager !! id)).
  { rewrite existsb_elem. split.
    - intros (s & (i & Hs)%elem_of_active_sessions & <-%Z.eqb_eq). exists s.
      by pose proof (lc_live _ _ _ _ _ (proj1 Hw) _ _ Hs) as [-> _].
    - intros [s Hs]. exists s. split; [apply elem_of_active_sessions; by exists id|].
      pose proof (lc_live _ _ _ _ _ (proj1 Hw) _ _ Hs) as [<- _]. apply Z.eqb_refl. }
  destruct (active_sessions manager !! id) as [s|] eqn:Es.
  2: { destruct (existsb _ _); [|done]. by destruct (proj1 Hact eq_refl). }
  rewrite (proj2 Hact) by eauto.
  destruct (evolves_terminate id now "Terminated by admin" Closed manager Hw) as [Hcur _].
  rewrite Es in Hcur. split_and!.
  - done.
  - apply active_terminate.
  - rewrite Hcur, last_version_one. pose proof (lc_live _ _ _ _ _ (proj1 Hw) _ _ Es) as [Hid _].
    cbn [close session_id]. by rewrite Hid, Z.eqb_refl.
  - intros j Hj. rewrite Hcur, last_version_one. cbn [close session_id].
    pose proof (lc_live _ _ _ _ _ (proj1 Hw) _ _ Es) as [Hid _].
    destruct (Z.eqb_spec (session_id s) j); [congruence|done].
  - assert (is_Some (session_controls manager !! id)) as [c Hc].
    { apply elem_of_dom. rewrite (lc_controls _ _ _ _ _ (proj1 Hw)). apply elem_of_dom. eauto. }
    exists c. split; [done|]. rewrite cancelled_terminate, Hc. set_solver.
Qed.

(** ** The sessions of one user *)

Lemma fold_insert_last l (m : gmap Z Session) id :
  fold_left (fun (m : gmap Z Session) s => <[session_id s := s]> m) l m !! id =
  match last_version id l with Some s => Some s | None => m !! id end.
Proof.
  revert m. induction l as [|s l IH]; intros m; [done|]. cbn [fold_left].
  change (s :: l) with ([s] ++ l). rewrite IH, last_version_app, last_version_one.
  destruct (last_version id l); [done|].
  destruct (Z.eqb_spec (session_id s) id) as [->|Hne]; [by rewrite lookup_insert_eq|].
  by rewrite lookup_insert_ne.
Qed.

(** The endpoint for one user answers with one entry per session of that user,
    from the database (at most a thousand, none if it fails) and from the manager,
    whose version of a session replaces the stored one; newest first. *)
Theorem get_user_sessions_correct db (store : option SessionStore) manager usr :
  let memory := List.filter (fun s => bool_decide (user s = usr)) (get_all_sessions manager) in
  let stored := match store with
    | Some st => default [] (ok (query_sessions db (user_sessions_filter usr) st))
    | None => [] end in
  let '(code, entries) := get_user_sessions db store manager usr in
  code = OK /\
  (exists versions, entries ≡ₚ session_to_response <$> versions /\ NoDup (session_id <$> versions) /\
     forall s, s ∈ versions <->
       last_version (session_id s) memory = Some s \/
       last_version (session_id s) memory = None /\ last_version (session_id s) stored = Some s) /\
  sorted (fun a b => String.leb (re_start_time b) (re_start_time a)) entries.
Proof.
  intros memory stored. unfold get_user_sessions. fold memory.
  set (m := fold_left _ memory _).
  assert (Hm : forall id, m !! id = match last_version id memory with Some s => Some s
    | None => last_version id stored end).
  { intros id. unfold m. rewrite fold_insert_last. destruct (last_version id memory); [done|].
    rewrite fold_insert_last, lookup_empty. unfold stored.
    destruct store as [st|]; [|done]. by destruct (query_sessions _ _ st), (last_version id _). }
  assert (Hid : forall id s, m !! id = Some s -> session_id s = id).
  { intros id s. rewrite Hm. destruct (last_version id memory) eqn:E; intros [= <-] || intros Hl.
    - by apply last_version_id in E as [-> _].
    - by apply last_version_id in Hl as [-> _]. }
  split; [done|]. split.
  - exists ((iter_ids m).*2). split_and!.
    + apply sort_by_perm.
    + assert (session_id <$> (iter_ids m).*2 = (iter_ids m).*1) as ->.
      { rewrite <- list_fmap_compose. apply list_fmap_ext. intros j [id s] Hj. cbn.
        apply list_elem_of_lookup_2, elem_of_iter_ids in Hj. by apply Hid. }
      apply nodup_iter_ids.
    + intros s. rewrite list_elem_of_fmap. split.
      * intros ([id s'] & -> & Hs%elem_of_iter_ids). cbn. pose proof (Hid id s' Hs) as <-.
        rewrite Hm in Hs. destruct (last_version _ memory); [by left|by right].
      * intros Hs. exists (session_id s, s). split; [done|]. apply elem_of_iter_ids. rewrite Hm.
        by destruct Hs as [->|[-> ->]].
  - apply (sorted_ext response_leb).
    + intros x y. unfold response_leb, compare_leb. by rewrite leb_compare.
    + apply sort_by_sorted; unfold response_leb, compare_leb.
      * intros x y. rewrite <- !leb_compare. apply String.leb_total.
      * intros x y z. rewrite <- !leb_compare. intros H1%Is_true_true H2%Is_true_true.
        apply Is_true_true. by transitivity (re_start_time y).
Qed.

(** ** Statistics *)

Definition total_of (f : Session -> Z) (l : list Session) : Z := foldr (fun s n => f s + n) 0 l.
Definition with_key (key : Session -> string) (k : string) (l : list Session) : list Session :=
  List.filter (fun s => bool_decide (key s = k)) l.

Lemma total_of_app f l k : total_of f (l ++ k) = total_of f l + total_of f k.
Proof. induction l as [|s l IH]; [done|]. unfold total_of in *. cbn. rewrite IH. lia. Qed.

Lemma sum_u64_total f l : sum_u64 f l = wrap64 (total_of f l).
Proof.
  unfold sum_u64. induction l as [|s l IH] using rev_ind; [done|].
  rewrite fold_left_app, IH, total_of_app. cbn. rewrite wadd64_wrap. f_equal. lia.
Qed.

Lemma by_traffic_lookup key l k :
  by_traffic key l !! k =
  match with_key key k l with
  | [] => None
  | ls => Some (wrap64 (Z.of_nat (length ls)), wrap64 (total_of bytes_sent ls),
                wrap64 (total_of bytes_received ls))
  end.
Proof.
  unfold by_traffic. induction l as [|s l IH] using rev_ind; [apply lookup_empty|].
  rewrite fold_left_app. cbn [fold_left]. unfold count_traffic at 1, with_key.
  rewrite List.filter_app. fold (with_key key k l). cbn [List.filter].
  set (m := fold_left (count_traffic key) l ∅) in *.
  destruct (bool_decide (key s = k)) eqn:E.
  - apply bool_decide_eq_true in E as <-. rewrite IH.
    destruct (with_key key (key s) l) as [|s' ls] eqn:Ew; cbn [default id];
      rewrite lookup_insert_eq.
    + cbn. rewrite !Z.add_0_r. done.
    + cbn [app]. f_equal. change (s' :: ls ++ [s]) with ((s' :: ls) ++ [s]).
      rewrite !wadd64_wrap, length_app, !total_of_app. do 3 f_equal; cbn; lia.
  - apply bool_decide_eq_false in E. destruct (default (0, 0, 0) (m !! key s)) as [[n a] b].
    rewrite lookup_insert_ne, app_nil_r by done. exact IH.
Qed.

Lemma count_status_cons n s l :
  count_status n (s :: l) = Z.b2z (bool_decide (SessionStatus_as_str (status s) = n)) + count_status n l.
Proof. unfold count_status. cbn [List.filter]. destruct (bool_decide _); cbn [length Z.b2z]; lia. Qed.

Lemma top_ten_spec (m : gmap string (Z * Z * Z)) :
  exists ranking, ranking ≡ₚ map_to_list m /\
    sorted (fun a b : string * (Z * Z * Z) => b.2.1.1 <=? a.2.1.1) ranking /\ top_ten m = take 10 ranking.
Proof.
  unfold top_ten. eexists. split; [|split; [|reflexivity]].
  - by rewrite sort_by_perm, iter_perm.
  - apply (sorted_ext (compare_leb (fun a b : string * (Z * Z * Z) => b.2.1.1 ?= a.2.1.1))); [done|].
    apply sort_by_sorted; unfold compare_leb.
    + intros x y. rewrite <- !zleb_compare, !Z.leb_le. lia.
    + intros x y z. rewrite <- !zleb_compare, !Z.leb_le. lia.
Qed.

(** The statistics endpoint: the number of sessions is split by status, the
    totals are the sums modulo 2^64, and the ten users listed are the first of
    all users ranked by their number of sessions, each with the number of its
    sessions and their traffic, whatever the iteration order of the map is. *)
Theorem get_session_stats_correct manager :
  let all := get_all_sessions manager in
  let '(code, r) := get_session_stats manager in
  code = OK /\
  sr_total_sessions r = sr_active_sessions r + sr_closed_sessions r + sr_failed_sessions r +
    count_status "rejected_by_acl" all /\
  sr_total_bytes_sent r = wrap64 (total_of bytes_sent all) /\
  sr_total_bytes_received r = wrap64 (total_of bytes_received all) /\
  exists ranking,
    (forall u n a b, (u, (n, a, b)) ∈ ranking <-> with_key user u all <> [] /\
       n = wrap64 (Z.of_nat (length (with_key user u all))) /\
       a = wrap64 (total_of bytes_sent (with_key user u all)) /\
       b = wrap64 (total_of bytes_received (with_key user u all))) /\
    NoDup ranking.*1 /\
    sorted (fun a b : string * (Z * Z * Z) => b.2.1.1 <=? a.2.1.1) ranking /\
    sr_top_users r = (fun '(k, (n, a, b)) => mkUserStat k n a b) <$> take 10 ranking.
Proof.
  intros all. cbn [get_session_stats sr_total_sessions sr_active_sessions sr_closed_sessions
    sr_failed_sessions sr_total_bytes_sent sr_total_bytes_received sr_top_users].
  fold all. split_and!; [done| |apply sum_u64_total|apply sum_u64_total|].
  - clear. induction all as [|s l IH]; [done|]. rewrite !count_status_cons.
    cbn [length]. rewrite Nat2Z.inj_succ, IH. destruct (status s); cbn [SessionStatus_as_str];
      repeat match goal with |- context [Z.b2z ?b] =>
        let v := eval vm_compute in (Z.b2z b) in change (Z.b2z b) with v end; lia.
  - destruct (top_ten_spec (by_traffic user all)) as (ranking & Hp & Hs & ->).
    exists ranking. split_and!; [|rewrite Hp; apply NoDup_fst_map_to_list|done|done].
    intros u n a b. rewrite Hp, elem_of_map_to_list, by_traffic_lookup.
    destruct (with_key user u all); [naive_solver|]. split; [by intros [= <- <- <-]|].
    by intros (_ & -> & -> & ->).
Qed.
End history.

(** ** Concrete requests *)

#[local] Existing Instance digits_chrono.
#[local] Existing Instance bits_uuid.
#[local] Existing Instance stable_engine.
#[local] Existing Instance map_order.
#[local] Existing Instance mem_sink.
#[local] Existing Instance stable_unstable_sort.
#[local] Existing Instance Wildcard.demo_deps.

(** A manager whose closed sessions are those of [demo_store] that are over. *)
Definition demo_closed : list Session :=
  [demo_session 4 (3 * 10 ^ 9) "alice" "c.example" 30 Failed;
   demo_session 3 (2 * 10 ^ 9) "alice" "b.example" 900 Closed;
   demo_session 1 0 "alice" "a.example" 100 Closed].
Definition demo_api_manager : SessionManager (list Session) :=
  mkSessionManager ∅ demo_closed [] ∅ None [] ∅ None SessionMetrics_init ∅ [].
Definition demo_params : SessionQueryParams :=
  mkSessionQueryParams (Some "alice"%string) None None None 1 2 (Some "bytes_sent"%string) (Some "asc"%string).

Example demo_history :
  (fun r => (re_id <$> data r.2, total r.2, total_pages r.2)) <$>
    get_session_history true true true (Some demo_store) demo_api_manager 0 demo_params =
  Some ([bits (countable.encode 4); bits (countable.encode 1)], 3, 2).
Proof. vm_compute. reflexivity. Qed.

Lemma history_sources_agree_witness :
  get_session_history true true true (Some demo_store) demo_api_manager 0 demo_params =
  get_session_history true true true None demo_api_manager 0 demo_params.
Proof.
  apply (history_sources_agree demo_store demo_api_manager demo_sessions None 0 demo_params).
  - reflexivity.
  - reflexivity.
  - done.
  - done.
  - reflexivity.
  - exact demo_storable.
  - exact demo_rows.
  - apply (bool_decide_unpack _). vm_compute. reflexivity.
  - done.
  - intros a b Ha Hb. change (a ∈ demo_closed) in Ha. change (b ∈ demo_closed) in Hb.
    unfold demo_closed in Ha, Hb. set_unfold.
    destruct Ha as [->|[->|[->|[]]]], Hb as [->|[->|[->|[]]]]; vm_compute; done.
Defined.

Lemma history_two_sources_witness : exists ordered,
  ordered ≡ₚ List.filter (matches (history_filter (Some "alice"%string) None None None None None)) demo_sessions /\
  sorted (session_leb "start_time" false) ordered /\
  fetch_history_from_store true true true demo_store demo_api_manager (Some "alice"%string) None None None
    1 2 1 None None =
  Ok (let total := wrap64 (3 + 0) in
      mkPagedResponse (session_to_response <$> page (Some 2) (Some 1) ([] ++ ordered)) total 1 2
        (pages_of total 2)).
Proof.
  assert (He : sorted_history None None (unsaved demo_store
    (history_memory demo_api_manager (Some "alice"%string) None None None)) = []) by (vm_compute; reflexivity).
  pose proof (history_two_sources demo_store demo_api_manager demo_sessions (Some "alice"%string) None None
    None 1 2 1 None None 3) as H. rewrite He in H.
  apply H; [by split|exact demo_storable|done|exact demo_rows|vm_compute; reflexivity].
Defined.

Lemma terminate_session_correct_witness :
  manager_wf demo_after /\
  let m' := (SessionsApi.terminate_session (uuid_to_string 2) (10 ^ 10) demo_after).2 in
  exists s, active_sessions demo_after !! 2 = Some s /\
    current m' 2 = Some (close (10 ^ 10) (Some "Terminated by admin"%string) Closed s).
Proof.
  split; [exact demo_wf|]. cbn zeta.
  pose proof (terminate_session_correct (uuid_to_string 2) (10 ^ 10) demo_after demo_wf) as H.
  destruct (SessionsApi.terminate_session (uuid_to_string 2) (10 ^ 10) demo_after) as [r m'].
  rewrite (uuid_parse 2) in H.
  destruct (active_sessions demo_after !! 2) as [s|] eqn:E; [|vm_compute in E; discriminate E].
  exists s. split; [reflexivity|]. exact (proj1 (proj2 (proj2 H))).
Defined.
