(* ===== verification/Auth.v ===== *)
(** * Authentication

    src/src/auth/mod.rs, src/src/auth/pam.rs, src/src/auth/groups.rs and
    src/src/auth/gssapi.rs, with the settings they take from
    src/src/config/mod.rs.  PAM, the name service and the GSS-API library are not
    part of the repository: the class [AuthDeps] holds their answers.  A task that
    panics is not modelled, so no join error arises. *)
From S2P Require Import Prelude Net Stream Protocol.

Class AuthDeps : Type := {
  (** [pam::Authenticator]: an initialisation error, and the outcome of
      [authenticate] for a service and credentials, [None] for a success. *)
  pam_init : string -> option string;
  pam_run : string -> string -> string -> option string;
  (** [nix::unistd::User::from_name], [libc::getgrouplist] and [Group::from_gid]. *)
  user_from_name : string -> result string (option Z);
  getgrouplist_size : string -> Z -> Z;
  getgrouplist : string -> Z -> Z -> option (list Z);
  group_from_gid : Z -> option string;
  (** [libgssapi]'s server context. *)
  ServerCtx : Type;
  ctx_new : ServerCtx;
  ctx_step : ServerCtx -> list u8 -> result string (ServerCtx * option (list u8));
  ctx_is_complete : ServerCtx -> bool;
  ctx_source_name : ServerCtx -> result string string;
  ctx_unwrap : ServerCtx -> list u8 -> result string (list u8);
  ctx_wrap : ServerCtx -> list u8 -> result string (list u8);
  (** [Display] of an [std::io::Error]. *)
  fmt_io : ErrorKind -> string;
}.

(** ** Settings *)

Record User : Type := mkUser { username : string; password : string }.
Record PamSettings : Type := mkPamSettings {
  username_service : string;
  address_service : string;
  default_user : string;
}.
Record GssApiSettings : Type := mkGssApiSettings {
  service_name : string;
  protection_level : string;
}.
Record AuthConfig : Type := mkAuthConfig {
  client_method : string;
  socks_method : string;
  users : list User;
  pam : PamSettings;
  gssapi : GssApiSettings;
}.

(** ** PAM (pam.rs) *)

Inductive PamMethod : Type := PamByAddress | PamByUsername.
Inductive PamAuthError : Type :=
| PamAuthFailed (msg : string)
| PamConfig (msg : string)
| PamSystem (msg : string)
| PamNotSupported (msg : string).

Record PamAuthenticator : Type := mkPamAuthenticator {
  pa_method : PamMethod; pa_service_name : string; pa_default_user : string }.

(** [str::contains] *)
Fixpoint substring_in (pat s : string) : bool :=
  String.prefix pat s || match s with EmptyString => false | String _ s' => substring_in pat s' end.

Definition AUTH_FAILURE_CODES : list string :=
  ["AUTH_ERR"; "USER_UNKNOWN"; "MAXTRIES"; "NEW_AUTHTOK_REQD"; "PERM_DENIED"]%string.

Definition map_pam_error (err_str context : string) : PamAuthError :=
  if existsb (fun code => substring_in code err_str) AUTH_FAILURE_CODES
  then PamAuthFailed (context +:+ ": " +:+ err_str)
  else PamSystem (context +:+ ": " +:+ err_str).

Section auth.
Context `{AuthDeps}.

Definition PamAuthenticator_new (method : PamMethod) (settings : PamSettings)
    : result PamAuthError PamAuthenticator :=
  let name := match method with
              | PamByAddress => address_service settings
              | PamByUsername => username_service settings
              end in
  if decide (trim name = "")
  then Err (PamConfig "PAM service name cannot be empty")
  else Ok (mkPamAuthenticator method name (default_user settings)).

Definition run_pam (service user pass context : string) : result PamAuthError () :=
  match pam_init service with
  | Some e => Err (PamSystem ("PAM init failed: " +:+ e))
  | None =>
    match pam_run service user pass with
    | None => Ok ()
    | Some e => Err (map_pam_error e context)
    end
  end.

(** The address of the client is only logged. *)
Definition authenticate_address (self : PamAuthenticator) (client_ip : IpAddr)
    : result PamAuthError () :=
  match pa_method self with
  | PamByAddress => run_pam (pa_service_name self) (pa_default_user self) "" "PAM address authentication failed"
  | PamByUsername => Err (PamConfig "authenticate_address called for non-address PAM method")
  end.

Definition authenticate_username (self : PamAuthenticator) (client_ip : IpAddr) (user pass : string)
    : result PamAuthError () :=
  match pa_method self with
  | PamByUsername => run_pam (pa_service_name self) user pass "PAM username authentication failed"
  | PamByAddress => Err (PamConfig "authenticate_username called for non-username PAM method")
  end.

(** ** Groups (groups.rs) *)

Definition get_user_groups (name : string) : result string (list string) :=
  match user_from_name name with
  | Err e => Err ("User lookup failed: " +:+ e)
  | Ok None => Err ("User not found in system: " +:+ name)
  | Ok (Some gid) =>
    match list_find (fun b => b = x00) (as_bytes name) with
    | Some (i, _) =>
      Err ("Invalid username: nul byte found in provided data at position: " +:+ fmt_Z (Z.of_nat i))
    | None =>
      let ngroups := getgrouplist_size name gid in
      if ngroups <=? 0 then
        match group_from_gid gid with Some g => Ok [g] | None => Ok [] end
      else
        match getgrouplist name gid ngroups with
        | None => Err "getgrouplist failed to retrieve groups"
        | Some gids => Ok (omap group_from_gid gids)
        end
    end
  end.

(** [get_user_groups(..).unwrap_or_else(.. Vec::new())] *)
Definition groups_or_none (name : string) : list string :=
  match get_user_groups name with Ok groups => groups | Err _ => [] end.

(** ** GSS-API (gssapi.rs) *)

Inductive GssApiAuthError : Type :=
| GssConfig (msg : string) | GssSystem (msg : string) | GssAuthFailed (msg : string)
| GssNotSupported (msg : string).

Record GssApiAuthenticator : Type := mkGssApiAuthenticator {
  ga_service_name : string; ga_protection_level : GssApiProtectionLevel }.

Definition GssApiAuthenticator_new (settings : GssApiSettings)
    : result GssApiAuthError GssApiAuthenticator :=
  if decide (service_name settings = "") then Err (GssConfig "Service name cannot be empty")
  else
    let level := protection_level settings in
    if decide (level = "integrity")
    then Ok (mkGssApiAuthenticator (service_name settings) Integrity)
    else if decide (level = "confidentiality")
    then Ok (mkGssApiAuthenticator (service_name settings) Confidentiality)
    else if decide (level = "selective")
    then Ok (mkGssApiAuthenticator (service_name settings) Selective)
    else Err (GssConfig ("Invalid protection level: " +:+ level +:+
           " (must be 'integrity', 'confidentiality', or 'selective')")).

Definition RustSocksError_fmt (e : RustSocksError) : string :=
  match e with
  | Io k => "IO error: " +:+ fmt_io k
  | Stream.Protocol msg => "Protocol error: " +:+ msg
  | AuthFailed msg => "Authentication failed: " +:+ msg
  | Config msg => "Configuration error: " +:+ msg
  | ConnectionClosed => "Connection closed"
  | UnsupportedCommand b => "Unsupported command: " +:+ fmt_Z (u8_to_Z b)
  | UnsupportedAddressType b => "Unsupported address type: " +:+ fmt_Z (u8_to_Z b)
  | InvalidRequest => "Invalid request"
  end.

(** The computations of this file fail with their own type of errors. *)
Definition gio (A : Type) : Type := stream -> result GssApiAuthError A * stream.
#[export] Instance gio_ret : MRet gio := fun A a s => (Ok a, s).
#[export] Instance gio_bind : MBind gio := fun A B f m s =>
  match m s with (Ok a, s') => f a s' | (Err e, s') => (Err e, s') end.
Definition gthrow {A} (e : GssApiAuthError) : gio A := fun s => (Err e, s).
Definition glift {A} (r : result GssApiAuthError A) : gio A := fun s => (r, s).

(** [.await.map_err(|e| System(format!(context, e)))?] *)
Definition io_or_system {A} (context : string) (m : io A) : gio A := fun s =>
  match m s with
  | (Ok a, s') => (Ok a, s')
  | (Err e, s') => (Err (GssSystem (context +:+ RustSocksError_fmt e)), s')
  end.

Definition GssApiMessageType_debug (t : GssApiMessageType) : string :=
  match t with
  | Authentication => "Authentication"
  | ProtectionLevelNegotiation => "ProtectionLevelNegotiation"
  | Encapsulation => "Encapsulation"
  | Abort_msg => "Abort"
  end.

(** The loop that establishes the context.  Every round reads a message of at
    least two bytes, so [fuel] is a bound on the input that is left. *)
Fixpoint establish (fuel : nat) (server_ctx : option ServerCtx) : gio (string * ServerCtx) :=
  match fuel with
  | O => gthrow (GssSystem "out of fuel")
  | S fuel =>
    client_msg ← io_or_system "Failed to parse GSS-API message: " parse_gssapi_message;
    if decide (gm_type client_msg = Abort_msg)
    then gthrow (GssAuthFailed "Client aborted authentication")
    else if decide (gm_type client_msg <> Authentication)
    then
      _ ← io_or_system "Failed to send abort: " send_gssapi_abort;
      gthrow (GssAuthFailed ("Unexpected message type: " +:+ GssApiMessageType_debug (gm_type client_msg)))
    else
      match ctx_step (default ctx_new server_ctx) (gm_token client_msg) with
      | Err e =>
        _ ← io_or_system "Failed to send abort: " send_gssapi_abort;
        gthrow (GssAuthFailed ("Context establishment failed: " +:+ e))
      | Ok (ctx, output_token) =>
        _ ← io_or_system "Failed to send response: "
              (send_gssapi_message Authentication (default [] output_token));
        if ctx_is_complete ctx then
          match ctx_source_name ctx with
          | Err e => gthrow (GssSystem ("Failed to get source name: " +:+ e))
          | Ok src_name => mret (src_name, ctx)
          end
        else establish fuel (Some ctx)
      end
  end.

Definition GssApiProtectionLevel_to_u8 (l : GssApiProtectionLevel) : u8 :=
  match l with Integrity => x01 | Confidentiality => x02 | Selective => x03 end.

Definition choose_level (client_level server_level : GssApiProtectionLevel) : GssApiProtectionLevel :=
  match client_level, server_level with
  | Integrity, _ | _, Integrity => Integrity
  | Confidentiality, Confidentiality => Confidentiality
  | _, _ => Integrity
  end.

Definition negotiate_protection_level (self : GssApiAuthenticator) (ctx : ServerCtx) : gio () :=
  client_msg ← io_or_system "Failed to parse protection message: " parse_gssapi_message;
  if decide (gm_type client_msg <> ProtectionLevelNegotiation)
  then gthrow (GssAuthFailed "Invalid message type during protection negotiation")
  else
    let negotiated :=
      protection_data ← ctx_unwrap ctx (gm_token client_msg);
      let protection_byte := match protection_data with [] => x01 | b :: _ => b end in
      let client_level := GssApiProtectionLevel_from_u8 protection_byte in
      ctx_wrap ctx [GssApiProtectionLevel_to_u8 (choose_level client_level (ga_protection_level self))] in
    match negotiated with
    | Err e => gthrow (GssAuthFailed ("Failed to negotiate protection level: " +:+ e))
    | Ok wrapped_token =>
      io_or_system "Failed to send protection level: "
        (send_gssapi_message ProtectionLevelNegotiation wrapped_token)
    end.

Definition gssapi_authenticate (self : GssApiAuthenticator) : gio (string * list string) := fun s =>
  (r ← establish (S (length (inp s))) None;
   let '(name, ctx) := r in
   _ ← negotiate_protection_level self ctx;
   mret (name, groups_or_none name)) s.

(** ** The manager (mod.rs) *)

Inductive AuthBackend : Type :=
| BackendNone
| BackendUserPass (users : gmap string string)
| BackendPamAddress (pam : PamAuthenticator)
| BackendPamUsername (pam : PamAuthenticator)
| BackendGssapi (gssapi : GssApiAuthenticator).

Record AuthManager : Type := mkAuthManager {
  client_backend : AuthBackend; socks_backend : AuthBackend }.

Definition map_pam_config_error (err : PamAuthError) : RustSocksError :=
  match err with
  | PamConfig msg | PamSystem msg => Config msg
  | PamNotSupported msg => Config msg
  | PamAuthFailed msg => AuthFailed msg
  end.
Definition map_pam_runtime_error (err : PamAuthError) : RustSocksError :=
  match err with
  | PamAuthFailed msg => AuthFailed msg
  | PamConfig msg | PamNotSupported msg => Config msg
  | PamSystem msg => AuthFailed msg
  end.
Definition map_gssapi_config_error (err : GssApiAuthError) : RustSocksError :=
  match err with
  | GssConfig msg | GssSystem msg => Config msg
  | GssNotSupported msg => Config msg
  | GssAuthFailed msg => AuthFailed msg
  end.
Definition map_gssapi_runtime_error (err : GssApiAuthError) : RustSocksError :=
  match err with
  | GssAuthFailed msg => AuthFailed msg
  | GssConfig msg | GssNotSupported msg => Config msg
  | GssSystem msg => AuthFailed msg
  end.
Definition map_err {E F A} (f : E -> F) (r : result E A) : result F A :=
  match r with Ok a => Ok a | Err e => Err (f e) end.

(** Later entries of the configuration replace earlier ones. *)
Definition build_users (us : list User) : gmap string string :=
  fold_left (fun m u => <[username u := password u]> m) us ∅.

Definition build_backend (method : string) (config : AuthConfig) : result RustSocksError AuthBackend :=
  if decide (method = "none") then Ok BackendNone
  else if decide (method = "userpass") then Ok (BackendUserPass (build_users (users config)))
  else if decide (method = "pam.address") then
    BackendPamAddress <$> map_err map_pam_config_error (PamAuthenticator_new PamByAddress (pam config))
  else if decide (method = "pam.username") then
    BackendPamUsername <$> map_err map_pam_config_error (PamAuthenticator_new PamByUsername (pam config))
  else if decide (method = "gssapi") then
    BackendGssapi <$> map_err map_gssapi_config_error (GssApiAuthenticator_new (gssapi config))
  else Err (Config ("Unsupported authentication method: " +:+ method)).

Definition AuthManager_new (config : AuthConfig) : result RustSocksError AuthManager :=
  client ← build_backend (client_method config) config;
  socks ← build_backend (socks_method config) config;
  mret (mkAuthManager client socks).

Definition get_method (self : AuthManager) : AuthMethod :=
  match socks_backend self with
  | BackendNone | BackendPamAddress _ => NoAuth
  | BackendUserPass _ | BackendPamUsername _ => UserPass
  | BackendGssapi _ => Gssapi
  end.

Definition supports (self : AuthManager) (method : AuthMethod) : bool :=
  if decide (get_method self = method) then true
  else
    bool_decide (method = NoAuth) &&
    match socks_backend self with BackendNone | BackendPamAddress _ => true | _ => false end.

Definition authenticate_client (self : AuthManager) (client_ip : IpAddr) : result RustSocksError () :=
  match client_backend self with
  | BackendNone => Ok ()
  | BackendPamAddress pam => map_err map_pam_runtime_error (authenticate_address pam client_ip)
  | BackendUserPass _ | BackendPamUsername _ | BackendGssapi _ =>
    Err (Config "Invalid client auth configuration: only none or pam.address are supported")
  end.

Definition UserPass_authenticate (users : gmap string string) (user pass : string) : bool :=
  match users !! user with
  | Some stored_password => bool_decide (stored_password = pass)
  | None => false
  end.

Definition authenticate (self : AuthManager) (method : AuthMethod) (client_ip : IpAddr)
    : io (option (string * list string)) :=
  match socks_backend self, method with
  | BackendNone, NoAuth => mret None
  | BackendPamAddress pam, NoAuth =>
    _ ← lift (map_err map_pam_runtime_error (authenticate_address pam client_ip));
    mret None
  | BackendUserPass us, UserPass =>
    up ← parse_userpass_auth;
    let '(user, pass) := up in
    let is_valid := UserPass_authenticate us user pass in
    _ ← send_auth_response is_valid;
    if is_valid then mret (Some (user, groups_or_none user))
    else throw (AuthFailed ("Invalid credentials for user: " +:+ user))
  | BackendPamUsername pam, UserPass =>
    up ← parse_userpass_auth;
    let '(user, pass) := up in
    match authenticate_username pam client_ip user pass with
    | Ok _ =>
      _ ← send_auth_response true;
      mret (Some (user, groups_or_none user))
    | Err e =>
      _ ← send_auth_response false;
      throw (map_pam_runtime_error e)
    end
  | BackendGssapi g, Gssapi =>
    fun s => match gssapi_authenticate g s with
             | (Ok (user, groups), s') => (Ok (Some (user, groups)), s')
             | (Err e, s') => (Err (map_gssapi_runtime_error e), s')
             end
  | _, _ => throw (AuthFailed "Authentication method mismatch")
  end.
End auth.
