(* ===== verification/AuthSpec.v ===== *)
(** * Authentication: theorems

    Who may pass as whom: what each method asks of a client before the handler
    takes it for authenticated, which passwords count, and that the negotiation of
    a GSS-API context ends. *)
From S2P Require Import Prelude Net Stream Protocol ProtocolSpec Auth.

(** ** The configured passwords *)

(** The password of the last entry for [name]. *)
Definition password_of (name : string) (us : list User) : option string :=
  password <$> last (List.filter (fun u => bool_decide (username u = name)) us).

Lemma build_users_lookup us name : build_users us !! name = password_of name us.
Proof.
  unfold build_users, password_of.
  induction us as [|u us IH] using rev_ind; [done|].
  rewrite fold_left_app, List.filter_app. cbn [fold_left List.filter].
  case_bool_decide as Hu.
  - rewrite <- Hu, lookup_insert_eq, last_snoc. done.
  - by rewrite lookup_insert_ne, app_nil_r.
Qed.

Section auth.
Context `{AuthDeps}.

(** ** Security contexts *)

(** The context that the library completes with the last of the tokens of a
    client, and not before. *)
Inductive steps : ServerCtx -> list (list u8) -> ServerCtx -> Prop :=
| steps_last c tok out c1 :
    ctx_step c tok = Ok (c1, out) -> ctx_is_complete c1 = true -> steps c [tok] c1
| steps_cons c tok out c1 toks c2 :
    ctx_step c tok = Ok (c1, out) -> ctx_is_complete c1 = false -> steps c1 toks c2 ->
    steps c (tok :: toks) c2.

(** Messages of RFC 1961 of one type, one after the other, with those tokens. *)
Definition wire_tokens (t : GssApiMessageType) (toks : list (list u8)) (bs : list u8) : Prop :=
  exists bss, bs = concat bss /\ Forall2 (fun tok b => wire_gssapi (mkGssApiMessage x01 t tok) b) toks bss.

Lemma wire_tokens_cons t tok toks b bs :
  wire_gssapi (mkGssApiMessage x01 t tok) b -> wire_tokens t toks bs ->
  wire_tokens t (tok :: toks) (b ++ bs).
Proof. intros Hb (bss & -> & Hf). exists (b :: bss). split; [done|by constructor]. Qed.

Lemma wire_token_of m b t : wire_gssapi m b -> gm_type m = t -> t <> Abort_msg ->
  wire_gssapi (mkGssApiMessage x01 t (gm_token m)) b.
Proof. intros Hw <- Ht. by inversion Hw; subst. Qed.

Lemma gbind_Ok {A B} (m : gio A) (f : A -> gio B) s b s' :
  (m ≫= f) s = (Ok b, s') -> exists a s1, m s = (Ok a, s1) /\ f a s1 = (Ok b, s').
Proof. unfold mbind, gio_bind. destruct (m s) as [[a|e] s1]; [|done]. eauto. Qed.

Lemma io_or_system_Ok {A} c (m : io A) s a s' :
  io_or_system c m s = (Ok a, s') -> m s = (Ok a, s').
Proof. unfold io_or_system. destruct (m s) as [[|] ?]; congruence. Qed.

Lemma send_inp bs s r s' : send bs s = (r, s') -> inp s' = inp s.
Proof. intros (Hi & _)%send_spec. done. Qed.
Lemma send_gssapi_inp t tok s r s' : send_gssapi_message t tok s = (r, s') -> inp s' = inp s.
Proof. unfold send_gssapi_message. by intros ?%send_inp. Qed.

(** A context that was established was completed by the tokens at the head of the
    input, and names the client. *)
Lemma establish_sound fuel c s name ctx s' :
  establish fuel c s = (Ok (name, ctx), s') ->
  exists toks bs, wire_tokens Authentication toks bs /\ inp s = bs ++ inp s' /\
    steps (default ctx_new c) toks ctx /\ ctx_is_complete ctx = true /\ ctx_source_name ctx = Ok name.
Proof.
  revert c s. induction fuel as [|fuel IH]; intros c s; cbn [establish]; [done|].
  intros (msg & s1 & (b & Hw & Hi & _)%io_or_system_Ok%parse_gssapi_correct & Hr)%gbind_Ok.
  destruct (decide _); [done|]. destruct (decide (_ <> _)) as [|Ht]; [by apply gbind_Ok in Hr as (? & ? & _ & ?)|].
  apply dec_stable in Ht. apply (wire_token_of _ _ _ Hw) in Ht; [|done].
  destruct (ctx_step _ _) as [[c1 out]|e] eqn:Es; [|by apply gbind_Ok in Hr as (? & ? & _ & ?)].
  apply gbind_Ok in Hr as (? & s2 & Hs%io_or_system_Ok%send_gssapi_inp & Hr).
  destruct (ctx_is_complete c1) eqn:Ec.
  - destruct (ctx_source_name c1) as [src|e] eqn:En; [|done]. unfold mret, gio_ret in Hr. simplify_eq.
    exists [gm_token msg], (b ++ []). split; [apply wire_tokens_cons; [done|by exists []]|].
    split; [by rewrite Hi, app_nil_r, Hs|]. by split; [eapply steps_last|].
  - apply IH in Hr as (toks & bs & Hbs & Hi2 & Hst & Hr). exists (gm_token msg :: toks), (b ++ bs).
    split; [by apply wire_tokens_cons|]. split; [by rewrite Hi, <- Hs, Hi2, app_assoc|].
    by split; [eapply steps_cons|].
Qed.

(** The level of protection is settled by one more message, that the context
    accepts. *)
Lemma negotiate_sound self ctx s u s' :
  negotiate_protection_level self ctx s = (Ok u, s') ->
  exists tok bs data, wire_gssapi (mkGssApiMessage x01 ProtectionLevelNegotiation tok) bs /\
    inp s = bs ++ inp s' /\ ctx_unwrap ctx tok = Ok data.
Proof.
  unfold negotiate_protection_level.
  intros (msg & s1 & (b & Hw & Hi & _)%io_or_system_Ok%parse_gssapi_correct & Hr)%gbind_Ok.
  destruct (decide (_ <> _)) as [|Ht]; [done|]. apply dec_stable in Ht.
  apply (wire_token_of _ _ _ Hw) in Ht; [|done].
  destruct (ctx_unwrap ctx (gm_token msg)) as [data|e] eqn:Eu; [|done]. cbn in Hr.
  exists (gm_token msg), b, data. split; [done|]. split; [|done].
  destruct (ctx_wrap _ _); [|done]. apply io_or_system_Ok, send_gssapi_inp in Hr. by rewrite Hi, Hr.
Qed.

(** Every round reads at least two bytes. *)
Lemma parse_gssapi_reads s m s' :
  parse_gssapi_message s = (Ok m, s') -> (2 + length (inp s') <= length (inp s))%nat.
Proof.
  intros (bs & Hw & -> & _)%parse_gssapi_correct. rewrite length_app.
  inversion Hw; subst; cbn; lia.
Qed.

Lemma gbind_ext {A B} (m : gio A) (f g : A -> gio B) s :
  (forall a s1, m s = (Ok a, s1) -> f a s1 = g a s1) -> (m ≫= f) s = (m ≫= g) s.
Proof. intros Hfg. unfold mbind, gio_bind. destruct (m s) as [[a|e] s1]; auto. Qed.

Lemma establish_fuel f1 f2 c s :
  (length (inp s) < f1)%nat -> (length (inp s) < f2)%nat -> establish f1 c s = establish f2 c s.
Proof.
  revert f2 c s. induction f1 as [|f1 IH]; intros [|f2] c s H1 H2; [lia..|]. cbn [establish].
  apply gbind_ext. intros msg s1 Hp%io_or_system_Ok%parse_gssapi_reads.
  destruct (decide _); [done|]. destruct (decide _); [done|].
  destruct (ctx_step _ _) as [[c1 out]|e]; [|done].
  apply gbind_ext. intros u s2 Hs%io_or_system_Ok. destruct (ctx_is_complete c1); [done|].
  unfold send_gssapi_message in Hs. apply send_inp in Hs. apply IH; rewrite Hs; lia.
Qed.

Definition out_of_fuel {A} (r : result GssApiAuthError A) : Prop :=
  r = Err (GssSystem "out of fuel").

Lemma io_or_system_fuel {A} c (m : io A) s :
  String.get 0 c = Some "F"%char -> ~ out_of_fuel (io_or_system c m s).1.
Proof.
  unfold io_or_system, out_of_fuel. destruct c as [|a c]; [done|]. intros [= ->].
  by destruct (m s) as [[|e] s1].
Qed.
Lemma gbind_fuel {A B} (m : gio A) (f : A -> gio B) s :
  ~ out_of_fuel (m s).1 -> (forall a s1, m s = (Ok a, s1) -> ~ out_of_fuel (f a s1).1) ->
  ~ out_of_fuel ((m ≫= f) s).1.
Proof.
  unfold mbind, gio_bind, out_of_fuel. destruct (m s) as [[a|e] s1]; cbn; [auto|].
  intros Hm _ [= ->]. by apply Hm.
Qed.

Lemma establish_enough fuel c s :
  (length (inp s) < fuel)%nat -> ~ out_of_fuel (establish fuel c s).1.
Proof.
  revert c s. induction fuel as [|fuel IH]; intros c s Hf; [lia|]. cbn [establish].
  apply gbind_fuel; [by apply io_or_system_fuel|].
  intros msg s1 Hp%io_or_system_Ok%parse_gssapi_reads.
  destruct (decide _); [done|]. destruct (decide _).
  { apply gbind_fuel; [by apply io_or_system_fuel|done]. }
  destruct (ctx_step _ _) as [[c1 out]|e].
  2: { apply gbind_fuel; [by apply io_or_system_fuel|done]. }
  apply gbind_fuel; [by apply io_or_system_fuel|].
  intros u s2 Hs%io_or_system_Ok. destruct (ctx_is_complete c1).
  { by destruct (ctx_source_name c1). }
  unfold send_gssapi_message in Hs. apply send_inp in Hs. apply IH. rewrite Hs. lia.
Qed.

(** C32: The loop that establishes a GSS-API context ends, whatever the library
    answers: every round reads at least two of the bytes that the client sent,
    so one more round than there are bytes is enough; further rounds would
    change nothing. *)
Theorem establish_terminates extra c s :
  ~ out_of_fuel (establish (S (length (inp s))) c s).1 /\
  establish (S (length (inp s)) + extra) c s = establish (S (length (inp s))) c s.
Proof. split; [apply establish_enough; lia|apply establish_fuel; lia]. Qed.

(** ** Who is authenticated *)

Lemma authenticate_userpass_Ok (check : string -> string -> io (option (string * list string))) s who s' :
  (up ← parse_userpass_auth; let '(user, pass) := up in check user pass) s = (Ok who, s') ->
  exists user pass bs s1, wire_userpass (user, pass) bs /\ consumed s s1 bs /\
    check user pass s1 = (Ok who, s').
Proof.
  intros ([user pass] & s1 & (bs & Hw & Hc)%parse_userpass_correct & Hr)%bind_Ok. eauto 10.
Qed.

(** C5: Whom each method takes a client for.  Without authentication, for
    nobody; by its address, for nobody, if PAM accepts the default user; with a
    password, for the user it names in a message of RFC 1929 at the head of what
    it sent, if the password is the configured one, or if PAM accepts it; with
    GSS-API, for the source of the context that the tokens of its messages
    complete: these are the authentication messages of RFC 1961 at the head of
    what it sent, one after the other, the last of them completes the context,
    and the message after them is one for the protection level that the context
    accepts; nothing more is read.  The groups are always those that the system lists for that user. *)
Theorem authenticate_sound self method ip s who s' :
  authenticate self method ip s = (Ok who, s') ->
  match socks_backend self with
  | BackendNone => method = NoAuth /\ who = None /\ s' = s
  | BackendPamAddress pam =>
    method = NoAuth /\ who = None /\ s' = s /\ pa_method pam = PamByAddress /\
    pam_init (pa_service_name pam) = None /\
    pam_run (pa_service_name pam) (pa_default_user pam) "" = None
  | BackendUserPass us =>
    method = UserPass /\ exists user pass bs, wire_userpass (user, pass) bs /\
      bs `prefix_of` inp s /\ us !! user = Some pass /\ who = Some (user, groups_or_none user)
  | BackendPamUsername pam =>
    method = UserPass /\ exists user pass bs, wire_userpass (user, pass) bs /\
      bs `prefix_of` inp s /\ pa_method pam = PamByUsername /\
      pam_init (pa_service_name pam) = None /\
      pam_run (pa_service_name pam) user pass = None /\ who = Some (user, groups_or_none user)
  | BackendGssapi g =>
    method = Gssapi /\ exists user toks ctx bs tok last_bs data,
      inp s = bs ++ last_bs ++ inp s' /\ wire_tokens Authentication toks bs /\
      wire_gssapi (mkGssApiMessage x01 ProtectionLevelNegotiation tok) last_bs /\
      steps ctx_new toks ctx /\ ctx_is_complete ctx = true /\ ctx_source_name ctx = Ok user /\
      ctx_unwrap ctx tok = Ok data /\ who = Some (user, groups_or_none user)
  end.
Proof.
  unfold authenticate. destruct (socks_backend self) as [|us|pam|pam|g], method; try done.
  - by intros [= <- <-].
  - intros ([user pass] & s1 & (bs & Hw & Hi & _)%parse_userpass_correct & Hr)%bind_Ok.
    split; [done|]. exists user, pass, bs. split; [done|]. split; [by exists (inp s1)|].
    apply bind_Ok in Hr as (? & s2 & _ & Hr). unfold UserPass_authenticate in Hr.
    destruct (us !! user) as [p|]; [|done]. case_bool_decide as Hp; [|done].
    unfold mret, io_ret in Hr. by simplify_eq.
  - intros (? & s1 & Hr & Hw)%bind_Ok. unfold mret, io_ret, lift in *. injection Hr as Hr ->.
    simplify_eq. unfold authenticate_address, run_pam in Hr.
    destruct (pa_method pam); [|done]. destruct (pam_init _); [done|]. by destruct (pam_run _ _ _).
  - intros ([user pass] & s1 & (bs & Hw & Hi & _)%parse_userpass_correct & Hr)%bind_Ok.
    split; [done|]. exists user, pass, bs. split; [done|]. split; [by exists (inp s1)|].
    unfold authenticate_username, run_pam in Hr.
    destruct (pa_method pam); [by apply bind_Ok in Hr as (? & ? & _ & ?)|].
    destruct (pam_init _); [by apply bind_Ok in Hr as (? & ? & _ & ?)|].
    destruct (pam_run _ _ _); [by apply bind_Ok in Hr as (? & ? & _ & ?)|].
    apply bind_Ok in Hr as (? & s2 & _ & Hr). unfold mret, io_ret in Hr. by simplify_eq.
  - intros Hr. destruct (gssapi_authenticate g s) as [[[user groups]|e] s1] eqn:E; simplify_eq.
    split; [done|]. unfold gssapi_authenticate in E.
    apply gbind_Ok in E as ([name ctx] & s2 & (toks & bs & Hbs & Hi & Hst & Hc & Hn)%establish_sound & E).
    apply gbind_Ok in E as (? & s3 & (tok & b & data & Hb & Hi3 & Hu)%negotiate_sound & E).
    unfold mret, gio_ret in E. simplify_eq.
    exists user, toks, ctx, bs, tok, b, data. rewrite Hi, Hi3. by split_and!.
Qed.

(** With the passwords of the configuration, a client that sends a message
    of RFC 1929 is answered 1,0 and taken for the user it names exactly if the
    last entry for that name has that password; otherwise it is answered 1,1
    and refused.  Nothing after the message is read. *)
Theorem userpass_correct config self user pass bs rest e o :
  AuthManager_new config = Ok self -> socks_method config = "userpass"%string ->
  wire_userpass (user, pass) bs ->
  forall ip,
  authenticate self UserPass ip (mkStream (bs ++ rest) e o []) =
    if decide (password_of user (users config) = Some pass)
    then (Ok (Some (user, groups_or_none user)), mkStream rest e (o ++ [x01; x00]) [])
    else (Err (AuthFailed ("Invalid credentials for user: " +:+ user)),
          mkStream rest e (o ++ [x01; x01]) []).
Proof.
  intros Hn Hm Hw ip.
  assert (Hb : socks_backend self = BackendUserPass (build_users (users config))).
  { unfold AuthManager_new in Hn. rewrite Hm in Hn.
    unfold mbind, mret in Hn. cbn in Hn. destruct (build_backend (client_method config) config); [|done].
    by injection Hn as <-. }
  unfold authenticate. rewrite Hb.
  assert (Hp : parse_userpass_auth (mkStream (bs ++ rest) e o []) = (Ok (user, pass), mkStream rest e o [])).
  { apply parse_userpass_correct. by exists bs. }
  rewrite (bind_step _ _ _ _ _ Hp). unfold UserPass_authenticate. rewrite build_users_lookup.
  destruct (password_of user (users config)) as [p|].
  - case_bool_decide; case_decide; simplify_eq; done.
  - by case_decide.
Qed.
End auth.

(** ** Concrete credentials *)

#[export] Instance demo_auth_deps : AuthDeps := {|
  pam_init _ := None;
  pam_run _ _ _ := Some "AUTH_ERR"%string;
  user_from_name _ := Ok None;
  getgrouplist_size _ _ := 0;
  getgrouplist _ _ _ := None;
  group_from_gid _ := None;
  ServerCtx := unit;
  ctx_new := tt;
  ctx_step _ _ := Err "no credentials"%string;
  ctx_is_complete _ := false;
  ctx_source_name _ := Err "no name"%string;
  ctx_unwrap _ _ := Err "no context"%string;
  ctx_wrap _ _ := Err "no context"%string;
  fmt_io _ := "i/o error"%string;
|}.

Definition demo_auth_config : AuthConfig := mkAuthConfig "none" "userpass"
  [mkUser "alice" "old"; mkUser "bob" "hunter2"; mkUser "alice" "secret"]
  (mkPamSettings "rustsocks" "rustsocks-client" "rustsocks") (mkGssApiSettings "socks" "selective").
Definition demo_credentials : list u8 :=
  [x01] ++ ([x05] ++ as_bytes "alice") ++ ([x06] ++ as_bytes "secret").

Lemma demo_credentials_wire : wire_userpass ("alice", "secret")%string demo_credentials.
Proof.
  apply (wire_userpass_intro "alice" "secret" (x05 :: as_bytes "alice") (x06 :: as_bytes "secret"));
    constructor; reflexivity.
Qed.

Lemma userpass_correct_witness :
  exists self, AuthManager_new demo_auth_config = Ok self /\
    authenticate self UserPass (V4 [x7f; x00; x00; x01]) (client (demo_credentials ++ [x05])) =
      (Ok (Some ("alice"%string, [])), mkStream [x05] UnexpectedEof [x01; x00] []).
Proof.
  eexists. split; [reflexivity|].
  exact (userpass_correct demo_auth_config _ "alice" "secret" demo_credentials [x05] UnexpectedEof []
           eq_refl eq_refl demo_credentials_wire (V4 [x7f; x00; x00; x01])).
Defined.

Lemma authenticate_sound_witness :
  exists self s', AuthManager_new demo_auth_config = Ok self /\
    authenticate self UserPass (V4 [x7f; x00; x00; x01]) (client demo_credentials) =
      (Ok (Some ("alice"%string, [])), s') /\
    match socks_backend self with
    | BackendUserPass us => exists user pass bs, wire_userpass (user, pass) bs /\
        bs `prefix_of` demo_credentials /\ us !! user = Some pass
    | _ => False
    end.
Proof.
  eexists _, _. split; [reflexivity|]. split; [vm_compute; reflexivity|].
  match goal with |- match socks_backend ?m with _ => _ end =>
    destruct (authenticate_sound m UserPass (V4 [x7f; x00; x00; x01]) (client demo_credentials)
      (Some ("alice"%string, [])) (mkStream [] UnexpectedEof [x01; x00] [])) as (_ & u & p & bs & Hw & Hp & Hu & _)
  end.
  - vm_compute; reflexivity.
  - exists u, p, bs. split; [exact Hw|]. split; [exact Hp|exact Hu].
Defined.
