(* ===== verification/Proxy.v ===== *)
(** * Relaying

    src/src/server/proxy.rs: the two tasks that copy the bytes of a connection in
    its two directions, each a loop that waits for the cancellation or for data,
    asks for bandwidth, writes, and reports its traffic.  The tasks run
    interleaved: one [proxy_event] is one round of one task, with what the sockets
    answer in it.  The shared state is the session manager, with the set of
    cancelled tokens, and the engine of the bandwidth. *)
From S2P Require Import Prelude Net Stream TokenBucket Qos Pool Session Manager.

Definition BUFFER_SIZE : Z := 32 * 1024.

Record TrafficUpdateConfig : Type := mkTrafficUpdateConfig { packet_interval : Z }.
Definition TrafficUpdateConfig_new (packet_interval : Z) : TrafficUpdateConfig :=
  mkTrafficUpdateConfig (if packet_interval =? 0 then 1 else packet_interval).
Definition TrafficUpdateConfig_default : TrafficUpdateConfig := TrafficUpdateConfig_new 50.

Inductive TrafficDirection : Type := Upload | Download.
#[export] Instance TrafficDirection_eq_dec : EqDecision TrafficDirection.
Proof. solve_decision. Defined.

Definition is_connection_closed_error (e : ErrorKind) : bool :=
  match e with
  | ConnectionReset | ConnectionAborted | BrokenPipe | NotConnected | UnexpectedEof => true
  | _ => false
  end.

(** What a round of a task meets: the branch that [select!] takes, the clock of
    the allocation, and the outcome of [write_all], [Some (k, e)] when it fails
    after [k] bytes. *)
Inductive selected : Type :=
| SelCancelled
| SelRead (chunk : list u8)
| SelReadErr (e : ErrorKind).
Record round : Type := mkRound {
  r_selected : selected; r_clock : alloc_clock; r_write : option (nat * ErrorKind) }.

(** The variables of a task; [delivered] are the bytes written so far. *)
Record task_vars : Type := mkTaskVars {
  total_b : Z; total_p : Z; pending_b : Z; pending_p : Z; delivered : list u8 }.
Definition task_init : task_vars := mkTaskVars 0 0 0 0 [].

(** [UploadResult] and [DownloadResult]: whether its reader reached the end. *)
Record task_ok : Type := mkTaskOk { ok_bytes : Z; ok_packets : Z; ok_closed : bool }.

Inductive task : Type :=
| Running (v : task_vars)
| Waiting (v : task_vars) (* for bandwidth that never comes *)
| Done (v : task_vars) (r : result RustSocksError task_ok).

Definition vars (t : task) : task_vars :=
  match t with Running v | Waiting v | Done v _ => v end.

(** [QosEngine::allocate_bandwidth]: whether it was granted. *)
Definition engine_allocate (t : alloc_clock) (user : string) (bytes : Z) (e : QosEngine)
    : bool * QosEngine :=
  match e with
  | QosNone => (true, QosNone)
  | QosHtb htb =>
    match Qos.allocate_bandwidth t user bytes htb with
    | (alloc_wait_global, htb) | (alloc_wait_user, htb) => (false, QosHtb htb)
    | (_, htb) => (true, QosHtb htb)
    end
  end.

Section proxy.
Context {T : Type} `{!SessionSink T}.
Context (interval : Z) (session : Z) (token : Z) (usr : string).

Record shared : Type := mkShared { sh_manager : SessionManager T; sh_qos : QosEngine }.

Definition traffic_of (dn : TrafficDirection) (bytes packets : Z) : TrafficUpdate :=
  match dn with
  | Upload => mkTrafficUpdate session bytes 0 packets 0
  | Download => mkTrafficUpdate session 0 bytes 0 packets
  end.

(** [flush_pending_now], and [enqueue_pending_update] with the same body; the
    list is the updates it makes. *)
Definition flush_pending_now (dn : TrafficDirection) (v : task_vars) (w : shared)
    : task_vars * list TrafficUpdate * shared :=
  if pending_p v =? 0 then (v, [], w)
  else
    let u := traffic_of dn (pending_b v) (pending_p v) in
    (mkTaskVars (total_b v) (total_p v) 0 0 (delivered v), [u],
     mkShared (update_traffic u (sh_manager w)) (sh_qos w)).
Definition enqueue_pending_update := flush_pending_now.

(** [cancel_token.cancel()] *)
Definition cancel_task (w : shared) : shared :=
  mkShared (cancel token None (sh_manager w)) (sh_qos w).

(** Leaving the loop by [break]. *)
Definition finish (dn : TrafficDirection) (was_cancelled closed : bool) (v : task_vars) (w : shared)
    : task * list TrafficUpdate * shared :=
  let '(v, us, w) := flush_pending_now dn v w in
  let w := cancel_task w in
  (Done v (if was_cancelled then Err ConnectionClosed
           else Ok (mkTaskOk (total_b v) (total_p v) closed)), us, w).

(** Leaving it with an error: the token is not cancelled. *)
Definition fail (dn : TrafficDirection) (e : ErrorKind) (v : task_vars) (w : shared)
    : task * list TrafficUpdate * shared :=
  let '(v, us, w) := flush_pending_now dn v w in
  (Done v (Err (Io e)), us, w).

(** One round of [proxy_upload] or of [proxy_download]. *)
Definition task_round (dn : TrafficDirection) (r : round) (v : task_vars) (w : shared)
    : task * list TrafficUpdate * shared :=
  match r_selected r with
  | SelCancelled => finish dn true false v w
  | SelReadErr e => if is_connection_closed_error e then finish dn false true v w else fail dn e v w
  | SelRead [] => finish dn false true v w
  | SelRead chunk =>
    let n := Z.of_nat (length chunk) in
    let '(granted, qos) := engine_allocate (r_clock r) usr n (sh_qos w) in
    let w := mkShared (sh_manager w) qos in
    if negb granted then (Waiting v, [], w)
    else
      match r_write r with
      | Some (k, e) =>
        let v := mkTaskVars (total_b v) (total_p v) (pending_b v) (pending_p v)
                   (delivered v ++ take k chunk) in
        if is_connection_closed_error e then finish dn false true v w else fail dn e v w
      | None =>
        let v := mkTaskVars (sat_add64 (total_b v) n) (sat_add64 (total_p v) 1)
                   (sat_add64 (pending_b v) n) (sat_add64 (pending_p v) 1)
                   (delivered v ++ chunk) in
        if interval <=? pending_p v then
          let '(v, us, w) := enqueue_pending_update dn v w in (Running v, us, w)
        else (Running v, [], w)
      end
  end.

(** The two tasks with the updates each has made. *)
Record proxy_state : Type := mkProxyState {
  up : task; down : task;
  up_updates : list TrafficUpdate; down_updates : list TrafficUpdate;
  world : shared }.

Definition proxy_start (w : shared) : proxy_state :=
  mkProxyState (Running task_init) (Running task_init) [] [] w.

Definition proxy_event : Type := TrafficDirection * round.

(** A round of a task that has ended, or that waits, does nothing. *)
Definition proxy_step (s : proxy_state) (ev : proxy_event) : proxy_state :=
  match ev with
  | (Upload, r) =>
    match up s with
    | Running v =>
      let '(t, us, w) := task_round Upload r v (world s) in
      mkProxyState t (down s) (up_updates s ++ us) (down_updates s) w
    | _ => s
    end
  | (Download, r) =>
    match down s with
    | Running v =>
      let '(t, us, w) := task_round Download r v (world s) in
      mkProxyState (up s) t (up_updates s) (down_updates s ++ us) w
    | _ => s
    end
  end.
Definition proxy_run (evs : list proxy_event) (s : proxy_state) : proxy_state :=
  fold_left proxy_step evs s.

(** What [select!] may take: a cancellation only once the token is cancelled,
    and at most a buffer of data. *)
Definition event_possible (s : proxy_state) (ev : proxy_event) : Prop :=
  match r_selected ev.2 with
  | SelCancelled => token ∈ cancelled (sh_manager (world s))
  | SelRead chunk => Z.of_nat (length chunk) <= BUFFER_SIZE
  | SelReadErr _ => True
  end.

(** The end of [proxy_data], once both tasks are done.  The halves come from
    one stream, the one case in which [reunite] gives it back; its shutdown
    before a refresh is not visible in the state. *)
Definition proxy_result (stream : TcpStream) (s : proxy_state)
    : option (result RustSocksError (option (TcpStream * ReuseHint))) :=
  match up s, down s with
  | Done _ (Ok u), Done _ (Ok d) =>
    let hint :=
      if ok_closed u && negb (ok_closed d) && (ok_bytes u =? 0) && (ok_bytes d =? 0)
      then Reuse else Refresh in
    Some (Ok (Some (stream, hint)))
  | Done _ (Err e), Done _ (Ok _) => Some (Err e)
  | Done _ (Ok _), Done _ (Err e) => Some (Err e)
  | Done _ (Err e1), Done _ (Err e2) =>
    if decide (e1 = ConnectionClosed \/ e2 = ConnectionClosed)
    then Some (Err ConnectionClosed) else Some (Err e1)
  | _, _ => None
  end.
End proxy.
Arguments shared : clear implicits.
Arguments proxy_state : clear implicits.
