(* ===== verification/ProxySpec.v ===== *)
(** * Relaying: theorems

    For every interleaving of the two tasks of src/src/server/proxy.rs and every
    behaviour of the sockets: what is delivered is what was read, what is reported
    to the session manager is what was delivered, and how the relay ends. *)
From S2P Require Import Prelude Net Stream TokenBucket Qos QosSpec Pool Session Manager Proxy.

Section relay.
Context {T : Type} (interval session token : Z) (usr : string).
Implicit Types (s : proxy_state T) (w : shared T).

Definition task_of (dn : TrafficDirection) s : task :=
  match dn with Upload => up s | Download => down s end.
Definition updates_of (dn : TrafficDirection) s : list TrafficUpdate :=
  match dn with Upload => up_updates s | Download => down_updates s end.
Definition dir_bytes (dn : TrafficDirection) (u : TrafficUpdate) : Z :=
  match dn with Upload => tu_bytes_sent u | Download => tu_bytes_received u end.
Definition dir_packets (dn : TrafficDirection) (u : TrafficUpdate) : Z :=
  match dn with Upload => tu_packets_sent u | Download => tu_packets_received u end.

(** What the reader of a direction gave in some events. *)
Definition read_of (dn : TrafficDirection) (evs : list proxy_event) : list u8 :=
  flat_map (fun ev =>
    if decide (ev.1 = dn) then match r_selected ev.2 with SelRead chunk => chunk | _ => [] end
    else []) evs.

#[local] Abbreviation step := (proxy_step interval session token usr).
#[local] Abbreviation run := (proxy_run interval session token usr).
#[local] Abbreviation rnd := (task_round interval session token usr).

(** A step is a round of its task or nothing. *)
Lemma step_cases s dn r :
  (exists v t us w, task_of dn s = Running v /\ rnd dn r v (world s) = (t, us, w) /\
     task_of dn (step s (dn, r)) = t /\ updates_of dn (step s (dn, r)) = updates_of dn s ++ us /\
     world (step s (dn, r)) = w) \/
  ((forall v, task_of dn s <> Running v) /\ step s (dn, r) = s).
Proof.
  unfold proxy_step. destruct dn; cbn [task_of updates_of].
  - destruct (up s) as [v|v|v q] eqn:E; [|by right|by right].
    left. destruct (rnd Upload r v (world s)) as [[t us] w] eqn:Er. exists v, t, us, w. auto.
  - destruct (down s) as [v|v|v q] eqn:E; [|by right|by right].
    left. destruct (rnd Download r v (world s)) as [[t us] w] eqn:Er. exists v, t, us, w. auto.
Qed.

Lemma step_other s dn dn' r :
  dn <> dn' -> task_of dn (step s (dn', r)) = task_of dn s /\
               updates_of dn (step s (dn', r)) = updates_of dn s.
Proof.
  intros Hne. destruct dn, dn'; try done; cbn.
  - destruct (down s); try done. by destruct (rnd Download r v (world s)) as [[t us] w].
  - destruct (up s); try done. by destruct (rnd Upload r v (world s)) as [[t us] w].
Qed.

Lemma run_snoc evs ev s : run (evs ++ [ev]) s = step (run evs s) ev.
Proof. unfold proxy_run. by rewrite fold_left_app. Qed.

(** An invariant of a task and of the updates it made, over all runs: it holds
    at the start and every round of the task keeps it. *)
Lemma run_ind (P : TrafficDirection -> list u8 -> task -> list TrafficUpdate -> Prop) w0 :
  (forall dn, P dn [] (Running task_init) []) ->
  (forall dn bs t us bs', (forall v, t <> Running v) -> P dn bs t us -> P dn (bs ++ bs') t us) ->
  (forall dn bs v us r w t us' w', P dn bs (Running v) us -> rnd dn r v w = (t, us', w') ->
     P dn (bs ++ match r_selected r with SelRead c => c | _ => [] end) t (us ++ us')) ->
  forall dn evs, P dn (read_of dn evs) (task_of dn (run evs (proxy_start w0)))
                   (updates_of dn (run evs (proxy_start w0))).
Proof.
  intros H0 Hidle Hround dn evs. induction evs as [|[dn' r] evs IH] using rev_ind.
  { by destruct dn; apply H0. }
  rewrite run_snoc. unfold read_of. rewrite flat_map_app; cbn [flat_map fst snd].
  fold (read_of dn evs). rewrite app_nil_r. case_decide as Hd.
  - subst dn'. destruct (step_cases (run evs (proxy_start w0)) dn r)
      as [(v & t & us & w & Hv & Hr & -> & -> & _)|[Hn ->]].
    + rewrite Hv in IH. by eapply Hround.
    + by apply Hidle.
  - destruct (step_other (run evs (proxy_start w0)) dn dn' r) as [-> ->]; [done|].
    by rewrite app_nil_r.
Qed.

(** ** Accounting *)

Definition sum (f : TrafficUpdate -> Z) (us : list TrafficUpdate) : Z := foldr Z.add 0 (f <$> us).

Lemma sum_app f us1 us2 : sum f (us1 ++ us2) = sum f us1 + sum f us2.
Proof. unfold sum. rewrite fmap_app. induction (f <$> us1); cbn; lia. Qed.

Lemma sum_one f u : sum f [u] = f u.
Proof. unfold sum; cbn. lia. Qed.

(** [n] bytes were written in full chunks: they are reported or pending. *)
Definition balanced (dn : TrafficDirection) (v : task_vars) (us : list TrafficUpdate) (n : Z) : Prop :=
  total_b v = n /\ sum (dir_bytes dn) us + pending_b v = n /\
  sum (dir_packets dn) us + pending_p v = total_p v /\
  0 <= pending_b v /\ 0 <= pending_p v /\ (pending_p v = 0 -> pending_b v = 0) /\
  0 <= total_p v /\ total_p v <= n /\
  0 <= sum (dir_bytes dn) us /\ 0 <= sum (dir_packets dn) us.

Definition report_ok (dn : TrafficDirection) (u : TrafficUpdate) : Prop :=
  u = traffic_of session dn (dir_bytes dn u) (dir_packets dn u) /\
  0 < dir_packets dn u <= interval.

Definition accounted (dn : TrafficDirection) (bs : list u8) (t : task) (us : list TrafficUpdate) : Prop :=
  let v := vars t in
  delivered v `prefix_of` bs /\
  Forall (report_ok dn) us /\
  exists n, 0 <= n <= Z.of_nat (length (delivered v)) /\ (n <= u64_max -> balanced dn v us n) /\
    0 <= pending_p v < interval /\
    match t with
    | Running _ => delivered v = bs /\ n = Z.of_nat (length (delivered v))
    | Waiting _ => n = Z.of_nat (length (delivered v))
    | Done _ _ => pending_p v = 0
    end.

Lemma dir_traffic dn b p :
  dir_bytes dn (traffic_of session dn b p) = b /\ dir_packets dn (traffic_of session dn b p) = p.
Proof. by destruct dn. Qed.

(** Reporting what is pending keeps the balance and leaves nothing pending. *)
Lemma flush_balanced dn v w v' us us' w' n :
  flush_pending_now session dn v w = (v', us', w') -> 0 <= pending_p v <= interval ->
  delivered v' = delivered v /\ pending_p v' = 0 /\
  (balanced dn v us n -> balanced dn v' (us ++ us') n) /\ Forall (report_ok dn) us'.
Proof.
  unfold flush_pending_now. destruct (Z.eqb_spec (pending_p v) 0) as [E|E]; intros [= <- <- <-] Hp.
  - rewrite app_nil_r. auto.
  - destruct (dir_traffic dn (pending_b v) (pending_p v)) as [Hb Hpk].
    split_and!; [done|done| |].
    + unfold balanced; cbn. rewrite !sum_app, !sum_one, Hb, Hpk. lia.
    + constructor; [|constructor]. unfold report_ok. rewrite Hb, Hpk. split; [done|lia].
Qed.

Lemma accounted_end dn bs v us v' us' w w' res n :
  flush_pending_now session dn v w = (v', us', w') -> 0 <= pending_p v <= interval -> 1 <= interval ->
  delivered v `prefix_of` bs -> Forall (report_ok dn) us ->
  0 <= n <= Z.of_nat (length (delivered v)) -> (n <= u64_max -> balanced dn v us n) ->
  accounted dn bs (Done v' res) (us ++ us').
Proof.
  intros Hf Hp Hi Hpre Hus Hn Hb.
  destruct (flush_balanced dn v w v' us us' w' n Hf Hp) as (Hd & Hp' & Hb' & Hus').
  unfold accounted; cbn. rewrite Hd, Hp'. split; [done|]. split; [by apply Forall_app|].
  exists n. split; [done|]. split; [by auto|]. split; [lia|done].
Qed.

(** A chunk that was written in full. *)
Lemma accounted_written dn bs v us c w t us' w' :
  1 <= interval -> accounted dn bs (Running v) us -> 0 < Z.of_nat (length c) ->
  let v0 := mkTaskVars (sat_add64 (total_b v) (Z.of_nat (length c))) (sat_add64 (total_p v) 1)
              (sat_add64 (pending_b v) (Z.of_nat (length c))) (sat_add64 (pending_p v) 1)
              (delivered v ++ c) in
  (if interval <=? pending_p v0
   then let '(v, us, w) := enqueue_pending_update session dn v0 w in (Running v, us, w)
   else (Running v0, [], w)) = (t, us', w') ->
  accounted dn (bs ++ c) t (us ++ us').
Proof.
  intros Hi (Hpre & Hus & n & Hn & Hb & Hp & Hd & Hlen) Hc v0 Hr; cbn [vars] in *.
  assert (Hb0 : n + Z.of_nat (length c) <= u64_max ->
            balanced dn v0 us (n + Z.of_nat (length c))).
  { intros Hle. destruct Hb as (B1&B2&B3&B4&B5&B6&B7&B8&B9&B10); [lia|].
    unfold balanced, v0, sat_add64; cbn. rewrite !Z.min_l by lia. lia. }
  assert (Hp0 : 0 <= pending_p v0 <= interval).
  { unfold v0, sat_add64; cbn. assert (0 <= u64_max) by done. lia. }
  assert (Hd0 : delivered v0 = bs ++ c) by (cbn; by rewrite Hd).
  destruct (Z.leb_spec interval (pending_p v0)) as [Hge|Hlt].
  - unfold enqueue_pending_update in Hr.
    destruct (flush_pending_now session dn v0 _) as [[v1 us1] w1] eqn:Ef. injection Hr as <- <- <-.
    destruct (flush_balanced dn v0 _ v1 us us1 w1 (n + Z.of_nat (length c)) Ef Hp0)
      as (Hd1 & Hp1 & Hb1 & Hus1).
    split; cbn [vars]; [by rewrite Hd1, Hd0|]. split; [by apply Forall_app|].
    exists (n + Z.of_nat (length c)). rewrite Hd1, Hd0, Hp1, length_app, <- Hd.
    split_and!; try lia; auto.
  - injection Hr as <- <- <-. rewrite app_nil_r. split; cbn [vars]; [by rewrite Hd0|]. split; [done|].
    exists (n + Z.of_nat (length c)). rewrite Hd0, length_app, <- Hd.
    split_and!; try lia; auto.
Qed.

Lemma accounted_round dn bs v us r w t us' w' :
  1 <= interval -> accounted dn bs (Running v) us -> rnd dn r v w = (t, us', w') ->
  accounted dn (bs ++ match r_selected r with SelRead c => c | _ => [] end) t (us ++ us').
Proof.
  intros Hi (Hpre & Hus & n & Hn & Hb & Hp & Hd & Hlen) Hr; cbn [vars] in *.
  set (c := match r_selected r with SelRead c => c | _ => [] end).
  assert (delivered v `prefix_of` bs ++ c) as Hpc by (rewrite Hd; by apply prefix_app_r).
  unfold task_round in Hr. unfold finish, fail in Hr.
  assert (Hend : forall res v1 w1, flush_pending_now session dn v w = (v1, us', w1) ->
            accounted dn (bs ++ c) (Done v1 res) (us ++ us')).
  { intros res v1 w1 Hf. eapply accounted_end; try done. lia. }
  destruct (r_selected r) as [|chunk|e] eqn:Es; subst c.
  - destruct (flush_pending_now session dn v w) as [[v1 us1] w1] eqn:Ef. injection Hr as <- <- <-. by eapply Hend.
  - destruct chunk as [|b chunk].
    { destruct (flush_pending_now session dn v w) as [[v1 us1] w1] eqn:Ef. injection Hr as <- <- <-. by eapply Hend. }
    set (c := b :: chunk) in *.
    destruct (engine_allocate (r_clock r) usr (Z.of_nat (length c)) (sh_qos w)) as [granted qos].
    destruct granted; cbn [negb] in Hr.
    2:{ injection Hr as <- <- <-. rewrite app_nil_r. split; [done|]. split; [done|]. exists n. auto. }
    assert (0 < Z.of_nat (length c)) as Hc by (subst c; cbn; lia).
    clearbody c.
    destruct (r_write r) as [[k e]|].
    + set (v0 := mkTaskVars _ _ _ _ _) in Hr.
      set (w0 := mkShared (sh_manager w) qos) in Hr.
      assert (Hend0 : forall res v1 w1, flush_pending_now session dn v0 w0 = (v1, us', w1) ->
                accounted dn (bs ++ c) (Done v1 res) (us ++ us')).
      { intros res v1 w1 Hf. apply (accounted_end dn _ v0 us v1 us' w0 w1 res n Hf); try done; cbn; try lia.
        - rewrite Hd. apply prefix_app. exists (drop k c). by rewrite take_drop.
        - rewrite length_app. lia. }
      destruct (is_connection_closed_error e);
        destruct (flush_pending_now session dn v0 w0) as [[v1 us1] w1] eqn:Ef;
        injection Hr as <- <- <-; by eapply Hend0.
    + eapply (accounted_written dn bs v us c _ t us' w'); [done| |done|exact Hr]; split; [done|]; split; [done|]; by exists n.
  - destruct (is_connection_closed_error e);
      destruct (flush_pending_now session dn v w) as [[v1 us1] w1] eqn:Ef;
      injection Hr as <- <- <-; by eapply Hend.
Qed.

Lemma run_accounted w0 dn evs :
  1 <= interval ->
  accounted dn (read_of dn evs) (task_of dn (run evs (proxy_start w0)))
    (updates_of dn (run evs (proxy_start w0))).
Proof.
  intros Hi. apply (run_ind accounted).
  - intros dn0. split; [done|]. split; [done|]. exists 0. cbn. unfold balanced, sum; cbn.
    split_and!; try done; lia.
  - intros dn0 bs t us bs' Hn (Hpre & Hus & n & Hn0 & Hb & Hp & Ht).
    split; [by apply prefix_app_r|]. split; [done|]. exists n.
    split_and!; try done; try lia. destruct t as [v| |]; [by destruct (Hn v)|done|done].
  - intros dn0 bs v us r w t us' w' Ha Hr. by eapply accounted_round.
Qed.

(** C14: whatever the sockets do and however the two tasks interleave, each task
    writes a prefix of what its reader gave, everything while it runs; what it
    reports to the session manager adds up to the bytes and packets it wrote in
    full, all of them once it has ended, however it ended, and all but fewer
    than the configured number of packets while it runs; every report is for
    this session and this direction and covers from one to that many packets. *)
Theorem relay_accounting w0 dn evs :
  1 <= interval ->
  let s := run evs (proxy_start w0) in
  let v := vars (task_of dn s) in
  let us := updates_of dn s in
  delivered v `prefix_of` read_of dn evs /\
  Forall (report_ok dn) us /\
  (Z.of_nat (length (delivered v)) <= u64_max ->
   match task_of dn s with
   | Running _ =>
     delivered v = read_of dn evs /\
     sum (dir_bytes dn) us + pending_b v = Z.of_nat (length (delivered v)) /\
     sum (dir_packets dn) us + pending_p v = total_p v /\ pending_p v < interval
   | Waiting _ =>
     sum (dir_bytes dn) us + pending_b v = Z.of_nat (length (delivered v))
   | Done _ _ =>
     sum (dir_bytes dn) us = total_b v /\ sum (dir_packets dn) us = total_p v /\
     total_b v <= Z.of_nat (length (delivered v))
   end).
Proof.
  intros Hi s v us. destruct (run_accounted w0 dn evs Hi) as (Hpre & Hus & n & Hn & Hb & Hp & Ht).
  fold s in Hpre, Hus, Hn, Hb, Hp, Ht. fold v us in Hpre, Hus, Hn, Hb, Hp.
  split; [done|]. split; [done|].
  intros Hmax. destruct Hb as (B1&B2&B3&B4&B5&B6&B7&B8&B9&B10); [lia|].
  unfold v in *. destruct (task_of dn s) as [v'|v'|v' res] eqn:E; cbn [vars] in *.
  - destruct Ht as [Hd Hlen]. split_and!; try done; lia.
  - lia.
  - specialize (B6 Ht). split_and!; try lia.
Qed.

(** ** How the relay ends *)

Lemma run_closed w0 dn evs :
  match task_of dn (run evs (proxy_start w0)) with
  | Done _ (Ok k) => ok_closed k = true
  | _ => True
  end.
Proof.
  apply (run_ind (fun _ _ t _ => match t with Done _ (Ok k) => ok_closed k = true | _ => True end));
    [done|done|].
  intros dn0 bs v us r w t us' w' _. unfold task_round, finish, fail, enqueue_pending_update.
  intros Hr. repeat (case_match; simplify_eq/=; try done).
Qed.

Lemma cancelled_update u (m : SessionManager T) : cancelled (update_traffic u m) = cancelled m.
Proof.
  unfold update_traffic, apply_traffic_update. by destruct (active_sessions m !! tu_session_id u).
Qed.

Lemma flush_cancelled dn v w v' us w' :
  flush_pending_now session dn v w = (v', us, w') ->
  cancelled (sh_manager w') = cancelled (sh_manager w).
Proof.
  unfold flush_pending_now. case_match; intros [= <- <- <-]; [done|]. apply cancelled_update.
Qed.

(** Whether the end of a task cancels the other one. *)
Definition cancels (t : task) : bool :=
  match t with Done _ (Ok _) | Done _ (Err ConnectionClosed) => true | _ => false end.

Lemma round_cancelled dn r v w t us w' :
  rnd dn r v w = (t, us, w') ->
  cancelled (sh_manager w') =
    (if cancels t then {[token]} ∪ cancelled (sh_manager w) else cancelled (sh_manager w)).
Proof.
  unfold task_round, finish, fail, enqueue_pending_update, cancel_task. intros Hr.
  repeat (case_match; simplify_eq/=; try done);
    match goal with H : flush_pending_now _ _ _ _ = _ |- _ => apply flush_cancelled in H; cbn in H end;
    congruence.
Qed.

Lemma step_cancelled s ev tok :
  tok ∈ cancelled (sh_manager (world s)) -> tok ∈ cancelled (sh_manager (world (step s ev))).
Proof.
  destruct ev as [dn r]. destruct (step_cases s dn r) as [(v & t & us & w & _ & Hr & _ & _ & ->)|[_ ->]];
    [|done].
  apply round_cancelled in Hr as ->. destruct (cancels t); set_solver.
Qed.

Lemma run_cancels w0 dn evs :
  cancels (task_of dn (run evs (proxy_start w0))) = true ->
  token ∈ cancelled (sh_manager (world (run evs (proxy_start w0)))).
Proof.
  induction evs as [|[dn' r] evs IH] using rev_ind; [by destruct dn|].
  rewrite run_snoc. destruct (decide (dn' = dn)) as [->|Hne].
  - destruct (step_cases (run evs (proxy_start w0)) dn r)
      as [(v & t & us & w & _ & Hr & -> & _ & ->)|[_ ->]]; [|done].
    apply round_cancelled in Hr as ->. intros ->. set_solver.
  - destruct (step_other (run evs (proxy_start w0)) dn dn' r) as [-> _]; [done|].
    intros Hc. by apply step_cancelled, IH.
Qed.

(** A task that ends by the end of its input, by a closed connection or by
    the cancellation has cancelled the token, and with it the other task; the
    relay as a whole succeeds exactly if both tasks came to their ends by
    themselves, and then it never hands back a connection for reuse: the hint is
    always [Refresh], since the download only ends so when the peer has closed. *)
Theorem relay_end w0 evs stream :
  let s := run evs (proxy_start w0) in
  (forall dn v, (exists k, task_of dn s = Done v (Ok k)) \/ task_of dn s = Done v (Err ConnectionClosed) ->
     token ∈ cancelled (sh_manager (world s))) /\
  (forall r, proxy_result stream s = Some (Ok r) <->
     r = Some (stream, Refresh) /\
     exists v1 k1 v2 k2, up s = Done v1 (Ok k1) /\ down s = Done v2 (Ok k2)).
Proof.
  intros s. split.
  - intros dn v Hd. apply (run_cancels w0 dn). fold s. by destruct Hd as [[k ->]| ->].
  - intros r. pose proof (run_closed w0 Download evs) as Hc. fold s in Hc. cbn in Hc.
    unfold proxy_result.
    destruct (up s) as [v1|v1|v1 [k1|e1]], (down s) as [v2|v2|v2 [k2|e2]];
      try (split; [done|naive_solver]).
    + rewrite Hc, andb_false_r. cbn. naive_solver.
    + case_decide; (split; [done|naive_solver]).
Qed.

(** C30: with buckets smaller than what the relay reads at once (a buffer holds
    32 KiB, and nothing checks the burst size of the configuration) a task that
    reads more than the burst waits for bandwidth for ever, whatever the clock;
    it has not written the data, and it is past the point at which it would
    notice a cancellation. *)
Theorem relay_hangs_over_burst dn r v w htb chunk :
  sh_qos w = QosHtb htb -> wf_htb htb -> r_selected r = SelRead chunk ->
  burst_size_bytes (h_config htb) < Z.of_nat (length chunk) ->
  exists w', rnd dn r v w = (Waiting v, [], w').
Proof.
  intros Hq (_ & Hwf & Hcap & _) Hs Hb. unfold task_round. rewrite Hs.
  destruct chunk as [|b chunk].
  { cbn in Hb. unfold wf_bucket in Hwf. lia. }
  set (c := b :: chunk) in *. clearbody c. rewrite Hq. unfold engine_allocate.
  rewrite <- Hcap in Hb. assert (Hn : 0 <= Z.of_nat (length c)) by lia.
  destruct (try_consume_spec (at_global (r_clock r)) (Z.of_nat (length c)) (global_bucket htb) Hn Hwf)
    as (Hc & Ht).
  pose proof (try_consume_wf (at_global (r_clock r)) (Z.of_nat (length c)) (global_bucket htb) Hn Hwf) as Hw.
  pose proof (refill_sync_tokens (at_global (r_clock r)) _ Hwf) as Ha. unfold available in Ha.
  unfold Qos.allocate_bandwidth.
  destruct (try_consume _ _ (global_bucket htb)) as [res gb]. cbn in *.
  destruct Ht as [(_ & _ & Ht)|(-> & -> & Ht)]; [lia|].
  pose proof (consume_over_capacity (global_rounds (r_clock r)) (Z.of_nat (length c))
    (refill_sync (at_global (r_clock r)) (global_bucket htb)) Hw) as Hnone.
  destruct (consume _ _ _) as [served gb']. cbn in Hnone. rewrite Hnone by lia.
  by eexists.
Qed.
End relay.

(** ** Concrete runs *)

Definition no_clock : alloc_clock := mkAllocClock 0 [] 0 0 0 0 [].
Definition demo_world (q : QosEngine) : shared unit :=
  mkShared (SessionManager_new SessionMetrics_init) q.
Definition sending (bs : list u8) : round := mkRound (SelRead bs) no_clock None.

(** The client sends five bytes, then closes; the download is cancelled. *)
Definition demo_events : list proxy_event :=
  [(Upload, sending [x01; x02; x03]); (Upload, sending [x04; x05]); (Upload, sending []);
   (Download, mkRound SelCancelled no_clock None)].

Lemma relay_accounting_witness :
  let s := proxy_run 50 7 70 "alice" demo_events (proxy_start (demo_world QosNone)) in
  1 <= 50 /\ delivered (vars (up s)) = [x01; x02; x03; x04; x05] /\
  up_updates s = [mkTrafficUpdate 7 5 0 2 0] /\
  delivered (vars (task_of Upload s)) `prefix_of` read_of Upload demo_events.
Proof.
  intros s. split; [lia|]. split; [vm_compute; reflexivity|]. split; [vm_compute; reflexivity|].
  exact (proj1 (relay_accounting 50 7 70 "alice" (demo_world QosNone) Upload demo_events ltac:(lia))).
Defined.

Lemma relay_end_witness :
  let s := proxy_run 50 7 70 "alice" demo_events (proxy_start (demo_world QosNone)) in
  (exists v k, task_of Upload s = Done v (Ok k)) /\ 70 ∈ cancelled (sh_manager (world s)).
Proof.
  intros s.
  assert (Hd : exists v k, task_of Upload s = Done v (Ok k)) by (eexists _, _; vm_compute; reflexivity).
  split; [exact Hd|]. destruct Hd as (v & k & Hd).
  apply (proj1 (relay_end 50 7 70 "alice" (demo_world QosNone) demo_events
                  (mkTcpStream 1 (mkSocketAddr (V4 [x7f; x00; x00; x01]) 80))) Upload v).
  left. exists k. exact Hd.
Defined.

Definition small_htb : HtbQos := HtbQos_new 0 (mkHtbConfig 1000 100 1000 3 50 true 100 5).

Lemma relay_hangs_over_burst_witness :
  let r := sending [x01; x02; x03; x04] in
  wf_htb small_htb /\
  exists w', task_round 50 7 70 "alice" Upload r task_init (demo_world (QosHtb small_htb)) =
             (Waiting task_init, [], w').
Proof.
  intros r.
  assert (Hw : wf_htb small_htb).
  { refine (conj _ (conj _ (conj _ (conj _ (map_Forall_empty _))))); vm_compute; intuition discriminate. }
  split; [exact Hw|].
  apply (relay_hangs_over_burst 50 7 70 "alice" Upload r task_init (demo_world (QosHtb small_htb))
           small_htb [x01; x02; x03; x04]); [reflexivity|exact Hw|reflexivity|vm_compute; reflexivity].
Defined.
