(* ===== verification/QosMetrics.v ===== *)
(** * The counters of the bandwidth

    src/src/qos/metrics.rs, and where src/src/qos/htb.rs and
    src/src/server/proxy.rs use it: the bytes that were granted to each user in
    each direction, and how long allocations waited.  (The gauge of the active
    users is in [Qos.QosState].) *)
From S2P Require Import Prelude Net Stream TokenBucket Qos Pool Session Manager Proxy.

Definition metric_label (dn : TrafficDirection) : string :=
  match dn with Upload => "upload" | Download => "download" end.

(** The second is the list of the observations of the histogram, in nanoseconds. *)
Record QosMetrics : Type := mkQosMetrics {
  BANDWIDTH_ALLOCATED : gmap (string * string) Z;
  ALLOCATION_WAIT : list Z;
}.
Definition QosMetrics_init : QosMetrics := mkQosMetrics ∅ [].

Definition record_allocation (user direction : string) (bytes : Z) (m : QosMetrics) : QosMetrics :=
  mkQosMetrics (inc_label (user, direction) bytes (BANDWIDTH_ALLOCATED m)) (ALLOCATION_WAIT m).
Definition observe_wait (duration : Z) (m : QosMetrics) : QosMetrics :=
  mkQosMetrics (BANDWIDTH_ALLOCATED m) (ALLOCATION_WAIT m ++ [duration]).

(** The observations of [allocate_bandwidth]; [waited] are what its two stop
    watches say, when they are read. *)
Definition allocation_waits (t : alloc_clock) (waited : Z * Z) (user : string) (bytes : Z) (q : HtbQos)
    (m : QosMetrics) : QosMetrics :=
  match (allocate_bandwidth t user bytes q).1 with
  | alloc_wait_global => m
  | outcome =>
    let m := match (try_consume (at_global t) bytes (global_bucket q)).1 with
             | Ok _ => m
             | Err _ => observe_wait waited.1 m
             end in
    match outcome with alloc_waited => observe_wait waited.2 m | _ => m end
  end.

Definition engine_waits (t : alloc_clock) (waited : Z * Z) (user : string) (bytes : Z) (e : QosEngine)
    (m : QosMetrics) : QosMetrics :=
  match e with QosNone => m | QosHtb q => allocation_waits t waited user bytes q m end.

(** What a round of [proxy_upload] or [proxy_download] records. *)
Definition round_metrics (dn : TrafficDirection) (r : round) (waited : Z * Z) (usr : string) (e : QosEngine)
    (m : QosMetrics) : QosMetrics :=
  match r_selected r with
  | SelRead (b :: chunk) =>
    let n := Z.of_nat (length (b :: chunk)) in
    let m := engine_waits (r_clock r) waited usr n e m in
    if (engine_allocate (r_clock r) usr n e).1 then record_allocation usr (metric_label dn) n m else m
  | _ => m
  end.

Section measured.
Context {T : Type} `{!SessionSink T} (interval session token : Z) (usr : string).

(** A step of the relay with what it records. *)
Definition measured_step (sm : proxy_state T * QosMetrics) (ev : proxy_event * (Z * Z))
    : proxy_state T * QosMetrics :=
  let '(s, m) := sm in
  let '((dn, r), waited) := ev in
  (proxy_step interval session token usr s (dn, r),
   match (match dn with Upload => up s | Download => down s end) with
   | Running _ => round_metrics dn r waited usr (sh_qos (world s)) m
   | _ => m
   end).
Definition measured_run (evs : list (proxy_event * (Z * Z))) (sm : proxy_state T * QosMetrics)
    : proxy_state T * QosMetrics :=
  fold_left measured_step evs sm.
End measured.
