(* ===== verification/QosMetricsSpec.v ===== *)
(** * Properties of the counters of the bandwidth

    The counter of a user and a direction is what the relay forwarded, up to one
    buffer; the gauge counts the users that hold a connection. *)
From stdpp Require Import gmultiset.
From S2P Require Import Prelude Net Stream TokenBucket Qos QosSpec Pool Session Manager Proxy ProxySpec QosMetrics.

Definition allocated (m : QosMetrics) (user : string) (dn : TrafficDirection) : Z :=
  default 0 (BANDWIDTH_ALLOCATED m !! (user, metric_label dn)).

Lemma allocated_record m user dn dn' n :
  allocated (record_allocation user (metric_label dn') n m) user dn =
  if decide (dn' = dn) then wadd64 (allocated m user dn) n else allocated m user dn.
Proof.
  unfold allocated, record_allocation, inc_label. cbn. case_decide as Hd.
  - subst dn'. by rewrite lookup_insert_eq.
  - rewrite lookup_insert_ne; [done|]. by destruct dn, dn'.
Qed.

Lemma allocated_waits t waited user bytes e m usr dn :
  allocated (engine_waits t waited user bytes e m) usr dn = allocated m usr dn.
Proof.
  unfold engine_waits, allocation_waits. destruct e as [|q]; [done|].
  destruct (allocate_bandwidth t user bytes q).1, (try_consume (at_global t) bytes (global_bucket q)).1; done.
Qed.

Section measured.
Context {T : Type} `{!SessionSink T} (interval session token : Z) (usr : string).
Implicit Types (s : proxy_state T) (w : shared T).
#[local] Abbreviation rnd := (task_round interval session token usr).

(** What the counter has over the bytes that were written. *)
Definition surplus (t : task) (extra : Z) : Prop :=
  0 <= extra <= BUFFER_SIZE /\ match t with Done _ _ => True | _ => extra = 0 end.
Definition forwarded (m0 m : QosMetrics) (dn : TrafficDirection) (t : task) : Prop :=
  exists extra, surplus t extra /\
    allocated m usr dn = wrap64 (allocated m0 usr dn + Z.of_nat (length (delivered (vars t))) + extra).

Definition chunk_ok (r : round) : Prop :=
  match r_selected r with SelRead chunk => Z.of_nat (length chunk) <= BUFFER_SIZE | _ => True end.

Lemma flush_delivered dn v w : delivered (flush_pending_now session dn v w).1.1 = delivered v.
Proof. unfold flush_pending_now. by destruct (pending_p v =? 0). Qed.

Lemma finish_delivered dn c1 c2 v w : exists v' r,
  (finish session token dn c1 c2 v w).1.1 = Done v' r /\ delivered v' = delivered v.
Proof.
  unfold finish. pose proof (flush_delivered dn v w) as Hf. destruct (flush_pending_now session dn v w) as [[v' us] w'].
  eexists _, _. split; [reflexivity|exact Hf].
Qed.

Lemma fail_delivered dn e v w : exists v' r, (fail session dn e v w).1.1 = Done v' r /\ delivered v' = delivered v.
Proof.
  unfold fail. pose proof (flush_delivered dn v w) as Hf. destruct (flush_pending_now session dn v w) as [[v' us] w'].
  eexists _, _. split; [reflexivity|exact Hf].
Qed.

(** The task ends or goes on, having written [k] of the bytes that were counted. *)
Lemma forwarded_end m0 m dn v t v' r extra :
  t = Done v' r -> 0 <= extra <= BUFFER_SIZE ->
  allocated m usr dn = wrap64 (allocated m0 usr dn + Z.of_nat (length (delivered v)) + extra) ->
  delivered v' = delivered v -> forwarded m0 m dn t.
Proof. intros -> He Ha Hd. exists extra. cbn. rewrite Hd. by split; [split|]. Qed.

Lemma forwarded_stop m0 m dn v t :
  forwarded m0 m dn (Running v) -> (exists v' r, t = Done v' r /\ delivered v' = delivered v) -> forwarded m0 m dn t.
Proof.
  intros (extra & (He & E) & Ha) (v' & r & Ht & Hd). cbn in E. subst extra.
  by apply (forwarded_end m0 m dn v t v' r 0).
Qed.

(** The counter after a chunk that was granted. *)
Lemma allocated_grant m0 m dn v n :
  forwarded m0 m dn (Running v) ->
  wadd64 (allocated m usr dn) n = wrap64 (allocated m0 usr dn + Z.of_nat (length (delivered v)) + n).
Proof. intros (extra & (_ & E) & Ha). cbn in E, Ha. subst extra. rewrite Ha, wadd64_wrap. f_equal. lia. Qed.

Lemma round_forwarded dn r waited v w m0 m t us w' :
  chunk_ok r -> forwarded m0 m dn (Running v) -> rnd dn r v w = (t, us, w') ->
  forwarded m0 (round_metrics dn r waited usr (sh_qos w) m) dn t.
Proof.
  intros Hok Hf Hr. assert (Ht : t = (rnd dn r v w).1.1) by by rewrite Hr. clear Hr. subst t.
  unfold task_round, round_metrics, chunk_ok in *. destruct (r_selected r) as [|[|b chunk]|e].
  - apply (forwarded_stop _ _ _ v); [done|apply finish_delivered].
  - apply (forwarded_stop _ _ _ v); [done|apply finish_delivered].
  - destruct (engine_allocate (r_clock r) usr (Z.of_nat (length (b :: chunk))) (sh_qos w)) as [granted qos]. cbn [fst].
    set (m' := engine_waits _ _ _ _ _ m).
    assert (Hf' : forwarded m0 m' dn (Running v)).
    { destruct Hf as (extra & Hs & Ha). exists extra. split; [done|]. unfold m'. by rewrite allocated_waits. }
    clearbody m'. destruct granted; cbn [negb]; [|exact Hf'].
    pose proof (allocated_grant m0 m' dn v (Z.of_nat (length (b :: chunk))) Hf') as Hg.
    assert (Hrec : allocated (record_allocation usr (metric_label dn) (Z.of_nat (length (b :: chunk))) m') usr dn =
      wrap64 (allocated m0 usr dn + Z.of_nat (length (delivered v)) + Z.of_nat (length (b :: chunk))))
      by by rewrite allocated_record, decide_True.
    destruct (r_write r) as [[k e]|].
    + set (v' := mkTaskVars _ _ _ _ _).
      assert (Hend : exists v2 res, (if is_connection_closed_error e then finish session token dn false true v' (mkShared (sh_manager w) qos)
        else fail session dn e v' (mkShared (sh_manager w) qos)).1.1 = Done v2 res /\ delivered v2 = delivered v')
        by (destruct (is_connection_closed_error e); [apply finish_delivered|apply fail_delivered]).
      destruct Hend as (v2 & res & -> & Hd). pose proof (length_take (b :: chunk) k) as Hk.
      apply (forwarded_end _ _ _ v' _ v2 res (Z.of_nat (length (b :: chunk)) - Z.of_nat (length (take k (b :: chunk))))); [done|lia| |done].
      rewrite Hrec. f_equal. unfold v'. cbn [delivered]. rewrite length_app. lia.
    + set (v' := mkTaskVars _ _ _ _ _).
      assert (Hrun : forall v2, delivered v2 = delivered v' -> forwarded m0 (record_allocation usr (metric_label dn)
        (Z.of_nat (length (b :: chunk))) m') dn (Running v2)).
      { intros v2 Hd. exists 0. split; [done|]. cbn [vars]. rewrite Hrec, Hd. f_equal. unfold v'. cbn [delivered]. rewrite length_app. lia. }
      destruct (interval <=? pending_p v'); [|by apply Hrun]. pose proof (flush_delivered dn v' (mkShared (sh_manager w) qos)) as Hfl.
      unfold enqueue_pending_update. destruct (flush_pending_now session dn v' (mkShared (sh_manager w) qos)) as [[v2 us2] w2]. by apply Hrun.
  - destruct (is_connection_closed_error e); apply (forwarded_stop _ _ _ v); try done; [apply finish_delivered|apply fail_delivered].
Qed.

(** Nothing else counts for the direction: the other task has the other label. *)
Lemma round_other dn dn' r waited e m :
  dn <> dn' -> allocated (round_metrics dn' r waited usr e m) usr dn = allocated m usr dn.
Proof.
  intros Hne. unfold round_metrics. destruct (r_selected r) as [|[|b chunk]|err]; try done.
  destruct (engine_allocate _ _ _ e).1; [|apply allocated_waits].
  rewrite allocated_record, decide_False; [apply allocated_waits|congruence].
Qed.

Lemma forwarded_ext m0 m m' dn t :
  allocated m' usr dn = allocated m usr dn -> forwarded m0 m dn t -> forwarded m0 m' dn t.
Proof. intros Ha (extra & Hs & He). exists extra. by rewrite Ha. Qed.

#[local] Abbreviation mstep := (measured_step interval session token usr).
#[local] Abbreviation mrun := (measured_run interval session token usr).

Lemma step_forwarded m0 dn (sm : proxy_state T * QosMetrics) ev :
  chunk_ok ev.1.2 -> forwarded m0 sm.2 dn (task_of dn sm.1) ->
  forwarded m0 (mstep sm ev).2 dn (task_of dn (mstep sm ev).1).
Proof.
  destruct sm as [s m], ev as [[dn' r] waited]. intros Hok Hf. cbn [measured_step fst snd] in *.
  fold (task_of dn' s). destruct (decide (dn' = dn)) as [->|Hne].
  - destruct (step_cases interval session token usr s dn r) as [(v & t & us & w & Hv & Hr & -> & _)|[Hn ->]].
    + rewrite Hv in *. by apply (round_forwarded _ r waited v (world s) m0 m t us w).
    + destruct (task_of dn s) as [v|v|v q]; [by destruct (Hn v)|done|done].
  - destruct (step_other interval session token usr s dn dn' r) as [-> _]; [done|].
    apply (forwarded_ext _ m); [|done]. destruct (task_of dn' s); [|done|done]. by apply round_other.
Qed.

Lemma run_forwarded (w : shared T) m0 dn evs :
  is_u64 (allocated m0 usr dn) -> Forall (fun ev => chunk_ok ev.1.2) evs ->
  let sm := mrun evs (proxy_start w, m0) in forwarded m0 sm.2 dn (task_of dn sm.1).
Proof.
  intros Hm. induction evs as [|ev evs IH] using rev_ind; intros Hok sm; unfold sm, measured_run.
  - exists 0. split; [by destruct dn|]. cbn. destruct dn; cbn; rewrite !Z.add_0_r, wrap64_id; done.
  - rewrite Forall_app, Forall_singleton in Hok. destruct Hok as [Hok Hev].
    rewrite fold_left_app. by apply step_forwarded, IH.
Qed.

(** C40: the bytes counted as allocated to the user in a direction are those that
    were forwarded in it, however the sockets behave, however the two tasks
    interleave and whatever the engine grants: exactly those while the task runs
    or waits, and after its end at most one buffer more, since a chunk is counted
    before it is written. *)
Theorem allocated_is_forwarded (w : shared T) m0 dn evs :
  is_u64 (allocated m0 usr dn) -> Forall (fun ev => chunk_ok ev.1.2) evs ->
  let sm := mrun evs (proxy_start w, m0) in
  exists extra, surplus (task_of dn sm.1) extra /\
    allocated sm.2 usr dn =
      wrap64 (allocated m0 usr dn + Z.of_nat (length (delivered (vars (task_of dn sm.1)))) + extra).
Proof. apply run_forwarded. Qed.
End measured.

(** The client sends three bytes, which are written, then two, of which the
    server takes one before its connection breaks. *)
Definition broken_events : list (proxy_event * (Z * Z)) :=
  [((Upload, sending [x01; x02; x03]), (0, 0));
   ((Upload, mkRound (SelRead [x04; x05]) no_clock (Some (1%nat, BrokenPipe))), (0, 0))].

Lemma allocated_is_forwarded_witness :
  let sm := measured_run 50 7 70 "alice" broken_events (proxy_start (demo_world QosNone), QosMetrics_init) in
  delivered (vars (up sm.1)) = [x01; x02; x03; x04] /\ allocated sm.2 "alice" Upload = 5 /\
  exists extra, 0 <= extra <= BUFFER_SIZE /\ 5 = wrap64 (0 + 4 + extra).
Proof.
  intros sm. split; [vm_compute; reflexivity|]. split; [vm_compute; reflexivity|].
  destruct (allocated_is_forwarded 50 7 70 "alice" (demo_world QosNone) QosMetrics_init Upload broken_events)
    as (extra & [He _] & Ha).
  - vm_compute. intuition discriminate.
  - repeat constructor; vm_compute; discriminate.
  - exists extra. split; [exact He|]. exact Ha.
Defined.

(** ** The gauge of the active users *)

(** What reaches the engine: a connection that asks to be counted, a connection
    that was counted and closes, and an allocation. *)
Inductive usage : Type :=
| Connect (now : Z) (user : string) (limits : ConnectionLimits)
| Disconnect (user : string)
| Allocate (t : alloc_clock) (user : string) (bytes : Z).

(** The users of the open connections that were counted, with the engine. *)
Definition use (hs : gmultiset string * QosState) (op : usage) : gmultiset string * QosState :=
  let '(held, s) := hs in
  match op with
  | Connect now user limits =>
    let '(r, s) := check_and_inc_connection now user limits s in
    (match r with Ok _ => held ⊎ {[+ user +]} | Err _ => held end, s)
  | Disconnect user => if decide (user ∈ held) then (held ∖ {[+ user +]}, dec_user_connection user s) else hs
  | Allocate t user bytes => (held, mkQosState (engine_allocate t user bytes (qs_engine s)).2 (active_qos_users s))
  end.

(** The counters of the engine are the connections, and the gauge their users. *)
Definition gauged (hs : gmultiset string * QosState) : Prop :=
  active_qos_users hs.2 = Z.of_nat (size (dom hs.1)) /\
  (forall u, qos_get_user_connections u (qs_engine hs.2) = Z.of_nat (multiplicity u hs.1)) /\
  (forall u, is_u64 (qos_get_user_connections u (qs_engine hs.2))).

Lemma dom_connect (held : gmultiset string) u :
  size (dom (held ⊎ {[+ u +]})) = (size (dom held) + if decide (u ∈ held) then 0 else 1)%nat.
Proof.
  replace (dom (held ⊎ {[+ u +]})) with (dom held ∪ {[u]})
    by (apply set_eq; intros v; rewrite !gmultiset_elem_of_dom, elem_of_union, gmultiset_elem_of_dom; multiset_solver).
  case_decide as Hu.
  - rewrite (union_comm_L (dom held)), subseteq_union_1_L; [lia|]. apply singleton_subseteq_l. by apply gmultiset_elem_of_dom.
  - rewrite size_union, size_singleton; [done|]. apply disjoint_singleton_r. by rewrite gmultiset_elem_of_dom.
Qed.

Lemma dom_disconnect (held : gmultiset string) u :
  u ∈ held -> size (dom held) =
    (size (dom (held ∖ {[+ u +]})) + if decide (u ∈ held ∖ {[+ u +]}) then 0 else 1)%nat.
Proof.
  intros Hu. rewrite <- dom_connect. f_equal. f_equal. multiset_solver.
Qed.

Lemma allocation_keeps_counts t user bytes e u :
  qos_get_user_connections u (engine_allocate t user bytes e).2 = qos_get_user_connections u e.
Proof.
  destruct e as [|q]; [done|]. unfold engine_allocate, allocate_bandwidth, get_or_create_user_bucket.
  repeat (case_match; simplify_eq/=; try done); unfold get_user_connections, set_user, set_global in *; simplify_eq/=;
    (destruct (decide (u = user)) as [->|Hu]; rewrite ?lookup_insert_eq, ?lookup_insert_ne by done; simplify_eq/=;
     repeat match goal with H : user_buckets _ !! _ = _ |- _ => rewrite H end; done).
Qed.

Definition usage_ok (op : usage) : Prop :=
  match op with Connect _ _ limits => is_u64 (max_connections_per_user limits) | _ => True end.

Lemma check_and_inc_cases now user limits s :
  (exists e, check_and_inc_connection now user limits s = (Err e, s)) \/
  (qs_engine s = QosNone /\ check_and_inc_connection now user limits s = (Ok 0, s)) \/
  exists q, qs_engine s = QosHtb q /\ get_user_connections user q < max_connections_per_user limits /\
    let '(count, q') := inc_user_connections now user q in
    check_and_inc_connection now user limits s =
      (Ok count, mkQosState (QosHtb q') (if count =? 1 then active_qos_users s + 1 else active_qos_users s)).
Proof.
  unfold check_and_inc_connection. destruct (qs_engine s) as [|q]; [by right; left|].
  destruct (_ <=? get_total_connections q); [left; by eexists|].
  destruct (Z.leb_spec (max_connections_per_user limits) (get_user_connections user q)); [left; by eexists|].
  right; right. exists q. by destruct (inc_user_connections now user q).
Qed.

Lemma inc_count now user q :
  (inc_user_connections now user q).1 = wadd64 (get_user_connections user q) 1.
Proof.
  unfold inc_user_connections, get_or_create_user_bucket, get_user_connections.
  by destruct (user_buckets q !! user).
Qed.
Lemma dec_count user q : (dec_user_connections user q).1 = sat_sub64 (get_user_connections user q) 1.
Proof. unfold dec_user_connections, get_user_connections. by destruct (user_buckets q !! user). Qed.

Lemma connect_gauged now user limits held s :
  qs_engine s <> QosNone -> is_u64 (max_connections_per_user limits) -> gauged (held, s) ->
  gauged (use (held, s) (Connect now user limits)).
Proof.
  intros He Hl (Hg & Hc & Hb). cbn [fst snd use] in *.
  destruct (check_and_inc_cases now user limits s) as [[e ->]|[[Hn _]|(q & Hq & Hlt & Hr)]]; [done|done|].
  rewrite Hq in Hc, Hb. cbn [qos_get_user_connections] in Hc, Hb. pose proof (inc_count now user q) as Hcount.
  destruct (Limits.inc_counts now user q) as [_ Hu]. destruct (inc_user_connections now user q) as [n q']. rewrite Hr.
  cbn [fst snd] in *. pose proof (Hc user) as Hcu. pose proof (Hb user) as Hbu. rewrite wadd64_id in Hcount by zsolve. subst n.
  split_and!; cbn [active_qos_users qs_engine fst snd qos_get_user_connections].
  - rewrite dom_connect, Hg, Hcu. pose proof (elem_of_multiplicity user held).
    case_decide; destruct (Z.eqb_spec (Z.of_nat (multiplicity user held) + 1) 1); naive_solver lia.
  - intros v. rewrite Hu, multiplicity_disj_union, multiplicity_singleton. case_decide as Hv.
    + subst v. rewrite wadd64_id by zsolve. lia.
    + rewrite Hc. lia.
  - intros v. rewrite Hu. case_decide; [rewrite wadd64_id by zsolve; zsolve|apply Hb].
Qed.

Lemma disconnect_gauged user held s :
  qs_engine s <> QosNone -> gauged (held, s) -> gauged (use (held, s) (Disconnect user)).
Proof.
  intros He (Hg & Hc & Hb). cbn [fst snd use] in *. case_decide as Hin; [|done].
  unfold dec_user_connection. destruct (qs_engine s) as [|q]; [done|].
  cbn [qos_get_user_connections] in Hc, Hb. pose proof (dec_count user q) as Hcount.
  pose proof (Hc user) as Hcu. pose proof (Hb user) as Hbu. pose proof Hin as Hm. rewrite elem_of_multiplicity in Hm.
  destruct (Limits.dec_counts user q) as [_ Hu]; [lia|]. destruct (dec_user_connections user q) as [n q'].
  cbn [fst snd] in *. split_and!; cbn [active_qos_users qs_engine fst snd qos_get_user_connections].
  - rewrite Hg, (dom_disconnect held user Hin). subst n.
    rewrite Hcu. pose proof (elem_of_multiplicity user (held ∖ {[+ user +]})) as Hd.
    rewrite multiplicity_difference, multiplicity_singleton_eq in Hd.
    destruct (decide (user ∈ held ∖ {[+ user +]})) as [Hr|Hr];
      destruct (Z.eqb_spec (sat_sub64 (Z.of_nat (multiplicity user held)) 1) 0) as [Hz|Hz]; unfold sat_sub64 in Hz; try lia.
    + apply Hd in Hr. lia.
    + exfalso. apply Hr, Hd. lia.
  - intros v. rewrite Hu, multiplicity_difference. destruct (decide (v = user)) as [->|Hv].
    + rewrite multiplicity_singleton_eq, Hcu. rewrite wsub64_id by zsolve. lia.
    + rewrite Hc, multiplicity_singleton_ne by done. lia.
  - intros v. rewrite Hu. case_decide; [rewrite wsub64_id by zsolve; zsolve|apply Hb].
Qed.

Lemma use_gauged hs op : qs_engine hs.2 <> QosNone -> usage_ok op -> gauged hs -> gauged (use hs op).
Proof.
  destruct hs as [held s], op as [now u l|u|t u n]; intros He Hok Hg; cbn [snd] in He.
  - by apply connect_gauged.
  - by apply disconnect_gauged.
  - destruct Hg as (Hg & Hc & Hb). split; [done|]. split; intros v; cbn; rewrite allocation_keeps_counts; [apply Hc|apply Hb].
Qed.

Lemma use_engine hs op : qs_engine hs.2 <> QosNone -> qs_engine (use hs op).2 <> QosNone.
Proof.
  destruct hs as [held s], op as [now u l|u|t u n]; cbn [use snd]; intros He.
  - destruct (check_and_inc_cases now u l s) as [[e ->]|[[Hn _]|(q & Hq & _ & Hr)]]; [done|done|].
    destruct (inc_user_connections now u q). by rewrite Hr.
  - case_decide; [|done]. unfold dec_user_connection. destruct (qs_engine s); [done|].
    by destruct (dec_user_connections u _).
  - destruct (qs_engine s) as [|q]; [done|]. unfold engine_allocate. repeat case_match; done.
Qed.

(** C27: From an engine without connections, the gauge of the active users is the
    number of different users that hold a counted connection, and the engine's
    count of a user the number of the user's connections, after any sequence of
    requests to connect under any limits, of disconnections of connections that
    were counted, and of allocations. *)
Theorem gauge_counts_users s ops :
  qs_engine s <> QosNone -> gauged (∅, s) -> Forall usage_ok ops ->
  let '(held, s') := fold_left use ops (∅, s) in
  active_qos_users s' = Z.of_nat (size (dom held)) /\
  forall u, qos_get_user_connections u (qs_engine s') = Z.of_nat (multiplicity u held).
Proof.
  intros He H0 Hok.
  assert (Hinv : let hs := fold_left use ops (∅, s) in qs_engine hs.2 <> QosNone /\ gauged hs).
  { induction ops as [|op ops IH] using rev_ind; [done|]. rewrite Forall_app, Forall_singleton in Hok.
    destruct Hok as [Hok Hop]. destruct (IH Hok) as [Hn Hg]. rewrite fold_left_app. cbn [fold_left].
    destruct (fold_left use ops (∅, s)) as [held s1]. split; [by apply use_engine|by apply use_gauged]. }
  cbn in Hinv. destruct (fold_left use ops (∅, s)) as [held s'], Hinv as (_ & Hg & Hc & _). by split.
Qed.

Definition two_users : list usage :=
  [Connect 0 "alice" (mkConnectionLimits 2 10); Connect 0 "bob" (mkConnectionLimits 2 10);
   Connect 1 "alice" (mkConnectionLimits 2 10); Connect 2 "alice" (mkConnectionLimits 2 10); Disconnect "bob"].

Lemma gauge_counts_users_witness :
  let s := mkQosState (QosHtb (HtbQos_new 0 HtbConfig_default)) 0 in
  let hs := fold_left use two_users (∅, s) in
  active_qos_users hs.2 = 1 /\ qos_get_user_connections "alice" (qs_engine hs.2) = 2 /\
  active_qos_users hs.2 = Z.of_nat (size (dom hs.1)).
Proof.
  intros s hs. split; [vm_compute; reflexivity|]. split; [vm_compute; reflexivity|].
  assert (H0 : gauged (∅, s)) by (split; [vm_compute; reflexivity|split; intros u; vm_compute; [reflexivity|split; discriminate]]).
  assert (Hok : Forall usage_ok two_users) by (repeat constructor; vm_compute; discriminate).
  pose proof (gauge_counts_users s two_users ltac:(discriminate) H0 Hok) as Hg.
  unfold hs. destruct (fold_left use two_users (∅, s)). exact (proj1 Hg).
Defined.
