(* ===== verification/Handler.v ===== *)
(** * The connection handler

    src/src/server/handler.rs, src/src/server/resolver.rs and
    src/src/server/bind.rs.  A handler is a program over the calls it makes: to the
    client's stream, to the other components, and to the network.  Another
    connection may change the shared components between any two calls, so the
    answer of a call is arbitrary here; [Server.v] answers the calls with the
    components themselves.  Socket options, logging and the display of the peer's
    address are left out. *)
From S2P Require Import Prelude Net Stream Protocol Acl Auth Session.
From S2P Require Pool.

(** ** Replies *)

Definition any_v4 : list u8 := [x00; x00; x00; x00].

Definition send_socks_response (protocol : SocksProtocol) (reply : ReplyCode) (bind_addr : Address)
    (bind_port : Z) : io () :=
  match protocol with
  | SocksV5 => send_socks5_response reply bind_addr bind_port
  | SocksV4 =>
    let socks4_reply := match reply with Succeeded => Granted | _ => Rejected end in
    let addr_octets := match bind_addr with IPv4 octets => octets | _ => any_v4 end in
    let port := match reply with Succeeded => bind_port | _ => 0 end in
    send_socks4_response socks4_reply addr_octets port
  end.

Definition address_of_ip (ip : IpAddr) : Address :=
  match ip with V4 octets => IPv4 octets | V6 octets => IPv6 octets end.

Definition send_bind_response (reply : ReplyCode) (bind_addr : SocketAddr) : io () :=
  let response := [x05; ReplyCode_to_u8 reply; x00] in
  let response := match sa_ip bind_addr with
                  | V4 octets => response ++ [x01] ++ octets
                  | V6 octets => response ++ [x04] ++ octets
                  end in
  send (response ++ to_be_bytes (sa_port bind_addr)).

(** ** Programs *)

(** What a handler does with its client. *)
Inductive client_op : Type -> Type :=
| KVersion : client_op u8
| KGreeting (version : u8) : client_op ClientGreeting
| KChoice (method : AuthMethod) : client_op ()
| KAuth (method : AuthMethod) (ip : IpAddr) : client_op (option (string * list string))
| KRequest5 : client_op Socks5Request
| KRequest4 : client_op Socks4Request
| KReply (protocol : SocksProtocol) (reply : ReplyCode) (addr : Address) (port : Z) : client_op ()
| KBindReply (reply : ReplyCode) (addr : SocketAddr) : client_op ().

(** The three ways in which the wait for an incoming connection ends, and those
    of the wait on the control connection of a UDP association. *)
Inductive accepted : Type :=
| Accepted (stream : Pool.TcpStream) | AcceptError (e : ErrorKind) | AcceptTimeout.
Inductive control : Type := ControlClosed | ControlData | ControlCancelled.

Inductive call : Type -> Type :=
| CClient {A} (op : client_op A) : call (result RustSocksError A)
| CIntoInner : call () (* [BufReader::into_inner] *)
| CQosInc (user : string) : call (result RustSocksError Z)
| CQosDec (user : string) : call ()
| CQosDrop : call () (* a handle of the engine is dropped *)
| CEvaluate (user : string) (groups : list string) (dest : Address) (port : Z) (protocol : AclProtocol)
    : call (AclDecision * option string)
| CRecordBlock (user : string) : call ()
| CRecordAllow (user : string) : call ()
| CRejected (user : string) (conn : ConnectionInfo) (rule : option string) : call ()
| CNewSession (user : string) (conn : ConnectionInfo) (decision : string) (rule : option string)
    (udp : option Z) : call (Z * Z)
| CCloseSession (id : Z) (reason : string) (status : SessionStatus) : call ()
| CLookup (domain : string) (port : Z) : call (result ErrorKind (list SocketAddr))
| CPoolGet (addr : SocketAddr) : call (result ErrorKind Pool.TcpStream)
| CPoolPut (addr : SocketAddr) (stream : Pool.TcpStream) (hint : Pool.ReuseHint) : call ()
| CPoolRelease (addr : SocketAddr) (hint : Pool.ReuseHint) : call ()
| CLocalAddr (stream : Pool.TcpStream) : call (result ErrorKind SocketAddr)
| CProxy (stream : Pool.TcpStream) (id token : Z) (user : string)
    : call (result RustSocksError (option (Pool.TcpStream * Pool.ReuseHint)))
| CListen : call (result ErrorKind SocketAddr)
| CAccept : call accepted
| CUdpChannel : call Z
| CUdpBind : call (result ErrorKind SocketAddr)
| CSpawnRelay (client : SocketAddr) (id channel : Z) : call ()
| CControl (token : Z) : call control
| CUdpShutdown (channel : Z) : call ().

Inductive prog (R : Type) : Type :=
| Ret (r : R)
| Call {X : Type} (c : call X) (k : X -> prog R).
Arguments Ret {R} r.
Arguments Call {R X} c k.

Fixpoint pbind {R S} (p : prog R) (f : R -> prog S) : prog S :=
  match p with
  | Ret r => f r
  | Call c k => Call c (fun x => pbind (k x) f)
  end.

(** Programs that may fail, with [?] as their sequence. *)
Definition M (A : Type) : Type := prog (result RustSocksError A).
#[export] Instance M_ret : MRet M := fun A a => Ret (Ok a).
#[export] Instance M_bind : MBind M := fun A B f m =>
  pbind m (fun r => match r with Ok a => f a | Err e => Ret (Err e) end).
Definition raise {A} (e : RustSocksError) : M A := Ret (Err e).
Definition do_call {X} (c : call X) : M X := Call c (fun x => Ret (Ok x)).
Definition attempt {X} (c : call (result RustSocksError X)) : M X := Call c Ret.
Definition attempt_io {X} (c : call (result ErrorKind X)) : M X :=
  Call c (fun r => Ret (map_err Io r)).
Definition client {A} (op : client_op A) : M A := attempt (CClient op).

(** ** Resolution (resolver.rs) *)

Definition family_leb (a b : SocketAddr) : bool :=
  match sa_ip a, sa_ip b with V4 _, V6 _ => false | _, _ => true end.

Definition order_targets (targets : list SocketAddr) : result RustSocksError (list SocketAddr) :=
  match sort_by family_leb targets with
  | [] => Err (Io AddrNotAvailable)
  | targets => Ok targets
  end.

Definition resolve_address (address : Address) (port : Z) : M (list SocketAddr) :=
  match address with
  | IPv4 octets => Ret (order_targets [mkSocketAddr (V4 octets) port])
  | IPv6 octets => Ret (order_targets [mkSocketAddr (V6 octets) port])
  | Domain domain =>
    lookup ← attempt_io (CLookup domain port);
    Ret (order_targets lookup)
  end.

(** ** Handlers (handler.rs) *)

Record ClientHandlerContext `{AuthDeps} : Type := mkContext {
  auth_manager : AuthManager;
  acl_enabled : bool; (* [acl_engine.is_some()] *)
  anonymous_user : string;
}.

Record SessionContext : Type := mkSessionContext {
  sc_user : string;
  sc_client_addr : SocketAddr;
  sc_acl_decision : string;
  sc_acl_rule : option string;
  sc_protocol : Session.Protocol;
}.

Section handler.
Context `{AuthDeps}.

Definition refuse (protocol : SocksProtocol) (reply : ReplyCode) : M () :=
  client (KReply protocol reply (IPv4 any_v4) 0).

(** [_connection_guard]: it is dropped however the rest of the handler ends. *)
Definition guarded (user : string) (body : M ()) : M () :=
  pbind body (fun r => Call (CQosDec user) (fun _ => Call CQosDrop (fun _ => Ret r))).

(** The loop over the candidates: the connection and its address, or the last
    error. *)
Fixpoint connect_first (candidates : list SocketAddr) (last_err : option ErrorKind)
    : prog (option (Pool.TcpStream * SocketAddr) * option ErrorKind) :=
  match candidates with
  | [] => Ret (None, last_err)
  | target :: candidates =>
    Call (CPoolGet target) (fun r =>
      match r with
      | Ok stream => Ret (Some (stream, target), last_err)
      | Err e => connect_first candidates (Some e)
      end)
  end.

(** [Ipv4Addr::to_string], [Ipv6Addr::to_string] or the name itself. *)
Definition dest_host (dest : Address) : string :=
  match dest with
  | IPv4 octets => fmt_ipv4 octets
  | IPv6 octets => fmt_ipv6 octets
  | Domain domain => domain
  end.

Definition connection_info (client_addr : SocketAddr) (dest : string) (port : Z)
    (protocol : Session.Protocol) : ConnectionInfo :=
  mkConnectionInfo (sa_ip client_addr) (sa_port client_addr) dest port protocol.

Definition is_v4 (a : SocketAddr) : bool := match sa_ip a with V4 _ => true | V6 _ => false end.

(** The part of [handle_connect] after the upstream connection is there. *)
Definition serve_connection (protocol : SocksProtocol) (dest_addr : Address) (dest_port : Z)
    (session_ctx : SessionContext) (upstream : Pool.TcpStream) (upstream_addr : SocketAddr) : M () :=
  st ← do_call (CNewSession (sc_user session_ctx)
         (connection_info (sc_client_addr session_ctx) (dest_host dest_addr) dest_port
            (sc_protocol session_ctx))
         (sc_acl_decision session_ctx) (sc_acl_rule session_ctx) None);
  let '(session_id, cancel_token) := st in
  local_addr ← attempt_io (CLocalAddr upstream);
  let bind_addr := address_of_ip (sa_ip local_addr) in
  let bind_port := sa_port local_addr in
  if bool_decide (protocol = SocksV4) && negb (is_v4 local_addr) then
    _ ← refuse protocol AddressTypeNotSupported;
    raise (UnsupportedAddressType x04)
  else
    _ ← client (KReply protocol Succeeded bind_addr bind_port);
    pbind (attempt (CProxy upstream session_id cancel_token (sc_user session_ctx))) (fun r =>
      match r with
      | Ok reusable_stream =>
        _ ← (match reusable_stream with
             | Some (stream, hint) => do_call (CPoolPut upstream_addr stream hint)
             | None => do_call (CPoolRelease upstream_addr Pool.Refresh)
             end);
        do_call (CCloseSession session_id "Connection closed normally" Closed)
      | Err ConnectionClosed =>
        _ ← do_call (CPoolRelease upstream_addr Pool.Refresh);
        do_call (CCloseSession session_id "Connection closed by client" Closed)
      | Err e =>
        _ ← do_call (CPoolRelease upstream_addr Pool.Refresh);
        _ ← do_call (CCloseSession session_id ("Proxy error: " +:+ RustSocksError_fmt e) Failed);
        raise e
      end).

Definition handle_connect (protocol : SocksProtocol) (dest_addr : Address) (dest_port : Z)
    (session_ctx : SessionContext) : M () :=
  pbind (resolve_address dest_addr dest_port) (fun resolved =>
    match resolved with
    | Err e => _ ← refuse protocol HostUnreachable; raise e
    | Ok candidates =>
      let candidates := match protocol with
                        | SocksV4 => List.filter is_v4 candidates
                        | SocksV5 => candidates
                        end in
      if bool_decide (protocol = SocksV4) && bool_decide (candidates = []) then
        _ ← refuse protocol HostUnreachable;
        raise (Stream.Protocol "SOCKS4 requires IPv4 destination")
      else
        pbind (connect_first candidates None) (fun found =>
          match found with
          | (Some (upstream, upstream_addr), _) =>
            serve_connection protocol dest_addr dest_port session_ctx upstream upstream_addr
          | (None, last_err) =>
            _ ← refuse protocol HostUnreachable;
            raise (Io (default OtherKind last_err))
          end)
    end).

Definition handle_udp_associate (session_ctx : SessionContext) : M () :=
  channel ← do_call CUdpChannel;
  st ← do_call (CNewSession (sc_user session_ctx)
         (connection_info (sc_client_addr session_ctx) "0.0.0.0" 0 (sc_protocol session_ctx))
         (sc_acl_decision session_ctx) (sc_acl_rule session_ctx) (Some channel));
  let '(session_id, cancel_token) := st in
  pbind (attempt_io CUdpBind) (fun relay =>
    match relay with
    | Err e =>
      _ ← client (KReply SocksV5 GeneralFailure (IPv4 any_v4) 0);
      _ ← do_call (CCloseSession session_id ("UDP relay start failed: " +:+ RustSocksError_fmt e) Failed);
      raise e
    | Ok udp_relay_addr =>
      _ ← do_call (CSpawnRelay (sc_client_addr session_ctx) session_id channel);
      _ ← client (KReply SocksV5 Succeeded (address_of_ip (sa_ip udp_relay_addr)) (sa_port udp_relay_addr));
      c ← do_call (CControl cancel_token);
      match c with
      | ControlClosed =>
        _ ← do_call (CUdpShutdown channel);
        do_call (CCloseSession session_id "TCP control connection closed" Closed)
      | ControlData | ControlCancelled => mret ()
      end
    end).

(** ** BIND (bind.rs) *)

Definition handle_bind (dest_addr : Address) (dest_port : Z) (bind_ctx : SessionContext) : M () :=
  bind_addr ← attempt_io CListen;
  _ ← client (KBindReply Succeeded bind_addr);
  st ← do_call (CNewSession (sc_user bind_ctx)
         (connection_info (sc_client_addr bind_ctx) (Address_fmt dest_addr) dest_port Tcp)
         (sc_acl_decision bind_ctx) (sc_acl_rule bind_ctx) None);
  let '(session_id, cancel_token) := st in
  incoming ← do_call CAccept;
  match incoming with
  | Accepted incoming_stream =>
    let peer_addr := Pool.peer incoming_stream in
    _ ← client (KBindReply Succeeded peer_addr);
    pbind (attempt (CProxy incoming_stream session_id cancel_token (sc_user bind_ctx))) (fun r =>
      match r with
      | Ok (Some (stream, hint)) =>
        _ ← do_call (CPoolPut peer_addr stream hint);
        do_call (CCloseSession session_id "BIND connection closed normally" Closed)
      | Ok None =>
        _ ← do_call (CPoolRelease peer_addr Pool.Refresh);
        do_call (CCloseSession session_id "BIND connection closed normally" Closed)
      | Err ConnectionClosed =>
        _ ← do_call (CPoolRelease peer_addr Pool.Refresh);
        do_call (CCloseSession session_id "BIND connection closed by client" Closed)
      | Err e =>
        _ ← do_call (CPoolRelease peer_addr Pool.Refresh);
        _ ← do_call (CCloseSession session_id ("BIND proxy error: " +:+ RustSocksError_fmt e) Failed);
        raise e
      end)
  | AcceptError e =>
    _ ← client (KBindReply GeneralFailure (sc_client_addr bind_ctx));
    _ ← do_call (CCloseSession session_id ("Accept error: " +:+ fmt_io e) Failed);
    raise (Io e)
  | AcceptTimeout =>
    _ ← client (KBindReply GeneralFailure (sc_client_addr bind_ctx));
    _ ← do_call (CCloseSession session_id "BIND timeout waiting for connection" Failed);
    raise (Stream.Protocol "BIND: timeout waiting for connection")
  end.

(** ** Access control and dispatch *)

(** Step 3b: [None] when the connection is refused. *)
Definition enforce (ctx : ClientHandlerContext) (protocol : SocksProtocol) (client_addr : SocketAddr)
    (user : string) (groups : list string) (dest : Address) (port : Z)
    (acl_protocol : AclProtocol) (session_protocol : Session.Protocol)
    : M (option (string * option string)) :=
  if acl_enabled ctx then
    d ← do_call (CEvaluate user groups dest port acl_protocol);
    match d with
    | (DecisionBlock, matched_rule) =>
      _ ← do_call (CRecordBlock user);
      _ ← do_call (CRejected user
            (connection_info client_addr (Address_fmt dest) port session_protocol) matched_rule);
      _ ← refuse protocol ConnectionNotAllowed;
      mret None
    | (DecisionAllow, matched_rule) =>
      _ ← do_call (CRecordAllow user);
      mret (Some ("allow"%string, matched_rule))
    end
  else mret (Some ("allow"%string, None)).

(** The request of an authenticated client, steps 3 and 4 of [handle_socks5]. *)
Definition socks5_request (ctx : ClientHandlerContext) (client_addr : SocketAddr) (acl_user : string)
    (user_groups : list string) : M () :=
  request ← client KRequest5;
  let command := s5_command request in
  let dest := s5_address request in
  let port := s5_port request in
  let session_protocol := match command with UdpAssociate => Udp | _ => Tcp end in
  let acl_protocol := match command with UdpAssociate => Acl.Udp | _ => Acl.Tcp end in
  admitted ← enforce ctx SocksV5 client_addr acl_user user_groups dest port
               acl_protocol session_protocol;
  match admitted with
  | None => mret ()
  | Some (acl_decision, acl_rule) =>
    _ ← do_call CIntoInner;
    let session_ctx :=
      mkSessionContext acl_user client_addr acl_decision acl_rule session_protocol in
    match command with
    | Connect => handle_connect SocksV5 dest port session_ctx
    | Bind => handle_bind dest port session_ctx
    | UdpAssociate => handle_udp_associate session_ctx
    end
  end.

Definition handle_socks5 (ctx : ClientHandlerContext) (client_addr : SocketAddr) (version : u8) : M () :=
  greeting ← client (KGreeting version);
  let method := get_method (auth_manager ctx) in
  let server_method :=
    if bool_decide (method ∈ methods greeting) then Some method
    else if bool_decide (NoAuth ∈ methods greeting) && supports (auth_manager ctx) NoAuth
    then Some NoAuth else None in
  match server_method with
  | None =>
    _ ← client (KChoice NoAcceptable);
    raise (AuthFailed "No acceptable auth method")
  | Some server_method =>
    _ ← client (KChoice server_method);
    auth_result ← client (KAuth server_method (sa_ip client_addr));
    let '(acl_user, user_groups) := match auth_result with
                                    | Some (username, groups) => (username, groups)
                                    | None => (anonymous_user ctx, [])
                                    end in
    pbind (attempt (CQosInc acl_user)) (fun r =>
      match r with
      | Err e => _ ← refuse SocksV5 ConnectionNotAllowed; raise e
      | Ok _ => guarded acl_user (socks5_request ctx client_addr acl_user user_groups)
      end)
  end.

Definition handle_socks4 (ctx : ClientHandlerContext) (client_addr : SocketAddr) : M () :=
  if negb (supports (auth_manager ctx) NoAuth) then
    _ ← refuse SocksV4 ConnectionNotAllowed;
    raise (AuthFailed "SOCKS4 requires no-auth configuration")
  else
    auth_result ← client (KAuth NoAuth (sa_ip client_addr));
    let user_groups := match auth_result with Some (_, groups) => groups | None => [] end in
    request ← client KRequest4;
    let command := s4_command request in
    let dest := s4_address request in
    let port := s4_port request in
    let acl_user := match s4_user_id request with
                    | Some username => if decide (username = "") then anonymous_user ctx else username
                    | None => anonymous_user ctx
                    end in
    pbind (attempt (CQosInc acl_user)) (fun r =>
      match r with
      | Err e => _ ← refuse SocksV4 ConnectionNotAllowed; raise e
      | Ok _ =>
        guarded acl_user
          (admitted ← enforce ctx SocksV4 client_addr acl_user user_groups dest port Acl.Tcp Tcp;
           match admitted with
           | None => mret ()
           | Some (acl_decision, acl_rule) =>
             match command with
             | Connect =>
               handle_connect SocksV4 dest port
                 (mkSessionContext acl_user client_addr acl_decision acl_rule Tcp)
             | Bind | UdpAssociate => refuse SocksV4 CommandNotSupported
             end
           end)
      end).

Definition handle_client (ctx : ClientHandlerContext) (client_addr : SocketAddr) : M () :=
  _ ← Ret (authenticate_client (auth_manager ctx) (sa_ip client_addr));
  version ← client KVersion;
  if decide (version = SOCKS_VERSION) then handle_socks5 ctx client_addr version
  else if decide (version = SOCKS4_VERSION) then handle_socks4 ctx client_addr
  else raise (Stream.Protocol ("Unsupported SOCKS version: 0x" +:+ fmt_02x version)).
End handler.
