(* ===== verification/HandlerSpec.v ===== *)
(** * The connection handler: theorems

    What every connection does, whatever the client sends, whatever the network
    answers and whatever other connections do meanwhile: the calls of a handler
    follow a protocol, stated as an automaton that watches them. *)
From S2P Require Import Prelude Net Stream Protocol Acl Auth AuthSpec Session Handler.
From S2P Require Pool.

(** ** Executions *)

Inductive ob : Type :=
| Ob (X : Type) (c : call X) (x : X).
Arguments Ob {X} c x.

(** The calls a program makes with their answers, and its result, [None] while
    it has not returned. *)
Inductive execs {R : Type} : prog R -> list ob -> option R -> Prop :=
| execs_ret r : execs (Ret r) [] (Some r)
| execs_stop p : execs p [] None
| execs_call X (c : call X) k x t o : execs (k x) t o -> execs (Call c k) (Ob c x :: t) o.

(** ** The automaton *)

(** How far a BIND request is: its listener has an address; the client was told
    that address; a peer has connected to it. *)
Inductive bind_stage : Type :=
| BindNone | BindListening (addr : SocketAddr) | BindAnnounced | BindIncoming (peer : SocketAddr).
#[export] Instance bind_stage_eq_dec : EqDecision bind_stage.
Proof. solve_decision. Defined.

(** What is known after some calls: the outcome of the authentication; the
    request, with the user it names if it names one; the user whose connection
    slot is held; the verdict of the access rules; the open session; the addresses
    that the requested name stands for; the pooled connection held; whether the
    client was told that its request succeeded, which for BIND is the second
    reply; and the stage of a BIND. *)
Record mon : Type := mkMon {
  mo_auth : option (option (string * list string));
  mo_request : option (Command * Address * Z * option string);
  mo_slot : option string;
  mo_verdict : option AclDecision;
  mo_session : option Z;
  mo_resolved : list SocketAddr;
  mo_conn : option SocketAddr;
  mo_success : bool;
  mo_bind : bind_stage;
}.
Definition mon_init : mon := mkMon None None None None None [] None false BindNone.

Section protocol.
Context (anon : string) (acl_on : bool).

(** The user that a connection is charged to. *)
Definition charged (m : mon) : option string :=
  match mo_request m, mo_auth m with
  | Some (_, _, _, Some name), Some _ => Some (if decide (name = "") then anon else name)
  | _, Some (Some (name, _)) => Some name
  | _, Some None => Some anon
  | _, None => None
  end.
Definition groups_known (m : mon) : list string :=
  match mo_auth m with Some (Some (_, groups)) => groups | _ => [] end.

(** A request for a destination may be served: the client is authenticated, its
    user holds a slot and the rules, when there are any, allow it. *)
Definition admitted (m : mon) : Prop :=
  mo_auth m <> None /\ mo_slot m <> None /\ mo_slot m = charged m /\ mo_request m <> None /\
  (acl_on = true -> mo_verdict m = Some DecisionAllow).
#[export] Instance admitted_dec m : Decision (admitted m).
Proof. unfold admitted. apply _. Defined.

Definition requested (m : mon) : option (Command * Address * Z) :=
  (fun r => let '(c, a, p, _) := r in (c, a, p)) <$> mo_request m.

Definition destination (m : mon) : option (Address * Z) :=
  (fun r => let '(_, a, p) := r in (a, p)) <$> requested m.
(** SOCKS4 requests are always looked up as TCP. *)
Definition acl_asked (m : mon) : option AclProtocol :=
  (fun r => match r with (UdpAssociate, _, _, None) => Acl.Udp | _ => Acl.Tcp end) <$> mo_request m.

(** The addresses that a request may be connected to. *)
Definition targets (m : mon) : list SocketAddr :=
  match requested m with
  | Some (_, IPv4 octets, port) => [mkSocketAddr (V4 octets) port]
  | Some (_, IPv6 octets, port) => [mkSocketAddr (V6 octets) port]
  | _ => mo_resolved m
  end.

Definition asks (cmd : Command) (m : mon) : Prop :=
  match requested m with Some (c, _, _) => c = cmd | None => False end.
#[export] Instance asks_dec cmd m : Decision (asks cmd m).
Proof. unfold asks. repeat case_match; apply _. Defined.
#[local] Arguments asks : simpl never.

(** What must be there when a client is told of a success with an ordinary
    reply: the upstream connection, or nothing for a UDP association. *)
Definition connected (m : mon) : Prop :=
  (asks Connect m /\ mo_conn m <> None) \/ asks UdpAssociate m.
#[export] Instance connected_dec m : Decision (connected m).
Proof. unfold connected. apply _. Defined.
#[local] Arguments connected : simpl never.

Definition set_auth (x : option (string * list string)) (m : mon) : mon :=
  mkMon (Some x) (mo_request m) (mo_slot m) (mo_verdict m) (mo_session m) (mo_resolved m) (mo_conn m)
    (mo_success m) (mo_bind m).
Definition set_request (x : Command * Address * Z * option string) (m : mon) : mon :=
  mkMon (mo_auth m) (Some x) (mo_slot m) (mo_verdict m) (mo_session m) (mo_resolved m) (mo_conn m)
    (mo_success m) (mo_bind m).
Definition set_slot (x : option string) (m : mon) : mon :=
  mkMon (mo_auth m) (mo_request m) x (mo_verdict m) (mo_session m) (mo_resolved m) (mo_conn m)
    (mo_success m) (mo_bind m).
Definition set_verdict (x : AclDecision) (m : mon) : mon :=
  mkMon (mo_auth m) (mo_request m) (mo_slot m) (Some x) (mo_session m) (mo_resolved m) (mo_conn m)
    (mo_success m) (mo_bind m).
Definition set_session (x : option Z) (m : mon) : mon :=
  mkMon (mo_auth m) (mo_request m) (mo_slot m) (mo_verdict m) x (mo_resolved m) (mo_conn m)
    (mo_success m) (mo_bind m).
Definition set_resolved (x : list SocketAddr) (m : mon) : mon :=
  mkMon (mo_auth m) (mo_request m) (mo_slot m) (mo_verdict m) (mo_session m) x (mo_conn m)
    (mo_success m) (mo_bind m).
Definition set_conn (x : option SocketAddr) (m : mon) : mon :=
  mkMon (mo_auth m) (mo_request m) (mo_slot m) (mo_verdict m) (mo_session m) (mo_resolved m) x
    (mo_success m) (mo_bind m).
Definition set_success (m : mon) : mon :=
  mkMon (mo_auth m) (mo_request m) (mo_slot m) (mo_verdict m) (mo_session m) (mo_resolved m) (mo_conn m)
    true (mo_bind m).
Definition set_bind (x : bind_stage) (m : mon) : mon :=
  mkMon (mo_auth m) (mo_request m) (mo_slot m) (mo_verdict m) (mo_session m) (mo_resolved m) (mo_conn m)
    (mo_success m) x.

Definition require (P : Prop) `{!Decision P} (m : mon) : option mon :=
  if decide P then Some m else None.

Definition when_ok {E A} (r : result E A) (f : A -> mon -> mon) (m : mon) : mon :=
  match r with Ok a => f a m | Err _ => m end.

Definition client_step {A} (op : client_op A) : result RustSocksError A -> mon -> option mon :=
  match op in client_op A return result RustSocksError A -> mon -> option mon with
  | KVersion | KGreeting _ | KChoice _ => fun _ m => require (mo_auth m = None) m
  | KAuth _ _ => fun r m => require (mo_auth m = None) (when_ok r set_auth m)
  | KRequest5 => fun r m =>
    require (mo_auth m <> None /\ mo_slot m = charged m /\ mo_request m = None)
      (when_ok r (fun q => set_request (s5_command q, s5_address q, s5_port q, None)) m)
  | KRequest4 => fun r m =>
    require (mo_auth m <> None /\ mo_slot m = None /\ mo_request m = None)
      (when_ok r (fun q => set_request (s4_command q, s4_address q, s4_port q,
                                          Some (default ""%string (s4_user_id q)))) m)
  | KReply _ Succeeded _ _ => fun r m =>
    require (admitted m /\ mo_session m <> None /\ connected m) (when_ok r (fun _ => set_success) m)
  | KReply _ _ _ _ => fun _ m => require (mo_success m = false) m
  | KBindReply Succeeded addr => fun r m =>
    if decide (mo_bind m = BindListening addr)
    then require (admitted m /\ asks Bind m /\ mo_session m = None)
           (when_ok r (fun _ => set_bind BindAnnounced) m)
    else require (admitted m /\ asks Bind m /\ mo_session m <> None /\ mo_bind m = BindIncoming addr)
           (when_ok r (fun _ => set_success) m)
  | KBindReply _ _ => fun _ m =>
    require (asks Bind m /\ mo_bind m = BindAnnounced /\ mo_success m = false) m
  end.

(** What each call requires, and what it changes. *)
Definition mon_step {X} (c : call X) : X -> mon -> option mon :=
  match c in call X return X -> mon -> option mon with
  | CClient op => client_step op
  | CIntoInner => fun _ m => require (admitted m) m
  | CQosInc user => fun r m =>
    require (mo_slot m = None /\ charged m = Some user) (when_ok r (fun _ => set_slot (Some user)) m)
  | CQosDec user => fun _ m => require (mo_slot m = Some user) (set_slot None m)
  | CQosDrop => fun _ m => require (mo_slot m = None) m
  | CEvaluate user groups dest port protocol => fun d m =>
    require (acl_on = true /\ mo_slot m = Some user /\ charged m = Some user /\
             groups = groups_known m /\ mo_verdict m = None /\
             destination m = Some (dest, port) /\ acl_asked m = Some protocol)
      (set_verdict d.1 m)
  | CRecordBlock user => fun _ m => require (mo_verdict m = Some DecisionBlock /\ mo_slot m = Some user) m
  | CRecordAllow user => fun _ m => require (mo_verdict m = Some DecisionAllow /\ mo_slot m = Some user) m
  | CRejected user _ _ => fun _ m => require (mo_verdict m = Some DecisionBlock /\ mo_slot m = Some user) m
  | CNewSession user _ _ _ _ => fun st m =>
    require (admitted m /\ mo_slot m = Some user /\ mo_session m = None /\ mo_success m = false /\
             (asks Bind m -> mo_bind m = BindAnnounced))
      (set_session (Some st.1) m)
  | CCloseSession id _ _ => fun _ m => require (mo_session m = Some id) (set_session None m)
  | CLookup domain port => fun r m =>
    require (admitted m /\ asks Connect m /\ destination m = Some (Domain domain, port))
      (when_ok r set_resolved m)
  | CPoolGet addr => fun r m =>
    require (admitted m /\ asks Connect m /\ addr ∈ targets m /\ mo_conn m = None)
      (when_ok r (fun _ => set_conn (Some addr)) m)
  | CPoolPut addr _ _ | CPoolRelease addr _ => fun _ m =>
    require (mo_success m = true /\ (mo_conn m = Some addr \/ mo_bind m = BindIncoming addr))
      (set_bind BindNone (set_conn None m))
  | CLocalAddr _ => fun _ m => require (admitted m /\ mo_conn m <> None) m
  | CProxy stream id _ user => fun _ m =>
    require (admitted m /\ mo_session m = Some id /\ mo_slot m = Some user /\ mo_success m = true /\
             (mo_conn m <> None \/ mo_bind m = BindIncoming (Pool.peer stream))) m
  | CListen => fun r m =>
    require (admitted m /\ asks Bind m /\ mo_bind m = BindNone /\ mo_session m = None /\
             mo_success m = false)
      (when_ok r (fun addr => set_bind (BindListening addr)) m)
  | CAccept => fun r m =>
    require (admitted m /\ asks Bind m /\ mo_bind m = BindAnnounced /\ mo_session m <> None)
      (match r with Accepted s => set_bind (BindIncoming (Pool.peer s)) m | _ => m end)
  | CUdpChannel | CUdpBind => fun _ m => require (admitted m /\ asks UdpAssociate m) m
  | CSpawnRelay _ id _ => fun _ m => require (admitted m /\ asks UdpAssociate m /\ mo_session m = Some id) m
  | CControl _ => fun _ m => require (asks UdpAssociate m /\ mo_success m = true) m
  | CUdpShutdown _ => fun _ m => require (asks UdpAssociate m /\ mo_success m = true) m
  end.

Fixpoint mon_run (t : list ob) (m : mon) : option mon :=
  match t with
  | [] => Some m
  | Ob c x :: t => m' ← mon_step c x m; mon_run t m'
  end.

(** ** A program logic *)

(** Every call of [p] is one that the automaton accepts, and [Q] holds of what
    [p] returns and of the state the automaton is then in. *)
Fixpoint wp {R} (p : prog R) (Q : R -> mon -> Prop) (m : mon) : Prop :=
  match p with
  | Ret r => Q r m
  | Call c k => forall x, exists m', mon_step c x m = Some m' /\ wp (k x) Q m'
  end.

Lemma wp_sound {R} (p : prog R) Q m t o :
  wp p Q m -> execs p t o ->
  exists m', mon_run t m = Some m' /\ (forall r, o = Some r -> Q r m').
Proof.
  intros Hw He. revert m Hw. induction He as [r|p|X c k x t o He IH]; intros m Hw; cbn in *.
  - exists m. split; [done|]. by intros r' [= ->].
  - by exists m.
  - destruct (Hw x) as (m1 & Hm1 & Hw1). rewrite Hm1. by apply IH.
Qed.

Lemma wp_mono {R} (p : prog R) (Q Q' : R -> mon -> Prop) m :
  (forall r m, Q r m -> Q' r m) -> wp p Q m -> wp p Q' m.
Proof.
  intros HQ. revert m. induction p as [r|X c k IH]; intros m; cbn; [apply HQ|].
  intros Hw x. destruct (Hw x) as (m' & Hm & Hw'). exists m'. split; [done|]. by apply IH.
Qed.

Lemma wp_pbind {R S} (p : prog R) (f : R -> prog S) Q m :
  wp p (fun r m => wp (f r) Q m) m -> wp (pbind p f) Q m.
Proof.
  revert m. induction p as [r|X c k IH]; intros m; cbn; [done|].
  intros Hw x. destruct (Hw x) as (m' & Hm & Hw'). exists m'. split; [done|]. by apply IH.
Qed.

Lemma wp_bind {A B} (p : M A) (f : A -> M B) Q m :
  wp p (fun r m => match r with Ok a => wp (f a) Q m | Err e => Q (Err e) m end) m ->
  wp (p ≫= f) Q m.
Proof.
  intros Hw. apply wp_pbind. eapply wp_mono; [|exact Hw]. by intros [a|e] m'.
Qed.

Lemma require_true (P : Prop) `{!Decision P} m : P -> require P m = Some m.
Proof. intros HP. unfold require. by rewrite decide_True. Qed.

(** ** The handlers keep the protocol *)

(** What may be left behind when a handler returns with [r]: an open session or
    a pooled connection, but only if it fails before the client was told of a
    success, or if a UDP association goes on. *)
Definition leaves {A} (r : result RustSocksError A) (m : mon) : Prop :=
  mo_session m <> None \/ mo_conn m <> None ->
  match r with
  | Err _ => mo_success m = false
  | Ok _ => mo_conn m = None /\ exists a p, requested m = Some (UdpAssociate, a, p)
  end.

Section admitted.
(** A connection of [user] that was let through. *)
Context `{AuthDeps} (a : option (option (string * list string)))
  (q : Command * Address * Z * option string) (user : string) (v : option AclDecision).
#[local] Abbreviation M3 := (mkMon a (Some q) (Some user) v).
Context (Hadm : forall s r c b bd, admitted (M3 s r c b bd)).

Definition post {A} (r : result RustSocksError A) (m : mon) : Prop :=
  mo_slot m = Some user /\ leaves r m.

(** One call: show what it requires, and go on with each answer. *)
Ltac asked :=
  unfold asks, requested; cbn; match goal with Hq : q = _ |- _ => rewrite Hq; done end.
Ltac call :=
  let x := fresh "x" in
  cbn [wp pbind mbind M_bind do_call attempt attempt_io client refuse map_err mret M_ret raise];
  intros x; eexists;
  split; [cbn [mon_step client_step refuse]; first [rewrite decide_True by done | rewrite decide_False by done | idtac];
          apply require_true; cbn; split_and?; try apply Hadm; try done;
          try (first [asked | right; asked | left; split; [asked|done]]); auto|].
Ltac done_here := unfold post, leaves; cbn; try (split; [done|]); intuition congruence.

Lemma wp_serve protocol dest port ctx upstream addr res dest' port' name :
  q = (Connect, dest', port', name) -> sc_user ctx = user ->
  wp (serve_connection protocol dest port ctx upstream addr) post (M3 None res (Some addr) false BindNone).
Proof.
  intros Hq Hu. unfold serve_connection. rewrite Hu.
  call. destruct x as [id tok]. call. destruct x as [la|e]; cbn; [|done_here].
  destruct (bool_decide (protocol = SocksV4) && negb (is_v4 la)).
  { call. destruct x as [[]|e]; cbn; done_here. }
  call. destruct x as [[]|e]; cbn; [|done_here].
  call. destruct x as [[[s h]|]|e].
  - call. call. done_here.
  - call. call. done_here.
  - destruct e; call; call; done_here.
Qed.

Lemma wp_connect_first candidates last res dest port name :
  q = (Connect, dest, port, name) ->
  (forall addr, addr ∈ candidates -> addr ∈ targets (M3 None res None false BindNone)) ->
  wp (connect_first candidates last)
    (fun r m => match r.1 with
                | Some (_, addr) => m = M3 None res (Some addr) false BindNone
                | None => m = M3 None res None false BindNone
                end) (M3 None res None false BindNone).
Proof.
  intros Hq. revert last. induction candidates as [|target cs IH]; intros last Ht; [done|].
  call.
  { apply Ht. set_solver. }
  destruct x as [s|e]; cbn; [done|]. apply IH. set_solver.
Qed.

(** Resolution of the requested address gives its targets. *)
Lemma wp_resolve dest port name :
  q = (Connect, dest, port, name) ->
  wp (resolve_address dest port)
    (fun r m => exists res, m = M3 None res None false BindNone /\
       match r with
       | Ok l => forall addr, addr ∈ l -> addr ∈ targets (M3 None res None false BindNone)
       | Err _ => True
       end) (M3 None [] None false BindNone).
Proof.
  intros Hq. assert (Hord : forall l l', order_targets l = Ok l' -> forall addr, addr ∈ l' -> addr ∈ l).
  { unfold order_targets. intros l l' Ho addr Ha.
    destruct (sort_by family_leb l) as [|x l0] eqn:E; simplify_eq.
    by rewrite <- (sort_by_perm family_leb l), E. }
  unfold resolve_address. destruct dest as [o|o|d].
  - cbn [wp]. exists []. split; [done|]. unfold targets, requested; cbn. by rewrite Hq.
  - cbn [wp]. exists []. split; [done|]. unfold targets, requested; cbn. by rewrite Hq.
  - call.
    destruct x as [l|e]; cbn; [|by exists []].
    exists l. split; [done|]. unfold targets, requested; cbn. rewrite Hq; cbn.
    destruct (order_targets l) as [l'|e] eqn:E; [by apply Hord|done].
Qed.

Lemma wp_connect protocol dest port name ctx :
  q = (Connect, dest, port, name) -> sc_user ctx = user ->
  wp (handle_connect protocol dest port ctx) post (M3 None [] None false BindNone).
Proof.
  intros Hq Hu. unfold handle_connect. apply wp_pbind.
  eapply wp_mono; [|by eapply wp_resolve]. intros r m (res & -> & Ht).
  assert (Hrefuse : forall reply e, reply <> Succeeded ->
            wp (_ ← refuse protocol reply; raise (A:=()) e) post (M3 None res None false BindNone)).
  { intros reply e Hr. destruct reply; try done; call; destruct x as [[]|?]; cbn; done_here. }
  destruct r as [l|e]; [|by apply Hrefuse].
  set (cs := match protocol with SocksV4 => _ | SocksV5 => _ end).
  assert (Hcs : forall addr, addr ∈ cs -> addr ∈ targets (M3 None res None false BindNone)).
  { intros addr Ha. apply Ht. unfold cs in Ha. destruct protocol; [|done].
    apply list_elem_of_In, List.filter_In in Ha as [Ha _]. by apply list_elem_of_In. }
  destruct (_ && _); [by apply Hrefuse|].
  apply wp_pbind. eapply wp_mono; [|by eapply wp_connect_first].
  intros [[[s addr]|] last] m Hm; cbn in Hm; subst m; [by eapply wp_serve|by apply Hrefuse].
Qed.

Lemma wp_udp ctx dest port name :
  q = (UdpAssociate, dest, port, name) -> sc_user ctx = user ->
  wp (handle_udp_associate ctx) post (M3 None [] None false BindNone).
Proof.
  intros Hq Hu. unfold handle_udp_associate. rewrite Hu.
  call. call. destruct x0 as [id tok]. call. destruct x0 as [relay|e]; cbn.
  - call. call. destruct x1 as [[]|e]; cbn; [|done_here].
    call. destruct x1; cbn.
    + call. call. done_here.
    + unfold post, leaves, requested; cbn. rewrite Hq. eauto 10.
    + unfold post, leaves, requested; cbn. rewrite Hq. eauto 10.
  - call. destruct x0 as [[]|e']; cbn; [call; done_here|done_here].
Qed.

Lemma wp_bind_relay id tok stream (good gone : string) (fail : RustSocksError -> string) :
  wp (pbind (attempt (CProxy stream id tok user)) (fun r =>
      match r with
      | Ok (Some (stream', hint)) =>
        _ ← do_call (CPoolPut (Pool.peer stream) stream' hint);
        do_call (CCloseSession id good Closed)
      | Ok None =>
        _ ← do_call (CPoolRelease (Pool.peer stream) Pool.Refresh);
        do_call (CCloseSession id good Closed)
      | Err ConnectionClosed =>
        _ ← do_call (CPoolRelease (Pool.peer stream) Pool.Refresh);
        do_call (CCloseSession id gone Closed)
      | Err e =>
        _ ← do_call (CPoolRelease (Pool.peer stream) Pool.Refresh);
        _ ← do_call (CCloseSession id (fail e) Failed);
        raise e
      end)) post (M3 (Some id) [] None true (BindIncoming (Pool.peer stream))).
Proof.
  call. destruct x as [[[s' h]|]|e].
  - call. call. done_here.
  - call. call. done_here.
  - destruct e; call; call; done_here.
Qed.

Lemma wp_bind_command ctx dest port name :
  q = (Bind, dest, port, name) -> sc_user ctx = user ->
  wp (handle_bind dest port ctx) post (M3 None [] None false BindNone).
Proof.
  intros Hq Hu. unfold handle_bind. rewrite Hu.
  call. destruct x as [la|e]; cbn; [|done_here].
  call. destruct x as [[]|e]; cbn; [|done_here].
  call. destruct x as [id tok]. call. destruct x as [s|e|].
  - call. destruct x as [[]|e]; cbn; [|done_here].
    apply (wp_bind_relay id tok s _ _ (fun e => _ +:+ RustSocksError_fmt e)).
  - call. destruct x as [[]|e']; cbn; [call; done_here|done_here].
  - call. destruct x as [[]|e']; cbn; [call; done_here|done_here].
Qed.
End admitted.

Section client.
Context `{AuthDeps}.

Ltac call :=
  let x := fresh "x" in
  cbn [wp pbind mbind M_bind do_call attempt attempt_io client refuse map_err mret M_ret raise];
  intros x; eexists;
  split; [cbn [mon_step client_step refuse]; apply require_true; cbn; split_and?; try done; auto|].

(** The rules are asked about the user, the groups and the destination of the
    request, and a refused request gets no further. *)
Lemma wp_enforce ctx protocol addr user groups dest port cmd name a acl_protocol
    session_protocol :
  acl_enabled ctx = acl_on ->
  let m v := mkMon (Some a) (Some (cmd, dest, port, name)) (Some user) v None [] None false BindNone in
  charged (m None) = Some user -> groups = groups_known (m None) ->
  acl_asked (m None) = Some acl_protocol ->
  wp (enforce ctx protocol addr user groups dest port acl_protocol session_protocol)
    (fun r m' => exists v, m' = m v /\
       match r with
       | Ok (Some _) => forall s res c b bd, admitted
           (mkMon (Some a) (Some (cmd, dest, port, name)) (Some user) v s res c b bd)
       | _ => True
       end) (m None).
Proof.
  intros Hon m Hc Hg Ha. unfold enforce. rewrite Hon. destruct acl_on eqn:Eon.
  - call. destruct x as [[] rule]; cbn [set_verdict].
    + call. exists (Some DecisionAllow). split; [done|]. cbn. intros. repeat split; try done.
    + call. call. destruct protocol.
      * call. destruct x1; cbn; eauto.
      * call. destruct x1; cbn; eauto.
  - cbn. exists None. split; [done|]. intros. repeat split; try done. by rewrite Eon.
Qed.

(** The slot is released however the guarded part ends. *)
Lemma wp_guarded user (body : M ()) m :
  wp body (post user) m ->
  wp (guarded user body) (fun r m => mo_slot m = None /\ leaves r m) m.
Proof.
  intros Hb. unfold guarded. apply wp_pbind. eapply wp_mono; [|exact Hb].
  intros r m' [Hs Hl]. call. call. done.
Qed.

Definition final {A} (r : result RustSocksError A) (m : mon) : Prop :=
  mo_slot m = None /\ leaves r m.
Lemma final_clean {A} (r : result RustSocksError A) m :
  mo_slot m = None -> mo_session m = None -> mo_conn m = None -> final r m.
Proof. unfold final, leaves. intros -> -> ->. intuition congruence. Qed.
Lemma post_clean {A} user (r : result RustSocksError A) m :
  mo_slot m = Some user -> mo_session m = None -> mo_conn m = None -> post user r m.
Proof. unfold post, leaves. intros -> -> ->. intuition congruence. Qed.
Ltac clean := first [by apply final_clean | by apply post_clean].

Lemma wp_socks5 ctx addr version :
  acl_enabled ctx = acl_on -> anonymous_user ctx = anon ->
  wp (handle_socks5 ctx addr version) final mon_init.
Proof.
  intros Hon Han. unfold handle_socks5.
  call. destruct x as [g|e]; [|clean].
  case_match; [|call; destruct x as [[]|e]; clean].
  call. destruct x as [[]|e]; [|clean].
  call. destruct x as [who|e]; [|clean].
  set (ug := match who with Some p => _ | None => _ end).
  assert (Hu : charged (mkMon (Some who) None None None None [] None false BindNone) = Some ug.1).
  { unfold charged, ug. cbn. destruct who as [[]|]; cbn; [done|by rewrite Han]. }
  assert (Hg : ug.2 = groups_known (mkMon (Some who) None None None None [] None false BindNone)).
  { unfold groups_known, ug. by destruct who as [[]|]. }
  clearbody ug. destruct ug as [user groups]; cbn in Hu, Hg.
  call. destruct x as [n|e]; [|call; destruct x as [[]|e']; clean].
  apply wp_guarded. unfold socks5_request. call. destruct x as [q|e]; [|clean].
  apply wp_bind. eapply wp_mono; [|apply wp_enforce; try done; unfold acl_asked; cbn; by destruct (s5_command q)].
  intros r m (v & -> & Hr). destruct r as [[[d rule]|]|e]; [|clean..].
  call. destruct (s5_command q) eqn:Ec.
  - by eapply wp_connect.
  - by eapply wp_bind_command.
  - by eapply wp_udp.
Qed.

Lemma wp_socks4 ctx addr :
  acl_enabled ctx = acl_on -> anonymous_user ctx = anon ->
  wp (handle_socks4 ctx addr) final mon_init.
Proof.
  intros Hon Han. unfold handle_socks4.
  destruct (negb _); [call; destruct x as [[]|e]; clean|].
  call. destruct x as [who|e]; [|clean].
  call. destruct x as [q|e]; [|clean].
  set (groups := match who with Some p => _ | None => _ end).
  set (user := match s4_user_id q with Some p => _ | None => _ end).
  match goal with |- context [wp _ _ ?m0] => set (m := m0) end.
  assert (Hu : charged m = Some user).
  { unfold charged, user. cbn. rewrite Han. destruct (s4_user_id q) as [n|]; cbn; by destruct (decide _). }
  assert (Hg : groups = groups_known m).
  { unfold groups_known, groups. by destruct who as [[]|]. }
  clearbody user groups. subst m.
  call. destruct x as [n|e]; [|call; destruct x as [[]|e']; clean].
  apply wp_guarded.
  apply wp_bind. eapply wp_mono.
  2: { apply wp_enforce; try done. by unfold acl_asked; cbn; destruct (s4_command q). }
  intros r m (v & -> & Hr). destruct r as [[[d rule]|]|e]; [|clean..].
  destruct (s4_command q) eqn:Ec.
  - by eapply wp_connect.
  - call. destruct x as [[]|e]; clean.
  - call. destruct x as [[]|e]; clean.
Qed.

Lemma wp_client ctx addr :
  acl_enabled ctx = acl_on -> anonymous_user ctx = anon ->
  wp (handle_client ctx addr) final mon_init.
Proof.
  intros Hon Han. unfold handle_client. apply wp_bind. cbn [wp].
  destruct (authenticate_client _ _); [|clean].
  call. destruct x as [v|e]; [|clean].
  destruct (decide _); [by apply wp_socks5|]. destruct (decide _); [by apply wp_socks4|clean].
Qed.
End client.
End protocol.

(** ** What the calls before an upstream connection were *)

Lemma require_inv (P : Prop) `{!Decision P} m m' : require P m = Some m' -> P /\ m' = m.
Proof. unfold require. case_decide; intros; by simplify_eq. Qed.

(** The outcomes of the authentications that succeeded and the requests that were
    read, in order; a SOCKS4 request names a user. *)
Definition client_auths {A} (op : client_op A) : result RustSocksError A -> list (option (string * list string)) :=
  match op in client_op A return result RustSocksError A -> list (option (string * list string)) with
  | KAuth _ _ => fun r => match r with Ok who => [who] | Err _ => [] end
  | _ => fun _ => []
  end.
Definition client_requests {A} (op : client_op A)
    : result RustSocksError A -> list (Command * Address * Z * option string) :=
  match op in client_op A return result RustSocksError A -> list (Command * Address * Z * option string) with
  | KRequest5 => fun r =>
    match r with Ok q => [(s5_command q, s5_address q, s5_port q, None)] | Err _ => [] end
  | KRequest4 => fun r =>
    match r with
    | Ok q => [(s4_command q, s4_address q, s4_port q, Some (default ""%string (s4_user_id q)))]
    | Err _ => []
    end
  | _ => fun _ => []
  end.
Definition on_client {B} (f : forall A, client_op A -> result RustSocksError A -> list B) (o : ob) : list B :=
  match o with
  | Ob c x => match c in call X return X -> list B with CClient op => f _ op | _ => fun _ => [] end x
  end.
Definition authenticated (t : list ob) : list (option (string * list string)) :=
  t ≫= on_client (@client_auths).
Definition requests (t : list ob) : list (Command * Address * Z * option string) :=
  t ≫= on_client (@client_requests).

Lemma readings_step anon acl_on {X} (c : call X) x m m' :
  mon_step anon acl_on c x m = Some m' ->
  option_list (mo_auth m') = option_list (mo_auth m) ++ on_client (@client_auths) (Ob c x) /\
  option_list (mo_request m') = option_list (mo_request m) ++ on_client (@client_requests) (Ob c x).
Proof.
  intros Hst. destruct c; cbn in Hst; try destruct op; cbn in Hst; repeat case_match;
    apply require_inv in Hst as [Hreq ->]; cbn [on_client client_auths client_requests];
    rewrite ?app_nil_r; try done;
    repeat match goal with r : result _ _ |- _ => destruct r end; cbn; rewrite ?app_nil_r; try done;
    destruct_and?; split; cbn; rewrite ?app_nil_r; try done;
    match goal with Hn : _ = None |- _ => by rewrite Hn end.
Qed.

(** The state of the automaton, explained by the calls so far. *)
Record explained (anon : string) (past : list ob) (m : mon) : Prop := mkExplained {
  ex_slot user : mo_slot m = Some user -> exists n, Ob (CQosInc user) (Ok n) ∈ past;
  ex_verdict d : mo_verdict m = Some d ->
    exists user dest port protocol rule,
      Ob (CEvaluate user (groups_known m) dest port protocol) (d, rule) ∈ past /\
      destination m = Some (dest, port) /\ charged anon m = Some user /\ acl_asked m = Some protocol;
  ex_resolved addr : addr ∈ mo_resolved m ->
    exists domain port l, Ob (CLookup domain port) (Ok l) ∈ past /\ addr ∈ l /\
      destination m = Some (Domain domain, port);
  ex_requested : mo_request m = None -> mo_verdict m = None /\ mo_resolved m = [];
}.

Lemma explained_more anon past o m : explained anon past m -> explained anon (past ++ [o]) m.
Proof.
  intros [Hs Hv Hr Hq]. constructor; [| | |done].
  - intros u Hu. destruct (Hs u Hu) as (n & Hi). exists n. set_solver.
  - intros d Hd. destruct (Hv d Hd) as (u & a & p & pr & r & Hi & Hx).
    exists u, a, p, pr, r. set_solver.
  - intros addr Hi. destruct (Hr addr Hi) as (d & p & l & Hi' & Hx). exists d, p, l. set_solver.
Qed.

Lemma charged_auth anon m user : charged anon m = Some user -> mo_auth m <> None.
Proof. unfold charged. intros Hc Hn. rewrite Hn in Hc. by destruct (mo_request m) as [[[[]][]]|]. Qed.

Lemma explained_step anon acl_on {X} (c : call X) x past m m' :
  mon_step anon acl_on c x m = Some m' -> explained anon past m -> explained anon (past ++ [Ob c x]) m'.
Proof.
  intros Hst He. apply (explained_more anon past (Ob c x)) in He.
  assert (Hin : Ob c x ∈ past ++ [Ob c x]) by set_solver.
  revert He Hin. generalize (past ++ [Ob c x]) as l. intros l He Hin.
  destruct c; cbn in Hst; try destruct op; cbn in Hst; repeat case_match;
    apply require_inv in Hst as [Hreq ->]; try done;
    repeat match goal with r : result _ _ |- _ => destruct r; cbn [when_ok] in * end; try done;
    destruct He as [Hs Hv Hr Hq]; constructor; cbn in *; try done; intros; simplify_eq;
    eauto 10; destruct_and?.
  (* a request is read when nothing depends on one yet *)
  1: match goal with Hd : mo_verdict m = Some _ |- _ =>
         destruct (Hv _ Hd) as (u & dest & port & pr & rule & _ & _ & Hch & _) end;
       by apply charged_auth in Hch.
  1-4: destruct Hq as [Hv0 Hr0]; [done|]; rewrite ?Hr0 in *; first [congruence | set_solver].
  (* the rules are asked, or a name is looked up, for the request *)
  1: subst; destruct x as [d rule]; exists user, dest, port, protocol, rule; split_and!; done.
  all: try (by match goal with Hd : destination ?m = Some _, Hn : mo_request ?m = None |- _ =>
              unfold destination, requested in Hd; rewrite Hn in Hd end).
  eauto 10.
Qed.

Lemma explained_run anon acl_on t past m m' :
  mon_run anon acl_on t m = Some m' -> explained anon past m -> explained anon (past ++ t) m'.
Proof.
  revert past m. induction t as [|[X c x] t IH]; intros past m; cbn.
  - intros [= ->]. by rewrite app_nil_r.
  - intros (m1 & Hst & Hrun)%bind_Some He. rewrite cons_middle, app_assoc.
    eapply IH; [done|]. by eapply explained_step.
Qed.

Lemma readings_run anon acl_on t m m' :
  mon_run anon acl_on t m = Some m' ->
  option_list (mo_auth m') = option_list (mo_auth m) ++ authenticated t /\
  option_list (mo_request m') = option_list (mo_request m) ++ requests t.
Proof.
  revert m. induction t as [|[X c x] t IH]; intros m; cbn [mon_run].
  - intros [= ->]. by rewrite !app_nil_r.
  - intros (m1 & Hst & Hrun)%bind_Some. apply readings_step in Hst as [Ha Hq].
    destruct (IH _ Hrun) as [-> ->]. rewrite Ha, Hq, <- !app_assoc. done.
Qed.

Lemma explained_init anon : explained anon [] mon_init.
Proof. constructor; done || set_solver. Qed.

Lemma mon_run_app anon acl_on t t' m :
  mon_run anon acl_on (t ++ t') m = mon_run anon acl_on t m ≫= mon_run anon acl_on t'.
Proof.
  revert m. induction t as [|[X c x] t IH]; intros m; cbn; [done|].
  destruct (mon_step _ _ _ _ _); cbn; [apply IH|done].
Qed.

(** ** Slots *)

(** The slots of [user] that a call takes or gives back. *)
Definition slot_delta (user : string) (o : ob) : Z :=
  match o with
  | Ob c x =>
    match c in call X return X -> Z with
    | CQosInc u => fun r => match r with Ok _ => if decide (u = user) then 1 else 0 | Err _ => 0 end
    | CQosDec u => fun _ => if decide (u = user) then -1 else 0
    | _ => fun _ => 0
    end x
  end.
Definition slot_balance (user : string) (t : list ob) : Z :=
  foldr (fun o n => slot_delta user o + n) 0 t.

Definition slots_held (user : string) (m : mon) : Z :=
  if decide (mo_slot m = Some user) then 1 else 0.

Lemma slots_step anon acl_on user {X} (c : call X) x m m' :
  mon_step anon acl_on c x m = Some m' ->
  slots_held user m' = slots_held user m + slot_delta user (Ob c x).
Proof.
  unfold slots_held. intros Hst.
  destruct c; cbn in Hst; try destruct op; cbn in Hst; repeat case_match;
    apply require_inv in Hst as [Hreq ->];
    repeat match goal with r : result _ _ |- _ => destruct r end; cbn; subst; repeat case_decide;
    cbn in *; simplify_eq; destruct_and?; try lia; try congruence.
Qed.

Lemma slots_run anon acl_on user t m m' :
  mon_run anon acl_on t m = Some m' ->
  slots_held user m' = slots_held user m + slot_balance user t.
Proof.
  revert m. induction t as [|[X c x] t IH]; intros m; cbn [mon_run slot_balance foldr].
  - intros [= ->]. lia.
  - intros (m1 & Hst & Hrun)%bind_Some. rewrite (IH _ Hrun), (slots_step _ _ user _ _ _ _ Hst).
    unfold slot_balance. lia.
Qed.

Lemma slots_balance anon acl_on user t m :
  mon_run anon acl_on t mon_init = Some m ->
  slot_balance user t = if decide (mo_slot m = Some user) then 1 else 0.
Proof.
  intros Hr. pose proof (slots_run _ _ user _ _ _ Hr) as Hb. change (slots_held user mon_init) with 0 in Hb.
  unfold slots_held in Hb. lia.
Qed.

(** ** The protocol of a handler *)

Lemma execs_app_inv {R} (p : prog R) t t' o : execs p (t ++ t') o -> execs p t None.
Proof.
  revert p. induction t as [|e t IH]; intros p He; [constructor|].
  inversion He; simplify_eq/=. constructor. by apply IH.
Qed.

Section handler_theorems.
Context `{AuthDeps} (ctx : ClientHandlerContext) (client_addr : SocketAddr).
Let run := mon_run (anonymous_user ctx) (acl_enabled ctx).

Lemma handler_run t o :
  execs (handle_client ctx client_addr) t o ->
  exists m, run t mon_init = Some m /\ explained (anonymous_user ctx) t m /\
    authenticated t = option_list (mo_auth m) /\ requests t = option_list (mo_request m) /\
    forall r, o = Some r -> final r m.
Proof.
  intros He.
  destruct (wp_sound (anonymous_user ctx) (acl_enabled ctx) _ final mon_init t o
              (wp_client _ _ ctx client_addr eq_refl eq_refl) He) as (m & Hr & Ho).
  exists m. destruct (readings_run _ _ _ _ _ Hr) as [-> ->].
  split_and!; [done| |done..]. apply (explained_run _ _ t [] _ _ Hr (explained_init _)).
Qed.

(** C1: Whatever the client sends, the network answers and other connections do:
    the calls of a connection handler are ones that the protocol automaton
    accepts.  So a request is served only to an authenticated client whose user
    holds a connection slot and, with access rules, was allowed by them for that
    user, those groups and that destination.  CONNECT and UDP ASSOCIATE are told of
    success with their session open, CONNECT with the upstream connection there.
    BIND is told twice: the address of its listener, before it has a session, and
    then, with its session open, the peer that connected; only this counts as its
    success.  Traffic is relayed, for the user of the slot and the open session,
    only after a success.  When the handler has returned, the slot is released; a
    session or a pooled connection is left only if the handler failed before the
    client was told of its success, or if a UDP association goes on. *)
Theorem handler_protocol t o :
  execs (handle_client ctx client_addr) t o ->
  exists m, mon_run (anonymous_user ctx) (acl_enabled ctx) t mon_init = Some m /\
    forall r, o = Some r -> mo_slot m = None /\ leaves r m.
Proof. intros He. destruct (handler_run t o He) as (m & Hr & _ & _ & _ & Ho). by exists m. Qed.

(** C2: A connection to a remote host is asked for only for a client that was
    authenticated, once, and sent one request, a CONNECT.  The user of the
    connection is then the authenticated one, or the anonymous user if there is
    none; with SOCKS4 it is the one that the request names.  That user got a slot
    and holds it; with access rules, they allowed that user, with the groups of
    the authentication, the address and port of that request; and the address
    that the connection goes to is the one in the request, or one that the name
    in the request was resolved to. *)
Theorem upstream_authorised t1 addr x t2 o :
  execs (handle_client ctx client_addr) (t1 ++ Ob (CPoolGet addr) x :: t2) o ->
  exists who dest port name user n,
    authenticated t1 = [who] /\ requests t1 = [(Connect, dest, port, name)] /\
    user = match name with
           | Some name => if decide (name = "") then anonymous_user ctx else name
           | None => match who with Some (name, _) => name | None => anonymous_user ctx end
           end /\
    Ob (CQosInc user) (Ok n) ∈ t1 /\ slot_balance user t1 = 1 /\
    (acl_enabled ctx = true ->
     exists rule, let groups := match who with Some (_, groups) => groups | None => [] end in
       Ob (CEvaluate user groups dest port Acl.Tcp) (DecisionAllow, rule) ∈ t1) /\
    match dest with
    | IPv4 octets => addr = mkSocketAddr (V4 octets) port
    | IPv6 octets => addr = mkSocketAddr (V6 octets) port
    | Domain domain => exists l, Ob (CLookup domain port) (Ok l) ∈ t1 /\ addr ∈ l
    end.
Proof.
  intros He. rewrite cons_middle, app_assoc in He. apply execs_app_inv in He.
  destruct (handler_run _ _ He) as (m & Hr & _).
  apply execs_app_inv in He. destruct (handler_run _ _ He) as (m1 & Hr1 & [Hs Hv Hres _] & Ha & Hq & _).
  unfold run in *. rewrite mon_run_app, Hr1 in Hr. cbn in Hr.
  apply bind_Some in Hr as (m2 & Hst & _).
  apply require_inv in Hst as (((Hauth & Hslot & Hsc & _ & Hallow) & Hc & Htgt & _) & _).
  destruct (mo_auth m1) as [who|] eqn:Ea; [|done].
  destruct (mo_request m1) as [[[[cmd dest] port] name]|] eqn:Eq; unfold asks, requested in Hc;
    rewrite Eq in Hc; cbn in Hc; [subst cmd|done].
  destruct (mo_slot m1) as [user|] eqn:Eu; [|done]. destruct (Hs user eq_refl) as (n & Hn).
  exists who, dest, port, name, user, n. split_and!; [done|done| |done| | |].
  - revert Hsc. unfold charged. rewrite Ea, Eq. destruct name as [name|]; [by intros [= ->]|].
    by destruct who as [[w g]|]; intros [= ->].
  - by rewrite (slots_balance _ _ user _ _ Hr1), Eu, decide_True.
  - intros Hon. destruct (Hv _ (Hallow Hon)) as (user' & dest' & port' & pr & rule & He' & Hd & Hc & Hp).
    rewrite Hc in Hsc. unfold destination, requested, acl_asked in *. rewrite Eq in *. simplify_eq/=.
    exists rule. revert He'. unfold groups_known. by rewrite Ea; destruct who as [[]|].
  - unfold targets, requested in Htgt. rewrite Eq in Htgt. cbn in Htgt.
    destruct dest as [o4|o6|domain]; [set_solver..|].
    destruct (Hres addr Htgt) as (d & p & l & Hl & Hal & Hd).
    unfold destination, requested in Hd. rewrite Eq in Hd. simplify_eq/=. eauto.
Qed.

(** C9: At any time a connection holds at most one slot of a user, and one that
    has ended holds none: every slot that the engine granted was given back. *)
Theorem slots_balanced t o :
  execs (handle_client ctx client_addr) t o ->
  forall user, 0 <= slot_balance user t <= 1 /\ (o <> None -> slot_balance user t = 0).
Proof.
  intros He user. destruct (handler_run t o He) as (m & Hr & _ & _ & _ & Ho).
  rewrite (slots_balance _ _ user _ _ Hr).
  split; [case_decide; lia|]. intros Hne. destruct o as [r|]; [|done].
  destruct (Ho r eq_refl) as [Hs _]. by rewrite Hs, decide_False.
Qed.
End handler_theorems.

(** ** A concrete execution

    A client without authentication asks for 10.0.0.1:443, is allowed, connected
    to it and relayed. *)

Fixpoint replay {R} (h : forall X, call X -> X) (p : prog R) : list ob * R :=
  match p with
  | Ret r => ([], r)
  | Call c k => let x := h _ c in let '(t, r) := replay h (k x) in (Ob c x :: t, r)
  end.

Lemma replay_execs {R} h (p : prog R) : execs p (replay h p).1 (Some (replay h p).2).
Proof.
  induction p as [r|X c k IH]; cbn; [constructor|]. specialize (IH (h _ c)).
  destruct (replay h (k (h X c))) as [t r]. by constructor.
Qed.

Definition demo_ctx : ClientHandlerContext :=
  mkContext _ (mkAuthManager BackendNone BackendNone) true "anonymous".
Definition demo_client_addr : SocketAddr := mkSocketAddr (V4 (Z_to_u8 <$> [192; 0; 2; 7])) 50000.
Definition demo_target : SocketAddr := mkSocketAddr (V4 (Z_to_u8 <$> [10; 0; 0; 1])) 443.

Definition demo_client {A} (op : client_op A) : result RustSocksError A :=
  match op in client_op A return result RustSocksError A with
  | KVersion => Ok x05
  | KGreeting _ => Ok (mkClientGreeting [NoAuth])
  | KChoice _ => Ok tt
  | KAuth _ _ => Ok None
  | KRequest5 => Ok (mkSocks5Request Connect (IPv4 (Z_to_u8 <$> [10; 0; 0; 1])) 443)
  | KRequest4 => Err InvalidRequest
  | KReply _ _ _ _ => Ok tt
  | KBindReply _ _ => Ok tt
  end.
Definition demo_answer X (c : call X) : X :=
  match c in call X return X with
  | CClient op => demo_client op
  | CQosInc _ => Ok 1
  | CEvaluate _ _ _ _ _ => (DecisionAllow, Some "Allow HTTPS"%string)
  | CNewSession _ _ _ _ _ => (7, 70)
  | CLookup _ _ => Err OtherKind
  | CPoolGet addr => Ok (Pool.mkTcpStream 3 addr)
  | CLocalAddr _ | CListen | CUdpBind => Ok demo_client_addr
  | CProxy stream _ _ _ => Ok (Some (stream, Pool.Refresh))
  | CAccept => AcceptTimeout
  | CUdpChannel => 0
  | CControl _ => ControlClosed
  | CIntoInner | CQosDec _ | CQosDrop | CRecordBlock _ | CRecordAllow _ | CRejected _ _ _
  | CCloseSession _ _ _ | CPoolPut _ _ _ | CPoolRelease _ _ | CSpawnRelay _ _ _ | CUdpShutdown _ => tt
  end.

Definition demo_trace : list ob := (replay demo_answer (handle_client demo_ctx demo_client_addr)).1.
Definition demo_result : result RustSocksError () :=
  (replay demo_answer (handle_client demo_ctx demo_client_addr)).2.

Lemma demo_execs : execs (handle_client demo_ctx demo_client_addr) demo_trace (Some demo_result).
Proof. apply replay_execs. Qed.

Lemma handler_protocol_witness :
  length demo_trace = 18%nat /\ demo_result = Ok () /\
  exists m, mon_run "anonymous" true demo_trace mon_init = Some m /\
    forall r, Some demo_result = Some r -> mo_slot m = None /\ leaves r m.
Proof.
  split; [vm_compute; reflexivity|]. split; [vm_compute; reflexivity|].
  exact (handler_protocol demo_ctx demo_client_addr demo_trace (Some demo_result) demo_execs).
Defined.

Lemma demo_trace_split :
  demo_trace = take 9 demo_trace ++
    Ob (CPoolGet demo_target) (Ok (Pool.mkTcpStream 3 demo_target)) :: drop 10 demo_trace.
Proof. reflexivity. Qed.

Lemma upstream_authorised_witness :
  exists who dest port name user n,
    authenticated (take 9 demo_trace) = [who] /\ requests (take 9 demo_trace) = [(Connect, dest, port, name)] /\
    Ob (CQosInc user) (Ok n) ∈ take 9 demo_trace /\ slot_balance user (take 9 demo_trace) = 1.
Proof.
  destruct (upstream_authorised demo_ctx demo_client_addr (take 9 demo_trace) demo_target
    (Ok (Pool.mkTcpStream 3 demo_target)) (drop 10 demo_trace) (Some demo_result))
    as (who & dest & port & name & user & n & Ha & Hq & _ & Hs & Hb & _).
  - rewrite <- demo_trace_split. exact demo_execs.
  - exists who, dest, port, name, user, n. split; [exact Ha|]. split; [exact Hq|]. split; [exact Hs|exact Hb].
Defined.

Lemma slots_balanced_witness :
  slot_balance "anonymous" (take 9 demo_trace) = 1 /\ slot_balance "anonymous" demo_trace = 0.
Proof.
  split; [vm_compute; reflexivity|].
  refine (proj2 (slots_balanced demo_ctx demo_client_addr demo_trace (Some demo_result) demo_execs "anonymous") _).
  discriminate.
Defined.
