(* ===== verification/Settings.v ===== *)
(** * The configuration file

    src/src/config/mod.rs: the settings with their defaults, the canonical form of
    the base path and the validation.  Reading TOML is a parameter
    ([from_toml_str]).  The settings of QoS, authentication and the pool are those
    of the components that use them. *)
From S2P Require Import Prelude Net Stream Auth.
From S2P Require Qos Pool.

(** ** Settings *)

Record TlsSettings : Type := mkTlsSettings {
  tls_enabled : bool;
  certificate_path : option string;
  private_key_path : option string;
  key_password : option string;
  require_client_auth : bool;
  client_ca_path : option string;
  alpn_protocols : list string;
  min_protocol_version : option string;
}.
Record ServerConfig : Type := mkServerConfig {
  bind_address : string;
  bind_port : Z;
  max_connections : Z;
  tls : TlsSettings;
  pool : Pool.PoolConfig;
}.
Record LoggingConfig : Type := mkLoggingConfig { level : string; format : string }.
Record AclSettings : Type := mkAclSettings {
  acl_on : bool; (* enabled *)
  config_file : option string;
  watch : bool;
  anonymous_user : string;
}.
Record DashboardAuthSettings : Type := mkDashboardAuthSettings {
  da_enabled : bool;
  da_users : list User;
  altcha_enabled : bool;
  altcha_challenge_url : option string;
  session_secret : string;
  session_duration_hours : Z;
}.
Record SessionSettings : Type := mkSessionSettings {
  sessions_enabled : bool;
  storage : string;
  database_url : option string;
  batch_size : Z;
  batch_interval_ms : Z;
  retention_days : Z;
  cleanup_interval_hours : Z;
  traffic_update_packet_interval : Z;
  stats_window_hours : Z;
  stats_api_enabled : bool;
  stats_api_bind_address : string;
  stats_api_port : Z;
  swagger_enabled : bool;
  dashboard_enabled : bool;
  dashboard_auth : DashboardAuthSettings;
  base_path : string;
}.
Record MetricsSettings : Type := mkMetricsSettings {
  metrics_enabled : bool;
  metrics_storage : string;
  retention_hours : Z;
  metrics_cleanup_interval_hours : Z;
  collection_interval_secs : Z;
}.
Record TelemetrySettings : Type := mkTelemetrySettings {
  telemetry_enabled : bool;
  max_events : Z;
  telemetry_retention_hours : Z;
}.
Record Config : Type := mkConfig {
  server : ServerConfig;
  auth : AuthConfig;
  logging : LoggingConfig;
  acl : AclSettings;
  sessions : SessionSettings;
  metrics : MetricsSettings;
  telemetry : TelemetrySettings;
  qos : Qos.QosConfig;
}.

(** ** Defaults *)

Definition default_bind_address : string := "127.0.0.1".
Definition default_bind_port : Z := 1080.
Definition default_max_connections : Z := 1000.
Definition default_pam_username_service : string := "rustsocks".
Definition default_pam_address_service : string := "rustsocks-client".
Definition default_pam_default_user : string := "rhostusr".
Definition default_gssapi_service_name : string := "socks".
Definition default_gssapi_protection_level : string := "integrity".
Definition default_acl_anonymous_user : string := "anonymous".
Definition default_session_batch_size : Z := 100.
Definition default_session_batch_interval_ms : Z := 1000.
Definition default_session_retention_days : Z := 90.
Definition default_session_cleanup_interval_hours : Z := 24.
Definition default_session_traffic_update_packet_interval : Z := 10.
Definition default_stats_window_hours : Z := 24.
Definition default_stats_api_port : Z := 9090.
Definition default_session_secret (now_secs : Z) : string := "rustsocks-secret-" +:+ fmt_Z now_secs.
Definition default_session_duration_hours : Z := 24.
Definition default_metrics_retention_hours : Z := 24.
Definition default_metrics_cleanup_interval_hours : Z := 6.
Definition default_metrics_collection_interval_secs : Z := 5.
Definition default_telemetry_max_events : Z := 256.
Definition default_telemetry_retention_hours : Z := 6.

Definition TlsSettings_default : TlsSettings := mkTlsSettings false None None None false None [] None.
Definition ServerConfig_default : ServerConfig :=
  mkServerConfig default_bind_address default_bind_port default_max_connections TlsSettings_default
    Pool.PoolConfig_default.
Definition PamSettings_default : PamSettings :=
  mkPamSettings default_pam_username_service default_pam_address_service default_pam_default_user.
Definition GssApiSettings_default : GssApiSettings :=
  mkGssApiSettings default_gssapi_service_name default_gssapi_protection_level.
Definition AuthConfig_default : AuthConfig :=
  mkAuthConfig "none" "none" [] PamSettings_default GssApiSettings_default.
Definition LoggingConfig_default : LoggingConfig := mkLoggingConfig "info" "pretty".
Definition AclSettings_default : AclSettings := mkAclSettings false None false default_acl_anonymous_user.
Definition DashboardAuthSettings_default (now_secs : Z) : DashboardAuthSettings :=
  mkDashboardAuthSettings false [] false None (default_session_secret now_secs)
    default_session_duration_hours.
Definition SessionSettings_default (now_secs : Z) : SessionSettings :=
  {| sessions_enabled := false; storage := "memory"; database_url := None;
     batch_size := default_session_batch_size;
     batch_interval_ms := default_session_batch_interval_ms;
     retention_days := default_session_retention_days;
     cleanup_interval_hours := default_session_cleanup_interval_hours;
     traffic_update_packet_interval := default_session_traffic_update_packet_interval;
     stats_window_hours := default_stats_window_hours;
     stats_api_enabled := false; stats_api_bind_address := "127.0.0.1";
     stats_api_port := default_stats_api_port; swagger_enabled := true; dashboard_enabled := false;
     dashboard_auth := DashboardAuthSettings_default now_secs; base_path := "/" |}.
Definition MetricsSettings_default : MetricsSettings :=
  mkMetricsSettings true "memory" default_metrics_retention_hours default_metrics_cleanup_interval_hours
    default_metrics_collection_interval_secs.
Definition TelemetrySettings_default : TelemetrySettings :=
  mkTelemetrySettings true default_telemetry_max_events default_telemetry_retention_hours.
Definition Config_default (now_secs : Z) : Config :=
  mkConfig ServerConfig_default AuthConfig_default LoggingConfig_default AclSettings_default
    (SessionSettings_default now_secs) MetricsSettings_default TelemetrySettings_default
    Qos.QosConfig_default.

(** ** The base path *)

Definition normalize_base_path (raw : string) : string :=
  let trimmed := trim raw in
  if decide (trimmed = "" \/ trimmed = "/")%string then "/"%string
  else
    let normalized := fold_left (fun acc segment =>
      if decide (segment = ""%string) then acc else acc +:+ "/" +:+ segment)
      (split_char "/" trimmed) ""%string in
    if decide (normalized = ""%string) then "/"%string else normalized.
Definition normalized_base_path (s : SessionSettings) : string := normalize_base_path (base_path s).

(** ** Validation *)

Definition is_blank (s : string) : bool := bool_decide (trim s = ""%string).

(** [s.chars().any(|c| c.is_whitespace())]: in UTF-8 the encoding of a white space
    begins only where a character does. *)
Fixpoint any_whitespace (bs : list u8) : bool :=
  match bs with
  | [] => false
  | a :: r =>
    ws1 a || match r with b :: r' => ws2 a b || match r' with c :: _ => ws3 a b c | [] => false end
             | [] => false end || any_whitespace r
  end.

Definition reject (bad : bool) (msg : string) : result RustSocksError () :=
  if bad then Err (Stream.Config msg) else Ok tt.
Definition one_of (s : string) (l : list string) : bool := bool_decide (s ∈ l).

(** [opt.as_ref().ok_or_else(...)?], then the check that it is not blank. *)
Definition required_path (o : option string) (unset empty : string) : result RustSocksError () :=
  path ← ok_or (Stream.Config unset) o; reject (is_blank path) empty.

Definition validate_auth (a : AuthConfig) : result RustSocksError () :=
  _ ← reject (negb (one_of (client_method a) ["none"; "pam.address"]))
        ("Invalid client auth method: " +:+ client_method a +:+ ". Supported: none, pam.address");
  _ ← reject (negb (one_of (socks_method a) ["none"; "userpass"; "pam.address"; "pam.username"]))
        ("Invalid SOCKS auth method: " +:+ socks_method a +:+
         ". Supported: none, userpass, pam.address, pam.username");
  _ ← reject (bool_decide (socks_method a = "userpass"%string) && bool_decide (users a = []))
        "userpass auth requires at least one user";
  _ ← reject (bool_decide (socks_method a = "pam.username"%string) && is_blank (username_service (pam a)))
        "auth.pam.username_service cannot be empty when pam.username auth is enabled";
  reject ((bool_decide (socks_method a = "pam.address"%string)
           || bool_decide (client_method a = "pam.address"%string)) && is_blank (address_service (pam a)))
    "auth.pam.address_service cannot be empty when pam.address auth is enabled".

Definition validate_tls (t : TlsSettings) : result RustSocksError () :=
  if tls_enabled t then
    _ ← required_path (certificate_path t) "server.tls.enabled is true but certificate_path is not set"
          "server.tls.certificate_path cannot be empty when TLS is enabled";
    _ ← required_path (private_key_path t) "server.tls.enabled is true but private_key_path is not set"
          "server.tls.private_key_path cannot be empty when TLS is enabled";
    _ ← reject (require_client_auth t && match client_ca_path t with Some s => is_blank s | None => true end)
          "server.tls.client_ca_path is required when require_client_auth is true";
    match min_protocol_version t with
    | Some min_ver =>
      reject (negb (one_of min_ver ["TLS12"; "TLS13"]))
        ("Invalid server.tls.min_protocol_version '" +:+ min_ver +:+ "'. Supported values: TLS12, TLS13")
    | None => Ok tt
    end
  else Ok tt.

Definition validate_acl (a : AclSettings) : result RustSocksError () :=
  if acl_on a
  then required_path (config_file a) "ACL enabled but no config_file provided"
         "ACL config_file cannot be empty when ACL is enabled"
  else Ok tt.

Definition db_backed_storage (s : SessionSettings) : bool :=
  one_of (storage s) ["sqlite"; "mariadb"; "mysql"].

Definition validate_sessions (s : SessionSettings) : result RustSocksError () :=
  _ ← reject (negb (one_of (storage s) ["memory"; "sqlite"; "mariadb"; "mysql"]))
        ("Invalid session storage: " +:+ storage s +:+ ". Supported: memory, sqlite, mariadb");
  _ ← reject (sessions_enabled s && db_backed_storage s && bool_decide (database_url s = None))
        "sessions.database_url is required when session tracking uses sqlite or MariaDB storage";
  _ ← reject (cleanup_interval_hours s =? 0) "sessions.cleanup_interval_hours must be greater than 0";
  _ ← reject (traffic_update_packet_interval s =? 0)
        "sessions.traffic_update_packet_interval must be greater than 0";
  _ ← reject (stats_window_hours s =? 0) "sessions.stats_window_hours must be greater than 0";
  _ ← reject (is_blank (base_path s)) "sessions.base_path cannot be empty";
  reject (any_whitespace (as_bytes (base_path s))) "sessions.base_path cannot contain whitespace".

Definition validate_stats_api (s : SessionSettings) : result RustSocksError () :=
  if stats_api_enabled s then
    _ ← reject (is_blank (stats_api_bind_address s))
          "sessions.stats_api_bind_address cannot be empty when stats API is enabled";
    reject (bool_decide (parse_socket_addr (stats_api_bind_address s +:+ ":" +:+ fmt_Z (stats_api_port s))
                         = None))
      ("Invalid stats API bind address/port: " +:+ stats_api_bind_address s +:+ ":" +:+
       fmt_Z (stats_api_port s))
  else Ok tt.

Fixpoint validate_dashboard_users (us : list User) : result RustSocksError () :=
  match us with
  | [] => Ok tt
  | user :: us' =>
    _ ← reject (is_blank (username user)) "sessions.dashboard_auth user username cannot be empty";
    _ ← reject (is_blank (password user)) "sessions.dashboard_auth user password cannot be empty";
    validate_dashboard_users us'
  end.
Definition validate_dashboard (d : DashboardAuthSettings) : result RustSocksError () :=
  if da_enabled d then
    _ ← reject (bool_decide (da_users d = []))
          "sessions.dashboard_auth requires at least one user when enabled";
    validate_dashboard_users (da_users d)
  else Ok tt.

Definition validate_metrics (m : MetricsSettings) : result RustSocksError () :=
  _ ← reject (negb (one_of (metrics_storage m) ["memory"; "sqlite"]))
        ("Invalid metrics storage: " +:+ metrics_storage m +:+ ". Supported: memory, sqlite");
  _ ← reject (metrics_cleanup_interval_hours m =? 0)
        "metrics.cleanup_interval_hours must be greater than 0";
  reject (collection_interval_secs m =? 0) "metrics.collection_interval_secs must be greater than 0".

(** On Unix. *)
Definition validate (c : Config) : result RustSocksError () :=
  _ ← validate_auth (auth c);
  _ ← validate_tls (tls (server c));
  _ ← validate_acl (acl c);
  _ ← validate_sessions (sessions c);
  _ ← reject (bool_decide (parse_ip (bind_address (server c)) = None))
        ("Invalid server.bind_address '" +:+ bind_address (server c) +:+
         "': expected IPv4 or IPv6 literal");
  _ ← validate_stats_api (sessions c);
  _ ← reject (negb (String.prefix "/" (normalized_base_path (sessions c))))
        "sessions.base_path must resolve to an absolute path starting with '/'";
  _ ← validate_dashboard (dashboard_auth (sessions c));
  validate_metrics (metrics c).

Definition set_base_path (p : string) (c : Config) : Config :=
  let s := sessions c in
  mkConfig (server c) (auth c) (logging c) (acl c)
    {| sessions_enabled := sessions_enabled s; storage := storage s; database_url := database_url s;
       batch_size := batch_size s; batch_interval_ms := batch_interval_ms s;
       retention_days := retention_days s; cleanup_interval_hours := cleanup_interval_hours s;
       traffic_update_packet_interval := traffic_update_packet_interval s;
       stats_window_hours := stats_window_hours s; stats_api_enabled := stats_api_enabled s;
       stats_api_bind_address := stats_api_bind_address s; stats_api_port := stats_api_port s;
       swagger_enabled := swagger_enabled s; dashboard_enabled := dashboard_enabled s;
       dashboard_auth := dashboard_auth s; base_path := p |}
    (metrics c) (telemetry c) (qos c).

(** [toml] is [toml::from_str]. *)
Definition from_toml_str (toml : string -> result string Config) (content : string)
    : result RustSocksError Config :=
  config ← map_err (fun e => Stream.Config ("Failed to parse config: " +:+ e)) (toml content);
  _ ← validate config;
  Ok (set_base_path (normalized_base_path (sessions config)) config).
Definition from_file (read : string -> result string string) (toml : string -> result string Config)
    (path : string) : result RustSocksError Config :=
  content ← map_err (fun e => Stream.Config ("Failed to read config file: " +:+ e)) (read path);
  from_toml_str toml content.

(** The options of the command line that replace settings (main.rs). *)
Definition apply_cli_overrides (bind : option string) (port : option Z) (c : Config) : Config :=
  let s := server c in
  mkConfig (mkServerConfig (default (bind_address s) bind) (default (bind_port s) port)
              (max_connections s) (tls s) (pool s))
    (auth c) (logging c) (acl c) (sessions c) (metrics c) (telemetry c) (qos c).
