(* ===== verification/SettingsSpec.v ===== *)
(** * Properties of the configuration

    What a validated configuration guarantees, component by component, and the
    canonical form of the base path. *)
From S2P Require Import Prelude Net Stream Auth Settings.
From S2P Require Qos Pool.

(** ** Validation *)

Lemma reject_Ok bad msg : reject bad msg = Ok tt <-> bad = false.
Proof. unfold reject. by destruct bad. Qed.

Lemma then_Ok {E} (m : result E ()) (k : result E ()) :
  (_ ← m; k) = Ok tt <-> m = Ok tt /\ k = Ok tt.
Proof. destruct m as [[]|e]; cbn; naive_solver. Qed.

Lemma one_of_spec s l : negb (one_of s l) = false <-> s ∈ l.
Proof. unfold one_of. rewrite negb_false_iff. apply bool_decide_eq_true. Qed.

Lemma required_path_Ok o unset empty :
  required_path o unset empty = Ok tt <-> exists path, o = Some path /\ is_blank path = false.
Proof.
  unfold required_path. destruct o as [path|]; cbn; [|naive_solver].
  rewrite reject_Ok. naive_solver.
Qed.

(** Settings on which the authentication can be built. *)
Record valid_auth (a : AuthConfig) : Prop := {
  va_client : client_method a ∈ ["none"; "pam.address"]%string;
  va_socks : socks_method a ∈ ["none"; "userpass"; "pam.address"; "pam.username"]%string;
  va_users : socks_method a = "userpass"%string -> users a <> [];
  va_username : socks_method a = "pam.username"%string -> is_blank (username_service (pam a)) = false;
  va_address : socks_method a = "pam.address"%string \/ client_method a = "pam.address"%string ->
    is_blank (address_service (pam a)) = false;
}.

Lemma implied_false (P : Prop) `{!Decision P} b : bool_decide P && b = false <-> (P -> b = false).
Proof. destruct (bool_decide_reflect P), b; naive_solver. Qed.

Lemma validate_auth_Ok a : validate_auth a = Ok tt <-> valid_auth a.
Proof.
  unfold validate_auth. rewrite !then_Ok, !reject_Ok, !one_of_spec.
  rewrite <- (bool_decide_or (socks_method a = "pam.address"%string)), !implied_false.
  split.
  - intros (H1 & H2 & H3 & H4 & H5). constructor; [done|done| |done|done].
    intros Hs He. by specialize (H3 Hs); rewrite bool_decide_eq_false in H3.
  - intros [H1 H2 H3 H4 H5]. split_and!; [done|done| |done|done].
    intros Hs. rewrite bool_decide_eq_false. by apply H3.
Qed.

Record valid_tls (t : TlsSettings) : Prop := {
  vt_cert : is_Some (certificate_path t);
  vt_key : is_Some (private_key_path t);
  vt_ca : require_client_auth t = true -> is_Some (client_ca_path t);
  vt_version : forall v, min_protocol_version t = Some v -> v ∈ ["TLS12"; "TLS13"]%string;
}.

Lemma validate_tls_Ok t : validate_tls t = Ok tt -> tls_enabled t = true -> valid_tls t.
Proof.
  unfold validate_tls. intros H He. rewrite He in H. revert H. rewrite !then_Ok, !required_path_Ok, reject_Ok.
  intros ((cert & Hc & _) & (key & Hk & _) & Hca & Hv). constructor; [by eauto..| |].
  - intros Hr. rewrite Hr in Hca. destruct (client_ca_path t); [by eauto|done].
  - intros v Hm. rewrite Hm, reject_Ok, one_of_spec in Hv. done.
Qed.

Lemma validate_acl_Ok a : validate_acl a = Ok tt -> acl_on a = true -> is_Some (config_file a).
Proof. unfold validate_acl. intros H He. rewrite He in H. apply required_path_Ok in H as (p & -> & _). eauto. Qed.

Record valid_sessions (s : SessionSettings) : Prop := {
  vs_url : sessions_enabled s && db_backed_storage s = true -> is_Some (database_url s);
  vs_cleanup : cleanup_interval_hours s <> 0;
  vs_packets : traffic_update_packet_interval s <> 0;
  vs_window : stats_window_hours s <> 0;
  vs_path : any_whitespace (as_bytes (base_path s)) = false;
}.

Lemma validate_sessions_Ok s : validate_sessions s = Ok tt -> valid_sessions s.
Proof.
  unfold validate_sessions. rewrite !then_Ok, !reject_Ok.
  intros (_ & Hu & Hc & Hp & Hw & _ & Hb).
  constructor; [|by apply Z.eqb_neq..|done].
  intros He. rewrite He in Hu. apply bool_decide_eq_false in Hu. destruct (database_url s); [eauto|done].
Qed.

Record valid_metrics (m : MetricsSettings) : Prop := {
  vm_cleanup : metrics_cleanup_interval_hours m <> 0;
  vm_collection : collection_interval_secs m <> 0;
}.

Record valid (c : Config) : Prop := {
  v_auth : valid_auth (auth c);
  v_tls : tls_enabled (tls (server c)) = true -> valid_tls (tls (server c));
  v_acl : acl_on (acl c) = true -> is_Some (config_file (acl c));
  v_sessions : valid_sessions (sessions c);
  v_bind : is_Some (parse_ip (bind_address (server c)));
  v_metrics : valid_metrics (metrics c);
}.

Lemma config_validate_Ok c : validate c = Ok tt -> valid c.
Proof.
  unfold validate, validate_metrics. rewrite !then_Ok, !reject_Ok.
  intros (Ha & Ht & Hacl & Hs & Hb & _ & _ & _ & _ & Hm & Hi). constructor.
  - by apply validate_auth_Ok.
  - by apply validate_tls_Ok.
  - by apply validate_acl_Ok.
  - by apply validate_sessions_Ok.
  - rewrite bool_decide_eq_false in Hb. by destruct (parse_ip _); [eauto|].
  - constructor; by apply Z.eqb_neq.
Qed.

(** The defaults are a valid configuration. *)
Theorem default_config_valid now : validate (Config_default now) = Ok tt.
Proof. reflexivity. Qed.

Lemma from_file_valid read toml path c :
  from_file read toml path = Ok c ->
  exists c', c = set_base_path (normalized_base_path (sessions c')) c' /\ valid c'.
Proof.
  unfold from_file, from_toml_str. destruct (read path) as [content|e]; cbn; [|done].
  destruct (toml content) as [c'|e]; cbn; [|done].
  destruct (validate c') as [[]|e] eqn:Hv; cbn; [|done]. intros [= <-].
  exists c'. split; [done|by apply config_validate_Ok].
Qed.

(** ** The base path *)

(** The segments of a path: what stands between slashes and is not empty. *)
Definition segments (raw : string) : list string :=
  List.filter (fun s => negb (bool_decide (s = ""%string))) (split_char "/" (trim raw)).
Definition absolute (segs : list string) : string := foldr (fun s r => "/" +:+ s +:+ r) ""%string segs.

Lemma fold_segments l acc :
  fold_left (fun acc segment =>
    if decide (segment = ""%string) then acc else acc +:+ "/" +:+ segment) l acc =
  acc +:+ absolute (List.filter (fun s => negb (bool_decide (s = ""%string))) l).
Proof.
  revert acc. induction l as [|s l IH]; intros acc; cbn; [by rewrite str_app_nil_r|].
  rewrite IH. destruct (decide (s = ""%string)) as [->|Hs]; [done|].
  rewrite bool_decide_eq_false_2 by done. cbn. by rewrite !str_app_assoc.
Qed.

Lemma split_absolute segs :
  Forall (fun s => contains_char "/" s = false) segs -> segs <> [] ->
  split_char "/" (absolute segs) = ""%string :: segs.
Proof.
  intros Hs Hn. destruct segs as [|s segs]; [done|clear Hn].
  change (absolute (s :: segs)) with (String "/" (s +:+ absolute segs)).
  change (split_char "/" (String "/" (s +:+ absolute segs))) with
    (""%string :: split_char "/" (s +:+ absolute segs)). f_equal.
  revert s Hs. induction segs as [|t segs IH]; intros s [Hs Hss]%Forall_cons.
  - cbn [absolute foldr]. rewrite str_app_nil_r. by apply split_char_none.
  - change (absolute (t :: segs)) with (String "/" (t +:+ absolute segs)).
    rewrite split_char_app by done. f_equal. by apply IH.
Qed.

(** The base path in use is absolute, has no empty segment and no slash at its
    end, and keeps exactly the segments of the configured one. *)
Theorem normalize_base_path_correct raw :
  normalize_base_path raw = (if decide (segments raw = []) then "/"%string else absolute (segments raw)) /\
  String.prefix "/" (normalize_base_path raw) = true /\
  (segments raw <> [] -> split_char "/" (normalize_base_path raw) = ""%string :: segments raw).
Proof.
  assert (normalize_base_path raw =
    if decide (segments raw = []) then "/"%string else absolute (segments raw)) as Hn.
  { unfold normalize_base_path. rewrite fold_segments.
    change (List.filter _ (split_char "/" (trim raw))) with (segments raw).
    change (""%string +:+ absolute (segments raw)) with (absolute (segments raw)).
    destruct (decide (trim raw = "" \/ trim raw = "/")%string) as [Ht|Ht].
    - unfold segments. by destruct Ht as [-> | ->].
    - destruct (segments raw) as [|s segs] eqn:E; [done|]. by rewrite decide_False. }
  split; [done|]. rewrite Hn. split.
  - destruct (segments raw) as [|s segs]; [done|]. cbn. by destruct (s +:+ _).
  - intros Hs. rewrite decide_False by done. apply split_absolute; [|done].
    apply Forall_forall. intros s Hin. unfold segments in Hin.
    apply elem_of_bfilter in Hin as [Hin _]. by eapply split_char_free.
Qed.

(** ** Loading *)

(** *** White space in a part of a text *)

Lemma any_whitespace_cons a r :
  any_whitespace (a :: r) = false -> ws1 a = false /\ any_whitespace r = false /\
  (forall b r', r = b :: r' -> ws2 a b = false /\ forall c r'', r' = c :: r'' -> ws3 a b c = false).
Proof.
  cbn. intros ((-> & H)%orb_false_iff & ->)%orb_false_iff. split; [done|]. split; [done|].
  intros b r' ->. apply orb_false_iff in H as (-> & H). split; [done|]. by intros c r'' ->.
Qed.

Lemma any_whitespace_app l r :
  any_whitespace (l ++ r) = false -> any_whitespace l = false /\ any_whitespace r = false.
Proof.
  induction l as [|a l IH]; [done|]. intros (H1 & (Hl & Hr)%IH & H2)%any_whitespace_cons. split; [|done].
  cbn. rewrite H1, Hl. destruct l as [|b l]; [done|]. destruct (H2 b (l ++ r) eq_refl) as (-> & H3).
  destruct l as [|c l]; [done|]. by rewrite (H3 c (l ++ r) eq_refl).
Qed.

Lemma any_whitespace_slash l r :
  any_whitespace l = false -> any_whitespace r = false -> any_whitespace (l ++ x2f :: r) = false.
Proof.
  intros Hl Hr. induction l as [|a l IH].
  { cbn. rewrite Hr. by destruct r as [|b [|c r]]. }
  apply any_whitespace_cons in Hl as (H1 & Hl & H2). specialize (IH Hl).
  cbn. rewrite H1. cbn in IH. rewrite IH. destruct l as [|b l]; cbn.
  - assert (ws2 a x2f = false) as -> by (unfold ws2; by destruct (in_range 194 194 a)).
    destruct r as [|c r]; [done|]. unfold ws3. replace (in_range 154 154 x2f) with false by done.
    replace (in_range 128 128 x2f) with false by done. replace (in_range 129 129 x2f) with false by done.
    by rewrite !andb_false_r.
  - destruct (H2 b l eq_refl) as (-> & H3). destruct l as [|c l]; cbn; [|by rewrite (H3 c l eq_refl)].
    unfold ws3. replace (in_range 128 128 x2f) with false by done.
    replace (in_range 128 138 x2f) with false by done. replace (in_range 168 169 x2f) with false by done.
    replace (in_range 175 175 x2f) with false by done. replace (in_range 159 159 x2f) with false by done.
    by rewrite !andb_false_r.
Qed.

Lemma strip_ws_id bs : any_whitespace bs = false -> strip_ws ws2 ws3 bs = bs.
Proof.
  destruct bs as [|a r]; [done|]. intros (H1 & _ & H2)%any_whitespace_cons. cbn. rewrite H1.
  destruct r as [|b r]; [done|]. destruct (H2 b r eq_refl) as (-> & H3).
  destruct r as [|c r]; [done|]. by rewrite (H3 c r eq_refl).
Qed.

Lemma strip_ws_reverse_id bs : any_whitespace bs = false ->
  strip_ws (flip ws2) (fun a b c => ws3 c b a) (reverse bs) = reverse bs.
Proof.
  intros H. rewrite <- (reverse_involutive bs) in H. revert H.
  generalize (reverse bs) as l. intros [|a r]; [done|]. rewrite reverse_cons. intros H.
  pose proof (any_whitespace_app _ _ H) as (_ & (H1 & _)%any_whitespace_cons). cbn. rewrite H1.
  destruct r as [|b r]; [done|]. rewrite reverse_cons, <- app_assoc in H. cbn in H.
  pose proof (any_whitespace_app _ _ H) as (_ & (_ & _ & H2)%any_whitespace_cons).
  unfold flip. rewrite (proj1 (H2 a [] eq_refl)).
  destruct r as [|c r]; [done|]. rewrite reverse_cons, <- app_assoc in H. cbn in H.
  pose proof (any_whitespace_app _ _ H) as (_ & (_ & _ & H3)%any_whitespace_cons).
  by rewrite (proj2 (H3 b [a] eq_refl) a [] eq_refl).
Qed.

Lemma trim_id s : any_whitespace (as_bytes s) = false -> trim s = s.
Proof.
  intros H. unfold trim. rewrite strip_ws_id by done. rewrite strip_ws_reverse_id by done.
  by rewrite reverse_involutive, of_bytes_as_bytes.
Qed.

(** *** The base path of a valid configuration *)

Definition no_whitespace (s : string) : Prop := any_whitespace (as_bytes s) = false.

Lemma as_bytes_cat s t : as_bytes (s +:+ t) = as_bytes s ++ as_bytes t.
Proof. induction s as [|c s IH]; [done|]. rewrite str_app_cons. cbn. by f_equal. Qed.

Lemma split_char_head c s : exists p ps r, split_char c s = p :: ps /\ s = p +:+ r.
Proof.
  induction s as [|d s (p & ps & r & Hs & ->)]; [by exists ""%string, [], ""%string|].
  cbn. destruct (decide (c = d)); [by eexists ""%string, _, _|]. rewrite Hs. by eexists _, _, r.
Qed.

Lemma split_char_no_whitespace c s : no_whitespace s -> Forall no_whitespace (split_char c s).
Proof.
  unfold no_whitespace. induction s as [|d s IH]; intros Hs; [by repeat constructor|].
  assert (as_bytes (String d s) = as_bytes (String d "") ++ as_bytes s) as E by done.
  assert (Hs' := Hs). rewrite E in Hs'. apply any_whitespace_app in Hs' as (_ & Hs').
  specialize (IH Hs'). cbn. destruct (decide (c = d)); [by constructor|].
  destruct (split_char_head c s) as (p & ps & r & Hp & ->). rewrite Hp in *. apply Forall_cons in IH as [_ IH].
  constructor; [|done].
  change (String d (p +:+ r)) with (String d p +:+ r) in Hs. rewrite as_bytes_cat in Hs.
  by apply any_whitespace_app in Hs as [? _].
Qed.

Lemma absolute_no_whitespace segs : Forall no_whitespace segs -> no_whitespace (absolute segs).
Proof.
  unfold no_whitespace. induction 1 as [|s segs Hs Hss IH]; [done|].
  change (absolute (s :: segs)) with (String "/" (s +:+ absolute segs)).
  change (any_whitespace ([] ++ x2f :: as_bytes (s +:+ absolute segs)) = false).
  apply any_whitespace_slash; [done|]. rewrite as_bytes_cat.
  destruct segs as [|t segs]; [by rewrite app_nil_r|].
  change (absolute (t :: segs)) with (String "/" (t +:+ absolute segs)) in *.
  change (as_bytes (String "/" (t +:+ absolute segs))) with ([] ++ x2f :: as_bytes (t +:+ absolute segs)) in *.
  apply any_whitespace_slash; [done|]. by apply any_whitespace_app in IH as [_ (_ & ? & _)%any_whitespace_cons].
Qed.

(** [segments] keeps what the normalization of a path without white space keeps. *)
Lemma bfilter_idem {A} (f : A -> bool) l : List.filter f (List.filter f l) = List.filter f l.
Proof. induction l as [|a l IH]; [done|]. cbn. destruct (f a) eqn:E; [|done]. cbn. by rewrite E, IH. Qed.

Lemma normalized_no_whitespace raw : no_whitespace raw -> no_whitespace (normalize_base_path raw).
Proof.
  intros Hw. rewrite (proj1 (normalize_base_path_correct raw)). case_decide; [done|].
  apply absolute_no_whitespace. unfold segments. rewrite trim_id by done.
  pose proof (split_char_no_whitespace "/" raw Hw) as Hf. rewrite Forall_forall in *.
  intros s [Hs _]%elem_of_bfilter. by apply Hf.
Qed.

Lemma normalize_fixed raw : no_whitespace (normalize_base_path raw) ->
  normalize_base_path (normalize_base_path raw) = normalize_base_path raw.
Proof.
  intros Hw. rewrite (proj1 (normalize_base_path_correct (normalize_base_path raw))).
  destruct (decide (segments raw = [])) as [Hn|Hn].
  { assert (normalize_base_path raw = "/"%string) as -> by by rewrite (proj1 (normalize_base_path_correct raw)), decide_True.
    reflexivity. }
  assert (segments (normalize_base_path raw) = segments raw) as ->.
  { unfold segments at 1. rewrite trim_id by exact Hw.
    rewrite (proj2 (proj2 (normalize_base_path_correct raw)) Hn). cbn. apply bfilter_idem. }
  by rewrite (proj1 (normalize_base_path_correct raw)).
Qed.

Lemma normalize_idem raw : no_whitespace raw ->
  normalize_base_path (normalize_base_path raw) = normalize_base_path raw.
Proof. intros Hw. by apply normalize_fixed, normalized_no_whitespace. Qed.

Lemma from_toml_str_valid toml content c :
  from_toml_str toml content = Ok c ->
  validate c = Ok tt /\ valid c /\ String.prefix "/" (base_path (sessions c)) = true /\
  normalized_base_path (sessions c) = base_path (sessions c).
Proof.
  unfold from_toml_str. destruct (toml content) as [c'|e]; cbn; [|done].
  destruct (validate c') as [[]|e] eqn:Hv; cbn; [|done]. intros [= <-].
  pose proof (vs_path _ (v_sessions _ (config_validate_Ok _ Hv))) as Hw.
  assert (validate (set_base_path (normalized_base_path (sessions c')) c') = Ok tt) as Hv'.
  { revert Hv. unfold validate, validate_sessions, set_base_path; cbn. rewrite !then_Ok, !reject_Ok.
    intros (? & ? & ? & (? & ? & ? & ? & ? & _ & _) & ? & ? & _ & ? & ?).
    pose proof (normalized_no_whitespace _ Hw) as Hn. pose proof (normalize_base_path_correct (base_path (sessions c'))) as (_ & Hp & _).
    split_and!; try done.
    - unfold is_blank. change (normalized_base_path _) with (normalize_base_path (base_path (sessions c'))).
      rewrite trim_id by done. rewrite bool_decide_eq_false. intros E. by rewrite E in Hp.
    - unfold normalized_base_path. cbn. rewrite normalize_idem, Hp by done. done. }
  split; [done|]. split; [by apply config_validate_Ok|]. cbn. split; [apply normalize_base_path_correct|].
  by apply normalize_idem.
Qed.

(** C33: a configuration that was loaded from a file is well formed and stays so:
    it passes the validation again although the base path was replaced by its
    canonical form after the validation, everything [valid] states holds of it,
    and its base path is absolute and a fixed point of the normalization. *)
Theorem loaded_config_valid read toml path c :
  from_file read toml path = Ok c ->
  validate c = Ok tt /\ valid c /\ String.prefix "/" (base_path (sessions c)) = true /\
  normalized_base_path (sessions c) = base_path (sessions c).
Proof.
  unfold from_file. destruct (read path) as [content|e]; cbn; [|done]. apply from_toml_str_valid.
Qed.

Lemma loaded_config_valid_witness :
  let read := fun _ => Ok "base_path = '//proxy/'"%string in
  let toml := fun _ => Ok (set_base_path "//proxy/" (Config_default 1700000000)) in
  exists c, from_file read toml "rustsocks.toml" = Ok c /\ base_path (sessions c) = "/proxy"%string /\
    validate c = Ok tt /\ valid c /\ String.prefix "/" (base_path (sessions c)) = true /\
    normalized_base_path (sessions c) = base_path (sessions c).
Proof.
  intros read toml. exists (set_base_path "/proxy" (Config_default 1700000000)).
  assert (from_file read toml "rustsocks.toml" = Ok (set_base_path "/proxy" (Config_default 1700000000)))
    as H by reflexivity.
  split; [exact H|]. split; [reflexivity|]. exact (loaded_config_valid _ _ _ _ H).
Defined.
