(* ===== verification/Listener.v ===== *)
(** * Starting the server

    src/src/server/listener.rs: what is built from a configuration, in the order in
    which it is built, the TLS acceptor, and what is done with a connection.  Opening
    and parsing files, TLS, binding and the file watcher are the classes [TlsDeps]
    and [Startup], and what the allocations and durations of a configuration may be
    is [Layout] and [TimeDelta].  [None] is a panic. *)
From S2P Require Import Prelude Rust Net Stream Acl AclEngine Session Store StoreSpec Manager Auth Settings.
From S2P Require Qos Pool PoolLog Telemetry Proxy Handler.

(** ** TLS *)

(** rustls and rustls_pemfile, on the contents of files. *)
Class TlsDeps := {
  Cert : Type;
  Key : Type;
  Verifier : Type;
  TlsAcceptor : Type;
  certs : list u8 -> result string (list Cert);
  pkcs8_private_keys : list u8 -> result string (list Key);
  rsa_private_keys : list u8 -> result string (list Key);
  add_parsable_certificates : list Cert -> list Cert; (* those that are added *)
  client_verifier : list Cert -> result string Verifier;
  (* only TLS 1.3, or also 1.2; the names offered by ALPN *)
  acceptor : bool -> option Verifier -> list Cert -> Key -> list string -> result string TlsAcceptor;
}.

Definition config_err {A} (context : string) (r : result string A) : result RustSocksError A :=
  map_err (fun e => Stream.Config (context +:+ e)) r.

Section tls.
Context {tls_deps : TlsDeps} (open : string -> result string (list u8)).

Definition load_certificates (path : string) : result RustSocksError (list Cert) :=
  file ← config_err ("Failed to open TLS certificate file '" +:+ path +:+ "': ") (open path);
  loaded ← config_err ("Failed to parse certificates from '" +:+ path +:+ "': ") (certs file);
  match loaded with
  | [] => Err (Stream.Config ("TLS certificate file '" +:+ path +:+ "' did not contain any certificates"))
  | _ => Ok loaded
  end.

(** The file is read a second time when it holds no PKCS#8 key. *)
Definition load_private_key (path : string) : result RustSocksError Key :=
  file ← config_err ("Failed to open TLS private key file '" +:+ path +:+ "': ") (open path);
  pkcs8_keys ← config_err ("Failed to parse PKCS#8 private key from '" +:+ path +:+ "': ")
                 (pkcs8_private_keys file);
  match pkcs8_keys with
  | key :: _ => Ok key
  | [] =>
    file ← config_err ("Failed to reopen TLS private key file '" +:+ path +:+ "': ") (open path);
    rsa_keys ← config_err ("Failed to parse RSA private key from '" +:+ path +:+ "': ")
                 (rsa_private_keys file);
    match rsa_keys with
    | key :: _ => Ok key
    | [] => Err (Stream.Config ("No supported private key found in '" +:+ path +:+
                                "' (expected PKCS#8 or RSA)"))
    end
  end.

Definition build_client_root_store (path : string) : result RustSocksError (list Cert) :=
  file ← config_err ("Failed to open client CA file '" +:+ path +:+ "': ") (open path);
  loaded ← config_err ("Failed to parse client CA certificates from '" +:+ path +:+ "': ") (certs file);
  match loaded with
  | [] => Err (Stream.Config ("Client CA file '" +:+ path +:+ "' did not contain any certificates"))
  | _ =>
    match add_parsable_certificates loaded with
    | [] => Err (Stream.Config ("No valid client CA certificates could be loaded from '" +:+ path +:+ "'"))
    | added => Ok added
    end
  end.

(** [expect] panics on [None]. *)
Definition expect {A} (o : option A) (k : A -> option (result RustSocksError TlsAcceptor)) :=
  match o with Some a => k a | None => None end.

Definition create_tls_acceptor (t : TlsSettings) : option (result RustSocksError TlsAcceptor) :=
  match key_password t with
  | Some _ => Some (Err (Stream.Config
      "server.tls.key_password is not supported (keys must be unencrypted)"))
  | None =>
    expect (certificate_path t) (fun cert_path =>
    expect (private_key_path t) (fun key_path =>
    match load_certificates cert_path with
    | Err e => Some (Err e)
    | Ok loaded =>
      match load_private_key key_path with
      | Err e => Some (Err e)
      | Ok key =>
        let only13 := bool_decide (min_protocol_version t = Some "TLS13"%string) in
        let configure verifier :=
          config_err "Failed to configure TLS certificates: "
            (acceptor only13 verifier loaded key (alpn_protocols t)) in
        if require_client_auth t then
          expect (client_ca_path t) (fun ca_path =>
            Some (root_store ← build_client_root_store ca_path;
                  verifier ← config_err "Failed to build client cert verifier: "
                               (client_verifier root_store);
                  configure (Some verifier)))
        else Some (configure None)
      end
    end))
  end.
End tls.

(** ** The server *)

(** Background tasks, each with the period of its timer in nanoseconds; a timer
    whose period is zero panics in its task. *)
Inductive timer : Type :=
| TBatchWriter | TSessionCleanup | TMetricsCollector | TMetricsCleanup | TRebalance.

(** What the environment answers while the server starts. *)
Class Startup := {
  open_file : string -> result string (list u8);
  current_dir : result string string;
  canonicalize : string -> result string string;
  acl_file : string -> AclEngine.config_file;
  fmt_acl_error : AclError -> string;
  connect : string -> result string SessionStore;
  db_up : bool; (* the database carries out the statement that closes stale sessions *)
  start_watcher : string -> result string ();
  start_api_server : result string ();
  boot_time : Z;
}.

Record SocksServer `{TlsDeps} `{AuthDeps} `{AclDeps} `{Chrono} `{UuidText} : Type := mkSocksServer {
  ss_config : Config;
  ss_auth_manager : AuthManager;
  ss_acl_engine : option AclEngine;
  ss_anonymous_user : string;
  ss_session_manager : SessionManager SessionStore;
  ss_traffic_config : Proxy.TrafficUpdateConfig;
  ss_stats : bool;                 (* [stats_handle.is_some()] *)
  ss_acl_watcher : option string;  (* the file it watches *)
  ss_qos_engine : Qos.QosEngine;
  ss_tls_acceptor : option TlsAcceptor;
  ss_connection_pool : PoolLog.LoggedPool; (* with the log of the telemetry *)
  ss_metrics_history : option MetricsHistory;
  ss_timers : list (timer * Z);
}.

Section server.
Context {tls_deps : TlsDeps} {auth_deps : AuthDeps} {acl_deps : AclDeps}.
Context {chrono : Chrono} {uuids : UuidText} {engine : SqlEngine} {env : Startup}.
Context {layout : Layout} {delta : TimeDelta}.

(** [PathBuf::join] of a relative path. *)
Definition is_absolute (path : string) : bool := String.prefix "/" path.
Definition join (dir path : string) : string :=
  if String.prefix "/" (of_bytes (reverse (as_bytes dir))) then dir +:+ path else dir +:+ "/" +:+ path.

Definition resolve_acl_path (path : string) : result RustSocksError string :=
  absolute_path ←
    (if is_absolute path then Ok path
     else dir ← config_err "Failed to determine current directory for ACL config: " current_dir;
          Ok (join dir path));
  config_err ("Failed to canonicalize ACL config path '" +:+ path +:+ "': ") (canonicalize absolute_path).

(** The engine and the file it was read from. *)
Definition start_acl (a : AclSettings) : option (result RustSocksError (option (AclEngine * string))) :=
  if acl_on a then
    match config_file a with
    | None => None
    | Some config_path_str =>
      Some (config_path ← resolve_acl_path config_path_str;
            acl_config ← map_err (fun e => Stream.Config (fmt_acl_error e))
                           (load_acl_config (acl_file config_path));
            engine ← map_err (fun e => Stream.Config ("Failed to initialize ACL engine: " +:+ fmt_acl_error e))
                       (AclEngine_new acl_config);
            Ok (Some (engine, config_path)))
    end
  else Some (Ok None).

(** The manager, with the store it writes to if sessions are kept in a database,
    and the timers of the two. *)
Definition start_sessions (s : SessionSettings)
    : option (result RustSocksError (SessionManager SessionStore * option SessionStore * list (timer * Z))) :=
  let manager := SessionManager_new SessionMetrics_init in
  if sessions_enabled s && db_backed_storage s then
    match database_url s with
    | None => None
    | Some url =>
      match connect url with
      | Err e => Some (Err (Stream.Config ("Failed to initialize session store: " +:+ e)))
      | Ok store =>
        let store := (close_all_active_sessions db_up boot_time store).2 in
        let batch := BatchConfig_from_settings (batch_size s) (batch_interval_ms s) in
        _ ← with_capacity size_of_session (Session.batch_size batch);
        Some (Ok (set_store store batch manager, Some store,
          (TBatchWriter, batch_interval batch) ::
          match cleanup_interval_secs (retention_days s) (cleanup_interval_hours s) with
          | Some secs => [(TSessionCleanup, secs * 10 ^ 9)]
          | None => []
          end))
      end
    end
  else Some (Ok (manager, None, [])).

(** [retention_hours * 3600 / collection_interval_secs]; the division panics by zero. *)
Definition start_metrics (m : MetricsSettings) (store : option SessionStore)
    : option (option MetricsHistory * list (timer * Z)) :=
  if metrics_enabled m then
    if collection_interval_secs m =? 0 then None
    else
      let max_snapshots := wrap64 (retention_hours m * 3600) / collection_interval_secs m in
      history ← MetricsHistory_new max_snapshots (as_i64 (retention_hours m));
      let use_database := bool_decide (metrics_storage m = "sqlite"%string) &&
                          match store with Some _ => true | None => false end in
      Some (Some history,
        (TMetricsCollector, collection_interval_secs m * 10 ^ 9) ::
        if use_database
        then match cleanup_interval_secs (retention_hours m) (metrics_cleanup_interval_hours m) with
             | Some secs => [(TMetricsCleanup, secs * 10 ^ 9)]
             | None => []
             end
        else [])
  else Some (None, []).

Definition start_api (s : SessionSettings) (m : MetricsSettings) (store : option SessionStore)
    : option (result RustSocksError (bool * option MetricsHistory * list (timer * Z))) :=
  if stats_api_enabled s then
    match start_metrics m store with
    | None => None
    | Some (history, timers) =>
      Some (_ ← config_err "Failed to start API server: " start_api_server; Ok (true, history, timers))
    end
  else Some (Ok (false, None, [])).

Definition qos_timers (q : Qos.QosEngine) (c : Qos.QosConfig) : list (timer * Z) :=
  match q with
  | Qos.QosHtb _ =>
    if Qos.fair_sharing_enabled (Qos.htb c)
    then [(TRebalance, Qos.rebalance_interval_ms (Qos.htb c) * 10 ^ 6)] else []
  | Qos.QosNone => []
  end.

Definition start_telemetry (t : TelemetrySettings)
    : option (option (Telemetry.TelemetryHistory (V := PoolLog.fields))) :=
  if telemetry_enabled t
  then h ← Telemetry.TelemetryHistory_new (max_events t) (telemetry_retention_hours t); Some (Some h)
  else Some None.

(** [?] in a computation that may also panic. *)
Definition and_then {A B} (m : option (result RustSocksError A)) (k : A -> option (result RustSocksError B))
    : option (result RustSocksError B) :=
  match m with Some (Ok a) => k a | Some (Err e) => Some (Err e) | None => None end.

Definition SocksServer_new (c : Config) : option (result RustSocksError SocksServer) :=
  and_then (Some (AuthManager_new (auth c))) (fun auth_manager =>
  and_then (start_acl (acl c)) (fun acl_started =>
  and_then (if tls_enabled (tls (server c))
            then and_then (create_tls_acceptor open_file (tls (server c))) (fun a => Some (Ok (Some a)))
            else Some (Ok None)) (fun tls_acceptor =>
  and_then (start_sessions (sessions c)) (fun '(manager, store, session_timers) =>
  and_then (match acl_started with
            | Some (_, path) =>
              if watch (acl c)
              then Some (_ ← config_err "Failed to start ACL watcher: " (start_watcher path); Ok (Some path))
              else Some (Ok None)
            | None => Some (Ok None)
            end) (fun acl_watcher =>
  and_then (log ← start_telemetry (telemetry c); Some (Ok log)) (fun telemetry_history =>
  and_then (start_api (sessions c) (metrics c) store) (fun '(stats, history, api_timers) =>
  and_then (Some (Qos.QosEngine_from_config boot_time (qos c))) (fun qos_engine =>
  Some (Ok {|
    ss_config := c;
    ss_auth_manager := auth_manager;
    ss_acl_engine := fst <$> acl_started;
    ss_anonymous_user := Settings.anonymous_user (acl c);
    ss_session_manager := manager;
    ss_traffic_config := Proxy.TrafficUpdateConfig_new (traffic_update_packet_interval (sessions c));
    ss_stats := stats;
    ss_acl_watcher := acl_watcher;
    ss_qos_engine := qos_engine;
    ss_tls_acceptor := tls_acceptor;
    ss_connection_pool := PoolLog.new_with_telemetry (pool (server c)) telemetry_history;
    ss_metrics_history := history;
    ss_timers := session_timers ++ api_timers ++ qos_timers qos_engine (qos c);
  |}))))))))).

(** The context that every connection gets. *)
Definition handler_ctx (s : SocksServer) : Handler.ClientHandlerContext :=
  {| Handler.auth_manager := ss_auth_manager s;
     Handler.acl_enabled := match ss_acl_engine s with Some _ => true | None => false end;
     Handler.anonymous_user := ss_anonymous_user s |}.

(** A connection that was accepted; [handshake] is how TLS answers, if it is used. *)
Definition on_accept (s : SocksServer) (handshake : result string ()) (addr : SocketAddr)
    : option (Handler.M ()) :=
  match ss_tls_acceptor s, handshake with
  | Some _, Err _ => None
  | _, _ => Some (Handler.handle_client (handler_ctx s) addr)
  end.

(** [shutdown]; [clock], [tx], [waiting] are those of the manager's own. *)
Definition shutdown `{IterOrder} (clock : Z -> Z) (tx : outcome) (waiting : bool) (s : SocksServer)
    : SocksServer :=
  {| ss_config := ss_config s; ss_auth_manager := ss_auth_manager s;
     ss_acl_engine := ss_acl_engine s; ss_anonymous_user := ss_anonymous_user s;
     ss_session_manager := Manager.shutdown clock tx waiting (ss_session_manager s);
     ss_traffic_config := ss_traffic_config s; ss_stats := false; ss_acl_watcher := None;
     ss_qos_engine := ss_qos_engine s; ss_tls_acceptor := ss_tls_acceptor s;
     ss_connection_pool := ss_connection_pool s; ss_metrics_history := ss_metrics_history s;
     ss_timers := ss_timers s |}.
End server.
