(* ===== verification/ListenerSpec.v ===== *)
(** * Properties of the start of the server

    With a validated configuration the start neither panics nor divides by zero,
    unless a capacity or a period of retention is beyond what the libraries take;
    no session of an earlier run stays active, and which timers can have no period. *)
From S2P Require Import Prelude Rust Net Stream Acl AclEngine Session Store StoreSpec Manager Auth Settings.
From S2P Require Import SettingsSpec Listener.
From S2P Require Qos Pool PoolLog Telemetry Proxy Wildcard AuthSpec.

Section start.
Context {tls_deps : TlsDeps} {auth_deps : AuthDeps} {acl_deps : AclDeps}.
Context {chrono : Chrono} {uuids : UuidText} {engine : SqlEngine} {env : Startup}.
Context {layout : Layout} {delta : TimeDelta}.










Lemma sequence_Some {A B} (m : option A) (k : A -> option B) :
  m ≫= k <> None <-> exists a, m = Some a /\ k a <> None.
Proof. destruct m as [a|]; cbn; split; [eauto|by intros (? & [= <-] & ?)|done|by intros (? & [=] & _)]. Qed.









Lemma and_then_Ok {A B} (m : option (result RustSocksError A)) (k : A -> option (result RustSocksError B)) b :
  and_then m k = Some (Ok b) -> exists a, m = Some (Ok a) /\ k a = Some (Ok b).
Proof. destruct m as [[a|e]|]; [eauto|done|done]. Qed.

(** The parts of a server that was started. *)
Lemma started c s :
  SocksServer_new c = Some (Ok s) ->
  exists store session_timers api_timers stats,
    is_Some (start_telemetry (telemetry c)) /\
    start_sessions (sessions c) = Some (Ok (ss_session_manager s, store, session_timers)) /\
    start_api (sessions c) (metrics c) store = Some (Ok (stats, ss_metrics_history s, api_timers)) /\
    Qos.QosEngine_from_config boot_time (qos c) = Ok (ss_qos_engine s) /\
    ss_timers s = session_timers ++ api_timers ++ qos_timers (ss_qos_engine s) (qos c).
Proof.
  unfold SocksServer_new.
  intros (auth_manager & _ & (acl_started & _ & (tls_acceptor & _ &
    ([[manager store] timers] & Hs & (watcher & _ & (log & (log' & Hl & _)%bind_Some &
    ([[stats history] api_timers] & Ha &
    (q & Hq & Hk)%and_then_Ok)%and_then_Ok)%and_then_Ok)%and_then_Ok)%and_then_Ok)%and_then_Ok)%and_then_Ok)%and_then_Ok.
  injection Hk as <-. injection Hq as Hq. exists store, timers, api_timers, stats. by split; [eexists|].
Qed.


(** A server that starts has no session yet, and, when sessions are kept in a
    database that carries out its statements, no row of the database is active
    any more: what an earlier run left open has been closed.  Exactly then there
    is a writer; nothing waits in it, and its task runs unless its interval is
    zero. *)
Theorem start_closes_stale_sessions c s :
  db_up = true -> SocksServer_new c = Some (Ok s) ->
  active_sessions (ss_session_manager s) = ∅ /\
  match batch_writer (ss_session_manager s) with
  | Some w =>
    sessions_enabled (sessions c) && db_backed_storage (sessions c) = true /\
    queue w = [] /\ running w = negb (batch_interval_ms (sessions c) * 10 ^ 6 =? 0) /\
    List.filter is_active (Store.sessions (Session.store w)).*2 = []
  | None => sessions_enabled (sessions c) && db_backed_storage (sessions c) = false
  end.
Proof.
  intros Hdb (store & session_timers & _ & _ & _ & Hs & _)%started. unfold start_sessions in Hs.
  destruct (sessions_enabled _ && db_backed_storage _); [|by injection Hs as <- _ _].
  destruct (database_url _) as [url|]; [|done]. destruct (connect url) as [st|e]; [|done].
  apply bind_Some in Hs as (u & _ & Hs).
  injection Hs as <- _ _. split; [done|]. cbn. rewrite Hdb, close_all_active_restart.
  split_and!; [done..|]. cbn [snd]. apply restart_inactive.
Qed.

(** Periods that fit their 64 bits as seconds. *)
Record period_ranges (c : Config) : Prop := {
  pr_sessions : 0 <= cleanup_interval_hours (sessions c) /\
    cleanup_interval_hours (sessions c) * 3600 <= u64_max;
  pr_metrics : 0 <= metrics_cleanup_interval_hours (metrics c) /\
    metrics_cleanup_interval_hours (metrics c) * 3600 <= u64_max;
  pr_collection : 0 <= collection_interval_secs (metrics c);
}.

Lemma cleanup_interval_pos r h secs :
  0 <= h -> h * 3600 <= u64_max -> cleanup_interval_secs r h = Some secs -> 0 < secs.
Proof.
  unfold cleanup_interval_secs. intros Hh Hb. destruct (r =? 0); [done|]. intros [= <-].
  rewrite wrap64_id; zsolve.
Qed.

Definition cleanup_timer (t : timer) (secs : option Z) : list (timer * Z) :=
  match secs with Some n => [(t, n * 10 ^ 9)] | None => [] end.

Lemma zero_cleanup_timer t t' r h :
  0 <= h -> h * 3600 <= u64_max -> (t, 0) ∉ cleanup_timer t' (cleanup_interval_secs r h).
Proof.
  intros Hh Hb. destruct (cleanup_interval_secs r h) as [n|] eqn:E; cbn; [|apply not_elem_of_nil].
  apply cleanup_interval_pos in E; [|done..]. intros Ht%list_elem_of_singleton. injection Ht. lia.
Qed.

Lemma zero_session_timer c manager store timers t :
  period_ranges c ->
  start_sessions (sessions c) = Some (Ok (manager, store, timers)) ->
  (t, 0) ∈ timers <->
  t = TBatchWriter /\ is_Some (batch_writer manager) /\ batch_interval_ms (sessions c) = 0.
Proof.
  intros [[Hh Hb] _ _]. unfold start_sessions.
  destruct (sessions_enabled _ && db_backed_storage _).
  2: { intros [= <- <- <-]. rewrite elem_of_nil. cbn. split; [done|]. intros (_ & [w Hw] & _). done. }
  destruct (database_url _) as [url|]; [|done]. destruct (connect url) as [st|e]; [|done].
  intros (u & _ & [= <- <- <-])%bind_Some. fold (cleanup_timer TSessionCleanup
    (cleanup_interval_secs (retention_days (sessions c)) (cleanup_interval_hours (sessions c)))).
  rewrite elem_of_cons. cbn. split.
  - intros [[= -> Hz]|Ht]; [|by apply zero_cleanup_timer in Ht].
    split_and!; [done|by eexists|lia].
  - intros (-> & _ & Hz). left. by rewrite Hz.
Qed.

Lemma zero_api_timer c store stats history timers t :
  period_ranges c -> valid_metrics (metrics c) ->
  start_api (sessions c) (metrics c) store = Some (Ok (stats, history, timers)) ->
  (t, 0) ∉ timers.
Proof.
  intros [_ [Hh Hb] Hc] [_ Hn]. unfold start_api, start_metrics.
  destruct (stats_api_enabled _); [|intros [= <- <- <-]; apply not_elem_of_nil].
  destruct (metrics_enabled _); cbn.
  2: { destruct start_api_server; [|done]. intros [= <- <- <-]. apply not_elem_of_nil. }
  destruct (Z.eqb_spec (collection_interval_secs (metrics c)) 0); [done|].
  destruct (MetricsHistory_new _ _) as [h|]; [|done].
  destruct start_api_server; [|done]. intros [= <- <- <-]. rewrite elem_of_cons.
  intros [[= _ Hz]|Ht]; [lia|].
  destruct (_ && _); [by apply zero_cleanup_timer in Ht|by apply not_elem_of_nil in Ht].
Qed.

(** Of all the timers that a validated configuration starts, the ones with
    no period are known: that of the batch writer, when the batch interval is
    zero, and that of the fair sharing, when the rebalance interval is.  Neither is
    refused by the validation; such a timer panics and ends its task: with
    the first, sessions are written only when the server stops. *)
Theorem start_zero_timers c s t :
  valid c -> period_ranges c -> SocksServer_new c = Some (Ok s) ->
  (t, 0) ∈ ss_timers s <->
  (t = TBatchWriter /\ is_Some (batch_writer (ss_session_manager s)) /\
   batch_interval_ms (sessions c) = 0) \/
  (t = TRebalance /\ ss_qos_engine s <> Qos.QosNone /\
   Qos.fair_sharing_enabled (Qos.htb (qos c)) = true /\
   Qos.rebalance_interval_ms (Qos.htb (qos c)) = 0).
Proof.
  intros Hv Hr (store & ts & ta & stats & _ & Hs & Ha & Hq & ->)%started.
  rewrite !elem_of_app, (zero_session_timer _ _ _ _ _ Hr Hs).
  pose proof (zero_api_timer _ _ _ _ _ t Hr (v_metrics _ Hv) Ha) as Hn.
  assert ((t, 0) ∈ qos_timers (ss_qos_engine s) (qos c) <->
    t = TRebalance /\ ss_qos_engine s <> Qos.QosNone /\
    Qos.fair_sharing_enabled (Qos.htb (qos c)) = true /\
    Qos.rebalance_interval_ms (Qos.htb (qos c)) = 0) as ->; [|tauto].
  unfold qos_timers. destruct (ss_qos_engine s) as [|h]; [rewrite elem_of_nil; tauto|].
  destruct (Qos.fair_sharing_enabled _); [|rewrite elem_of_nil; naive_solver].
  rewrite list_elem_of_singleton. split; [intros [= -> Hz]; split_and!; [done..|lia]|].
  by intros (-> & _ & _ & ->).
Qed.
End start.

(** ** A server on a database, with a batch interval of zero *)

#[local] Existing Instance digits_chrono.
#[local] Existing Instance bits_uuid.
#[local] Existing Instance stable_engine.
#[local] Existing Instance Wildcard.demo_deps.
#[local] Existing Instance AuthSpec.demo_auth_deps.
#[local] Existing Instance demo_layout.
#[local] Existing Instance demo_delta.

#[export] Instance no_tls : TlsDeps := {|
  Cert := unit; Key := unit; Verifier := unit; TlsAcceptor := unit;
  certs _ := Err "no certificates"%string; pkcs8_private_keys _ := Ok []; rsa_private_keys _ := Ok [];
  add_parsable_certificates l := l; client_verifier _ := Ok tt; acceptor _ _ _ _ _ := Ok tt |}.

#[export] Instance demo_startup : Startup := {|
  open_file _ := Err "not found"%string; current_dir := Ok "/srv"%string; canonicalize p := Ok p;
  acl_file _ := mkConfigFile None (Err "no file"%string);
  fmt_acl_error _ := "bad rules"%string;
  connect _ := Ok demo_store; db_up := true; start_watcher _ := Ok tt; start_api_server := Ok tt;
  boot_time := demo_start |}.

Definition demo_config : Config :=
  let c := Config_default 1700000000 in
  let s := sessions c in
  mkConfig (server c) (auth c) (logging c) (acl c)
    {| sessions_enabled := true; storage := "sqlite"; database_url := Some "sqlite://sessions.db"%string;
       batch_size := batch_size s; batch_interval_ms := 0; retention_days := retention_days s;
       cleanup_interval_hours := cleanup_interval_hours s;
       traffic_update_packet_interval := traffic_update_packet_interval s;
       stats_window_hours := stats_window_hours s; stats_api_enabled := true;
       stats_api_bind_address := stats_api_bind_address s; stats_api_port := stats_api_port s;
       swagger_enabled := true; dashboard_enabled := false; dashboard_auth := dashboard_auth s;
       base_path := "/proxy//ui/"%string |}
    (metrics c) (telemetry c) (qos c).




Definition demo_server : option SocksServer :=
  match SocksServer_new demo_config with Some (Ok s) => Some s | _ => None end.

Lemma demo_server_started s : demo_server = Some s -> SocksServer_new demo_config = Some (Ok s).
Proof.
  unfold demo_server. destruct (SocksServer_new demo_config) as [[s'|e]|]; [|done|done].
  by intros [= ->].
Qed.

Lemma demo_server_some : is_Some demo_server.
Proof.
  assert (Hs : match demo_server with Some _ => true | None => false end = true) by (vm_compute; reflexivity).
  destruct demo_server as [s|]; [by exists s|discriminate Hs].
Qed.

Lemma start_closes_stale_sessions_witness :
  exists s w, demo_server = Some s /\ batch_writer (ss_session_manager s) = Some w /\
    List.filter is_active (Store.sessions (Session.store w)).*2 = [] /\
    length (Store.sessions (Session.store w)) = 4%nat.
Proof.
  destruct demo_server_some as [s Hs].
  pose proof (start_closes_stale_sessions demo_config s eq_refl (demo_server_started s Hs)) as [_ Hw].
  exists s. assert (Hl : (fun s => length (Store.sessions (Session.store s))) <$>
    (s ← demo_server; batch_writer (ss_session_manager s)) = Some 4%nat) by (vm_compute; reflexivity).
  rewrite Hs in Hl. cbn [mbind option_bind] in Hl.
  destruct (batch_writer (ss_session_manager s)) as [w|]; [|discriminate Hl].
  exists w. split; [exact Hs|]. split; [reflexivity|]. split; [apply Hw|]. injection Hl as Hl. exact Hl.
Defined.

Lemma demo_config_valid : valid demo_config.
Proof. apply config_validate_Ok. vm_compute. reflexivity. Qed.

Lemma demo_config_ranges : period_ranges demo_config.
Proof. by constructor. Qed.

Lemma start_zero_timers_witness :
  exists s, demo_server = Some s /\ (TBatchWriter, 0) ∈ ss_timers s /\ (TSessionCleanup, 0) ∉ ss_timers s.
Proof.
  destruct demo_server_some as [s Hs]. exists s. split; [exact Hs|].
  pose proof (fun t => start_zero_timers demo_config s t demo_config_valid demo_config_ranges
    (demo_server_started s Hs)) as Ht.
  split.
  - apply Ht. left. split; [reflexivity|]. split; [|reflexivity].
    assert (Hw : (fun _ => tt) <$> (s ← demo_server; batch_writer (ss_session_manager s)) = Some tt)
      by (vm_compute; reflexivity).
    rewrite Hs in Hw. cbn [mbind option_bind] in Hw.
    destruct (batch_writer (ss_session_manager s)) as [w|]; [exists w; reflexivity|discriminate Hw].
  - intros Hin. apply Ht in Hin. destruct Hin as [[Hin _]|[Hin _]]; discriminate Hin.
Defined.
