(* ===== verification/DashboardAuth.v ===== *)
(** * Dashboard authentication

    src/src/api/auth.rs: the sessions of the dashboard, the login with its
    ALTCHA proof of work, and the cookies.  SHA-256, HMAC, base64 and the JSON
    reader are the class [Crypto]; no law is asked of them.  The instants a
    handler reads and the random values it draws are arguments. *)
From S2P Require Import Prelude Net Auth Settings.

Record AltchaPayload : Type := mkAltchaPayload {
  ap_algorithm : string; ap_challenge : string; ap_number : Z; ap_salt : string; ap_signature : string }.

Class Crypto := {
  sha256 : list u8 -> list u8;
  hmac_sha256 : list u8 -> list u8 -> list u8;
  base64_decode : string -> option (list u8);
  json_altcha : string -> result string AltchaPayload;
}.

(** [format!("{:x}", ...)] of a digest. *)
Definition to_hex (bs : list u8) : string := foldr (fun b s => fmt_02x b +:+ s) ""%string bs.

(** What follows the first occurrence of [pat]. *)
Fixpoint after (pat s : string) : option string :=
  if String.prefix pat s then Some (String.substring (String.length pat) (String.length s) s)
  else match s with EmptyString => None | String _ s' => after pat s' end.

Definition strip_prefix (pat s : string) : option string :=
  if String.prefix pat s then Some (String.substring (String.length pat) (String.length s) s) else None.

Definition SESSION_COOKIE_NAME : string := "rustsocks_session".

Record Session : Type := mkSession { ds_username : string; created_at : Z; expires_at : Z }.
Record AuthState : Type := mkAuthState {
  settings : DashboardAuthSettings; sessions : gmap string Session }.
Definition AuthState_new (s : DashboardAuthSettings) : AuthState := mkAuthState s ∅.
Definition set_sessions (m : gmap string Session) (a : AuthState) : AuthState :=
  mkAuthState (settings a) m.

(** ** Requests and responses *)

Record LoginRequest : Type := mkLoginRequest {
  lr_username : string; lr_password : string; altcha : option string }.
Record LoginResponse : Type := mkLoginResponse {
  lg_success : bool; lg_message : string; lg_username : option string }.
Record AuthCheckResponse : Type := mkAuthCheckResponse {
  authenticated : bool; ac_username : option string }.
Record AltchaConfigResponse : Type := mkAltchaConfigResponse {
  ar_enabled : bool; challenge_url : option string }.
Record AltchaChallengeResponse : Type := mkAltchaChallengeResponse {
  ch_algorithm : string; ch_challenge : string; ch_salt : string; ch_signature : string;
  ch_maxnumber : option Z }.

Definition OK : Z := 200.
Definition UNAUTHORIZED : Z := 401.
Definition NOT_FOUND : Z := 404.

(** ** Random values *)

(** A [u64] of the keyed hasher for each byte. *)
Definition rand_bytes (hashes : list Z) : list u8 := (fun h => Z_to_u8 (Z.land h 255)) <$> hashes.
Definition random_char (hash : Z) : ascii :=
  let byte := hash mod 62 in
  Ascii.ascii_of_N (Z.to_N
    (if byte <=? 9 then 48 + byte else if byte <=? 35 then 97 + byte - 10 else 65 + byte - 36)).
Definition generate_random_string (hashes : list Z) : string :=
  String.string_of_list_ascii (random_char <$> hashes).

Section crypto.
Context {crypto : Crypto}.

(** ** Sessions *)

Definition generate_session_token (usr : string) (timestamp : Z) (secret : string) (hashes : list Z) : string :=
  to_hex (sha256 (as_bytes usr ++ as_bytes (fmt_Z timestamp) ++ as_bytes secret ++ rand_bytes hashes)).

Definition cleanup_expired_sessions (now : Z) (a : AuthState) : AuthState :=
  set_sessions (filter (fun p => now < expires_at p.2) (sessions a)) a.

(** [clean] is the second reading of the clock. *)
Definition create_session (now clean : Z) (hashes : list Z) (usr : string) (a : AuthState)
    : string * AuthState :=
  let expires_at := wrap64 (now + wrap64 (session_duration_hours (settings a) * 3600)) in
  let token := generate_session_token usr now (session_secret (settings a)) hashes in
  let session := mkSession usr now expires_at in
  (token, cleanup_expired_sessions clean (set_sessions (<[token := session]> (sessions a)) a)).

Definition validate_session (now : Z) (token : string) (a : AuthState) : option string * AuthState :=
  match sessions a !! token with
  | Some session =>
    if now <? expires_at session then (Some (ds_username session), a)
    else (None, set_sessions (delete token (sessions a)) a)
  | None => (None, a)
  end.

Definition delete_session (token : string) (a : AuthState) : AuthState :=
  set_sessions (delete token (sessions a)) a.

Definition verify_credentials (usr pass : string) (a : AuthState) : bool :=
  existsb (fun user => bool_decide (Auth.username user = usr) && bool_decide (Auth.password user = pass))
    (da_users (settings a)).

(** ** The proof of work *)

Definition altcha_message (salt challenge : string) : string := salt +:+ "?" +:+ challenge.

Definition verify_altcha (now : Z) (payload_str secret_key : string) : result string () :=
  payload_bytes ← ok_or "Invalid base64 payload" (base64_decode payload_str);
  payload_json ← ok_or "Invalid UTF-8 in payload" (from_utf8 payload_bytes);
  payload ← map_err (fun e => "Invalid JSON payload: " +:+ e) (json_altcha payload_json);
  if negb (bool_decide (ap_algorithm payload = "SHA-256"%string)) then
    Err ("Unsupported algorithm: " +:+ ap_algorithm payload)
  else
    let signature_payload := altcha_message (ap_salt payload) (ap_challenge payload) in
    let expected_signature := to_hex (hmac_sha256 (as_bytes secret_key) (as_bytes signature_payload)) in
    if negb (bool_decide (ap_signature payload = expected_signature)) then Err "Invalid signature"%string
    else
      let computed_challenge :=
        to_hex (sha256 (as_bytes (ap_salt payload +:+ fmt_Z (ap_number payload)))) in
      if negb (bool_decide (ap_challenge payload = computed_challenge)) then
        Err "Invalid proof-of-work solution"%string
      else
        match after "?expires=" (ap_salt payload) with
        | Some expires_str =>
          match parse_uint u64_max expires_str with
          | Some expires_timestamp =>
            if expires_timestamp <? now then Err "Challenge expired"%string else Ok ()
          | None => Ok ()
          end
        | None => Ok ()
        end.

Definition altcha_challenge_handler (timestamp : Z) (hashes : list Z) (a : AuthState)
    : Z * option AltchaChallengeResponse :=
  if negb (altcha_enabled (settings a)) then (NOT_FOUND, None)
  else
    let salt := generate_random_string hashes +:+ "?expires=" +:+ fmt_Z (wrap64 (timestamp + 1200)) in
    let secret_number := timestamp mod 50000 in
    let challenge := to_hex (sha256 (as_bytes (salt +:+ fmt_Z secret_number))) in
    let signature :=
      to_hex (hmac_sha256 (as_bytes (session_secret (settings a))) (as_bytes (altcha_message salt challenge))) in
    (OK, Some (mkAltchaChallengeResponse "SHA-256" challenge salt signature (Some 50000))).

Definition altcha_config_handler (a : AuthState) : AltchaConfigResponse :=
  mkAltchaConfigResponse (altcha_enabled (settings a)) (altcha_challenge_url (settings a)).

(** ** Handlers *)

Definition login_refused (m : string) : Z * LoginResponse * option string :=
  (UNAUTHORIZED, mkLoginResponse false m None, None).

(** The response with the cookie that it sets.  [now], [created] and [clean] are
    the instants at which the proof of work is checked, the session is made and
    the old ones are dropped. *)
Definition login_handler (now created clean : Z) (hashes : list Z) (req : LoginRequest) (a : AuthState)
    : (Z * LoginResponse * option string) * AuthState :=
  if negb (verify_credentials (lr_username req) (lr_password req) a) then
    (login_refused "Invalid username or password", a)
  else
    match
      (if altcha_enabled (settings a) then
         match altcha req with
         | Some altcha_payload =>
           map_err (fun err_msg => "CAPTCHA verification failed: " +:+ err_msg)
             (verify_altcha now altcha_payload (session_secret (settings a)))
         | None => Err "CAPTCHA verification required"%string
         end
       else Ok ())
    with
    | Err message => (login_refused message, a)
    | Ok _ =>
      let '(token, a) := create_session created clean hashes (lr_username req) a in
      let cookie := SESSION_COOKIE_NAME +:+ "=" +:+ token +:+
        "; Path=/; HttpOnly; SameSite=Strict; Max-Age=" +:+
        fmt_Z (wrap64 (session_duration_hours (settings a) * 3600)) in
      ((OK, mkLoginResponse true "Login successful" (Some (lr_username req)), Some cookie), a)
    end.

(** The session cookies of a request, in order; [cookie_header] is the first
    [Cookie] header, when there is one that is visible ASCII. *)
Definition session_cookies (cookie_header : option string) : list string :=
  match cookie_header with
  | Some cookie_str =>
    omap (fun cookie => strip_prefix (SESSION_COOKIE_NAME +:+ "=") (trim cookie)) (split_char ";" cookie_str)
  | None => []
  end.

Definition extract_session_from_headers (cookie_header : option string) : option string :=
  head (session_cookies cookie_header).

Definition logout_handler (cookie_header : option string) (a : AuthState) : (Z * string) * AuthState :=
  ((OK, SESSION_COOKIE_NAME +:+ "=; Path=/; HttpOnly; SameSite=Strict; Max-Age=0"),
   match session_cookies cookie_header with
   | token :: _ => delete_session token a
   | [] => a
   end).

Fixpoint check_cookies (now : Z) (tokens : list string) (a : AuthState) : AuthCheckResponse * AuthState :=
  match tokens with
  | [] => (mkAuthCheckResponse false None, a)
  | token :: rest =>
    match validate_session now token a with
    | (Some username, a) => (mkAuthCheckResponse true (Some username), a)
    | (None, a) => check_cookies now rest a
    end
  end.
Definition check_auth_handler (now : Z) (cookie_header : option string) (a : AuthState)
    : AuthCheckResponse * AuthState :=
  check_cookies now (session_cookies cookie_header) a.
End crypto.
