(* ===== verification/DashboardAuthSpec.v ===== *)
(** * Properties of the dashboard authentication

    Who a session cookie stands for, in every history of logins, logouts and
    checks; and what a solved challenge proves. *)
From S2P Require Import Prelude Net Auth Settings DashboardAuth.

(** ** Texts *)

Lemma parse_digits_pretty max x s :
  Z.of_N x <= max -> parse_digits max 0 (pretty_N_go x s) = parse_digits max (Z.of_N x) s.
Proof.
  revert s. induction (N.lt_wf_0 x) as [x _ IH]; intros s Hx.
  destruct (decide (x = 0)%N) as [->|Hn]; [done|].
  rewrite pretty_N_go_step by lia. rewrite IH; [|apply N.div_lt; lia|].
  2: { rewrite N2Z.inj_div. apply Z.div_le_upper_bound; lia. }
  cbn. pose proof (N.mod_lt x 10 ltac:(done)) as Hm.
  assert (digit_val 10 (pretty_N_char (x `mod` 10)) = Some (Z.of_N (x `mod` 10))) as ->.
  { destruct (x `mod` 10)%N as [|p]; [done|].
    do 4 (destruct p as [p|p|]; try done; try lia). }
  assert (Z.of_N (x `div` 10) * 10 + Z.of_N (x `mod` 10) = Z.of_N x) as ->.
  { rewrite (N.div_mod x 10) at 3 by done. lia. }
  by rewrite (proj2 (Z.leb_le _ _)).
Qed.

Lemma parse_uint_digits max s v :
  s <> ""%string -> parse_digits max 0 s = Some v -> parse_uint max s = Some v.
Proof.
  intros Hs Hp. destruct s as [|c s]; [done|]. unfold parse_uint.
  destruct (decide (c = "+"%char)) as [->|Hc]; [cbn in Hp; discriminate Hp|].
  destruct c as [[] [] [] [] [] [] [] []]; try exact Hp. by destruct Hc.
Qed.

Lemma parse_uint_fmt max n : 0 <= n <= max -> parse_uint max (fmt_Z n) = Some n.
Proof.
  intros Hn. destruct n as [|p|p]; [|change (fmt_Z (Z.pos p)) with (pretty_N_go (N.pos p) "")|lia].
  { change (fmt_Z 0) with "0"%string. unfold parse_uint, parse_digits. cbn [digit_val].
    change (digit_val 10 "0") with (Some 0). cbv beta iota zeta. by rewrite (proj2 (Z.leb_le (0 * 10 + 0) max)) by lia. }
  pose proof (parse_digits_pretty max (N.pos p) "" ltac:(cbn; lia)) as H.
  apply parse_uint_digits; [|exact H]. intros E. rewrite E in H. discriminate H.
Qed.

Lemma substring_full s n : (String.length s <= n)%nat -> String.substring 0 n s = s.
Proof.
  revert n. induction s as [|c s IH]; intros [|n] Hn; cbn in *; try done; [lia|].
  rewrite IH by lia. done.
Qed.

Lemma substring_app s t n : (String.length t <= n)%nat ->
  String.substring (String.length s) n (s +:+ t) = t.
Proof.
  intros Hn. induction s as [|c s IH]; [by apply substring_full|exact IH].
Qed.

Lemma prefix_app s t : String.prefix s (s +:+ t) = true.
Proof. induction s as [|c s IH]; [by destruct t|]. rewrite str_app_cons. cbn. by destruct (ascii_dec c c). Qed.

Lemma strip_prefix_app s t : strip_prefix s (s +:+ t) = Some t.
Proof.
  unfold strip_prefix. rewrite prefix_app, substring_app; [done|]. rewrite str_length_app. lia.
Qed.

(** The search goes past a text without the first character of the pattern. *)
Lemma after_app c pat r x : contains_char c r = false ->
  after (String c pat) (r +:+ String c pat +:+ x) = Some x.
Proof.
  induction r as [|d r IH]; intros Hr.
  - change ("" +:+ String c pat +:+ x) with (String c pat +:+ x).
    destruct (String c pat +:+ x) as [|e t] eqn:E; [done|]. unfold after. rewrite <- E, prefix_app, substring_app; [done|].
    rewrite str_length_app. lia.
  - cbn in Hr. apply orb_false_iff in Hr as [Hd Hr]. apply bool_decide_eq_false in Hd.
    rewrite str_app_cons. cbn. destruct (ascii_dec c d); [congruence|]. by apply IH.
Qed.

Lemma contains_char_app c s t : contains_char c (s +:+ t) = contains_char c s || contains_char c t.
Proof. induction s as [|d s IH]; [done|]. rewrite str_app_cons. cbn. by rewrite IH, orb_assoc. Qed.

(** The last mark splits a text in one way. *)
Lemma split_last c s t u v : contains_char c t = false -> contains_char c v = false ->
  s +:+ String c t = u +:+ String c v -> s = u /\ t = v.
Proof.
  intros Ht Hv. revert u. induction s as [|d s IH]; intros [|e u]; rewrite ?str_app_cons.
  - intros [= ->]. done.
  - intros [= -> ->]. rewrite contains_char_app in Ht. cbn in Ht.
    by rewrite bool_decide_eq_true_2, orb_true_r in Ht.
  - intros [= -> <-]. rewrite contains_char_app in Hv. cbn in Hv.
    by rewrite bool_decide_eq_true_2, orb_true_r in Hv.
  - intros [= -> [-> ->]%IH]. done.
Qed.

(** *** Digests and random strings hold no question mark *)

Lemma to_hex_no_mark bs : contains_char "?" (to_hex bs) = false.
Proof.
  induction bs as [|b bs IH]; [done|]. change (to_hex (b :: bs)) with (fmt_02x b +:+ to_hex bs).
  rewrite contains_char_app, IH, orb_false_r. by destruct b.
Qed.

Lemma random_char_no_mark h : random_char h <> "?"%char.
Proof.
  unfold random_char. intros H. apply (f_equal Ascii.N_of_ascii) in H.
  pose proof (Z.mod_pos_bound h 62 ltac:(lia)) as Hb. revert H. cbv zeta.
  zcases; rewrite Ascii.N_ascii_embedding by lia; change (Ascii.N_of_ascii "?") with 63%N; lia.
Qed.

Lemma random_string_no_mark hs : contains_char "?" (generate_random_string hs) = false.
Proof.
  induction hs as [|h hs IH]; [done|]. cbn. apply orb_false_iff. split; [|exact IH].
  apply bool_decide_eq_false. intros H. by apply (random_char_no_mark h).
Qed.

(** ** The proof of work *)

Section crypto.
Context {crypto : Crypto}.

Definition decode_altcha (payload_str : string) : result string AltchaPayload :=
  payload_bytes ← ok_or "Invalid base64 payload" (base64_decode payload_str);
  payload_json ← ok_or "Invalid UTF-8 in payload" (from_utf8 payload_bytes);
  map_err (fun e => "Invalid JSON payload: " +:+ e) (json_altcha payload_json).

Definition hex_sha256 (s : string) : string := to_hex (sha256 (as_bytes s)).
Definition hex_hmac (key s : string) : string := to_hex (hmac_sha256 (as_bytes key) (as_bytes s)).

(** The challenge handed out at an instant, with its random values. *)
Definition challenge_of (a : AuthState) (c : Z * list Z) : option AltchaChallengeResponse :=
  (altcha_challenge_handler c.1 c.2 a).2.

(** Whoever made the payload has the signatures of handed out challenges only:
    the documented property of a message authentication code. *)
Definition unforged (a : AuthState) (issued : list (Z * list Z)) (p : AltchaPayload) : Prop :=
  forall m, ap_signature p = hex_hmac (session_secret (settings a)) m ->
    exists c r, c ∈ issued /\ challenge_of a c = Some r /\ m = altcha_message (ch_salt r) (ch_challenge r).

(** What a challenge consists of. *)
Definition salt_of (c : Z * list Z) : string :=
  generate_random_string c.2 +:+ "?expires=" +:+ fmt_Z (wrap64 (c.1 + 1200)).
Definition hash_of (c : Z * list Z) : string := hex_sha256 (salt_of c +:+ fmt_Z (c.1 mod 50000)).

Lemma challenge_of_eq a c : altcha_enabled (settings a) = true ->
  challenge_of a c = Some (mkAltchaChallengeResponse "SHA-256" (hash_of c) (salt_of c)
    (hex_hmac (session_secret (settings a)) (altcha_message (salt_of c) (hash_of c))) (Some 50000)).
Proof. intros Hon. unfold challenge_of, altcha_challenge_handler. by rewrite Hon. Qed.

Lemma salt_expires c : 0 <= c.1 -> c.1 + 1200 <= u64_max ->
  after "?expires=" (salt_of c) = Some (fmt_Z (c.1 + 1200)) /\
  parse_uint u64_max (fmt_Z (c.1 + 1200)) = Some (c.1 + 1200).
Proof.
  intros H1 H2. unfold salt_of. rewrite after_app by apply random_string_no_mark.
  split; [|apply parse_uint_fmt; lia]. unfold wrap64. rewrite Z.mod_small; [done|]. unfold u64_max in H2. lia.
Qed.

(** C36: what a solved challenge proves.  When every signature the client holds
    comes from a challenge of this server, the verification accepts exactly the
    payloads that carry one of these challenges unchanged (its salt, its
    challenge and its signature cannot be cut differently) with a number that
    solves it, up to 1200 seconds after it was made.  It keeps no record, so
    the same payload is accepted again and again. *)
Theorem verify_altcha_correct a issued now payload_str p :
  altcha_enabled (settings a) = true ->
  (forall c, c ∈ issued -> 0 <= c.1 /\ c.1 + 1200 <= u64_max) ->
  decode_altcha payload_str = Ok p -> unforged a issued p ->
  verify_altcha now payload_str (session_secret (settings a)) = Ok () <->
  exists c r, c ∈ issued /\ challenge_of a c = Some r /\
    ap_algorithm p = ch_algorithm r /\ ap_salt p = ch_salt r /\ ap_challenge p = ch_challenge r /\
    ap_signature p = ch_signature r /\
    ap_challenge p = hex_sha256 (ap_salt p +:+ fmt_Z (ap_number p)) /\ now <= c.1 + 1200.
Proof.
  intros Hon Ht Hd Hu. unfold verify_altcha. unfold decode_altcha in Hd.
  destruct (base64_decode payload_str) as [bs|]; cbn in *; [|done].
  destruct (from_utf8 bs) as [s|]; cbn in *; [|done]. rewrite Hd. cbn. clear Hd.
  split.
  - do 3 (case_bool_decide; cbn; [|done]).
    match goal with H : ap_signature p = _, H' : ap_challenge p = _ |- _ =>
      rename H into Hs; rename H' into Hc end.
    destruct (Hu _ Hs) as (c & r & Hin & Hcr & Hm). intros He. exists c, r.
    rewrite challenge_of_eq in Hcr by done. injection Hcr as <-. cbn in *.
    assert (ap_salt p = salt_of c /\ ap_challenge p = hash_of c) as [Hsalt Hch].
    { apply split_last with (c := "?"%char); [rewrite Hc; apply to_hex_no_mark|apply to_hex_no_mark|exact Hm]. }
    destruct (Ht c Hin) as [Hc1 Hc2]. destruct (salt_expires c Hc1 Hc2) as [Ha Hp].
    rewrite Hsalt, Ha, Hp in He. destruct (Z.ltb_spec (c.1 + 1200) now); [done|].
    split_and!; try done; [by apply challenge_of_eq|]. by rewrite Hs, Hsalt, Hch.
  - intros (c & r & Hin & Hcr & Halg & Hsalt & Hch & Hsig & Hpow & Hnow).
    rewrite challenge_of_eq in Hcr by done. injection Hcr as <-. cbn in *.
    destruct (Ht c Hin) as [Hc1 Hc2]. destruct (salt_expires c Hc1 Hc2) as [Ha Hp].
    rewrite (bool_decide_eq_true_2 (ap_algorithm p = _)) by done. cbn.
    rewrite (bool_decide_eq_true_2 (ap_signature p = _)) by (by rewrite Hsig, Hsalt, Hch). cbn.
    rewrite (bool_decide_eq_true_2 (ap_challenge p = _)) by done. cbn.
    rewrite Hsalt, Ha, Hp. by destruct (Z.ltb_spec (c.1 + 1200) now); [lia|].
Qed.

(** The number of a challenge needs no search: it is the instant the challenge
    was made modulo 50000, and the salt tells the instant. *)
Theorem altcha_number_known c :
  0 <= c.1 -> c.1 + 1200 <= u64_max ->
  exists text expires, after "?expires=" (salt_of c) = Some text /\ parse_uint u64_max text = Some expires /\
    hash_of c = hex_sha256 (salt_of c +:+ fmt_Z ((expires - 1200) mod 50000)).
Proof.
  intros H1 H2. destruct (salt_expires c H1 H2) as [Ha Hp]. eexists _, _. split; [exact Ha|].
  split; [exact Hp|]. unfold hash_of. by replace (c.1 + 1200 - 1200) with c.1 by lia.
Qed.

(** ** Sessions *)

(** What reaches the state: requests to the handlers, and the look at a cookie
    that guards the pages of the dashboard. *)
Inductive event : Type :=
| ELogin (now created clean : Z) (hashes : list Z) (req : LoginRequest)
| ELogout (cookie_header : option string)
| ECheck (now : Z) (cookie_header : option string)
| EGate (now : Z) (token : string).

Definition step (e : event) (a : AuthState) : AuthState :=
  match e with
  | ELogin now created clean hashes req => (login_handler now created clean hashes req a).2
  | ELogout cookie_header => (logout_handler cookie_header a).2
  | ECheck now cookie_header => (check_auth_handler now cookie_header a).2
  | EGate now token => (validate_session now token a).2
  end.
(** The events are listed latest first. *)
Definition run (s : DashboardAuthSettings) (h : list event) : AuthState :=
  foldr step (AuthState_new s) h.
Definition instants (e : event) : list Z :=
  match e with
  | ELogin now created clean _ _ => [now; created; clean]
  | ELogout _ => []
  | ECheck now _ | EGate now _ => [now]
  end.

(** A login that succeeds, and the token that it gives to whom and until when. *)
Definition accepted (s : DashboardAuthSettings) (now : Z) (req : LoginRequest) : Prop :=
  mkUser (lr_username req) (lr_password req) ∈ da_users s /\
  (altcha_enabled s = true -> exists payload, altcha req = Some payload /\
     verify_altcha now payload (session_secret s) = Ok ()).
Definition grants (s : DashboardAuthSettings) (e : event) (token usr : string) (until : Z) : Prop :=
  match e with
  | ELogin now created _ hashes req =>
    accepted s now req /\ usr = lr_username req /\
    token = generate_session_token usr created (session_secret s) hashes /\
    until = wrap64 (created + wrap64 (session_duration_hours s * 3600))
  | _ => False
  end.
Definition revokes (e : event) (token : string) : Prop :=
  match e with ELogout h => extract_session_from_headers h = Some token | _ => False end.

(** The last login that gave the token, and no logout with it since. *)
Inductive holds (s : DashboardAuthSettings) (token : string) : list event -> string -> Z -> Prop :=
| holds_login e h usr until : grants s e token usr until -> holds s token (e :: h) usr until
| holds_later e h usr until :
  holds s token h usr until -> (forall usr' until', ~ grants s e token usr' until') -> ~ revokes e token ->
  holds s token (e :: h) usr until.

Lemma verify_credentials_true usr pass a :
  verify_credentials usr pass a = true <-> mkUser usr pass ∈ da_users (settings a).
Proof.
  unfold verify_credentials. rewrite existsb_elem. split.
  - intros ([u p] & Hin & (H1%bool_decide_eq_true & H2%bool_decide_eq_true)%andb_true_iff). cbn in *. by subst.
  - intros Hin. exists (mkUser usr pass). split; [done|]. cbn. by rewrite !bool_decide_eq_true_2.
Qed.

(** A login either is accepted and makes a session, or changes nothing. *)
Lemma login_cases now created clean hashes req a :
  (accepted (settings a) now req /\ (login_handler now created clean hashes req a).2 =
     (create_session created clean hashes (lr_username req) a).2 /\
   (login_handler now created clean hashes req a).1.1.1 = OK) \/
  (~ accepted (settings a) now req /\ (login_handler now created clean hashes req a).2 = a /\
   (login_handler now created clean hashes req a).1.1.1 = UNAUTHORIZED).
Proof.
  unfold login_handler, accepted. pose proof (verify_credentials_true (lr_username req) (lr_password req) a) as Hv.
  destruct (verify_credentials _ _ _); cbn [negb]; [|right; split; [|done]; intros [Hin _]; by apply Hv in Hin].
  destruct (altcha_enabled (settings a)).
  - destruct (altcha req) as [payload|]; [|right; split; [|done]; intros [_ H]; by destruct (H eq_refl) as (? & ? & _)].
    destruct (verify_altcha now payload _) as [[]|m] eqn:E; cbn.
    + left. split; [|done]. split; [by apply Hv|]. by exists payload.
    + right. split; [|done]. intros [_ H]. destruct (H eq_refl) as (? & [= <-] & H'). congruence.
  - left. split; [|done]. split; [by apply Hv|done].
Qed.

Definition holder (now : Z) (token : string) (a : AuthState) : option string :=
  match sessions a !! token with
  | Some session => if now <? expires_at session then Some (ds_username session) else None
  | None => None
  end.

Lemma validate_holder now token a : (validate_session now token a).1 = holder now token a.
Proof. unfold validate_session, holder. destruct (sessions a !! token) as [x|]; [|done]. by case_match. Qed.

(** Looking at a cookie changes no answer of that instant or later. *)
Lemma holder_validate now now' token token' a : now' <= now ->
  holder now token (validate_session now' token' a).2 = holder now token a.
Proof.
  intros Hn. unfold validate_session, holder. destruct (sessions a !! token') as [x|] eqn:E; [|done].
  destruct (Z.ltb_spec now' (expires_at x)); [done|]. cbn.
  destruct (decide (token = token')) as [->|Hne]; [|by rewrite lookup_delete_ne].
  rewrite lookup_delete_eq, E. by destruct (Z.ltb_spec now (expires_at x)); [lia|].
Qed.

Lemma holder_check now now' token tokens a : now' <= now ->
  holder now token (check_cookies now' tokens a).2 = holder now token a.
Proof.
  intros Hn. revert a. induction tokens as [|t tokens IH]; intros a; [done|]. cbn.
  pose proof (holder_validate now now' token t a Hn) as Hv.
  destruct (validate_session now' t a) as [[u|] a']; [exact Hv|]. cbn in Hv. by rewrite IH.
Qed.

Lemma holder_create now created clean hashes usr token a : clean <= now ->
  let '(t, a') := create_session created clean hashes usr a in
  holder now token a' =
  if decide (token = t) then
    if now <? wrap64 (created + wrap64 (session_duration_hours (settings a) * 3600)) then Some usr else None
  else holder now token a.
Proof.
  intros Hc. unfold create_session, holder, cleanup_expired_sessions; cbn.
  set (t := generate_session_token _ _ _ _). set (x := wrap64 (_ + _)).
  destruct (decide (token = t)) as [->|Hne].
  - destruct (Z.ltb_spec now x).
    + rewrite (proj2 (map_lookup_filter_Some _ _ _ (mkSession usr created x))); cbn.
      * by rewrite (proj2 (Z.ltb_lt _ _)).
      * split; [by rewrite lookup_insert_eq|]. lia.
    + destruct (_ !! t) as [y|] eqn:E; [|done].
      apply map_lookup_filter_Some in E as [E _]. rewrite lookup_insert_eq in E. injection E as <-. cbn.
      by destruct (Z.ltb_spec now x); [lia|].
  - destruct (sessions a !! token) as [y|] eqn:E.
    + destruct (Z.ltb_spec now (expires_at y)).
      * rewrite (proj2 (map_lookup_filter_Some _ _ _ y)); [by rewrite (proj2 (Z.ltb_lt _ _))|].
        split; [by rewrite lookup_insert_ne|]. cbn. lia.
      * destruct (filter _ _ !! token) as [z|] eqn:Ez; [|done].
        apply map_lookup_filter_Some in Ez as [Ez _]. rewrite lookup_insert_ne, E in Ez by done.
        injection Ez as <-. by destruct (Z.ltb_spec now (expires_at y)); [lia|].
    + rewrite (proj2 (map_lookup_filter_None _ _ _)); [done|]. left. by rewrite lookup_insert_ne.
Qed.

Lemma settings_validate now token a : settings (validate_session now token a).2 = settings a.
Proof. unfold validate_session. destruct (sessions a !! token); [by case_match|done]. Qed.

Lemma settings_step e a : settings (step e a) = settings a.
Proof.
  destruct e as [now created clean hashes req|h|now h|now token]; cbn.
  - by destruct (login_cases now created clean hashes req a) as [(_ & -> & _)|(_ & -> & _)].
  - unfold logout_handler. cbn. by destruct (session_cookies h).
  - unfold check_auth_handler. generalize (session_cookies h) as tokens. intros tokens. revert a.
    induction tokens as [|t tokens IH]; intros a; [done|]. cbn.
    pose proof (settings_validate now t a) as Hs. destruct (validate_session now t a) as [[u|] a']; [exact Hs|].
    by rewrite IH.
  - apply settings_validate.
Qed.

Lemma settings_run s h : settings (run s h) = s.
Proof. induction h as [|e h IH]; [done|]. cbn. by rewrite settings_step. Qed.

(** One event, seen by the answer for a token. *)
Lemma holder_step s e h now token : Forall (fun t => t <= now) (instants e) ->
  let a := run s h in
  (exists usr until, grants s e token usr until /\
     holder now token (step e a) = if now <? until then Some usr else None) \/
  (revokes e token /\ holder now token (step e a) = None) \/
  ((forall usr until, ~ grants s e token usr until) /\ ~ revokes e token /\
   holder now token (step e a) = holder now token a).
Proof.
  intros Ht a. assert (Hs : settings a = s) by apply settings_run.
  destruct e as [t0 created clean hashes req|h'|t h'|t token']; cbn in *.
  - apply Forall_cons in Ht as [_ Ht]. apply Forall_cons in Ht as [_ [Hclean _]%Forall_cons].
    destruct (login_cases t0 created clean hashes req a) as [(Ha & -> & _)|(Ha & -> & _)]; rewrite Hs in Ha.
    + pose proof (holder_create now created clean hashes (lr_username req) token a Hclean) as Hc.
      destruct (create_session _ _ _ _ _) as [t a'] eqn:E. cbn. unfold create_session in E.
      rewrite Hs in E, Hc. injection E as Et _.
      destruct (decide (token = t)) as [->|Hne].
      * left. eexists _, _. split; [|exact Hc]. by rewrite <- Et.
      * right; right. split; [|by split; [intros []|]]. intros usr until (_ & -> & -> & _). by rewrite Et in Hne.
    + right; right. split; [|by split; [intros []|]]. by intros usr until (? & _).
  - right. unfold logout_handler, extract_session_from_headers. cbn.
    destruct (session_cookies h') as [|t tokens]; [right; split; [tauto|done]|]. cbn.
    unfold delete_session, holder. cbn.
    destruct (decide (token = t)) as [->|Hne]; [left; by rewrite lookup_delete_eq|].
    right. split; [tauto|]. split; [congruence|]. by rewrite lookup_delete_ne.
  - right; right. split; [tauto|]. split; [tauto|]. apply holder_check. by apply Forall_cons in Ht as [? _].
  - right; right. split; [tauto|]. split; [tauto|]. apply holder_validate. by apply Forall_cons in Ht as [? _].
Qed.

Lemma holds_functional s token h u1 x1 u2 x2 :
  holds s token h u1 x1 -> holds s token h u2 x2 -> u1 = u2 /\ x1 = x2.
Proof.
  intros H1. revert u2 x2.
  induction H1 as [e h u x Hg|e h u x Hh IH Hg Hr]; intros u2 x2 H2; inversion H2 as [? ? ? ? Hg2|? ? ? ? Hh2 Hg2 Hr2]; subst.
  - destruct e; cbn in *; [|done..]. naive_solver.
  - by destruct (Hg2 u x).
  - by destruct (Hg u2 x2).
  - by apply IH.
Qed.

Lemma holder_run s h now token : Forall (fun t => t <= now) (flat_map instants h) ->
  forall usr, holder now token (run s h) = Some usr <-> exists until, holds s token h usr until /\ now < until.
Proof.
  induction h as [|e h IH]; intros Ht usr; cbn in Ht.
  { split; [done|]. intros (until & H & _). inversion H. }
  apply Forall_app in Ht as [He Hh]. specialize (IH Hh).
  change (run s (e :: h)) with (step e (run s h)).
  destruct (holder_step s e h now token He) as [(u & x & Hg & E)|[[Hr E]|(Hg & Hr & E)]]; rewrite E.
  - split.
    + destruct (Z.ltb_spec now x); [|done]. intros [= <-]. exists x. split; [by constructor|done].
    + intros (x' & Hx & Hn). destruct (holds_functional _ _ _ _ _ _ _ Hx (holds_login _ _ _ h _ _ Hg)) as [-> ->].
      by rewrite (proj2 (Z.ltb_lt _ _)).
  - split; [done|]. intros (x & Hx & _). inversion Hx as [? ? ? ? Hg|? ? ? ? ? _ Hr']; subst; [|done].
    by destruct e.
  - rewrite IH. split; intros (x & Hx & Hn); exists x; (split; [|done]).
    + by apply holds_later.
    + inversion Hx as [? ? ? ? Hg'|]; subst; [by destruct (Hg _ _ Hg')|done].
Qed.

(** C12: who a session cookie stands for.  After any history of logins, logouts
    and checks, a token is valid for a user exactly when a login with a user name
    and password of the configuration (and, when the CAPTCHA is on, a proof that
    was verified) gave that token for that user, no later login gave the same
    token again, nobody logged out with it since, and the hours of a session have
    not passed.  Dropping expired sessions, which happens at logins and checks,
    is never seen. *)
Theorem dashboard_sessions_correct s h now token usr :
  Forall (fun t => t <= now) (flat_map instants h) ->
  (validate_session now token (run s h)).1 = Some usr <->
  exists until, holds s token h usr until /\ now < until.
Proof. intros Ht. rewrite validate_holder. by apply holder_run. Qed.
End crypto.

(** ** A dashboard with one user *)

Definition demo_issued : Z * list Z := (1700000000, [5; 40; 12]).
Definition demo_sha (bs : list u8) : list u8 := [Z_to_u8 (Z.of_nat (length bs)); x07].
Definition demo_hash : string :=
  to_hex (demo_sha (as_bytes (salt_of demo_issued +:+ fmt_Z (demo_issued.1 mod 50000)))).
Definition demo_hmac (key m : list u8) : list u8 :=
  if decide (m = as_bytes (altcha_message (salt_of demo_issued) demo_hash)) then [x01] else [x00].
Definition demo_payload : AltchaPayload :=
  mkAltchaPayload "SHA-256" demo_hash 0 (salt_of demo_issued) "01".
#[local] Instance demo_crypto : Crypto := {
  sha256 := demo_sha; hmac_sha256 := demo_hmac;
  base64_decode := fun s => Some (as_bytes s);
  json_altcha := fun s => if decide (s = "solved"%string) then Ok demo_payload else Err "expected value"%string }.

Definition demo_settings : DashboardAuthSettings :=
  mkDashboardAuthSettings true [mkUser "admin" "correct horse"] true None "secret" 24.

Lemma demo_unforged : unforged (AuthState_new demo_settings) [demo_issued] demo_payload.
Proof.
  intros m H. unfold hex_hmac in H. cbn [hmac_sha256 demo_crypto] in H. unfold demo_hmac in H.
  case_decide as E; [|discriminate H]. apply (inj as_bytes) in E. subst m.
  eexists demo_issued, _. split; [by left|]. split; [apply challenge_of_eq; reflexivity|reflexivity].
Qed.

Lemma verify_altcha_correct_witness :
  verify_altcha 1700000900 "solved" "secret" = Ok () /\
  (verify_altcha 1700000900 "solved" "secret" = Ok () <->
   exists c r, c ∈ [demo_issued] /\ challenge_of (AuthState_new demo_settings) c = Some r /\
     ap_algorithm demo_payload = ch_algorithm r /\ ap_salt demo_payload = ch_salt r /\
     ap_challenge demo_payload = ch_challenge r /\ ap_signature demo_payload = ch_signature r /\
     ap_challenge demo_payload = hex_sha256 (ap_salt demo_payload +:+ fmt_Z (ap_number demo_payload)) /\
     1700000900 <= c.1 + 1200).
Proof.
  split; [vm_compute; reflexivity|].
  apply (verify_altcha_correct (AuthState_new demo_settings) [demo_issued] 1700000900 "solved" demo_payload).
  - reflexivity.
  - intros c Hc. apply list_elem_of_singleton in Hc as ->. vm_compute. split; discriminate.
  - vm_compute. reflexivity.
  - exact demo_unforged.
Defined.

Definition demo_history : list event :=
  [ECheck 1700000950 (Some "theme=dark; rustsocks_session=0000"%string);
   ELogin 1700000900 1700000900 1700000900 [1; 2]
     (mkLoginRequest "admin" "correct horse" (Some "solved"%string));
   ELogin 1700000800 1700000800 1700000800 [3; 4] (mkLoginRequest "admin" "password" None)].
Definition demo_token : string :=
  generate_session_token "admin" 1700000900 "secret" [1; 2].

Lemma dashboard_sessions_correct_witness :
  (validate_session 1700001000 demo_token (run demo_settings demo_history)).1 = Some "admin"%string /\
  exists until, holds demo_settings demo_token demo_history "admin" until /\ 1700001000 < until.
Proof.
  assert (H : (validate_session 1700001000 demo_token (run demo_settings demo_history)).1 = Some "admin"%string)
    by (vm_compute; reflexivity).
  split; [exact H|].
  apply (dashboard_sessions_correct demo_settings demo_history 1700001000 demo_token "admin"); [|exact H].
  unfold demo_history. cbn [flat_map instants app]. repeat constructor; lia.
Defined.
