(* ===== verification/ApiServer.v ===== *)
(** * The router of the REST interface

    src/src/api/server.rs: the routes of [start_api_server], the middleware that
    guards the dashboard, the base path, and the page that is served with it.
    How axum picks a route is the class [Axum], with its documented laws.
    Endpoints are names: the handlers are in AclApi.v, SessionsApi.v,
    DashboardAuth.v and Management.v.  The constant documents (the OpenAPI
    description and the page of Swagger UI) are left out. *)
From S2P Require Import Prelude Net Stream Auth Settings DashboardAuth.

Record ApiConfig : Type := mkApiConfig {
  api_bind_address : string;
  api_bind_port : Z;
  enable_api : bool;
  token : option string;
  api_swagger_enabled : bool;
  api_dashboard_enabled : bool;
  api_dashboard_auth : DashboardAuthSettings;
  api_base_path : string;
}.

(** What the server gives to [start_api_server]. *)
Definition api_config (s : SessionSettings) : ApiConfig :=
  {| api_bind_address := stats_api_bind_address s; api_bind_port := stats_api_port s;
     enable_api := true; token := None; api_swagger_enabled := swagger_enabled s;
     api_dashboard_enabled := dashboard_enabled s; api_dashboard_auth := dashboard_auth s;
     api_base_path := normalized_base_path s |}.

(** ** Routers *)

Inductive endpoint : Type :=
| EpSwaggerUi | EpOpenapiSpec
| EpLogin | EpLogout | EpCheckAuth | EpAltchaConfig | EpAltchaChallenge
| EpHealth | EpMetrics | EpPoolStats | EpSystemResources
| EpActiveSessions | EpSessionHistory | EpSessionStats | EpSessionDetail | EpTerminateSession
| EpUserSessions | EpTelemetryEvents | EpMetricsHistory | EpConnectivity
| EpReloadAcl | EpGetRuntimeConfig | EpUpdateRuntimeConfig | EpGetConfigFile | EpUpdateConfigFile
| EpAclRules | EpAclTest
| EpListGroups | EpCreateGroup | EpGroupDetail | EpDeleteGroup
| EpAddGroupRule | EpUpdateGroupRule | EpDeleteGroupRule
| EpListUsers | EpCreateUser | EpUserDetail | EpDeleteUser
| EpAddUserRule | EpUpdateUserRule | EpDeleteUserRule | EpAddUserToGroup | EpRemoveUserFromGroup
| EpGetGlobal | EpUpdateGlobal | EpSearchRules
| EpAssets | EpFavicon | EpSpa.
#[export] Instance endpoint_eq_dec : EqDecision endpoint.
Proof. solve_decision. Defined.

Inductive meth : Type := GET | POST | PUT | DELETE.
#[export] Instance meth_eq_dec : EqDecision meth.
Proof. solve_decision. Defined.

(** A path with its parameters in braces, or everything below a path. *)
Inductive pattern : Type := Exact (path : string) | Subtree (path : string).
#[export] Instance pattern_eq_dec : EqDecision pattern.
Proof. solve_decision. Defined.

(** A service answers every method. *)
Record route : Type := mkRoute {
  rt_method : option meth; rt_pattern : pattern; rt_endpoint : endpoint; rt_guarded : bool }.
Record Router : Type := mkRouter { routes : list route; fallback : option (endpoint * bool) }.

Definition Router_new : Router := mkRouter [] None.
Definition add_route (m : meth) (path : string) (e : endpoint) (r : Router) : Router :=
  mkRouter (routes r ++ [mkRoute (Some m) (Exact path) e false]) (fallback r).
Definition add_service (p : pattern) (e : endpoint) (r : Router) : Router :=
  mkRouter (routes r ++ [mkRoute None p e false]) (fallback r).
Definition set_fallback (e : endpoint) (r : Router) : Router := mkRouter (routes r) (Some (e, false)).
(** [Router::layer] wraps what the router has so far. *)
Definition layer_auth (r : Router) : Router :=
  mkRouter ((fun rt => mkRoute (rt_method rt) (rt_pattern rt) (rt_endpoint rt) true) <$> routes r)
    ((fun f => (f.1, true)) <$> fallback r).
Definition merge_router (other r : Router) : Router :=
  mkRouter (routes r ++ routes other)
    (match fallback r with Some f => Some f | None => fallback other end).

(** ** The routes of the application *)

Definition swagger_routes (r : Router) : Router :=
  add_route GET "/openapi.json" EpOpenapiSpec
  (add_route GET "/swagger-ui" EpSwaggerUi (add_route GET "/swagger-ui/" EpSwaggerUi r)).

Definition auth_router : Router :=
  foldl (fun r x => add_route x.1.1 x.1.2 x.2 r) Router_new
    [(POST, "/api/auth/login", EpLogin); (POST, "/api/auth/logout", EpLogout);
     (GET, "/api/auth/check", EpCheckAuth); (GET, "/api/auth/altcha-config", EpAltchaConfig);
     (GET, "/api/auth/altcha-challenge", EpAltchaChallenge)]%string.

Definition api_routes (r : Router) : Router :=
  foldl (fun r x => add_route x.1.1 x.1.2 x.2 r) r
    [(GET, "/health", EpHealth); (GET, "/metrics", EpMetrics);
     (GET, "/api/pool/stats", EpPoolStats); (GET, "/api/system/resources", EpSystemResources);
     (GET, "/api/sessions/active", EpActiveSessions); (GET, "/api/sessions/history", EpSessionHistory);
     (GET, "/api/sessions/stats", EpSessionStats); (GET, "/api/sessions/{id}", EpSessionDetail);
     (POST, "/api/sessions/{id}/terminate", EpTerminateSession);
     (GET, "/api/users/{user}/sessions", EpUserSessions);
     (GET, "/api/telemetry/events", EpTelemetryEvents); (GET, "/api/metrics/history", EpMetricsHistory);
     (POST, "/api/diagnostics/connectivity", EpConnectivity);
     (POST, "/api/admin/reload-acl", EpReloadAcl);
     (GET, "/api/admin/runtime-config", EpGetRuntimeConfig);
     (PUT, "/api/admin/runtime-config", EpUpdateRuntimeConfig);
     (GET, "/api/admin/config-file", EpGetConfigFile); (PUT, "/api/admin/config-file", EpUpdateConfigFile);
     (GET, "/api/acl/rules", EpAclRules); (POST, "/api/acl/test", EpAclTest);
     (GET, "/api/acl/groups", EpListGroups); (POST, "/api/acl/groups", EpCreateGroup);
     (GET, "/api/acl/groups/{groupname}", EpGroupDetail);
     (DELETE, "/api/acl/groups/{groupname}", EpDeleteGroup);
     (POST, "/api/acl/groups/{groupname}/rules", EpAddGroupRule);
     (PUT, "/api/acl/groups/{groupname}/rules", EpUpdateGroupRule);
     (DELETE, "/api/acl/groups/{groupname}/rules", EpDeleteGroupRule);
     (GET, "/api/acl/users", EpListUsers); (POST, "/api/acl/users", EpCreateUser);
     (GET, "/api/acl/users/{username}", EpUserDetail); (DELETE, "/api/acl/users/{username}", EpDeleteUser);
     (POST, "/api/acl/users/{username}/rules", EpAddUserRule);
     (PUT, "/api/acl/users/{username}/rules", EpUpdateUserRule);
     (DELETE, "/api/acl/users/{username}/rules", EpDeleteUserRule);
     (POST, "/api/acl/users/{username}/groups", EpAddUserToGroup);
     (DELETE, "/api/acl/users/{username}/groups/{groupname}", EpRemoveUserFromGroup);
     (GET, "/api/acl/global", EpGetGlobal); (PUT, "/api/acl/global", EpUpdateGlobal);
     (POST, "/api/acl/search", EpSearchRules)]%string.

Definition dashboard_router (guarded : bool) : Router :=
  let r := set_fallback EpSpa
    (add_route GET "/" EpSpa
    (add_service (Exact "/favicon.png") EpFavicon
    (add_service (Subtree "/assets") EpAssets Router_new))) in
  if guarded then layer_auth r else r.

(** [dist] tells whether the built dashboard is on the disk. *)
Definition app_router (config : ApiConfig) (dist : bool) : Router :=
  let app := if api_swagger_enabled config then swagger_routes Router_new else Router_new in
  let app := api_routes (merge_router auth_router app) in
  if api_dashboard_enabled config && dist
  then merge_router (dashboard_router (da_enabled (api_dashboard_auth config))) app
  else app.

(** ** The base path *)

(** [trim_end_matches('/')] *)
Fixpoint trim_end_slashes (s : string) : string :=
  match s with
  | EmptyString => EmptyString
  | String c s' =>
    match trim_end_slashes s' with
    | EmptyString => if decide (c = "/"%char) then EmptyString else String c EmptyString
    | t => String c t
    end
  end.
Definition mount_point (configured : string) : string :=
  let t := trim configured in
  if decide (t = "" \/ t = "/")%string then "/"%string else trim_end_slashes t.
Definition base_prefix (base : string) : string := if decide (base = "/"%string) then ""%string else base.

Record ApiServer : Type := mkApiServer {
  as_base : string; as_router : Router; as_auth : AuthState; as_address : SocketAddr }.

(** [bind] is how the listening socket answers. *)
Definition start_api_server (bind : SocketAddr -> result ErrorKind ()) (dist : bool) (config : ApiConfig)
    : result RustSocksError ApiServer :=
  if negb (enable_api config) then Err (Stream.Config "API server disabled")
  else
    addr ← ok_or (Stream.Config "Invalid bind address: invalid socket address syntax")
      (parse_socket_addr (api_bind_address config +:+ ":" +:+ fmt_Z (api_bind_port config)));
    _ ← map_err Io (bind addr);
    Ok (mkApiServer (mount_point (api_base_path config)) (app_router config dist)
          (AuthState_new (api_dashboard_auth config)) addr).

(** ** Serving a request *)

Inductive selected : Type := Route (i : nat) | MethodNotAllowed | Unmatched.

Definition is_static (p : string) : bool := negb (contains_char "{" p).

(** [select] picks a route for a method and a path; [strip_nest] is the path that
    a router nested at a base sees.  The laws: a path without parameters selects
    its own route, a route is selected only for a path it stands for, and the
    base is taken off. *)
Class Axum := {
  select : list (option meth * pattern) -> meth -> string -> selected;
  strip_nest : string -> string -> option string;
  select_exact : forall rs i m p, rs !! i = Some (Some m, Exact p) -> is_static p = true ->
    (forall j, rs !! j = Some (Some m, Exact p) -> j = i) -> select rs m p = Route i;
  select_bound : forall rs m p i, select rs m p = Route i -> is_Some (rs !! i);
  select_static : forall rs m p i om q, select rs m p = Route i -> rs !! i = Some (om, Exact q) ->
    is_static q = true -> p = q;
  select_subtree : forall rs m p i om q, select rs m p = Route i -> rs !! i = Some (om, Subtree q) ->
    String.prefix q p = true;
  strip_nest_app : forall base p, String.prefix "/" p = true -> strip_nest base (base +:+ p) = Some p;
}.

Definition Router_patterns (r : Router) : list (option meth * pattern) :=
  (fun rt => (rt_method rt, rt_pattern rt)) <$> routes r.

(** A request reaches the handler of an endpoint, or is answered with a status. *)
Inductive reply : Type := Handled (e : endpoint) | Status (code : Z) | RedirectTo (path : string).

Definition dashboard_session_auth (now : Z) (path : string) (cookie_header : option string)
    (next : reply) (a : AuthState) : reply * AuthState :=
  if negb (da_enabled (settings a)) then (next, a)
  else if String.prefix "/api/auth/" path then (next, a)
  else
    let '(valid, a) :=
      match extract_session_from_headers cookie_header with
      | Some token => let '(user, a) := validate_session now token a in
                      (match user with Some _ => true | None => false end, a)
      | None => (false, a)
      end in
    if valid then (next, a)
    else if String.prefix "/api/" path then (Status UNAUTHORIZED, a)
    else (next, a).

Section serving.
Context {axum : Axum}.

Definition through (guarded : bool) (now : Z) (path : string) (cookie_header : option string)
    (next : reply) (a : AuthState) : reply * AuthState :=
  if guarded then dashboard_session_auth now path cookie_header next a else (next, a).

Definition route_request (r : Router) (now : Z) (m : meth) (path : string) (cookie_header : option string)
    (a : AuthState) : reply * AuthState :=
  match select (Router_patterns r) m path with
  | Route i =>
    match routes r !! i with
    | Some rt => through (rt_guarded rt) now path cookie_header (Handled (rt_endpoint rt)) a
    | None => (Status NOT_FOUND, a)
    end
  | MethodNotAllowed => (Status 405, a)
  | Unmatched =>
    match fallback r with
    | Some (e, guarded) => through guarded now path cookie_header (Handled e) a
    | None => (Status NOT_FOUND, a)
    end
  end.

(** With a base path the application is nested, beside a redirection of the base
    with a slash at its end. *)
Definition serve_request (s : ApiServer) (now : Z) (m : meth) (path : string)
    (cookie_header : option string) (a : AuthState) : reply * AuthState :=
  if decide (as_base s = "/"%string) then route_request (as_router s) now m path cookie_header a
  else if decide (path = as_base s +:+ "/") then
    (if decide (m = GET) then RedirectTo (as_base s) else Status 405, a)
  else match strip_nest (as_base s) path with
       | Some inner => route_request (as_router s) now m inner cookie_header a
       | None => (Status NOT_FOUND, a)
       end.
End serving.

(** ** The page of the dashboard *)

Definition quote : string := String (Ascii.ascii_of_N 34) EmptyString.
(** [attr="from] becomes [attr="prefix/to]. *)
Definition rewrite_attr (base attr from to s : string) : string :=
  str_replace (attr +:+ "=" +:+ quote +:+ from) (attr +:+ "=" +:+ quote +:+ base +:+ to) s.

Definition script (base : string) : string :=
  "<script>window.__RUSTSOCKS_BASE_PATH__ = '" +:+ base +:+ "';</script>".
(** The script goes in front of the first [</head>]. *)
Fixpoint insert_before (marker text s : string) : string :=
  if String.prefix marker s then text +:+ s
  else match s with EmptyString => EmptyString | String c s' => String c (insert_before marker text s') end.
Definition inject_base_path_script (html base : string) : string := insert_before "</head>" (script base) html.

Definition rewrite_dashboard_index (original base : string) : string :=
  let rewritten :=
    if decide (base = ""%string) then original
    else
      foldl (fun s x => rewrite_attr base x.1.1 x.1.2 x.2 s) original
        [("href", "/assets/", "/assets/"); ("src", "/assets/", "/assets/");
         ("href", "./assets/", "/assets/"); ("src", "./assets/", "/assets/");
         ("href", "/vite.svg" +:+ quote, "/vite.svg" +:+ quote);
         ("src", "/vite.svg" +:+ quote, "/vite.svg" +:+ quote);
         ("href", "./vite.svg" +:+ quote, "/vite.svg" +:+ quote);
         ("src", "./vite.svg" +:+ quote, "/vite.svg" +:+ quote);
         ("href", "/favicon.png" +:+ quote, "/favicon.png" +:+ quote);
         ("src", "/favicon.png" +:+ quote, "/favicon.png" +:+ quote);
         ("href", "./favicon.png" +:+ quote, "/favicon.png" +:+ quote);
         ("src", "./favicon.png" +:+ quote, "/favicon.png" +:+ quote)]%string
  in inject_base_path_script rewritten base.
