(* ===== verification/ApiServerSpec.v ===== *)
(** * Properties of the router

    What the login of the dashboard guards: no route at all. *)
From S2P Require Import Prelude Net Stream Auth Settings DashboardAuth DashboardAuthSpec ApiServer.

(** ** Routes *)

Lemma app_router_nodup config dist : NoDup (Router_patterns (app_router config dist)).
Proof.
  unfold app_router. destruct (api_swagger_enabled config), (api_dashboard_enabled config && dist),
    (da_enabled (api_dashboard_auth config)); cbn [negb];
  apply (bool_decide_unpack _); vm_compute; exact I.
Qed.

(** The guarded routes: none of them is below [/api/]. *)
Definition page_route (rt : route) : Prop :=
  rt_pattern rt = Exact "/" \/ rt_pattern rt = Exact "/favicon.png" \/ rt_pattern rt = Subtree "/assets".

Lemma guarded_page config dist rt :
  rt ∈ routes (app_router config dist) -> rt_guarded rt = true -> page_route rt.
Proof.
  intros Hin Hg.
  assert (H : forallb (fun rt => negb (rt_guarded rt) ||
    bool_decide (rt_pattern rt ∈ [Exact "/"; Exact "/favicon.png"; Subtree "/assets"]%string))
    (routes (app_router config dist)) = true).
  { unfold app_router. destruct (api_swagger_enabled config), (api_dashboard_enabled config && dist),
      (da_enabled (api_dashboard_auth config)); vm_compute; reflexivity. }
  rewrite forallb_forall in H. specialize (H rt (proj1 (list_elem_of_In _ _) Hin)).
  rewrite Hg in H. apply bool_decide_eq_true in H. unfold page_route.
  apply elem_of_cons in H as [->|H]; [by left|]. apply elem_of_cons in H as [->|H]; [by right; left|].
  apply list_elem_of_singleton in H as ->. by right; right.
Qed.

Lemma fallback_app config dist : fallback (app_router config dist) =
  if api_dashboard_enabled config && dist then Some (EpSpa, da_enabled (api_dashboard_auth config)) else None.
Proof.
  unfold app_router. by destruct (api_swagger_enabled config), (api_dashboard_enabled config && dist),
    (da_enabled (api_dashboard_auth config)).
Qed.

Lemma assets_not_api p : String.prefix "/assets" p = true -> String.prefix "/api/" p = false.
Proof.
  intros H. destruct (String.prefix "/api/" p) eqn:E; [|done]. exfalso.
  destruct p as [|c1 [|c2 [|c3 p]]]; cbn in H, E; repeat (case_match; simplify_eq/=); discriminate H.
Qed.

(** ** The guard *)

Definition has_session (now : Z) (cookie_header : option string) (a : AuthState) : bool :=
  match extract_session_from_headers cookie_header with
  | Some token => bool_decide (is_Some (validate_session now token a).1)
  | None => false
  end.

Lemma dashboard_session_auth_reply now path cookie_header next a :
  (dashboard_session_auth now path cookie_header next a).1 =
  if da_enabled (settings a) && String.prefix "/api/" path && negb (String.prefix "/api/auth/" path) &&
     negb (has_session now cookie_header a)
  then Status UNAUTHORIZED else next.
Proof.
  unfold dashboard_session_auth, has_session.
  destruct (da_enabled (settings a)); [|done]. cbn [negb andb].
  destruct (String.prefix "/api/auth/" path); [by rewrite andb_false_r|]. rewrite andb_true_r.
  destruct (extract_session_from_headers cookie_header) as [t|].
  - destruct (validate_session now t a) as [[u|] a']; cbn; [by rewrite andb_false_r|by destruct (String.prefix _ _)].
  - by destruct (String.prefix _ _).
Qed.

Section serving.
Context {axum : Axum}.

Lemma through_page config dist i rt now m path cookie_header a :
  select (Router_patterns (app_router config dist)) m path = Route i ->
  routes (app_router config dist) !! i = Some rt ->
  (through (rt_guarded rt) now path cookie_header (Handled (rt_endpoint rt)) a).1 = Handled (rt_endpoint rt).
Proof.
  intros Hs Hi. unfold through. destruct (rt_guarded rt) eqn:Hg; [|done].
  assert (Hp : Router_patterns (app_router config dist) !! i = Some (rt_method rt, rt_pattern rt)).
  { unfold Router_patterns. by rewrite list_lookup_fmap, Hi. }
  assert (Hapi : String.prefix "/api/" path = false).
  { destruct (guarded_page config dist rt) as [H|[H|H]];
      [by eapply list_elem_of_lookup_2|done| | |]; rewrite H in Hp.
    - by rewrite (select_static _ _ _ _ _ _ Hs Hp eq_refl).
    - by rewrite (select_static _ _ _ _ _ _ Hs Hp eq_refl).
    - by apply assets_not_api, (select_subtree _ _ _ _ _ _ Hs Hp). }
  rewrite dashboard_session_auth_reply, Hapi. by rewrite andb_false_r.
Qed.

(** The answer of the application, with the guard spelled out. *)
Lemma route_request_app config dist now m path cookie_header a :
  settings a = api_dashboard_auth config ->
  let r := app_router config dist in
  (route_request r now m path cookie_header a).1 =
  match select (Router_patterns r) m path with
  | Route i => match routes r !! i with Some rt => Handled (rt_endpoint rt) | None => Status NOT_FOUND end
  | MethodNotAllowed => Status 405
  | Unmatched =>
    if api_dashboard_enabled config && dist then
      if da_enabled (api_dashboard_auth config) && String.prefix "/api/" path &&
         negb (String.prefix "/api/auth/" path) && negb (has_session now cookie_header a)
      then Status UNAUTHORIZED else Handled EpSpa
    else Status NOT_FOUND
  end.
Proof.
  intros Ha r. unfold route_request. destruct (select (Router_patterns r) m path) as [i| |] eqn:Hs.
  - destruct (routes r !! i) as [rt|] eqn:Hi; [|done]. by eapply through_page.
  - done.
  - subst r. rewrite fallback_app. destruct (api_dashboard_enabled config && dist); [|done].
    unfold through. destruct (da_enabled (api_dashboard_auth config)) eqn:He; [|done].
    by rewrite dashboard_session_auth_reply, Ha, He.
Qed.

(** The path under which the application is reached from outside. *)
Definition mounted (base path : string) : string :=
  if decide (base = "/"%string) then path else base +:+ path.

Lemma static_selected config dist rt m path :
  rt ∈ routes (app_router config dist) -> rt_method rt = Some m -> rt_pattern rt = Exact path ->
  is_static path = true ->
  exists i, select (Router_patterns (app_router config dist)) m path = Route i /\
    routes (app_router config dist) !! i = Some rt.
Proof.
  intros (i & Hi)%list_elem_of_lookup Hm Hp Hs. exists i. split; [|done].
  apply select_exact; [|done|].
  - unfold Router_patterns. by rewrite list_lookup_fmap, Hi, <- Hm, <- Hp.
  - intros j Hj. eapply NoDup_lookup; [apply (app_router_nodup config dist)|exact Hj|].
    unfold Router_patterns. by rewrite list_lookup_fmap, Hi, <- Hm, <- Hp.
Qed.

(** C11: the login of the dashboard guards no route.  Once the interface is
    started with authentication enabled, every request for a path without
    parameters reaches its handler with any cookie or none (the configuration
    file, the restart, the rules and the sessions included), and so does every
    request that axum gives a route.  The guard is attached to the pages of the
    dashboard alone, which it lets through; the only request it answers with 401
    is one below [/api/] that no route matches. *)
Theorem dashboard_auth_guards_nothing bind dist config s now m path cookie_header a :
  start_api_server bind dist config = Ok s -> settings a = api_dashboard_auth config ->
  (forall rt, rt ∈ routes (as_router s) -> rt_method rt = Some m -> rt_pattern rt = Exact path ->
     is_static path = true -> path <> "/"%string -> String.prefix "/" path = true ->
     (serve_request s now m (mounted (as_base s) path) cookie_header a).1 = Handled (rt_endpoint rt)) /\
  (route_request (as_router s) now m path cookie_header a).1 =
  match select (Router_patterns (as_router s)) m path with
  | Route i => match routes (as_router s) !! i with Some rt => Handled (rt_endpoint rt) | None => Status NOT_FOUND end
  | MethodNotAllowed => Status 405
  | Unmatched =>
    if api_dashboard_enabled config && dist then
      if da_enabled (api_dashboard_auth config) && String.prefix "/api/" path &&
         negb (String.prefix "/api/auth/" path) && negb (has_session now cookie_header a)
      then Status UNAUTHORIZED else Handled EpSpa
    else Status NOT_FOUND
  end.
Proof.
  unfold start_api_server. destruct (enable_api config); cbn; [|done].
  destruct (parse_socket_addr _) as [addr|]; cbn; [|done].
  destruct (bind addr) as [[]|]; cbn; [|done]. intros [= <-] Ha. cbn.
  split; [|by apply route_request_app].
  intros rt Hin Hm Hp Hs Hn Hslash. unfold serve_request, mounted. cbn.
  destruct (static_selected _ _ _ _ _ Hin Hm Hp Hs) as (i & Hsel & Hi).
  assert (E : (route_request (app_router config dist) now m path cookie_header a).1 = Handled (rt_endpoint rt)).
  { rewrite route_request_app by done. cbn. by rewrite Hsel, Hi. }
  destruct (decide (mount_point (api_base_path config) = "/"%string)); [exact E|].
  rewrite decide_False; [|by intros H%str_app_inj_l]. by rewrite strip_nest_app.
Qed.
End serving.

(** ** A server with a base path *)

(** A router that knows paths without parameters. *)
Definition demo_select (rs : list (option meth * pattern)) (m : meth) (p : string) : selected :=
  match list_find (fun x => x = (Some m, Exact p) /\ is_static p = true) rs with
  | Some (i, _) => Route i
  | None => Unmatched
  end.

Lemma demo_select_Route rs m p i : demo_select rs m p = Route i -> rs !! i = Some (Some m, Exact p).
Proof.
  unfold demo_select. destruct (list_find _ _) as [[j x]|] eqn:E; [|done]. intros [= <-].
  by apply list_find_Some in E as (Hj & [-> _] & _).
Qed.

Lemma demo_select_exact rs i m p : rs !! i = Some (Some m, Exact p) -> is_static p = true ->
  (forall j, rs !! j = Some (Some m, Exact p) -> j = i) -> demo_select rs m p = Route i.
Proof.
  intros Hi Hs Hu. destruct (demo_select rs m p) as [j| |] eqn:E.
  - by rewrite (Hu j (demo_select_Route _ _ _ _ E)).
  - unfold demo_select in E. by destruct (list_find _ _) as [[]|].
  - unfold demo_select in E. destruct (list_find _ _) as [[]|] eqn:E'; [done|].
    apply list_find_None, Forall_forall with (x := (Some m, Exact p)) in E'; [by destruct E'|].
    by eapply list_elem_of_lookup_2.
Qed.

#[local] Program Instance demo_axum : Axum := {
  select := demo_select; strip_nest := strip_prefix; select_exact := demo_select_exact }.
Next Obligation. intros rs m p i H%demo_select_Route. by rewrite H. Qed.
Next Obligation. intros rs m p i om q H%demo_select_Route H' _. congruence. Qed.
Next Obligation. intros rs m p i om q H%demo_select_Route H'. congruence. Qed.
Next Obligation. intros base p _. apply strip_prefix_app. Qed.

Definition demo_api_config : ApiConfig :=
  mkApiConfig "127.0.0.1" 9090 true None true true demo_settings "/rustsocks".

Definition demo_api : ApiServer :=
  mkApiServer "/rustsocks" (app_router demo_api_config true) (AuthState_new demo_settings)
    (mkSocketAddr (V4 [x7f; x00; x00; x01]) 9090).

(** Without a session the file of the configuration can be replaced. *)
Lemma dashboard_auth_guards_nothing_witness :
  start_api_server (fun _ => Ok ()) true demo_api_config = Ok demo_api /\
  mkRoute (Some PUT) (Exact "/api/admin/config-file") EpUpdateConfigFile false ∈ routes (as_router demo_api) /\
  (serve_request demo_api 1700000000 PUT (mounted "/rustsocks" "/api/admin/config-file") None
     (AuthState_new demo_settings)).1 = Handled EpUpdateConfigFile.
Proof.
  assert (Hs : start_api_server (fun _ => Ok ()) true demo_api_config = Ok demo_api) by (vm_compute; reflexivity).
  assert (Hin : mkRoute (Some PUT) (Exact "/api/admin/config-file") EpUpdateConfigFile false ∈
    routes (as_router demo_api)).
  { apply list_elem_of_In. vm_compute. repeat (first [left; reflexivity | right]). }
  split; [exact Hs|]. split; [exact Hin|].
  exact (proj1 (dashboard_auth_guards_nothing (fun _ => Ok ()) true demo_api_config demo_api 1700000000 PUT
    "/api/admin/config-file" None (AuthState_new demo_settings) Hs eq_refl) _ Hin eq_refl eq_refl eq_refl
    ltac:(discriminate) eq_refl).
Defined.
