(* ===== verification/Management.v ===== *)
(** * The management endpoints

    src/src/api/handlers/management.rs with the writing of the configuration
    (config/mod.rs) and its requests and responses (api/types.rs).  The
    serializer is the class [ConfigToml], with the law that a configuration is
    read back as it was written.  The restart, which spawns the program again
    and ends the process, is the list of restarts asked for. *)
From S2P Require Import Prelude Net Stream Auth Settings Acl AclEngine AclFile.
From S2P Require Protocol Pool Session Manager.

Definition OK : Z := 200.
Definition BAD_REQUEST : Z := 400.
Definition INTERNAL_SERVER_ERROR : Z := 500.

(** ** Requests and responses *)

Record ReloadResponse : Type := mkReloadResponse { rl_success : bool; rl_message : message }.
Record ConfigFileResponse : Type := mkConfigFileResponse {
  cf_path : option string; cf_content : string; cf_editable : bool }.
Record UpdateConfigRequest : Type := mkUpdateConfigRequest { uc_content : string; uc_restart : bool }.
Definition default_restart_flag : bool := true.
Record ConfigUpdateResponse : Type := mkConfigUpdateResponse {
  cu_success : bool; cu_message : string; cu_restarting : bool }.

Record ServerRuntimeConfig : Type := mkServerRuntimeConfig {
  sr_bind_address : string;
  sr_bind_port : Z;
  sr_stats_api_enabled : bool;
  sr_stats_api_bind_address : string;
  sr_stats_api_port : Z;
  sr_dashboard_enabled : bool;
  sr_swagger_enabled : bool;
}.
Record PoolRuntimeConfig : Type := mkPoolRuntimeConfig {
  pr_enabled : bool;
  pr_max_idle_per_dest : Z;
  pr_max_total_idle : Z;
  pr_idle_timeout_secs : Z;
  pr_connect_timeout_ms : Z;
}.
Record SessionsRuntimeConfig : Type := mkSessionsRuntimeConfig {
  se_enabled : bool;
  se_storage : string;
  se_database_url : option string;
  se_retention_days : Z;
  se_cleanup_interval_hours : Z;
  se_traffic_update_packet_interval : Z;
  se_stats_window_hours : Z;
  se_base_path : string;
}.
Record MetricsRuntimeConfig : Type := mkMetricsRuntimeConfig {
  mr_enabled : bool;
  mr_storage : string;
  mr_retention_hours : Z;
  mr_cleanup_interval_hours : Z;
  mr_collection_interval_secs : Z;
}.
Record TelemetryRuntimeConfig : Type := mkTelemetryRuntimeConfig {
  tr_enabled : bool; tr_max_events : Z; tr_retention_hours : Z }.

(** The part of the request and of the response that carries settings. *)
Record RuntimeConfig : Type := mkRuntimeConfig {
  rt_server : ServerRuntimeConfig;
  rt_pool : PoolRuntimeConfig;
  rt_sessions : SessionsRuntimeConfig;
  rt_metrics : MetricsRuntimeConfig;
  rt_telemetry : TelemetryRuntimeConfig;
}.
Record RuntimeConfigResponse : Type := mkRuntimeConfigResponse {
  rc_path : option string; rc_editable : bool; rc_config : RuntimeConfig }.
Record RuntimeConfigUpdateRequest : Type := mkRuntimeConfigUpdateRequest {
  ru_config : RuntimeConfig; ru_restart : bool }.

Record AclRulesResponse : Type := mkAclRulesResponse {
  rs_user_count : Z; rs_group_count : Z; rs_message : string }.
Record AclTestRequest : Type := mkAclTestRequest {
  at_user : string; at_destination : string; at_port : Z; at_protocol : string }.
Record AclTestResponse : Type := mkAclTestResponse {
  tr_request : AclTestRequest; tr_decision : string; tr_matched_rule : option string }.
Record HealthResponse : Type := mkHealthResponse {
  hr_status : string; hr_version : string; hr_uptime_seconds : Z }.

(** ** Between a configuration and its editable part *)

Definition map_server_config (cfg : Config) : ServerRuntimeConfig :=
  {| sr_bind_address := bind_address (server cfg); sr_bind_port := bind_port (server cfg);
     sr_stats_api_enabled := stats_api_enabled (sessions cfg);
     sr_stats_api_bind_address := stats_api_bind_address (sessions cfg);
     sr_stats_api_port := stats_api_port (sessions cfg);
     sr_dashboard_enabled := dashboard_enabled (sessions cfg);
     sr_swagger_enabled := swagger_enabled (sessions cfg) |}.

Definition set_server (s : ServerConfig) (c : Config) : Config :=
  mkConfig s (auth c) (logging c) (acl c) (sessions c) (metrics c) (telemetry c) (qos c).
Definition set_session_settings (s : SessionSettings) (c : Config) : Config :=
  mkConfig (server c) (auth c) (logging c) (acl c) s (metrics c) (telemetry c) (qos c).

Definition apply_server_config (cfg : Config) (dto : ServerRuntimeConfig) : Config :=
  let s := sessions cfg in
  set_session_settings
    {| sessions_enabled := sessions_enabled s; storage := storage s; database_url := database_url s;
       batch_size := batch_size s; batch_interval_ms := batch_interval_ms s;
       retention_days := retention_days s; cleanup_interval_hours := cleanup_interval_hours s;
       traffic_update_packet_interval := traffic_update_packet_interval s;
       stats_window_hours := stats_window_hours s; stats_api_enabled := sr_stats_api_enabled dto;
       stats_api_bind_address := sr_stats_api_bind_address dto; stats_api_port := sr_stats_api_port dto;
       swagger_enabled := sr_swagger_enabled dto; dashboard_enabled := sr_dashboard_enabled dto;
       dashboard_auth := dashboard_auth s; base_path := base_path s |}
  (set_server (mkServerConfig (sr_bind_address dto) (sr_bind_port dto) (max_connections (server cfg))
      (tls (server cfg)) (pool (server cfg))) cfg).

Definition map_pool_config (cfg : Config) : PoolRuntimeConfig :=
  let p := pool (server cfg) in
  mkPoolRuntimeConfig (Pool.enabled p) (Pool.max_idle_per_dest p) (Pool.max_total_idle p)
    (Pool.idle_timeout_secs p) (Pool.connect_timeout_ms p).

Definition apply_pool_config (cfg : Config) (dto : PoolRuntimeConfig) : Config :=
  set_server (mkServerConfig (bind_address (server cfg)) (bind_port (server cfg))
      (max_connections (server cfg)) (tls (server cfg))
      (Pool.mkPoolConfig (pr_enabled dto) (pr_max_idle_per_dest dto) (pr_max_total_idle dto)
         (pr_idle_timeout_secs dto) (pr_connect_timeout_ms dto))) cfg.

Definition map_sessions_config (cfg : Config) : SessionsRuntimeConfig :=
  let s := sessions cfg in
  {| se_enabled := sessions_enabled s; se_storage := storage s; se_database_url := database_url s;
     se_retention_days := retention_days s; se_cleanup_interval_hours := cleanup_interval_hours s;
     se_traffic_update_packet_interval := traffic_update_packet_interval s;
     se_stats_window_hours := stats_window_hours s; se_base_path := base_path s |}.

Definition apply_sessions_config (cfg : Config) (dto : SessionsRuntimeConfig) : Config :=
  let s := sessions cfg in
  let cfg := set_session_settings
    {| sessions_enabled := se_enabled dto; storage := se_storage dto; database_url := se_database_url dto;
       batch_size := batch_size s; batch_interval_ms := batch_interval_ms s;
       retention_days := se_retention_days dto; cleanup_interval_hours := se_cleanup_interval_hours dto;
       traffic_update_packet_interval := se_traffic_update_packet_interval dto;
       stats_window_hours := se_stats_window_hours dto; stats_api_enabled := stats_api_enabled s;
       stats_api_bind_address := stats_api_bind_address s; stats_api_port := stats_api_port s;
       swagger_enabled := swagger_enabled s; dashboard_enabled := dashboard_enabled s;
       dashboard_auth := dashboard_auth s; base_path := se_base_path dto |} cfg in
  set_base_path (normalized_base_path (sessions cfg)) cfg.

Definition map_metrics_config (cfg : Config) : MetricsRuntimeConfig :=
  let m := metrics cfg in
  mkMetricsRuntimeConfig (metrics_enabled m) (metrics_storage m) (retention_hours m)
    (metrics_cleanup_interval_hours m) (collection_interval_secs m).

Definition apply_metrics_config (cfg : Config) (dto : MetricsRuntimeConfig) : Config :=
  mkConfig (server cfg) (auth cfg) (logging cfg) (acl cfg) (sessions cfg)
    (mkMetricsSettings (mr_enabled dto) (mr_storage dto) (mr_retention_hours dto)
       (mr_cleanup_interval_hours dto) (mr_collection_interval_secs dto)) (telemetry cfg) (qos cfg).

Definition map_telemetry_config (cfg : Config) : TelemetryRuntimeConfig :=
  let t := telemetry cfg in
  mkTelemetryRuntimeConfig (telemetry_enabled t) (max_events t) (telemetry_retention_hours t).

Definition apply_telemetry_config (cfg : Config) (dto : TelemetryRuntimeConfig) : Config :=
  mkConfig (server cfg) (auth cfg) (logging cfg) (acl cfg) (sessions cfg) (metrics cfg)
    (mkTelemetrySettings (tr_enabled dto) (tr_max_events dto) (tr_retention_hours dto)) (qos cfg).

Definition runtime_config (cfg : Config) : RuntimeConfig :=
  mkRuntimeConfig (map_server_config cfg) (map_pool_config cfg) (map_sessions_config cfg)
    (map_metrics_config cfg) (map_telemetry_config cfg).
Definition apply_runtime_config (cfg : Config) (dto : RuntimeConfig) : Config :=
  let cfg := apply_server_config cfg (rt_server dto) in
  let cfg := apply_pool_config cfg (rt_pool dto) in
  let cfg := apply_sessions_config cfg (rt_sessions dto) in
  let cfg := apply_metrics_config cfg (rt_metrics dto) in
  apply_telemetry_config cfg (rt_telemetry dto).

(** ** Writing the configuration *)

Class ConfigToml := {
  config_to_string : Config -> result string string;
  config_from_str : string -> result string Config;
  config_from_to : forall c s, config_to_string c = Ok s -> config_from_str (s +:+ of_bytes [x0a]) = Ok c;
  (** [Path::display] and the [Debug] form of a path. *)
  path_display : path -> string;
  path_debug : path -> string;
}.

Section management.
Context {auth_deps : AuthDeps} {toml : ConfigToml}.

Definition config_failed {A} (m : string) (e : string) : result RustSocksError A :=
  Err (Stream.Config (m +:+ ": " +:+ e)).

(** [create_dir_all] changes none of the files; [flush] does nothing. *)
Definition create_dir_all : dio () := disk_op None (fun fs => (Ok tt, fs)).
Definition flush : dio () := disk_op None (fun fs => (Ok tt, fs)).
Definition create (p : path) : dio () := disk_op (Some p) (fun fs => (Ok tt, <[p := ""%string]> fs)).
(** [write_all] on a file that was just created. *)
Definition write_all (p : path) (text : string) : dio () :=
  disk_op (Some p) (fun fs => (Ok tt, <[p := text]> fs)).

(** [stamp] is the date and time of day. *)
Definition tmp_path (stamp : string) (p : path) : path := (p.1, p.2 +:+ ".tmp." +:+ stamp).

(** The replacement of the old file by the temporary one. *)
Definition replace_file (tmp p : path) (d : disk) : result RustSocksError () * disk :=
  match rename tmp p d with
  | (Ok _, d) => (Ok tt, d)
  | (Err err, d) =>
    let '(removed, d) :=
      if exists_ p d then
        let '(r, d) := remove_file p d in
        (match r with
         | Ok _ => Ok tt
         | Err e => config_failed ("Failed to remove old config file " +:+ path_debug p) e
         end, d)
      else (Ok tt, d) in
    match removed with
    | Err e => (Err e, d)
    | Ok _ =>
      match rename tmp p d with
      | (Ok _, d) => (Ok tt, d)
      | (Err e, d) =>
        (config_failed ("Failed to replace config file " +:+ path_debug p)
           (e +:+ " (previous error: " +:+ err +:+ ")"), d)
      end
    end
  end.

Definition write_to_file (stamp : string) (c : Config) (p : path) (d : disk) : result RustSocksError () * disk :=
  match config_to_string c with
  | Err e => (config_failed "Failed to serialize config to TOML" e, d)
  | Ok s =>
    let rendered := s +:+ of_bytes [x0a] in
    match create_dir_all d with
    | (Err e, d) => (config_failed "Failed to create parent directory for config" e, d)
    | (Ok _, d) =>
      let tmp := tmp_path stamp p in
      match create tmp d with
      | (Err e, d) => (config_failed ("Failed to create temporary config file " +:+ path_debug tmp) e, d)
      | (Ok _, d) =>
        match write_all tmp rendered d with
        | (Err e, d) => (config_failed ("Failed to write temporary config file " +:+ path_debug tmp) e, d)
        | (Ok _, d) =>
          match flush d with
          | (Err e, d) => (config_failed ("Failed to flush temporary config file " +:+ path_debug tmp) e, d)
          | (Ok _, d) => replace_file tmp p d
          end
        end
      end
    end
  end.

(** ** The configuration over the interface *)

(** [ApiState] as far as the configuration goes: [config_snapshot] is the
    configuration with which the server was started. *)
Record state : Type := mkState {
  config_path : option path;
  config_snapshot : Config;
  on_disk : disk;
  restarts : list Config;
}.
Definition set_disk (d : disk) (s : state) : state :=
  mkState (config_path s) (config_snapshot s) d (restarts s).

(** A restart, noted with the configuration that was just written. *)
Definition schedule_restart (c : Config) (s : state) : state :=
  mkState (config_path s) (config_snapshot s) (on_disk s) (restarts s ++ [c]).

Definition get_config_file (s : state) : (Z * ConfigFileResponse) * state :=
  let fallback_content := match config_to_string (config_snapshot s) with Ok t => t | Err _ => ""%string end in
  match config_path s with
  | Some p =>
    let '(r, d) := read_to_string p (on_disk s) in
    let content := match r with Ok t => t | Err _ => fallback_content end in
    ((OK, mkConfigFileResponse (Some (path_display p)) content true), set_disk d s)
  | None => ((BAD_REQUEST, mkConfigFileResponse None fallback_content false), s)
  end.

Definition update_failed (code : Z) (m : string) : Z * ConfigUpdateResponse :=
  (code, mkConfigUpdateResponse false m false).
Definition no_config_path : Z * ConfigUpdateResponse :=
  update_failed BAD_REQUEST "Server was started without a config file path; editing is disabled".

(** The end of both updates: write, and restart if asked to. *)
Definition write_and_restart (stamp : string) (new_config : Config) (p : path) (restart : bool) (s : state)
    : (Z * ConfigUpdateResponse) * state :=
  match write_to_file stamp new_config p (on_disk s) with
  | (Err e, d) =>
    (update_failed INTERNAL_SERVER_ERROR ("Failed to write configuration: " +:+ RustSocksError_fmt e),
     set_disk d s)
  | (Ok _, d) =>
    let s := set_disk d s in
    ((OK, mkConfigUpdateResponse true "Configuration saved successfully" restart),
     if restart then schedule_restart new_config s else s)
  end.

Definition update_config_file (stamp : string) (payload : UpdateConfigRequest) (s : state)
    : (Z * ConfigUpdateResponse) * state :=
  match config_path s with
  | None => (no_config_path, s)
  | Some p =>
    match from_toml_str config_from_str (uc_content payload) with
    | Err e => (update_failed BAD_REQUEST ("Invalid configuration: " +:+ RustSocksError_fmt e), s)
    | Ok new_config => write_and_restart stamp new_config p (uc_restart payload) s
    end
  end.

Definition get_runtime_config (s : state) : Z * RuntimeConfigResponse :=
  (OK, mkRuntimeConfigResponse (path_display <$> config_path s) (bool_decide (is_Some (config_path s)))
         (runtime_config (config_snapshot s))).

Definition update_runtime_config (stamp : string) (payload : RuntimeConfigUpdateRequest) (s : state)
    : (Z * ConfigUpdateResponse) * state :=
  match config_path s with
  | None => (no_config_path, s)
  | Some p =>
    let new_config := apply_runtime_config (config_snapshot s) (ru_config payload) in
    match Settings.validate new_config with
    | Err e => (update_failed BAD_REQUEST ("Invalid configuration: " +:+ RustSocksError_fmt e), s)
    | Ok _ => write_and_restart stamp new_config p (ru_restart payload) s
    end
  end.
End management.

(** ** The rules *)

Section acl.
Context {acl_deps : AclDeps} {sort : UnstableSort rule_leb} {acl_toml : Toml}.

(** acl/loader.rs on the disk: the same as loading for an edit. *)
Definition load_acl_config (p : path) (d : disk) : result message AclConfig * disk := load_config p d.

Definition reload_acl (acl_config_path : option path) (acl_engine : option AclEngine) (d : disk)
    : (Z * ReloadResponse) * option AclEngine * disk :=
  match acl_engine with
  | None => ((BAD_REQUEST, mkReloadResponse false (Text "ACL is not enabled")), None, d)
  | Some engine =>
    match acl_config_path with
    | None =>
      ((INTERNAL_SERVER_ERROR, mkReloadResponse false (Text "ACL config path not set")), Some engine, d)
    | Some p =>
      match load_acl_config p d with
      | (Err e, d) =>
        ((INTERNAL_SERVER_ERROR, mkReloadResponse false (Prefixed "Failed to load ACL config: " e)),
         Some engine, d)
      | (Ok new_config, d) =>
        let '(r, engine) := reload new_config engine in
        (match r with
         | Ok _ => (OK, mkReloadResponse true (Text "ACL reloaded successfully"))
         | Err e => (INTERNAL_SERVER_ERROR, mkReloadResponse false (Prefixed "Failed to reload ACL: " (OfAcl e)))
         end, Some engine, d)
      end
    end
  end.

Definition get_acl_rules (acl_engine : option AclEngine) : Z * AclRulesResponse :=
  match acl_engine with
  | None => (BAD_REQUEST, mkAclRulesResponse 0 0 "ACL is not enabled")
  | Some engine =>
    let user_count := Z.of_nat (get_user_count engine) in
    let group_count := Z.of_nat (get_group_count engine) in
    (OK, mkAclRulesResponse user_count group_count
      ("ACL has " +:+ fmt_Z user_count +:+ " users and " +:+ fmt_Z group_count +:+ " groups configured"))
  end.

Definition parse_test_protocol (p : string) : option AclProtocol :=
  let s := to_lowercase p in
  if decide (s = "tcp"%string) then Some Tcp
  else if decide (s = "udp"%string) then Some Udp
  else if decide (s = "both"%string) then Some Both else None.

Definition test_acl_decision (acl_engine : option AclEngine) (request : AclTestRequest) : Z * AclTestResponse :=
  match acl_engine with
  | None => (BAD_REQUEST, mkAclTestResponse request "error" (Some "ACL is not enabled"%string))
  | Some engine =>
    match parse_test_protocol (at_protocol request) with
    | None =>
      (BAD_REQUEST, mkAclTestResponse request "error" (Some "Invalid protocol (use: tcp, udp, or both)"%string))
    | Some protocol =>
      let address :=
        match parse_ip (at_destination request) with
        | Some (V4 octets) => Protocol.IPv4 octets
        | Some (V6 octets) => Protocol.IPv6 octets
        | None => Protocol.Domain (at_destination request)
        end in
      let '(decision, matched_rule) := evaluate engine (at_user request) address (at_port request) protocol in
      (OK, mkAclTestResponse request
             (match decision with DecisionAllow => "allow" | DecisionBlock => "block" end) matched_rule)
    end
  end.
End acl.

(** ** Health and metrics *)

Definition health_check (version : string) (uptime_secs : Z) : Z * HealthResponse :=
  (OK, mkHealthResponse "healthy" version uptime_secs).

Definition nl : string := of_bytes [x0a].
Definition metrics_text (active_count total_sessions total_bytes_sent total_bytes_received : Z) : string :=
  "# HELP rustsocks_active_sessions Active sessions" +:+ nl +:+
  "# TYPE rustsocks_active_sessions gauge" +:+ nl +:+
  "rustsocks_active_sessions " +:+ fmt_Z active_count +:+ nl +:+
  "# HELP rustsocks_sessions_total Total sessions" +:+ nl +:+
  "# TYPE rustsocks_sessions_total counter" +:+ nl +:+
  "rustsocks_sessions_total " +:+ fmt_Z total_sessions +:+ nl +:+
  "# HELP rustsocks_bytes_sent_total Total bytes sent" +:+ nl +:+
  "# TYPE rustsocks_bytes_sent_total counter" +:+ nl +:+
  "rustsocks_bytes_sent_total " +:+ fmt_Z total_bytes_sent +:+ nl +:+
  "# HELP rustsocks_bytes_received_total Total bytes received" +:+ nl +:+
  "# TYPE rustsocks_bytes_received_total counter" +:+ nl +:+
  "rustsocks_bytes_received_total " +:+ fmt_Z total_bytes_received +:+ nl.

Section metrics.
Context `{Manager.IterOrder} {T : Type} `{!Session.SessionSink T}.

(** The sums are on [u64]. *)
Definition get_metrics (m : Manager.SessionManager T) : Z * string :=
  let sessions := Manager.get_all_sessions m in
  let active := List.filter (fun s =>
    bool_decide (Session.SessionStatus_as_str (Session.status s) = "active"%string)) sessions in
  let sum_u64 f := fold_left (fun acc s => wrap64 (acc + f s)) sessions 0 in
  (OK, metrics_text (Z.of_nat (length active)) (Z.of_nat (length sessions))
         (sum_u64 Session.bytes_sent) (sum_u64 Session.bytes_received)).
End metrics.
