(* ===== verification/ManagementSpec.v ===== *)
(** * Properties of the management endpoints

    The editable part of the configuration as a lens, and what an update leaves
    in the file. *)
From S2P Require Import Prelude Net Stream Auth AuthSpec Settings SettingsSpec Acl AclEngine AclFile AclFileSpec Management.
From S2P Require Qos Pool.

(** ** The editable part *)

(** What the base path of a request becomes. *)
Definition normalized_runtime (d : RuntimeConfig) : RuntimeConfig :=
  let s := rt_sessions d in
  mkRuntimeConfig (rt_server d) (rt_pool d)
    {| se_enabled := se_enabled s; se_storage := se_storage s; se_database_url := se_database_url s;
       se_retention_days := se_retention_days s; se_cleanup_interval_hours := se_cleanup_interval_hours s;
       se_traffic_update_packet_interval := se_traffic_update_packet_interval s;
       se_stats_window_hours := se_stats_window_hours s;
       se_base_path := normalize_base_path (se_base_path s) |}
    (rt_metrics d) (rt_telemetry d).

Lemma runtime_put_get c d : runtime_config (apply_runtime_config c d) = normalized_runtime d.
Proof. by destruct d as [[] [] [] [] []]. Qed.

(** What the interface cannot change. *)
Record same_fixed (c c' : Config) : Prop := mkSameFixed {
  sf_auth : auth c' = auth c;
  sf_acl : acl c' = acl c;
  sf_logging : logging c' = logging c;
  sf_qos : qos c' = qos c;
  sf_tls : tls (server c') = tls (server c);
  sf_connections : max_connections (server c') = max_connections (server c);
  sf_dashboard : dashboard_auth (sessions c') = dashboard_auth (sessions c);
  sf_batch : batch_size (sessions c') = batch_size (sessions c) /\
    batch_interval_ms (sessions c') = batch_interval_ms (sessions c);
}.

Lemma runtime_frame c d : same_fixed c (apply_runtime_config c d).
Proof. by split. Qed.

(** Reading the editable settings and writing them back is a lens: what is
    written is read back, with the base path in its canonical form; writing what
    was read changes nothing else than that form; the last of two updates alone
    counts; and the settings that the interface does not show (authentication,
    rules, quality of service, TLS, the login of the dashboard, the batches) are
    never touched. *)
Theorem runtime_config_lens c d d' :
  runtime_config (apply_runtime_config c d) = normalized_runtime d /\
  apply_runtime_config c (runtime_config c) = set_base_path (normalized_base_path (sessions c)) c /\
  apply_runtime_config (apply_runtime_config c d) d' = apply_runtime_config c d' /\
  same_fixed c (apply_runtime_config c d).
Proof.
  split; [apply runtime_put_get|]. split; [|split; [done|apply runtime_frame]].
  by destruct c as [[? ? ? ? []] ? ? ? [] [] [] ?].
Qed.

(** ** The file *)

Lemma tmp_path_ne stamp p : tmp_path stamp p <> p.
Proof.
  destruct p as [dir name]. unfold tmp_path; cbn. intros [= H].
  apply (f_equal String.length) in H. rewrite str_length_app, !str_app_cons in H. cbn in H. lia.
Qed.

Section writing.
Context {auth_deps : AuthDeps} {toml : ConfigToml}.

Lemma replace_file_safe tmp p text d : tmp <> p -> one_fault (faults d) -> files d !! tmp = Some text ->
  let '(r, d') := replace_file tmp p d in
  r = Ok tt /\ files d' !! p = Some text.
Proof.
  intros Hn H Ht. unfold replace_file, rename. disk_step H.
  { rewrite Ht. cbn. by rewrite lookup_insert_eq. }
  unfold exists_, remove_file. cbn. case_bool_decide as E; cbn.
  - destruct E as (old & E). clean_step H. rewrite E. cbn. clean_step H.
    rewrite lookup_delete_ne, Ht by done. cbn. by rewrite lookup_insert_eq.
  - clean_step H. rewrite Ht. cbn. by rewrite lookup_insert_eq.
Qed.

Lemma write_to_file_safe stamp c p d : one_fault (faults d) ->
  match write_to_file stamp c p d with
  | (Ok _, d') => exists s, config_to_string c = Ok s /\ files d' !! p = Some (s +:+ of_bytes [x0a])
  | (Err _, d') => files d' !! p = files d !! p
  end.
Proof.
  intros H. unfold write_to_file. destruct (config_to_string c) as [s|e]; [|done].
  pose proof (tmp_path_ne stamp p) as Hn.
  unfold create_dir_all. disk_step H; [|done].
  unfold create. disk_step H; [|cbn; by apply left_by_ne].
  unfold write_all. disk_step H; [|etransitivity; [by apply left_by_ne|by apply lookup_insert_ne]].
  unfold flush. disk_step H; [|rewrite lookup_insert_ne by done; by apply lookup_insert_ne].
  match goal with |- context [replace_file ?t ?p ?d] =>
    pose proof (replace_file_safe t p (s +:+ of_bytes [x0a]) d Hn H (lookup_insert_eq _ _ _)) as Hr;
    destruct (replace_file t p d) as [r d'] end.
  destruct Hr as [-> Hr]. by exists s.
Qed.

(** ** Updates *)

Inductive update : Type :=
| UFile (payload : UpdateConfigRequest)
| URuntime (payload : RuntimeConfigUpdateRequest).

Definition run_update (stamp : string) (u : update) (s : state) : (Z * ConfigUpdateResponse) * state :=
  match u with
  | UFile payload => update_config_file stamp payload s
  | URuntime payload => update_runtime_config stamp payload s
  end.

(** The configuration that a request asks for, and whether it asks for a restart. *)
Definition asked (u : update) (s : state) : result RustSocksError Config :=
  match u with
  | UFile payload => from_toml_str config_from_str (uc_content payload)
  | URuntime payload =>
    let c := apply_runtime_config (config_snapshot s) (ru_config payload) in
    _ ← Settings.validate c; Ok c
  end.
Definition restart_asked (u : update) : bool :=
  match u with UFile payload => uc_restart payload | URuntime payload => ru_restart payload end.

Definition fixed_base (c : Config) : Prop := normalized_base_path (sessions c) = base_path (sessions c).

Lemma asked_runtime payload s c : asked (URuntime payload) s = Ok c ->
  Settings.validate c = Ok tt /\ c = apply_runtime_config (config_snapshot s) (ru_config payload).
Proof.
  unfold asked. generalize (apply_runtime_config (config_snapshot s) (ru_config payload)) as c'. intros c'.
  destruct (Settings.validate c') as [[]|e] eqn:Hv; cbn; [|done]. by intros [= <-].
Qed.

Lemma asked_snapshot u s s' : config_snapshot s' = config_snapshot s -> asked u s' = asked u s.
Proof. intros E. destruct u as [payload|payload]; unfold asked; [reflexivity|]. rewrite E. reflexivity. Qed.

Lemma asked_valid u s c : asked u s = Ok c -> Settings.validate c = Ok tt /\ fixed_base c.
Proof.
  destruct u as [payload|payload].
  - intros H%from_toml_str_valid. by destruct H as (? & _ & _ & ?).
  - intros (Hv & ->)%asked_runtime. split; [done|].
    pose proof (vs_path _ (v_sessions _ (config_validate_Ok _ Hv))) as Hw. by apply normalize_fixed.
Qed.

Lemma set_base_path_id c : set_base_path (base_path (sessions c)) c = c.
Proof. by destruct c as [? ? ? ? [] ? ? ?]. Qed.

(** What was written is loaded again. *)
Lemma written_loads c t : config_to_string c = Ok t -> Settings.validate c = Ok tt -> fixed_base c ->
  from_toml_str config_from_str (t +:+ of_bytes [x0a]) = Ok c.
Proof.
  intros Ht Hv Hb. unfold from_toml_str. rewrite (config_from_to _ _ Ht). cbn. rewrite Hv. cbn.
  by rewrite Hb, set_base_path_id.
Qed.

Lemma run_update_asked stamp u s p : config_path s = Some p ->
  run_update stamp u s =
  match asked u s with
  | Ok c => write_and_restart stamp c p (restart_asked u) s
  | Err e => (update_failed BAD_REQUEST ("Invalid configuration: " +:+ RustSocksError_fmt e), s)
  end.
Proof.
  intros Hp. destruct u as [payload|payload]; cbn.
  - unfold update_config_file. rewrite Hp. by destruct (from_toml_str _ _).
  - unfold update_runtime_config. rewrite Hp. by destruct (Settings.validate _) as [[]|].
Qed.

(** What a request that is not refused leaves. *)
Definition updated (u : update) (p : path) (c : Config) (s : state) (r : (Z * ConfigUpdateResponse) * state) : Prop :=
  config_snapshot r.2 = config_snapshot s /\ config_path r.2 = config_path s /\
  ((r.1.1 = OK /\ restarts r.2 = restarts s ++ (if restart_asked u then [c] else []) /\
    exists text, files (on_disk r.2) !! p = Some text /\ from_toml_str config_from_str text = Ok c) \/
   (r.1.1 = INTERNAL_SERVER_ERROR /\ restarts r.2 = restarts s /\
    files (on_disk r.2) !! p = files (on_disk s) !! p)).

Lemma run_update_updated stamp u p s : config_path s = Some p -> one_fault (faults (on_disk s)) ->
  match asked u s with
  | Ok c => updated u p c s (run_update stamp u s)
  | Err _ => (run_update stamp u s).1.1 = BAD_REQUEST /\ (run_update stamp u s).2 = s
  end.
Proof.
  intros Hp H. rewrite (run_update_asked stamp u s p Hp).
  destruct (asked u s) as [c|e] eqn:Ha; [|done]. destruct (asked_valid _ _ _ Ha) as [Hv Hb].
  unfold write_and_restart. pose proof (write_to_file_safe stamp c p (on_disk s) H) as Hw.
  destruct (write_to_file stamp c p (on_disk s)) as [[[]|e] d].
  - destruct Hw as (t & Ht & Hf). pose proof (written_loads c t Ht Hv Hb) as Hl.
    split; [by destruct (restart_asked u)|]. split; [by destruct (restart_asked u)|]. left.
    split; [done|]. destruct (restart_asked u); cbn; (split; [by rewrite ?app_nil_r|by eexists]).
  - split; [done|]. split; [done|]. right. done.
Qed.

(** C13: changing the configuration over the REST interface, whole or in its
    editable part, on a disk of which at most one operation fails.  A request
    that does not parse or validate answers 400 and changes nothing.  Any other
    either answers 200, with a file that the program loads to exactly the
    configuration asked for and a restart when one was asked for, or answers 500
    with the old file untouched and no restart.  The editable part of the loaded
    configuration is then the one of the request. *)
Theorem config_update_correct stamp u p s : config_path s = Some p -> one_fault (faults (on_disk s)) ->
  match asked u s with
  | Ok c => updated u p c s (run_update stamp u s) /\
      match u with URuntime payload => runtime_config c = normalized_runtime (ru_config payload) | UFile _ => True end
  | Err _ => (run_update stamp u s).1.1 = BAD_REQUEST /\ (run_update stamp u s).2 = s
  end.
Proof.
  intros Hp H. pose proof (run_update_updated stamp u p s Hp H) as Hu.
  destruct (asked u s) as [c|e] eqn:Ha; [|exact Hu]. split; [exact Hu|].
  destruct u as [payload|payload]; [done|]. apply asked_runtime in Ha as [_ ->]. apply runtime_put_get.
Qed.

Lemma run_update_snapshot stamp u s :
  config_snapshot (run_update stamp u s).2 = config_snapshot s /\ config_path (run_update stamp u s).2 = config_path s.
Proof.
  destruct (config_path s) as [p|] eqn:Hp.
  - rewrite (run_update_asked stamp u s p Hp). destruct (asked u s) as [c|e]; [|done].
    unfold write_and_restart. destruct (write_to_file _ _ _ _) as [[[]|e] d]; by destruct (restart_asked u).
  - destruct u; cbn; unfold update_config_file, update_runtime_config; by rewrite Hp.
Qed.

Definition run_updates (us : list (string * update)) (s : state) : state :=
  foldl (fun s x => (run_update x.1 x.2 s).2) s us.

Lemma run_updates_snapshot us s :
  config_snapshot (run_updates us s) = config_snapshot s /\ config_path (run_updates us s) = config_path s.
Proof.
  revert s. induction us as [|[stamp u] us IH]; intros s; [done|]. cbn.
  destruct (IH (run_update stamp u s).2) as [E1 E2]. unfold run_updates in E1, E2. rewrite E1, E2. apply run_update_snapshot.
Qed.

(** An update of the editable settings forgets every update before it.
    Whatever was written and confirmed since the start, it starts again from the
    configuration the server was started with: the file then holds the
    authentication, the rules, the quality of service and the login of the
    dashboard of the start, and the editable settings of this request. *)
Theorem runtime_update_forgets us stamp payload s p c :
  config_path s = Some p -> asked (URuntime payload) s = Ok c ->
  let s1 := run_updates us s in
  one_fault (faults (on_disk s1)) ->
  asked (URuntime payload) s1 = Ok c /\ same_fixed (config_snapshot s) c /\
  updated (URuntime payload) p c s1 (run_update stamp (URuntime payload) s1).
Proof.
  intros Hp Ha s1 H. destruct (run_updates_snapshot us s) as [Hs Hp1].
  pose proof (asked_snapshot (URuntime payload) s s1 Hs) as Ha1. rewrite Ha in Ha1.
  split; [exact Ha1|]. split.
  - apply asked_runtime in Ha as [_ ->]. apply runtime_frame.
  - pose proof (run_update_updated stamp (URuntime payload) p s1 ltac:(unfold s1; by rewrite Hp1) H) as Hu.
    by rewrite Ha1 in Hu.
Qed.
End writing.

(** ** A server and its file *)

#[local] Instance User_eq_dec : EqDecision Auth.User.
Proof. solve_decision. Defined.
#[local] Instance PamSettings_eq_dec : EqDecision Auth.PamSettings.
Proof. solve_decision. Defined.
#[local] Instance GssApiSettings_eq_dec : EqDecision Auth.GssApiSettings.
Proof. solve_decision. Defined.
#[local] Instance AuthConfig_eq_dec : EqDecision AuthConfig.
Proof. solve_decision. Defined.
#[local] Instance TlsSettings_eq_dec : EqDecision TlsSettings.
Proof. solve_decision. Defined.
#[local] Instance PoolConfig_eq_dec : EqDecision Pool.PoolConfig.
Proof. solve_decision. Defined.
#[local] Instance ServerConfig_eq_dec : EqDecision ServerConfig.
Proof. solve_decision. Defined.
#[local] Instance LoggingConfig_eq_dec : EqDecision LoggingConfig.
Proof. solve_decision. Defined.
#[local] Instance AclSettings_eq_dec : EqDecision AclSettings.
Proof. solve_decision. Defined.
#[local] Instance DashboardAuthSettings_eq_dec : EqDecision DashboardAuthSettings.
Proof. solve_decision. Defined.
#[local] Instance SessionSettings_eq_dec : EqDecision SessionSettings.
Proof. solve_decision. Defined.
#[local] Instance MetricsSettings_eq_dec : EqDecision MetricsSettings.
Proof. solve_decision. Defined.
#[local] Instance TelemetrySettings_eq_dec : EqDecision TelemetrySettings.
Proof. solve_decision. Defined.
#[local] Instance HtbConfig_eq_dec : EqDecision Qos.HtbConfig.
Proof. solve_decision. Defined.
#[local] Instance ConnectionLimits_eq_dec : EqDecision Qos.ConnectionLimits.
Proof. solve_decision. Defined.
#[local] Instance QosConfig_eq_dec : EqDecision Qos.QosConfig.
Proof. solve_decision. Defined.
#[local] Instance Config_eq_dec : EqDecision Config.
Proof. solve_decision. Defined.

(** A serialization of two configurations by one letter each. *)
Definition start_config : Config := Config_default 1700000000.
Definition runtime_payload : RuntimeConfig :=
  let d := runtime_config start_config in
  mkRuntimeConfig (rt_server d) (rt_pool d) (rt_sessions d) (rt_metrics d) (mkTelemetryRuntimeConfig false 10 1).
Definition secure_config : Config :=
  let c := start_config in
  mkConfig (server c)
    (mkAuthConfig "none" "userpass" [mkUser "alice" "secret"] (pam (auth c)) (gssapi (auth c)))
    (logging c) (acl c) (sessions c) (metrics c) (telemetry c) (qos c).
Definition quiet_config : Config := apply_runtime_config start_config runtime_payload.

Definition letter_of (c : Config) : result string string :=
  if decide (c = secure_config) then Ok "s"%string
  else if decide (c = quiet_config) then Ok "q"%string else Err "unknown"%string.
Definition config_of (t : string) : result string Config :=
  if decide (t = "s" +:+ of_bytes [x0a]) then Ok secure_config
  else if decide (t = "q" +:+ of_bytes [x0a]) then Ok quiet_config else Err "unknown"%string.
Lemma config_of_letter c t : letter_of c = Ok t -> config_of (t +:+ of_bytes [x0a]) = Ok c.
Proof.
  unfold letter_of. case_decide as E; [|case_decide as E'; [|done]].
  - intros [= <-]. rewrite E. reflexivity.
  - intros [= <-]. rewrite E'. reflexivity.
Qed.
#[local] Instance demo_config_toml : ConfigToml := {
  config_to_string := letter_of; config_from_str := config_of; config_from_to := config_of_letter;
  path_display := fun p => p.1 +:+ "/" +:+ p.2; path_debug := fun p => p.1 +:+ "/" +:+ p.2 }.

Definition demo_path : path := ("/etc", "rustsocks.toml")%string.
(** The third operation of the disk is to fail. *)
Definition demo_disk : disk :=
  mkDisk {[ demo_path := "old"%string ]} [None; None; Some (mkFault "No space left on device" (Some ""%string))].
Definition demo_state (d : disk) : state := mkState (Some demo_path) start_config d [].

Lemma config_update_correct_witness :
  let u := UFile (mkUpdateConfigRequest ("s" +:+ of_bytes [x0a]) true) in
  one_fault (faults demo_disk) /\ asked u (demo_state demo_disk) = Ok secure_config /\
  updated u demo_path secure_config (demo_state demo_disk)
    (run_update "20240101000000" u (demo_state demo_disk)).
Proof.
  intros u. assert (H : one_fault (faults demo_disk)).
  { apply one_fault_later, one_fault_later, one_fault_now. constructor. }
  split; [exact H|]. split; [vm_compute; reflexivity|].
  exact (proj1 (config_update_correct "20240101000000" u demo_path (demo_state demo_disk) eq_refl H)).
Defined.

Lemma runtime_update_forgets_witness :
  let s := demo_state (mkDisk {[ demo_path := "old"%string ]} []) in
  let secure := UFile (mkUpdateConfigRequest ("s" +:+ of_bytes [x0a]) false) in
  let quiet := URuntime (mkRuntimeConfigUpdateRequest runtime_payload true) in
  (run_update "20240101000000" secure s).1.1 = OK /\ socks_method (auth secure_config) = "userpass"%string /\
  same_fixed start_config quiet_config /\ socks_method (auth quiet_config) = "none"%string /\
  updated quiet demo_path quiet_config (run_updates [("20240101000000"%string, secure)] s)
    (run_update "20240101000001" quiet (run_updates [("20240101000000"%string, secure)] s)).
Proof.
  intros s secure quiet.
  destruct (runtime_update_forgets [("20240101000000"%string, secure)] "20240101000001"
    (mkRuntimeConfigUpdateRequest runtime_payload true) s demo_path quiet_config) as (_ & Hf & Hu).
  - reflexivity.
  - vm_compute. reflexivity.
  - apply one_fault_clean. vm_compute. constructor.
  - split; [vm_compute; reflexivity|]. split; [reflexivity|]. split; [exact Hf|].
    split; [vm_compute; reflexivity|exact Hu].
Defined.

(** When the file cannot be replaced twice, it is gone. *)
Lemma write_to_file_two_faults :
  let busy := Some (mkFault "Device or resource busy" None) in
  files (run_update "20240101000000" (UFile (mkUpdateConfigRequest ("s" +:+ of_bytes [x0a]) false))
    (demo_state (mkDisk {[ demo_path := "old"%string ]} [None; None; None; None; busy; None; busy]))).2.(on_disk)
    !! demo_path = None.
Proof. vm_compute. reflexivity. Qed.
