(* ===== verification/Diagnostics.v ===== *)
(** * Diagnostics

    src/src/api/handlers/diagnostics.rs, pool.rs and system_resources.rs in the same
    directory, and the statistics server src/src/server/stats.rs.  The connection
    attempt, the readings of the sysinfo crate and the clock are arguments; a
    statistics request that panics is [None]. *)
From S2P Require Import Prelude Rust Net TokenBucket Pool Session Manager Store Telemetry.
From Stdlib Require Import Floats.SpecFloat.

(** ** Connectivity *)

Record ConnectivityTestRequest : Type := mkConnectivityTestRequest {
  ct_address : string; ct_port : Z; ct_timeout_ms : option Z }.
Record ConnectivityTestResponse : Type := mkConnectivityTestResponse {
  cr_address : string; cr_port : Z; cr_success : bool; cr_latency_ms : option Z;
  cr_message : string; cr_error : option string }.

(** What [timeout(timeout_duration, TcpStream::connect(socket_addr))] gives, and
    the milliseconds it took. *)
Inductive attempt : Type :=
| Connected (elapsed_ms : Z)
| Refused (err : string) (elapsed_ms : Z)
| TimedOut.

Definition refuse_test (address : string) (port : Z) (message error : string) : Z * ConnectivityTestResponse :=
  (400, mkConnectivityTestResponse address port false None message (Some error)).

(** [connect timeout_ms addr]: the attempt. *)
Definition test_tcp_connectivity (connect : Z -> SocketAddr -> attempt) (request : ConnectivityTestRequest)
    : Z * ConnectivityTestResponse :=
  let address := trim (ct_address request) in
  let port := ct_port request in
  let timeout_ms := Z.min (Z.max (default 3000 (ct_timeout_ms request)) 1) 120000 in
  if bool_decide (address = ""%string)
  then refuse_test address port "Destination address cannot be empty" "empty_address"
  else if port =? 0 then refuse_test address port "Port must be between 1 and 65535" "invalid_port"
  else match parse_ip address with
       | None => refuse_test address port "Invalid IP address format" "invalid_ip"
       | Some ip_addr =>
         (200, match connect timeout_ms (mkSocketAddr ip_addr port) with
               | Connected latency =>
                 mkConnectivityTestResponse address port true (Some (wrap64 latency)) "Connection successful" None
               | Refused err elapsed =>
                 mkConnectivityTestResponse address port false (Some (wrap64 elapsed))
                   ("Connection failed: " +:+ err) (Some err)
               | TimedOut =>
                 mkConnectivityTestResponse address port false (Some timeout_ms)
                   "Connection attempt timed out" (Some "timeout"%string)
               end)
       end.

(** ** The pool *)

Record PoolConfigResponse : Type := mkPoolConfigResponse {
  pc_enabled : bool; pc_max_idle_per_dest : Z; pc_max_total_idle : Z; pc_idle_timeout_secs : Z;
  pc_connect_timeout_ms : Z }.
Record PoolDestinationResponse : Type := mkPoolDestinationResponse {
  pd_destination : string; pd_idle_connections : Z; pd_in_use : Z; pd_total_created : Z;
  pd_total_reused : Z; pd_pool_hits : Z; pd_pool_misses : Z; pd_drops : Z; pd_evicted : Z;
  pd_expired : Z; pd_last_activity : option string; pd_last_miss : option string }.
Record PoolStatsResponse : Type := mkPoolStatsResponse {
  pr_enabled : bool; pr_total_idle : Z; pr_active_in_use : Z; pr_destinations : Z;
  pr_total_created : Z; pr_total_reused : Z; pr_pool_hits : Z; pr_pool_misses : Z;
  pr_dropped_full : Z; pr_expired : Z; pr_evicted : Z; pr_pending_creates : Z; pr_hit_rate : f64;
  pr_config : PoolConfigResponse; pr_destinations_breakdown : list PoolDestinationResponse }.

Definition format_system_time {chrono : Chrono} (time : option Z) : option string := to_rfc3339 <$> time.

Definition PoolStatsResponse_from {chrono : Chrono} (stats : PoolStats) : PoolStatsResponse :=
  let destinations_breakdown := (fun dest =>
    let m := ds_metrics dest in
    mkPoolDestinationResponse (fmt_socket_addr (ds_destination dest)) (ds_idle_connections dest)
      (dm_in_use m) (dm_total_created m) (dm_total_reused m) (dm_pool_hits m) (dm_pool_misses m)
      (dm_drops m) (dm_evicted m) (dm_expired m)
      (format_system_time (dm_last_activity m)) (format_system_time (dm_last_miss m)))
    <$> ps_per_destination stats in
  let total_checks := wadd64 (ps_pool_hits stats) (ps_pool_misses stats) in
  let hit_rate := if 0 <? total_checks
                  then f64_div (f64_of_Z (ps_pool_hits stats)) (f64_of_Z total_checks)
                  else f64_of_Z 0 in
  let cfg := ps_config stats in
  mkPoolStatsResponse (enabled cfg) (ps_total_idle stats) (ps_connections_in_use stats)
    (ps_destinations stats) (ps_total_created stats) (ps_total_reused stats) (ps_pool_hits stats)
    (ps_pool_misses stats) (ps_dropped_full stats) (ps_expired stats) (ps_evicted stats)
    (ps_pending_creates stats) hit_rate
    (mkPoolConfigResponse (enabled cfg) (max_idle_per_dest cfg) (max_total_idle cfg)
       (idle_timeout_secs cfg) (connect_timeout_ms cfg))
    destinations_breakdown.

Definition get_pool_stats {chrono : Chrono} (addrs : list SocketAddr) (connection_pool : ConnectionPool)
    : Z * PoolStatsResponse :=
  (200, PoolStatsResponse_from (stats addrs connection_pool)).

(** ** The resources of the system *)

Definition f32_of_Z (z : Z) : spec_float := binary_normalize 24 128 z 0 false.
Definition f32_div : spec_float -> spec_float -> spec_float := SFdiv 24 128.
Definition f32_mul : spec_float -> spec_float -> spec_float := SFmul 24 128.

(** What sysinfo reads: of the system, and of this process if it finds it. *)
Record readings : Type := mkReadings {
  global_cpu_usage : spec_float; total_memory : Z; used_memory : Z;
  process : option (spec_float * Z); load_average_one : f64 }.
Record SystemResourcesResponse : Type := mkSystemResourcesResponse {
  system_cpu_percent : spec_float; system_ram_percent : spec_float; system_ram_total_bytes : Z;
  system_ram_used_bytes : Z; process_cpu_percent : spec_float; process_ram_bytes : Z;
  load_average_1m : option f64 }.

Definition get_system_resources (sys : readings) : Z * SystemResourcesResponse :=
  let percent :=
    if 0 <? total_memory sys
    then f32_mul (f32_div (f32_of_Z (used_memory sys)) (f32_of_Z (total_memory sys))) (f32_of_Z 100)
    else f32_of_Z 0 in
  let '(cpu, ram) := default (f32_of_Z 0, 0) (process sys) in
  (200, mkSystemResourcesResponse (global_cpu_usage sys) percent (total_memory sys) (used_memory sys)
          cpu ram
          (if SFltb (f64_of_Z 0) (load_average_one sys) then Some (load_average_one sys) else None)).

(** ** The statistics server *)

Record StatsQuery : Type := mkStatsQuery { window_hours : option Z }.
Record AclDecisionStatsDto : Type := mkAclDecisionStatsDto { ad_allowed : Z; ad_blocked : Z }.
Record UserSessionStatDto : Type := mkUserSessionStatDto { ud_user : string; ud_sessions : Z }.
Record DestinationStatDto : Type := mkDestinationStatDto { dd_dest_ip : string; dd_connections : Z }.
Record SessionStatsDto : Type := mkSessionStatsDto {
  sd_generated_at : string; sd_active_sessions : Z; sd_total_sessions : Z; sd_total_bytes : Z;
  sd_top_users : list UserSessionStatDto; sd_top_destinations : list DestinationStatDto;
  sd_acl : AclDecisionStatsDto }.

Record HealthResponse : Type := mkHealthResponse { hr_status : string; hr_version : string }.
Definition health_check (version : string) : Z * HealthResponse := (200, mkHealthResponse "healthy" version).

Definition SessionStatsDto_of {chrono : Chrono} (stats : SessionStats) : SessionStatsDto :=
  mkSessionStatsDto (to_rfc3339 (generated_at stats)) (st_active_sessions stats)
    (st_total_sessions stats) (st_total_bytes stats)
    ((fun u => mkUserSessionStatDto (us_user u) (us_sessions u)) <$> top_users stats)
    ((fun d => mkDestinationStatDto (dst_dest_ip d) (dst_connections d)) <$> top_destinations stats)
    (mkAclDecisionStatsDto (Manager.ad_allowed (st_acl stats)) (Manager.ad_blocked (st_acl stats))).

(** The window in seconds, or the answer that refuses the request. *)
Definition lookback_of (default_window : Z) (query : StatsQuery) : result (Z * string) Z :=
  lookback ← match window_hours query with
             | Some hours =>
               if hours =? 0 then Err (400, "window_hours must be greater than 0"%string)
               else if hours * 3600 <=? u64_max then Ok (hours * 3600)
               else Err (400, "window_hours is too large"%string)
             | None => Ok default_window
             end;
  if lookback =? 0 then Err (500, "stats window is misconfigured"%string) else Ok lookback.

Section server.
Context {T : Type} `{!SessionSink T} {chrono : Chrono} {order : IterOrder} {delta : TimeDelta}.
(** [chrono::Duration::from_std], from seconds to nanoseconds, [None] when it does not fit. *)
Context (from_std : Z -> option Z).

(** [get_stats] of the manager subtracts its window from the current instant. *)
Definition get_session_stats (now default_window : Z) (query : StatsQuery) (m : SessionManager T)
    : option (result (Z * string) SessionStatsDto) :=
  match lookback_of default_window query with
  | Err e => Some (Err e)
  | Ok lookback =>
    _ ← sub_delta now (default (24 * 3600 * 10 ^ 9) (from_std lookback));
    Some (Ok (SessionStatsDto_of (get_stats now (from_std lookback) m)))
  end.
End server.
