(* ===== verification/DiagnosticsSpec.v ===== *)
(** * Properties of the diagnostics *)
From S2P Require Import Prelude Rust Net TokenBucket Acl Pool Session Manager ManagerSpec StatsSpec Store StoreSpec.
From S2P Require Import Telemetry TelemetrySpec Diagnostics.

(** ** Connectivity *)

Lemma parse_ip_empty : parse_ip "" = None.
Proof. reflexivity. Qed.

(** What the connectivity test tries and what it answers.  It refuses
    with 400 exactly the requests whose trimmed address is not an address or
    whose port is 0, without trying anything; otherwise it answers 200 after one
    attempt, at the address and port of the request and with between 1 and
    120000 milliseconds (3000 by default).  Success is reported exactly when the
    attempt connected, an error exactly without success, and a latency exactly
    when there was an attempt. *)
Theorem connectivity_correct connect request :
  let '(code, r) := test_tcp_connectivity connect request in
  let address := trim (ct_address request) in
  cr_address r = address /\ cr_port r = ct_port request /\
  (code = 200 \/ code = 400) /\
  (code = 400 <-> ct_port request = 0 \/ parse_ip address = None) /\
  (cr_success r = true <-> cr_error r = None) /\ (cr_latency_ms r = None <-> code = 400) /\
  (cr_success r = true <-> exists ip t ms, parse_ip address = Some ip /\ ct_port request <> 0 /\
     1 <= t <= 120000 /\ t = Z.min (Z.max (default 3000 (ct_timeout_ms request)) 1) 120000 /\
     connect t (mkSocketAddr ip (ct_port request)) = Connected ms).
Proof.
  unfold test_tcp_connectivity. set (t := Z.min _ 120000).
  assert (Ht : 1 <= t <= 120000) by lia.
  destruct (decide (trim (ct_address request) = "")%string) as [E|E].
  { rewrite bool_decide_eq_true_2 by done. cbn. rewrite E. split_and!; try done; [tauto|split; [by right|done]|].
    split; [done|]. intros (ip & ? & ? & Hip & _). by rewrite parse_ip_empty in Hip. }
  rewrite bool_decide_eq_false_2 by done.
  destruct (Z.eqb_spec (ct_port request) 0) as [P|P].
  { cbn. split_and!; try done; [tauto|split; [by left|done]|]. split; [done|]. by intros (? & ? & ? & _ & ? & _). }
  destruct (parse_ip _) as [ip|] eqn:Hip.
  2: { cbn. split_and!; try done; [tauto|split; [by right|done]|]. split; [done|]. by intros (? & ? & ? & ? & _). }
  assert (Hno : 200 = 400 <-> ct_port request = 0 \/ @None IpAddr = Some ip) by (split; [done|intros [?|?]; done]).
  destruct (connect t _) as [ms|err ms|] eqn:Ec; cbn; (split_and!; try done; [by left|split; [done|by intros [?|?]]|]).
  - split; [intros _|done]. by exists ip, t, ms.
  - split; [done|]. intros (ip' & t' & ms' & [= <-] & _ & _ & -> & E'). fold t in E'. congruence.
  - split; [done|]. intros (ip' & t' & ms' & [= <-] & _ & _ & -> & E'). fold t in E'. congruence.
Qed.

(** ** The statistics server *)

Section server.
Context {T : Type} `{!SessionSink T} {chrono : Chrono} {order : IterOrder} {delta : TimeDelta}.
Context (from_std : Z -> option Z).
Implicit Types m : SessionManager T.

(** The statistics server.  A window of no hours, or of so many that its
    seconds do not fit 64 bits, is refused with 400, and a default window of
    nothing is an internal error; nothing else is refused.  Every other answer
    is about the window that was asked for: it counts the sessions, active,
    closed and rejected, that started in it, adds up their bytes (saturated),
    counts the decisions of the rules, and ranks at most ten users and ten
    destinations by their sessions. *)
Theorem stats_server_correct now default_window query m :
  manager_wf m -> (forall h, window_hours query = Some h -> 0 <= h) ->
  let answer := get_session_stats from_std now default_window query m in
  (forall e, answer = Some (Err e) <->
     (exists h, window_hours query = Some h /\
        (h = 0 /\ e = (400, "window_hours must be greater than 0"%string) \/
         u64_max < h * 3600 /\ e = (400, "window_hours is too large"%string))) \/
     window_hours query = None /\ default_window = 0 /\ e = (500, "stats window is misconfigured"%string)) /\
  forall dto, answer = Some (Ok dto) ->
    let secs := default default_window (Z.mul 3600 <$> window_hours query) in
    let l := window now (from_std secs) m in
    sd_generated_at dto = to_rfc3339 now /\
    sd_active_sessions dto = Z.of_nat (size (active_sessions m)) /\
    sd_total_sessions dto = Z.of_nat (length l) /\
    sd_total_bytes dto = Z.min (total_traffic l) u64_max /\
    sd_acl dto = mkAclDecisionStatsDto (decided "allow" l) (decided "block" l) /\
    ranking user l ((fun u => (ud_user u, ud_sessions u)) <$> sd_top_users dto) /\
    ranking dest_ip l ((fun d => (dd_dest_ip d, dd_connections d)) <$> sd_top_destinations dto).
Proof.
  intros Hw Hh answer. subst answer. unfold get_session_stats. split.
  - intros e. unfold lookback_of. destruct (window_hours query) as [h|] eqn:Eh.
    + specialize (Hh h eq_refl). destruct (Z.eqb_spec h 0) as [->|Hn].
      { cbn. split; [intros [= <-]; left; exists 0; by split; [|left]|].
        intros [(h & [= <-] & [[_ ->]|[? _]])|[? _]]; done. }
      destruct (Z.leb_spec (h * 3600) u64_max) as [Hl|Hl]; cbn.
      * rewrite (proj2 (Z.eqb_neq (h * 3600) 0)) by lia. destruct (sub_delta _ _); cbn; (split; [done|]);
          intros [(h' & [= <-] & [[? _]|[? _]])|[? _]]; done || lia.
      * split; [intros [= <-]; left; exists h; by split; [|right]|].
        intros [(h' & [= <-] & [[? _]|[_ ->]])|[? _]]; done.
    + cbn. destruct (Z.eqb_spec default_window 0) as [->|Hn].
      * split; [intros [= <-]; by right|]. by intros [(? & ? & _)|(_ & _ & ->)].
      * destruct (sub_delta _ _); cbn; (split; [done|]); by intros [(? & ? & _)|(_ & ? & _)].
  - intros dto Hd. set (secs := default default_window (Z.mul 3600 <$> window_hours query)).
    destruct (lookback_of default_window query) as [lb|e] eqn:El; [|done].
    assert (lb = secs) as ->.
    { subst secs. unfold lookback_of in El. destruct (window_hours query) as [h|]; cbn in El |- *.
      - destruct (Z.eqb_spec h 0); cbn in El; [done|]. destruct (h * 3600 <=? u64_max); cbn in El; [|done].
        case_match; [done|]. injection El as <-. lia.
      - case_match; [done|]. by injection El. }
    destruct (sub_delta _ _); cbn in Hd; [|done]. injection Hd as <-. unfold SessionStatsDto_of. cbn [sd_generated_at sd_active_sessions sd_total_sessions sd_total_bytes sd_acl sd_top_users sd_top_destinations].
    destruct (get_stats_correct now (from_std secs) m Hw) as (H1 & H2 & H3 & H4 & H5 & H6 & H7).
    rewrite H1, H2, H3, H4, H5, <- !list_fmap_compose. by split_and!.
Qed.
End server.

(** ** A concrete request *)

Lemma stats_server_correct_witness :
  let answer := @get_session_stats (list Session) digits_chrono map_order demo_delta
    (fun s => Some (s * 10 ^ 9)) (3605 * 10 ^ 9) 86400 (mkStatsQuery (Some 1)) demo_after in
  manager_wf demo_after /\
  exists dto, answer = Some (Ok dto) /\ sd_total_sessions dto = 3 /\
    sd_total_sessions dto = Z.of_nat (length (@window (list Session) map_order (3605 * 10 ^ 9) (Some (3600 * 10 ^ 9)) demo_after)).
Proof.
  intros answer. split; [exact demo_wf|].
  destruct (@stats_server_correct (list Session) digits_chrono map_order demo_delta (fun s => Some (s * 10 ^ 9))
    (3605 * 10 ^ 9) 86400 (mkStatsQuery (Some 1)) demo_after demo_wf ltac:(intros h [= <-]; lia)) as [_ H].
  eexists. split; [reflexivity|]. split; [vm_compute; reflexivity|].
  by destruct (H _ eq_refl) as (_ & _ & Hn & _).
Defined.
