(* ===== verification/StoreOpen.v ===== *)
(** * Opening the session database

    src/src/session/store.rs, [SessionStore::connect]: the URL, the care of the
    database file before the engine sees it (checks of its header, quarantine,
    backup), the settings of the engine and the integrity check with its second
    attempt.  The files are a disk of [AclFile]; the engine is the class
    [SqlxDriver], of which it is only known that it writes no other file than
    those of the database it was given.  The journal of the engine, whose name is
    the one of the file with a suffix, is one of them. *)
From S2P Require Import Prelude AclFile.

(** What the code asks of the engine: statements on the pool or in a
    transaction, and the one value of a query. *)
Inductive request : Type :=
| Connect (url : string) | Migrate | Execute (sql : string) | FetchOne (sql : string)
| Begin | TxExecute (sql : string) | Commit | Close.

(** The files of a database of SQLite. *)
Definition own_files (db : option path) : list path :=
  match db with
  | Some (dir, name) => [(dir, name); (dir, name +:+ "-wal"); (dir, name +:+ "-shm"); (dir, name +:+ "-journal")]
  | None => []
  end%string.

Class SqlxDriver := {
  drv : Type;
  (* [SqliteConnectOptions::from_str(url)?.get_filename()] *)
  sqlite_filename : string -> result string path;
  path_lossy : path -> string;
  drive : option path -> request -> drv -> gmap path string -> result string string * drv * gmap path string;
  drive_frame : forall db req d fs p, p ∉ own_files db -> (drive db req d fs).2 !! p = fs !! p;
}.

Inductive OpenError : Type :=
| Io (e : string)               (* sqlx::Error::Io *)
| Driver (e : string)           (* of the engine *)
| Migration (e : string)
| IntegrityFailed (m : string)  (* sqlx::Error::Protocol *)
| BadUrl (e : string)           (* of the parser of the options *)
| Unsupported (m : string).     (* sqlx::Error::Configuration *)

(** ** The flavor *)

Inductive DatabaseFlavor : Type :=
| Sqlite (db_path : option path) (in_memory : bool) (connect_url : string)
| MariaDb.

Definition sqlite_path (f : DatabaseFlavor) : option path :=
  match f with Sqlite db_path _ _ => db_path | MariaDb => None end.
Definition is_sqlite_flavor (f : DatabaseFlavor) : bool := match f with Sqlite _ _ _ => true | MariaDb => false end.
Definition is_memory (f : DatabaseFlavor) : bool := match f with Sqlite _ m _ => m | MariaDb => false end.
Definition connection_url (original : string) (f : DatabaseFlavor) : string :=
  match f with Sqlite _ _ url => url | MariaDb => original end.

(** [Path::with_extension]: the text up to the last dot that is not the first
    character, and the extension. *)
Fixpoint stem_of (started : bool) (s : string) : option string :=
  match s with
  | EmptyString => None
  | String c s' =>
    match stem_of true s' with
    | Some t => Some (String c t)
    | None => if started && bool_decide (c = "."%char) then Some EmptyString else None
    end
  end.
Definition with_extension (ext : string) (p : path) : path := (p.1, default p.2 (stem_of false p.2) +:+ "." +:+ ext).

Definition memory_path : path := (""%string, ":memory:"%string).
Definition magic : string := "SQLite format 3" +:+ of_bytes [x00].

Definition metadata_len (p : path) : dio Z :=
  disk_op None (fun fs => match fs !! p with Some t => (Ok (slen t), fs) | None => (Err not_found, fs) end).
Definition open_file (p : path) : dio () :=
  disk_op None (fun fs => match fs !! p with Some _ => (Ok tt, fs) | None => (Err not_found, fs) end).
(** [read_exact] of 16 bytes. *)
Definition read_header (p : path) : dio string :=
  disk_op None (fun fs => match fs !! p with
    | Some t => (if 16 <=? slen t then Ok (of_bytes (take 16 (as_bytes t))) else Err "failed to fill whole buffer"%string, fs)
    | None => (Err not_found, fs) end).
Definition create_dirs : dio () := disk_op None (fun fs => (Ok tt, fs)).
Definition create_file (p : path) : dio () := disk_op (Some p) (fun fs => (Ok tt, <[p := ""%string]> fs)).

(** The clock, as the number that [%Y%m%d%H%M%S] prints, at the three places
    that look at it. *)
Record stamps : Type := mkStamps { at_preflight : Z; at_backup : Z; at_reset : Z }.
Definition backup_path (stamp : Z) (p : path) : path := (p.1, p.2 +:+ ".bak." +:+ fmt_Z stamp).
Definition quarantine_path (stamp : Z) (p : path) : path := (p.1, p.2 +:+ ".corrupt." +:+ fmt_Z stamp).

Section open.
Context {driver : SqlxDriver}.

Record world : Type := mkWorld { w_drv : drv; w_disk : disk }.
Definition opening (A : Type) : Type := world -> result OpenError A * world.
#[export] Instance opening_ret : MRet opening := fun A a w => (Ok a, w).
#[export] Instance opening_bind : MBind opening := fun A B f m w =>
  match m w with (Ok a, w) => f a w | (Err e, w) => (Err e, w) end.

Definition fail {A} (e : OpenError) : opening A := fun w => (Err e, w).
Definition io {A} (op : dio A) : opening A := fun w =>
  let '(r, d) := op (w_disk w) in
  (match r with Ok a => Ok a | Err e => Err (Io e) end, mkWorld (w_drv w) d).
Definition file_exists (p : path) : opening bool := fun w => (Ok (exists_ p (w_disk w)), w).
Definition ask (error : string -> OpenError) (db : option path) (req : request) : opening string := fun w =>
  let '(r, v, fs) := drive db req (w_drv w) (files (w_disk w)) in
  (match r with Ok a => Ok a | Err e => Err (error e) end, mkWorld v (set_files fs (w_disk w))).
(** The result of an operation as a value. *)
Definition catch {A} (m : opening A) : opening (result OpenError A) := fun w => let '(r, w) := m w in (Ok r, w).
Definition unless (b : bool) (m : opening ()) : opening () := if b then mret tt else m.
Definition skip {A} (m : opening A) : opening () := _ ← catch m; mret tt.

(** ** The files before the engine *)

Definition remove_if_there (p : path) : opening () :=
  there ← file_exists p;
  unless (negb there) (skip (io (remove_file p))).

Definition quarantine_database_file (stamp : Z) (p : path) : opening () :=
  there ← file_exists p;
  unless (bool_decide (p = memory_path) || negb there) (
    _ ← io (rename p (quarantine_path stamp p));
    _ ← remove_if_there (with_extension "db-wal" p);
    remove_if_there (with_extension "db-shm" p)).

Definition preflight_database_file (stamp : Z) (p : path) : opening () :=
  there ← file_exists p;
  unless (bool_decide (p = memory_path) || negb there) (
    len ← io (metadata_len p);
    if len <? 16 then quarantine_database_file stamp p
    else
      _ ← io (open_file p);
      header ← catch (io (read_header p));
      match header with
      | Err _ => quarantine_database_file stamp p
      | Ok header => unless (bool_decide (header = magic)) (quarantine_database_file stamp p)
      end).

Definition create_database_backup (stamp : Z) (p : path) : opening () :=
  there ← file_exists p;
  unless (bool_decide (p = memory_path) || negb there) (
    len ← io (metadata_len p);
    unless (len =? 0) (io (copy p (backup_path stamp p)))).

(** ** The engine *)

Definition probe_wal_support (db : option path) : opening () :=
  _ ← ask Driver db Begin;
  _ ← ask Driver db (TxExecute "CREATE TABLE IF NOT EXISTS __wal_probe(value INTEGER)");
  _ ← ask Driver db (TxExecute "DROP TABLE IF EXISTS __wal_probe");
  _ ← ask Driver db Commit;
  mret tt.

Definition configure_journal_mode (db : option path) : opening () :=
  mode ← catch (ask Driver db (FetchOne "PRAGMA journal_mode = WAL"));
  let wal_enabled := match mode with Ok mode => eq_ignore_ascii_case mode "wal" | Err _ => false end in
  if wal_enabled then
    probe ← catch (probe_wal_support db);
    match probe with
    | Err _ => _ ← ask Driver db (Execute "PRAGMA journal_mode = DELETE"); mret tt
    | Ok _ => mret tt
    end
  else _ ← ask Driver db (Execute "PRAGMA journal_mode = DELETE"); mret tt.

Definition verify_integrity (db : option path) : opening () :=
  answer ← ask Driver db (FetchOne "PRAGMA integrity_check");
  if eq_ignore_ascii_case (trim answer) "ok" then mret tt
  else fail (IntegrityFailed ("SQLite integrity check failed: " +:+ answer)).

Fixpoint execute_all (db : option path) (l : list string) : opening () :=
  match l with
  | [] => mret tt
  | sql :: l => _ ← ask Driver db (Execute sql); execute_all db l
  end.
Definition pragmas : list string :=
  ["PRAGMA synchronous = FULL"; "PRAGMA cache_size = -64000"; "PRAGMA page_size = 8192";
   "PRAGMA mmap_size = 268435456"; "PRAGMA optimize"]%string.

(** ** Connecting *)

Definition is_in_memory_database (filename : path) (url : string) : bool :=
  bool_decide (filename = memory_path)
  || String.prefix "file:sqlx-in-memory" (path_lossy filename)
  || (let url_lower := to_ascii_lowercase url in
      str_contains ":memory:" url_lower || str_contains "mode=memory" url_lower).

Definition from_url (url : string) : result OpenError DatabaseFlavor :=
  let normalized := trim url in
  let lower := to_ascii_lowercase normalized in
  if String.prefix "sqlite:" lower then
    match sqlite_filename normalized with
    | Err e => Err (BadUrl e)
    | Ok filename =>
      let is_memory := is_in_memory_database filename normalized in
      Ok (Sqlite (if is_memory then None else Some filename) is_memory
            (if is_memory
             then "sqlite://" +:+ str_replace ":" "%3A" (path_lossy filename) +:+ "?mode=memory&cache=shared"
             else normalized))
    end
  else if String.prefix "mysql://" lower || String.prefix "mariadb://" lower then Ok MariaDb
  else Err (Unsupported ("Unsupported session database URL: " +:+ normalized +:+
    ". Supported schemes: sqlite://..., mysql://..., mariadb://...")).

Definition prepare_files (now : stamps) (p : path) : opening () :=
  _ ← preflight_database_file (at_preflight now) p;
  _ ← unless (bool_decide (p.1 = ""%string)) (io create_dirs);
  there ← file_exists p;
  _ ← unless there (io (create_file p));
  create_database_backup (at_backup now) p.

(** What is done with the database after a failed check. *)
Definition reset_database (now : stamps) (flavor : DatabaseFlavor) : opening () :=
  _ ← skip (ask Driver (sqlite_path flavor) Close);
  unless (is_memory flavor)
    (match sqlite_path flavor with
     | Some p => quarantine_database_file (at_reset now) p
     | None => mret tt
     end).

(** [Ok None]: try again. *)
Definition connect_attempt (now : stamps) (database_url : string) (allow_reset : bool)
    : opening (option DatabaseFlavor) :=
  match from_url database_url with
  | Err e => fail e
  | Ok flavor =>
    let db := sqlite_path flavor in
    _ ← match db with Some p => prepare_files now p | None => mret tt end;
    _ ← ask Driver db (Connect (connection_url database_url flavor));
    _ ← ask Migration db Migrate;
    if is_sqlite_flavor flavor then
      _ ← configure_journal_mode db;
      _ ← execute_all db pragmas;
      checked ← catch (verify_integrity db);
      match checked with
      | Ok _ => mret (Some flavor)
      | Err e => if allow_reset then _ ← reset_database now flavor; mret None else fail e
      end
    else mret (Some flavor)
  end.

(** The loop of [connect], with fuel; [clock] is the clock of each attempt. *)
Fixpoint connect_loop (fuel : nat) (clock : nat -> stamps) (attempt : nat) (database_url : string)
    (allow_reset : bool) (w : world) : option (result OpenError DatabaseFlavor * world) :=
  match fuel with
  | O => None
  | S fuel =>
    match connect_attempt (clock attempt) database_url allow_reset w with
    | (Err e, w) => Some (Err e, w)
    | (Ok (Some store), w) => Some (Ok store, w)
    | (Ok None, w) => connect_loop fuel clock (S attempt) database_url false w
    end
  end.
Definition connect (clock : nat -> stamps) (database_url : string) (w : world)
    : option (result OpenError DatabaseFlavor * world) := connect_loop 2 clock 0 database_url true w.
End open.
