(* ===== verification/StoreOpenSpec.v ===== *)
(** * Properties of opening the session database *)
From S2P Require Import Prelude Net AclFile AclFileSpec StoreOpen.

(** ** Names *)

Definition last_char (s : string) : option ascii := last (String.list_ascii_of_string s).

Lemma last_char_app s t a : last_char t = Some a -> last_char (s +:+ t) = Some a.
Proof. unfold last_char. rewrite list_ascii_app, last_app. by intros ->. Qed.

(** A number is printed with digits. *)
Definition digits (s : string) : Prop :=
  Forall (fun a => exists k, (k < 10)%N /\ a = pretty_N_char k) (String.list_ascii_of_string s).

Lemma pretty_digits n s : digits s -> n <> 0%N -> digits (pretty_N_go n s) /\ pretty_N_go n s <> ""%string.
Proof.
  revert s. induction (N.lt_wf_0 n) as [n _ IH]. intros s Hs Hn. rewrite pretty_N_go_step by lia.
  assert (digits (String (pretty_N_char (n `mod` 10)) s)).
  { constructor; [|done]. exists (n `mod` 10)%N. by split; [apply N.mod_lt|]. }
  destruct (decide (n `div` 10 = 0)%N) as [->|E]; [by rewrite pretty_N_go_0|].
  apply IH; [apply N.div_lt; lia|done|done].
Qed.

Lemma fmt_digits z : 0 <= z -> digits (fmt_Z z) /\ fmt_Z z <> ""%string.
Proof.
  destruct z as [|n|n]; [intros _|intros _|lia].
  - split; [|done]. repeat constructor. by exists 0%N.
  - change (fmt_Z (Z.pos n)) with (pretty_N_go (N.pos n) ""). apply pretty_digits; [constructor|done].
Qed.

(** So the name of a copy does not end like the name of a journal. *)
Lemma stamp_last z s t : 0 <= z -> exists k, (k < 10)%N /\ last_char (s +:+ t +:+ fmt_Z z) = Some (pretty_N_char k).
Proof.
  intros Hz. destruct (fmt_digits z Hz) as [Hd Hn].
  assert (exists a, last_char (fmt_Z z) = Some a) as [a Ha].
  { unfold last_char. destruct (last _) eqn:E; [by eexists|]. apply last_None in E. by destruct (fmt_Z z). }
  assert (a ∈ String.list_ascii_of_string (fmt_Z z)) as Hin by by apply last_Some_elem_of.
  unfold digits in Hd. rewrite Forall_forall in Hd. destruct (Hd a Hin) as (k & Hk & ->). exists k.
  split; [done|]. by do 2 apply last_char_app.
Qed.

Lemma stamp_not_extension z s t ext p : 0 <= z -> ext = "db-wal"%string \/ ext = "db-shm"%string ->
  (p.1, s +:+ t +:+ fmt_Z z) <> with_extension ext p.
Proof.
  intros Hz Hext E. apply (f_equal snd) in E. cbn [snd with_extension] in E.
  destruct (stamp_last z s t Hz) as (k & Hk & Hl). rewrite E in Hl.
  assert (Hl' : exists a, last_char (default p.2 (stem_of false p.2) +:+ "." +:+ ext) = Some a /\ (a = "l" \/ a = "m")%char).
  { destruct Hext as [-> | ->]; [exists "l"%char|exists "m"%char]; (split; [by apply last_char_app|auto]). }
  destruct Hl' as (a & Ha & Hlm). rewrite Ha in Hl. injection Hl as ->.
  destruct k as [|k]; [by destruct Hlm|]. do 4 (destruct k as [k|k|]; try lia; try (by destruct Hlm)).
Qed.

Lemma name_ne (p : path) (s : string) : s <> ""%string -> (p.1, p.2 +:+ s) <> p.
Proof.
  intros Hs E. apply (f_equal (fun q => String.length q.2)) in E. cbn in E. rewrite str_length_app in E.
  destruct s; [done|]. cbn in E. lia.
Qed.

Lemma bak_ne z p : backup_path z p <> p.
Proof. apply name_ne. done. Qed.
Lemma corrupt_ne z p : quarantine_path z p <> p.
Proof. apply name_ne. done. Qed.
Lemma bak_corrupt_ne z1 z2 p : backup_path z1 p <> quarantine_path z2 p.
Proof. intros [= E]. apply str_app_inj_l in E. discriminate E. Qed.
Lemma corrupt_inj z1 z2 p : quarantine_path z1 p = quarantine_path z2 p -> z1 = z2.
Proof. intros [= E]. do 2 apply str_app_inj_l in E. by apply (inj pretty) in E. Qed.

Lemma stamp_not_own (p : path) b s : b <> "-"%char -> (p.1, p.2 +:+ String b s) ∉ own_files (Some p).
Proof.
  destruct p as [dir name]. cbn [fst snd own_files]. rewrite !elem_of_cons, elem_of_nil.
  assert (Hne : String b s <> ""%string) by done.
  intros Hb [E|[E|[E|[E|[]]]]].
  - by apply (name_ne (dir, name) (String b s)).
  - injection E as E. apply str_app_inj_l in E. by injection E.
  - injection E as E. apply str_app_inj_l in E. by injection E.
  - injection E as E. apply str_app_inj_l in E. by injection E.
Qed.

(** ** What an operation leaves alone *)

Section opening.
Context {driver : SqlxDriver}.

Definition at_end {A} (m : opening A) (w : world) : gmap path string := files (w_disk (m w).2).
Definition keeps {A} (q : path) (m : opening A) : Prop :=
  forall w, at_end m w !! q = files (w_disk w) !! q.
(** The same for an operation of the disk. *)
Definition disk_keeps {A} (q : path) (op : dio A) : Prop := forall d, files (op d).2 !! q = files d !! q.

Lemma disk_op_keeps {A} (q : path) (dest : option path) (body : gmap path string -> result string A * gmap path string) :
  dest <> Some q -> (forall fs, (body fs).2 !! q = fs !! q) -> disk_keeps q (disk_op dest body).
Proof.
  intros Hd Hb d. unfold disk_op. specialize (Hb (files d)). destruct (faults d) as [|[f|] l]; [destruct (body _); done| |destruct (body _); done].
  cbn. destruct dest as [p|]; [|done]. destruct (f_left f); [|done].
  rewrite lookup_insert_ne; [done|]. by intros ->.
Qed.

Lemma keeps_ret {A} q (a : A) : keeps q (mret a : opening A).
Proof. by intros w. Qed.
Lemma keeps_fail {A} q e : keeps q (fail e : opening A).
Proof. by intros w. Qed.
Lemma keeps_bind {A B} q (m : opening A) (f : A -> opening B) :
  keeps q m -> (forall a, keeps q (f a)) -> keeps q (m ≫= f).
Proof.
  intros Hm Hf w. unfold at_end, mbind, opening_bind. specialize (Hm w). unfold at_end in Hm.
  destruct (m w) as [[a|e] w1]; cbn in *; [|done]. rewrite <- Hm. apply Hf.
Qed.
Lemma keeps_catch {A} q (m : opening A) : keeps q m -> keeps q (catch m).
Proof. intros Hm w. specialize (Hm w). unfold at_end, catch in *. by destruct (m w). Qed.
Lemma keeps_io {A} q (op : dio A) : disk_keeps q op -> keeps q (io op).
Proof. intros Ho w. unfold at_end, io. specialize (Ho (w_disk w)). by destruct (op (w_disk w)). Qed.
Lemma keeps_exists q p : keeps q (file_exists p).
Proof. by intros w. Qed.
Lemma keeps_ask q error db req : q ∉ own_files db -> keeps q (ask error db req).
Proof.
  intros Hq w. unfold at_end, ask. pose proof (drive_frame db req (w_drv w) (files (w_disk w)) q Hq) as Hf.
  by destruct (drive _ _ _ _) as [[r v] fs].
Qed.

Lemma keeps_rename q a b : q <> a -> q <> b -> disk_keeps q (rename a b).
Proof.
  intros Ha Hb. apply disk_op_keeps; [done|]. intros fs. destruct (fs !! a); cbn; [|done].
  by rewrite lookup_insert_ne, lookup_delete_ne by done.
Qed.
Lemma keeps_remove q a : q <> a -> disk_keeps q (remove_file a).
Proof.
  intros Ha. apply disk_op_keeps; [done|]. intros fs. destruct (fs !! a); cbn; [|done]. by rewrite lookup_delete_ne.
Qed.
Lemma keeps_copy q a b : q <> b -> disk_keeps q (copy a b).
Proof.
  intros Hb. apply disk_op_keeps; [congruence|]. intros fs. destruct (fs !! a); cbn; [|done].
  by rewrite lookup_insert_ne.
Qed.
Lemma keeps_create q a : q <> a -> disk_keeps q (create_file a).
Proof. intros Ha. apply disk_op_keeps; [congruence|]. intros fs. cbn. by rewrite lookup_insert_ne. Qed.
Lemma keeps_metadata q p : disk_keeps q (metadata_len p).
Proof. apply disk_op_keeps; [done|]. intros fs. by destruct (fs !! p). Qed.
Lemma keeps_open q p : disk_keeps q (open_file p).
Proof. apply disk_op_keeps; [done|]. intros fs. by destruct (fs !! p). Qed.
Lemma keeps_header q p : disk_keeps q (read_header p).
Proof. apply disk_op_keeps; [done|]. intros fs. by destruct (fs !! p). Qed.
Lemma keeps_dirs q : disk_keeps q create_dirs.
Proof. by apply disk_op_keeps. Qed.

Create HintDb keeps.
#[local] Hint Resolve keeps_ret keeps_fail keeps_catch keeps_io keeps_exists keeps_ask keeps_rename keeps_remove
  keeps_copy keeps_create keeps_metadata keeps_open keeps_header keeps_dirs : keeps.
(** Through binds, cases and the operations above. *)
Ltac keeping := repeat first
  [ progress intros
  | assumption
  | solve [auto]
  | apply keeps_bind
  | apply keeps_catch
  | progress unfold skip, unless
  | progress cbn zeta
  | match goal with |- keeps _ (if ?b then _ else _) => destruct b end
  | match goal with |- keeps _ (match ?x with _ => _ end) => destruct x end
  | solve [eauto with keeps] ].

Lemma keeps_quarantine q stamp p :
  q <> p -> q <> quarantine_path stamp p -> q <> with_extension "db-wal" p -> q <> with_extension "db-shm" p ->
  keeps q (quarantine_database_file stamp p).
Proof. intros. unfold quarantine_database_file, remove_if_there. keeping. Qed.

(** Once the files are in place only the engine and a reset act. *)
Lemma keeps_engine q db : q ∉ own_files db ->
  keeps q (configure_journal_mode db) /\ (forall l, keeps q (execute_all db l)) /\ keeps q (verify_integrity db).
Proof.
  intros Hq. split_and!.
  - unfold configure_journal_mode, probe_wal_support. keeping.
  - intros l. induction l as [|s l IH]; cbn; keeping.
  - unfold verify_integrity. keeping.
Qed.

(** ** The care of the file *)

Lemma disk_op_cases {A} (dest : option path) (body : gmap path string -> result string A * gmap path string) d :
  (exists e l fs, disk_op dest body d = (Err e, mkDisk fs l) /\ faults d <> [] /\
     forall q, dest <> Some q -> fs !! q = files d !! q) \/
  (exists l, disk_op dest body d = ((body (files d)).1, mkDisk (body (files d)).2 l) /\ (l <> [] -> faults d <> [])).
Proof.
  unfold disk_op. destruct (faults d) as [|[f|] l]; [right|left|right]; [destruct (body _)|idtac|destruct (body _)]; try (by eexists).
  exists (f_error f), l. eexists. split_and!; [reflexivity|done|]. intros q Hq. destruct dest as [a|]; [|done]. destruct (f_left f); [|done].
  rewrite lookup_insert_ne; [done|]. by intros ->.
Qed.

(** A step at the operation of the disk in the goal: failing, or not. *)
Ltac io_step :=
  match goal with
  | |- context [disk_op ?dest ?body ?d] =>
    let e := fresh "e" in let l := fresh "l" in let fs := fresh "fs" in let E := fresh "E" in
    let Hf := fresh "Hf" in let K := fresh "K" in
    destruct (disk_op_cases dest body d) as [(e & l & fs & E & Hf & K)|(l & E & Hf)]; rewrite E; clear E; cbn in *
  end.

Definition gone (p : path) (w : world) : Prop := files (w_disk w) !! p = None.
Definition holds (p : path) (c : string) (w : world) : Prop := files (w_disk w) !! p = Some c.

Lemma remove_if_there_ok a w : exists w', remove_if_there a w = (Ok tt, w') /\
  (forall q, q <> a -> files (w_disk w') !! q = files (w_disk w) !! q) /\
  forall q, gone q w -> gone q w'.
Proof.
  unfold remove_if_there, unless, skip, catch, io, remove_file, file_exists, mbind, opening_bind, gone.
  destruct (exists_ a (w_disk w)); cbn; [|by eexists]. io_step.
  - eexists. split; [done|]. cbn. split; intros; by rewrite K.
  - eexists. split; [done|]. cbn. destruct (files (w_disk w) !! a); cbn; [|done].
    split; intros q Hq; [by rewrite lookup_delete_ne|]. rewrite lookup_delete_None. by right.
Qed.

Lemma quarantine_outcome stamp p c w :
  0 <= stamp -> p <> memory_path -> holds p c w ->
  exists r w', quarantine_database_file stamp p w = (r, w') /\
    match r with Ok _ => holds (quarantine_path stamp p) c w' /\ gone p w' | Err _ => holds p c w' end.
Proof.
  intros Hs Hm Hp. unfold quarantine_database_file, file_exists, mbind at 1, opening_bind at 1.
  unfold exists_. unfold holds in Hp. rewrite Hp, bool_decide_eq_false_2, bool_decide_eq_true_2 by done. cbn [orb negb unless].
  unfold io, rename, mbind at 1, opening_bind at 1. io_step.
  { eexists _, _. split; [done|]. unfold holds. cbn. by rewrite K. }
  rewrite Hp. cbn. set (w1 := mkWorld _ _). unfold mbind, opening_bind.
  destruct (remove_if_there_ok (with_extension "db-wal" p) w1) as (w2 & -> & K2 & G2).
  destruct (remove_if_there_ok (with_extension "db-shm" p) w2) as (w3 & -> & K3 & G3).
  eexists _, _. split; [done|]. split.
  - unfold holds. rewrite K3, K2; [by subst w1; cbn; rewrite lookup_insert_eq|by apply stamp_not_extension; auto..].
  - apply G3, G2. unfold gone. subst w1. cbn. rewrite lookup_insert_ne by apply corrupt_ne. by rewrite lookup_delete_eq.
Qed.

(** The file has the header of a database. *)
Definition valid_header (c : string) : bool :=
  (16 <=? slen c) && bool_decide (of_bytes (take 16 (as_bytes c)) = magic).

Lemma preflight_outcome stamp p c w :
  0 <= stamp -> p <> memory_path -> holds p c w ->
  exists r w', preflight_database_file stamp p w = (r, w') /\
    match r with
    | Ok _ => valid_header c = true /\ holds p c w' \/
              holds (quarantine_path stamp p) c w' /\ gone p w' /\ (valid_header c = true -> faults (w_disk w) <> [])
    | Err _ => holds p c w'
    end.
Proof.
  intros Hs Hm Hp. unfold preflight_database_file, file_exists, mbind at 1, opening_bind at 1.
  unfold exists_. unfold holds in Hp. rewrite Hp, bool_decide_eq_false_2, bool_decide_eq_true_2 by done. cbn [orb negb unless].
  assert (Hq : forall (P : Prop) w', holds p c w' -> P -> exists r w'', quarantine_database_file stamp p w' = (r, w'') /\
    match r with
    | Ok _ => valid_header c = true /\ holds p c w'' \/ holds (quarantine_path stamp p) c w'' /\ gone p w'' /\ P
    | Err _ => holds p c w'' end).
  { intros P w' Hw' HP. destruct (quarantine_outcome stamp p c w' Hs Hm Hw') as ([[]|e] & w'' & -> & H); eexists _, _; (split; [done|]); [|done].
    right. by destruct H. }
  unfold io, metadata_len, mbind at 1, opening_bind at 1. io_step.
  { eexists _, _. split; [done|]. unfold holds. cbn. by rewrite K. }
  rewrite Hp. cbn. destruct (Z.ltb_spec (slen c) 16) as [Hl|Hl].
  { apply Hq; [done|]. unfold valid_header. rewrite (proj2 (Z.leb_gt _ _)) by done. done. }
  unfold open_file, mbind at 1, opening_bind at 1, io. io_step.
  { eexists _, _. split; [done|]. unfold holds. cbn. by rewrite K. }
  rewrite Hp. cbn. unfold catch, read_header, mbind, opening_bind. io_step.
  { apply Hq; [unfold holds; cbn; by rewrite K|auto]. }
  rewrite Hp. cbn. rewrite (proj2 (Z.leb_le _ _)) by lia. cbn.
  case_bool_decide as Hh; cbn.
  - eexists _, _. split; [done|]. left. split; [|done]. unfold valid_header.
    by rewrite (proj2 (Z.leb_le _ _)), bool_decide_eq_true_2 by (done || lia).
  - apply Hq; [done|]. unfold valid_header. rewrite (bool_decide_eq_false_2 _ Hh). by rewrite andb_false_r.
Qed.

(** The rest of the preparation, when the file is there and when it is not. *)
Definition prepare_rest (now : stamps) (p : path) : opening () :=
  _ ← unless (bool_decide (p.1 = ""%string)) (io create_dirs);
  there ← file_exists p;
  _ ← unless there (io (create_file p));
  create_database_backup (at_backup now) p.

Lemma prepare_rest_keeps now p q : q <> p -> q <> backup_path (at_backup now) p -> keeps q (prepare_rest now p).
Proof. intros. unfold prepare_rest, create_database_backup. keeping. Qed.

Lemma prepare_rest_valid now p c w :
  p <> memory_path -> valid_header c = true -> holds p c w ->
  exists r w', prepare_rest now p w = (r, w') /\
    match r with Ok _ => holds (backup_path (at_backup now) p) c w' | Err _ => holds p c w' end.
Proof.
  intros Hm Hv Hp.
  assert (Hb : forall w1, holds p c w1 -> exists r w', create_database_backup (at_backup now) p w1 = (r, w') /\
    match r with Ok _ => holds (backup_path (at_backup now) p) c w' | Err _ => holds p c w' end).
  { clear w Hp. intros w Hp. unfold create_database_backup, file_exists, mbind, opening_bind, exists_. unfold holds in Hp.
    rewrite Hp, bool_decide_eq_false_2, bool_decide_eq_true_2 by done. cbn. unfold io, metadata_len. io_step.
    { eexists _, _. split; [done|]. unfold holds. cbn. by rewrite K. }
    rewrite Hp. cbn. destruct (Z.eqb_spec (slen c) 0) as [H0|_].
    { unfold valid_header in Hv. rewrite H0 in Hv. done. }
    cbn. unfold copy. io_step; [|rewrite Hp; cbn]; eexists _, _; (split; [done|]); unfold holds; cbn.
    - rewrite K; [done|]. intros [= E]. by apply (bak_ne (at_backup now) p).
    - by rewrite lookup_insert_eq. }
  unfold prepare_rest, mbind, opening_bind. 
  assert (Hd : exists r w1, unless (bool_decide (p.1 = ""%string)) (io create_dirs) w = (r, w1) /\ holds p c w1).
  { case_bool_decide; cbn; [by eexists _, _|]. unfold io, create_dirs. io_step; eexists _, _; (split; [done|]); [|done].
    unfold holds. cbn. by rewrite K. }
  destruct Hd as ([[]|e] & w1 & -> & H1); [|by eexists _, _].
  unfold file_exists, exists_. unfold holds in H1. rewrite H1, bool_decide_eq_true_2 by done. cbn. by apply Hb.
Qed.

(** Whatever fails, the text of the file is somewhere. *)
Lemma prepare_outcome now p c w :
  0 <= at_preflight now -> p <> memory_path -> holds p c w ->
  exists r w', prepare_files now p w = (r, w') /\
    (holds (backup_path (at_backup now) p) c w' \/
     (holds (quarantine_path (at_preflight now) p) c w' /\ (valid_header c = true -> faults (w_disk w) <> [])) \/
     holds p c w' /\ exists e, r = Err e).
Proof.
  intros Hs Hm Hp. change (prepare_files now p w) with
    ((_ ← preflight_database_file (at_preflight now) p; prepare_rest now p) w).
  unfold mbind, opening_bind.
  destruct (preflight_outcome _ _ _ _ Hs Hm Hp) as ([[]|e] & w1 & -> & H).
  2: { eexists _, _. split; [done|]. right; right. split; [done|]. by eexists. }
  destruct H as [[Hv H1]|(H1 & _ & Hf)].
  - destruct (prepare_rest_valid now p c w1 Hm Hv H1) as ([[]|e] & w2 & -> & H2); eexists _, _; (split; [done|]); [by left|].
    right; right. split; [done|]. by eexists.
  - destruct (prepare_rest now p w1) as [r w2] eqn:E. eexists _, _. split; [done|]. right; left. split; [|done].
    pose proof (prepare_rest_keeps now p (quarantine_path (at_preflight now) p) ltac:(apply corrupt_ne)
      ltac:(intros Hbq; by apply (bak_corrupt_ne (at_backup now) (at_preflight now) p)) w1) as Hk.
    unfold at_end in Hk. rewrite E in Hk. unfold holds in *. cbn in Hk. by rewrite Hk.
Qed.

(** ** Connecting *)

Lemma memory_not_path url p : (exists f, from_url url = Ok f /\ sqlite_path f = Some p) -> p <> memory_path.
Proof.
  unfold from_url. intros (f & Hf & Hp) ->. destruct (String.prefix "sqlite:" _).
  - destruct (sqlite_filename _) as [name|]; [|done]. injection Hf as <-. cbn in Hp.
    unfold is_in_memory_database in Hp. case_match eqn:E; [done|]. injection Hp as ->.
    by rewrite bool_decide_eq_true_2 in E.
  - destruct (_ || _); [|done]. injection Hf as <-. done.
Qed.

(** What the engine and a reset do once the files are prepared. *)
Definition attempt_rest (now : stamps) (url : string) (flavor : DatabaseFlavor) (allow_reset : bool)
    : opening (option DatabaseFlavor) :=
  let db := sqlite_path flavor in
  _ ← ask Driver db (Connect (connection_url url flavor));
  _ ← ask Migration db Migrate;
  if is_sqlite_flavor flavor then
    _ ← configure_journal_mode db;
    _ ← execute_all db pragmas;
    checked ← catch (verify_integrity db);
    match checked with
    | Ok _ => mret (Some flavor)
    | Err e => if allow_reset then _ ← reset_database now flavor; mret None else fail e
    end
  else mret (Some flavor).

Lemma connect_attempt_eq now url allow flavor : from_url url = Ok flavor ->
  connect_attempt now url allow =
  (_ ← match sqlite_path flavor with Some p => prepare_files now p | None => mret tt end;
   attempt_rest now url flavor allow).
Proof. intros E. unfold connect_attempt. by rewrite E. Qed.

Lemma keeps_rest q now url flavor allow :
  q ∉ own_files (sqlite_path flavor) ->
  (allow = true -> keeps q (reset_database now flavor)) -> keeps q (attempt_rest now url flavor allow).
Proof.
  intros Hq Hr. destruct (keeps_engine q (sqlite_path flavor) Hq) as (H1 & H2 & H3).
  unfold attempt_rest. keeping.
Qed.

Lemma keeps_reset q now flavor p :
  sqlite_path flavor = Some p -> q ∉ own_files (Some p) -> q <> quarantine_path (at_reset now) p ->
  q <> with_extension "db-wal" p -> q <> with_extension "db-shm" p -> keeps q (reset_database now flavor).
Proof.
  intros Hp Ho H1 H2 H3. assert (q <> p) by (intros ->; apply Ho; destruct p; left).
  unfold reset_database. rewrite Hp. keeping.
Qed.

(** Success means that the engine found the database sound. *)
Definition verified (flavor : DatabaseFlavor) : Prop :=
  is_sqlite_flavor flavor = true -> exists v fs answer,
    (drive (sqlite_path flavor) (FetchOne "PRAGMA integrity_check") v fs).1.1 = Ok answer /\
    eq_ignore_ascii_case (trim answer) "ok" = true.

Lemma opening_bind_Ok {A B} (m : opening A) (f : A -> opening B) w b w' :
  (m ≫= f) w = (Ok b, w') -> exists a w1, m w = (Ok a, w1) /\ f a w1 = (Ok b, w').
Proof. unfold mbind, opening_bind. destruct (m w) as [[a|e] w1]; [|done]. by eexists _, _. Qed.

Lemma verify_Ok db w u w' : verify_integrity db w = (Ok u, w') -> exists v fs answer,
  (drive db (FetchOne "PRAGMA integrity_check") v fs).1.1 = Ok answer /\ eq_ignore_ascii_case (trim answer) "ok" = true.
Proof.
  unfold verify_integrity. intros (answer & w1 & Ha & H)%opening_bind_Ok.
  destruct (eq_ignore_ascii_case (trim answer) "ok") eqn:E; [|done].
  exists (w_drv w), (files (w_disk w)), answer. split; [|done]. unfold ask in Ha.
  destruct (drive _ _ _ _) as [[[a|e] v] fs]; [|done]. by injection Ha as ->.
Qed.

Lemma attempt_rest_Ok now url flavor allow w r w' :
  attempt_rest now url flavor allow w = (Ok r, w') ->
  (r = Some flavor /\ verified flavor) \/
  (r = None /\ allow = true /\ exists w1, reset_database now flavor w1 = (Ok tt, w')).
Proof.
  unfold attempt_rest. intros (_ & w1 & _ & H)%opening_bind_Ok. apply opening_bind_Ok in H as (_ & w2 & _ & H).
  unfold verified. destruct (is_sqlite_flavor flavor).
  2: { injection H as <- <-. by left. }
  apply opening_bind_Ok in H as (_ & w3 & _ & H). apply opening_bind_Ok in H as (_ & w4 & _ & H).
  apply opening_bind_Ok in H as (checked & w5 & Hc & H). destruct checked as [u|e].
  - injection H as <- <-. left. split; [done|]. intros _. unfold catch in Hc.
    destruct (verify_integrity _ w4) as [x w6] eqn:Ev. injection Hc as -> ->. by eapply verify_Ok.
  - destruct allow; [|done]. apply opening_bind_Ok in H as ([] & w6 & Hr & H). injection H as <- <-. right. eauto.
Qed.

(** A failed reset has moved the file away. *)
Lemma reset_gone now flavor p w w' :
  sqlite_path flavor = Some p -> p <> memory_path -> is_memory flavor = false ->
  0 <= at_reset now -> reset_database now flavor w = (Ok tt, w') -> gone p w'.
Proof.
  intros Hp Hm Hmem Hs. unfold reset_database. rewrite Hp, Hmem. cbn [unless].
  intros (_ & w1 & _ & H)%opening_bind_Ok. unfold gone.
  destruct (files (w_disk w1) !! p) as [c|] eqn:E.
  - destruct (quarantine_outcome (at_reset now) p c w1 Hs Hm E) as (r & w2 & Hq & Hr). rewrite Hq in H.
    injection H as -> ->. by destruct Hr.
  - unfold quarantine_database_file, file_exists, exists_, mbind, opening_bind in H. rewrite E in H.
    rewrite (bool_decide_eq_false_2 (is_Some None)) in H by by intros [? ?]. rewrite orb_true_r in H. cbn in H.
    by injection H as <-.
Qed.

(** Nothing is copied when there is no file. *)
Lemma prepare_absent now p q w : q <> p -> gone p w -> at_end (prepare_files now p) w !! q = files (w_disk w) !! q.
Proof.
  intros Hq Hg.
  assert (Hp : preflight_database_file (at_preflight now) p w = (Ok tt, w)).
  { unfold preflight_database_file, file_exists, exists_, mbind, opening_bind. unfold gone in Hg. rewrite Hg.
    rewrite (bool_decide_eq_false_2 (is_Some None)) by by intros [? ?]. by rewrite orb_true_r. }
  unfold prepare_files, at_end, mbind, opening_bind. rewrite Hp.
  assert (Hd : exists r w1, unless (bool_decide (p.1 = ""%string)) (io create_dirs) w = (r, w1) /\ files (w_disk w1) = files (w_disk w)).
  { case_bool_decide; cbn; [by eexists _, _|]. unfold io, create_dirs, disk_op.
    destruct (faults (w_disk w)) as [|[f|] l]; eexists _, _; (split; [reflexivity|done]). }
  destruct Hd as ([[]|e] & w1 & -> & Hw1); [|by cbn; rewrite Hw1].
  unfold file_exists, exists_. rewrite Hw1. unfold gone in Hg. rewrite Hg.
  rewrite (bool_decide_eq_false_2 (is_Some None)) by by intros [? ?]. cbn [unless].
  unfold io at 1, create_file. io_step.
  { rewrite K by congruence. by rewrite Hw1. }
  set (w2 := mkWorld _ _). assert (H2 : files (w_disk w2) !! p = Some ""%string) by (subst w2; cbn; by rewrite lookup_insert_eq).
  assert (Hk : files (w_disk w2) !! q = files (w_disk w) !! q) by (subst w2; cbn; by rewrite lookup_insert_ne, Hw1).
  rewrite <- Hk. clearbody w2. unfold create_database_backup, file_exists, exists_, mbind, opening_bind.
  rewrite H2, (bool_decide_eq_true_2 (is_Some _)) by done. destruct (bool_decide (p = memory_path)); cbn; [done|].
  unfold io, metadata_len. io_step; [by rewrite K|]. by rewrite H2.
Qed.

(** The two copies that an attempt can make. *)
Definition copy_of (now : stamps) (p q : path) : Prop :=
  q = backup_path (at_backup now) p \/ q = quarantine_path (at_preflight now) p.

Lemma copy_apart now p q : copy_of now p q -> 0 <= at_backup now -> 0 <= at_preflight now ->
  q <> p /\ (q ∉ own_files (Some p)) /\ q <> with_extension "db-wal" p /\ q <> with_extension "db-shm" p.
Proof.
  intros [-> | ->] Hb Hq; (split_and!; [first [apply bak_ne|apply corrupt_ne]|by apply stamp_not_own|
    apply stamp_not_extension; auto|apply stamp_not_extension; auto]).
Qed.

Lemma path_not_memory url flavor p :
  from_url url = Ok flavor -> sqlite_path flavor = Some p -> p <> memory_path /\ is_memory flavor = false.
Proof.
  intros Hf Hp. split; [eapply (memory_not_path url); by exists flavor|].
  unfold from_url in Hf. destruct (String.prefix "sqlite:" _).
  - destruct (sqlite_filename _) as [name|]; [|done]. injection Hf as <-. cbn in *. by case_match.
  - destruct (_ || _); [|done]. by injection Hf as <-.
Qed.

(** After the preparation, an attempt leaves the copy alone. *)
Lemma second_attempt now0 now url flavor p q w :
  from_url url = Ok flavor -> sqlite_path flavor = Some p -> copy_of now0 p q ->
  0 <= at_backup now0 -> 0 <= at_preflight now0 -> gone p w ->
  at_end (connect_attempt now url false) w !! q = files (w_disk w) !! q.
Proof.
  intros Hf Hp Hq Hb Hpre Hg. destruct (copy_apart now0 p q Hq Hb Hpre) as (H1 & H2 & _).
  rewrite (connect_attempt_eq now url false flavor Hf), Hp.
  pose proof (prepare_absent now p q w H1 Hg) as Hk. unfold at_end, mbind, opening_bind in *.
  destruct (prepare_files now p w) as [[[]|e] w1]; cbn in *; [|done]. rewrite <- Hk.
  apply (keeps_rest q now url flavor false); [by rewrite Hp|done].
Qed.

Lemma connect_none_twice clock url w :
  exists r w', connect_attempt (clock 1%nat) url false w = (r, w') /\ r <> Ok None.
Proof.
  destruct (connect_attempt (clock 1%nat) url false w) as [r w'] eqn:E. eexists _, _. split; [done|]. intros ->.
  destruct (from_url url) as [flavor|e] eqn:Hf; [|by unfold connect_attempt in E; rewrite Hf in E].
  rewrite (connect_attempt_eq _ _ _ flavor Hf) in E. apply opening_bind_Ok in E as (_ & w1 & _ & H).
  apply attempt_rest_Ok in H as [[? _]|(_ & ? & _)]; done.
Qed.

Lemma attempt_Ok now url allow w r w' flavor : from_url url = Ok flavor ->
  connect_attempt now url allow w = (Ok (Some r), w') -> r = flavor /\ verified flavor.
Proof.
  intros Hf. rewrite (connect_attempt_eq now url allow flavor Hf). intros (_ & w1 & _ & H)%opening_bind_Ok.
  apply attempt_rest_Ok in H as [[[= ->] ?]|[? _]]; done.
Qed.

Lemma first_attempt now url flavor p c w :
  from_url url = Ok flavor -> sqlite_path flavor = Some p -> holds p c w ->
  0 <= at_preflight now -> 0 <= at_backup now -> 0 <= at_reset now ->
  (valid_header c = true /\ faults (w_disk w) = []) \/ at_reset now <> at_preflight now ->
  exists r w', connect_attempt now url true w = (r, w') /\
    ((exists q, copy_of now p q /\ holds q c w' /\ (r = Ok None -> gone p w')) \/
     holds p c w' /\ exists e, r = Err e).
Proof.
  intros Hf Hp Hc Hs1 Hs2 Hs3 Hd. destruct (path_not_memory _ _ _ Hf Hp) as [Hm Hmem].
  destruct (prepare_outcome now p c w Hs1 Hm Hc) as (r0 & w0 & E0 & H0).
  assert (Hcopy : (exists q, copy_of now p q /\ holds q c w0 /\ q <> quarantine_path (at_reset now) p) \/
      holds p c w0 /\ exists e, r0 = Err e).
  { destruct H0 as [H|[[H Hv]|H]]; [left|left|by right].
    - eexists. split; [by left|]. split; [done|]. apply bak_corrupt_ne.
    - eexists. split; [by right|]. split; [done|]. intros E%corrupt_inj.
      destruct Hd as [[Hv' Hn]|Hd]; [by apply (Hv Hv')|by apply Hd]. }
  rewrite (connect_attempt_eq _ _ _ flavor Hf), Hp. unfold mbind at 1, opening_bind at 1. rewrite E0.
  destruct Hcopy as [(q & Hq & Hh & Hne)|[Hh [e ->]]]; [|by eexists _, _; split; [done|right; eauto]].
  destruct (copy_apart _ _ _ Hq Hs2 Hs1) as (Q1 & Q2 & Q3 & Q4).
  destruct r0 as [[]|e]; [|by eexists _, _; split; [done|left; exists q]].
  pose proof (keeps_rest q now url flavor true ltac:(by rewrite Hp)
    (fun _ => keeps_reset q now flavor p Hp Q2 Hne Q3 Q4) w0) as Hk. unfold at_end in Hk.
  destruct (attempt_rest now url flavor true w0) as [r1 w1] eqn:E1. cbn in Hk.
  eexists _, _. split; [done|]. left. exists q. split; [done|]. split; [unfold holds in *; by rewrite Hk|].
  intros ->. apply attempt_rest_Ok in E1 as [[? _]|(_ & _ & w2 & Hr)]; [done|].
  exact (reset_gone _ _ _ _ _ Hp Hm Hmem Hs3 Hr).
Qed.

(** C10: opening the session database never loses what its file held.
    Whatever the engine does, whichever operations on the disk fail and
    whatever the integrity check says, opening ends after at most two attempts,
    and afterwards the text that the file had is in the backup, in the
    quarantined file, or, only if opening failed, still in the file itself.
    (The name of a quarantined file ends in the second of its making: the text
    is overwritten if the file was quarantined for its header and the new one
    for its integrity within one second.)  If opening succeeds the engine had
    found the database sound. *)
Theorem connect_keeps_database clock url flavor p c w :
  from_url url = Ok flavor -> sqlite_path flavor = Some p -> holds p c w ->
  0 <= at_preflight (clock 0%nat) -> 0 <= at_backup (clock 0%nat) -> 0 <= at_reset (clock 0%nat) ->
  (valid_header c = true /\ faults (w_disk w) = []) \/ at_reset (clock 0%nat) <> at_preflight (clock 0%nat) ->
  exists r w', connect clock url w = Some (r, w') /\
    (holds (backup_path (at_backup (clock 0%nat)) p) c w' \/
     holds (quarantine_path (at_preflight (clock 0%nat)) p) c w' \/
     holds p c w' /\ exists e, r = Err e) /\
    forall f, r = Ok f -> f = flavor /\ verified flavor.
Proof.
  intros Hf Hp Hc Hs1 Hs2 Hs3 Hd. unfold connect. cbn [connect_loop].
  destruct (first_attempt _ url _ _ _ _ Hf Hp Hc Hs1 Hs2 Hs3 Hd) as (r1 & w1 & E1 & H1). rewrite E1.
  destruct H1 as [(q & Hq & Hh & Hg)|[Hh [e ->]]].
  2: { eexists _, _. split; [reflexivity|]. split; [right; right; eauto|done]. }
  assert (Hsaved : forall w', holds q c w' -> holds (backup_path (at_backup (clock 0%nat)) p) c w' \/
     holds (quarantine_path (at_preflight (clock 0%nat)) p) c w') by (intros w' ?; destruct Hq as [-> | ->]; auto).
  destruct r1 as [[r1|]|e].
  - eexists _, _. split; [reflexivity|]. split; [destruct (Hsaved w1 Hh); auto|].
    intros f [= <-]. by eapply attempt_Ok.
  - pose proof (second_attempt _ (clock 1%nat) _ _ _ _ _ Hf Hp Hq Hs2 Hs1 (Hg eq_refl)) as Hk2.
    destruct (connect_none_twice clock url w1) as (r2 & w3 & E2 & Hn). unfold at_end in Hk2. rewrite E2 in *. cbn in Hk2.
    assert (Hh3 : holds q c w3) by (unfold holds in *; by rewrite Hk2).
    destruct r2 as [[r2|]|e]; [|done|]; eexists _, _; (split; [reflexivity|]); (split; [destruct (Hsaved w3 Hh3); auto|]).
    + intros f [= <-]. by eapply attempt_Ok.
    + done.
  - eexists _, _. split; [reflexivity|]. split; [destruct (Hsaved w1 Hh); auto|done].
Qed.

(** The journal that a quarantine removes: the one of the database if its name
    ends in [.db]; otherwise the name is another one, which may be that of the
    journal of another database in the same directory. *)
Lemma quarantine_wrong_journal (d : drv) :
  with_extension "db-wal" ("var", "sessions.db")%string = ("var", "sessions.db-wal")%string /\
  with_extension "db-wal" ("var", "sessions.sqlite")%string = ("var", "sessions.db-wal")%string /\
  let w := mkWorld d (mkDisk {[ ("var", "sessions.sqlite")%string := "broken"%string;
                                ("var", "sessions.db-wal")%string := "of another database"%string ]} []) in
  gone ("var", "sessions.db-wal")%string (quarantine_database_file 1 ("var", "sessions.sqlite")%string w).2.
Proof. split; [reflexivity|]. split; [reflexivity|]. vm_compute. reflexivity. Qed.
End opening.

(** ** A concrete run *)

(** An engine that counts the connections and finds the first database damaged. *)
#[refine] Definition demo_driver : SqlxDriver := {|
  drv := nat;
  sqlite_filename url := Ok (""%string, String.substring 9 100 url);
  path_lossy p := p.2;
  drive db req d fs :=
    match req with
    | Connect _ => (Ok ""%string, S d, fs)
    | FetchOne sql =>
      (Ok (if bool_decide (sql = "PRAGMA integrity_check")%string
           then if bool_decide (d = 1%nat) then "row 7 missing from index" else "ok" else "wal")%string, d, fs)
    | _ => (Ok ""%string, d, fs)
    end |}.
Proof. intros db [] d fs p _; done. Defined.

Lemma connect_keeps_database_witness :
  let text := (magic +:+ "pages")%string in
  let p := (""%string, "sessions.db"%string) in
  let w := @mkWorld demo_driver 0%nat (mkDisk {[ p := text ]} []) in
  exists r w', @connect demo_driver (fun _ => mkStamps 20250101000000 20250101000000 20250101000000)
      "sqlite://sessions.db" w = Some (r, w') /\
    is_ok r = true /\ w_drv w' = 2%nat /\
    (holds (backup_path 20250101000000 p) text w' \/ holds (quarantine_path 20250101000000 p) text w' \/
     holds p text w' /\ exists e, r = Err e).
Proof.
  intros text p w.
  destruct (@connect_keeps_database demo_driver (fun _ => mkStamps 20250101000000 20250101000000 20250101000000)
    "sqlite://sessions.db" (Sqlite (Some p) false "sqlite://sessions.db") p text w) as (r & w' & E & H & _).
  - vm_compute. reflexivity.
  - reflexivity.
  - vm_compute. reflexivity.
  - cbn; lia.
  - cbn; lia.
  - cbn; lia.
  - left. split; [vm_compute; reflexivity|reflexivity].
  - exists r, w'. split; [exact E|].
    assert (Hr : match @connect demo_driver (fun _ => mkStamps 20250101000000 20250101000000 20250101000000)
      "sqlite://sessions.db" w with Some (r, w') => is_ok r = true /\ w_drv w' = 2%nat | None => False end)
      by (vm_compute; by split).
    rewrite E in Hr. destruct Hr as [Hr1 Hr2]. by split_and!.
Defined.
