(* ===== verification/SystemCheck.v ===== *)
(** * The settings of the operating system

    src/src/utils/system.rs: the checks made at start, on what reading a file of
    /proc gives; the log is the list of what is reported. *)
From S2P Require Import Prelude.

(** [None] when the file does not exist. *)
Inductive reading : Type := Content (s : string) | NotFound | Unreadable (e : string).

Record KernelRecommendation : Type := mkKernelRecommendation {
  kr_name : string; kr_path : string; kr_min_value : Z; kr_recommended : Z; kr_description : string }.

Definition KERNEL_PARAMS : list KernelRecommendation :=
  [ mkKernelRecommendation "fs.file-max" "/proc/sys/fs/file-max" 65536 262144
      "Maximum number of file handles (affects max connections)";
    mkKernelRecommendation "net.core.somaxconn" "/proc/sys/net/core/somaxconn" 1024 4096
      "Maximum backlog for accept() queue";
    mkKernelRecommendation "net.core.netdev_max_backlog" "/proc/sys/net/core/netdev_max_backlog" 5000 16384
      "Maximum network device backlog";
    mkKernelRecommendation "net.ipv4.tcp_max_syn_backlog" "/proc/sys/net/ipv4/tcp_max_syn_backlog" 2048 8192
      "Maximum SYN backlog for TCP connections" ]%string.

(** What is logged, in the order of the log. *)
Inductive entry : Type :=
| Unparsed (name : string) (text : string)
| Unread (name path : string) (e : string)
| BelowMinimum (name : string) (value min : Z)
| BelowRecommended (name : string) (value recommended : Z)
| PortRange (min max range : Z)
| FinTimeoutHigh (value : Z)
| TwReuse (value : Z)
| FdLimitLow (soft : Z)
| Optimal
| Suboptimal.

(** ** Text *)

(** [split_whitespace]; [cur] is the reversed word that is being read. *)
Definition end_word (cur : list u8) : list string :=
  match cur with [] => [] | _ => [of_bytes (reverse cur)] end.
Fixpoint words (cur : list u8) (bs : list u8) : list string :=
  match bs with
  | [] => end_word cur
  | a :: r1 =>
    if ws1 a then end_word cur ++ words [] r1 else
    match r1 with
    | [] => words (a :: cur) r1
    | b :: r2 =>
      if ws2 a b then end_word cur ++ words [] r2 else
      match r2 with
      | [] => words (a :: cur) r1
      | c :: r3 => if ws3 a b c then end_word cur ++ words [] r3 else words (a :: cur) r1
      end
    end
  end.
Definition split_whitespace (s : string) : list string := words [] (as_bytes s).

(** [lines]: the text between the line feeds, without a final carriage return;
    an empty text after the last line feed is not a line. *)
Definition chomp (bs : list u8) : list u8 :=
  match bs with x0d :: r => r | _ => bs end.
Fixpoint lines_from (cur : list u8) (bs : list u8) : list string :=
  match bs with
  | [] => match cur with [] => [] | _ => [of_bytes (reverse cur)] end
  | x0a :: r => of_bytes (reverse (chomp cur)) :: lines_from [] r
  | b :: r => lines_from (b :: cur) r
  end.
Definition lines (s : string) : list string := lines_from [] (as_bytes s).

Section check.
Context (read : string -> reading).

Definition check_kernel_param (param : KernelRecommendation) : option (Z * bool) * list entry :=
  match read (kr_path param) with
  | Content content =>
    match parse_uint u64_max (trim content) with
    | Some value => (Some (value, kr_min_value param <=? value), [])
    | None => (None, [Unparsed (kr_name param) (trim content)])
    end
  | NotFound => (None, [])
  | Unreadable e => (None, [Unread (kr_name param) (kr_path param) e])
  end.

(** [max - min] wraps in a release build. *)
Definition check_port_range : list entry :=
  match read "/proc/sys/net/ipv4/ip_local_port_range" with
  | Content content =>
    match split_whitespace content with
    | [a; b] =>
      match parse_uint u32_max a, parse_uint u32_max b with
      | Some min, Some max =>
        let range := (max - min) mod 2 ^ 32 in
        if range <? 16384 then [PortRange min max range] else []
      | _, _ => []
      end
    | _ => []
    end
  | _ => []
  end.

Definition check_tcp_fin_timeout : list entry :=
  match read "/proc/sys/net/ipv4/tcp_fin_timeout" with
  | Content content =>
    match parse_uint u32_max (trim content) with
    | Some value => if 30 <? value then [FinTimeoutHigh value] else []
    | None => []
    end
  | _ => []
  end.

Definition check_tcp_tw_reuse : list entry :=
  match read "/proc/sys/net/ipv4/tcp_tw_reuse" with
  | Content content =>
    match parse_uint u32_max (trim content) with
    | Some value => if negb (value =? 2) then [TwReuse value] else []
    | None => []
    end
  | _ => []
  end.

(** The first line that starts with the name of the limit. *)
Definition check_fd_limit : list entry :=
  match read "/proc/self/limits" with
  | Content content =>
    match List.find (String.prefix "Max open files") (lines content) with
    | Some line =>
      match split_whitespace line with
      | _ :: _ :: _ :: part :: _ =>
        match parse_uint u64_max part with
        | Some soft_limit => if soft_limit <? 65536 then [FdLimitLow soft_limit] else []
        | None => []
        end
      | _ => []
      end
    | None => []
    end
  | _ => []
  end.

(** One parameter: what is logged, and whether a warning was found. *)
Definition check_param (param : KernelRecommendation) : list entry * bool :=
  let '(r, log) := check_kernel_param param in
  match r with
  | Some (value, meets_min) =>
    if negb meets_min then (log ++ [BelowMinimum (kr_name param) value (kr_min_value param)], true)
    else if value <? kr_recommended param
         then (log ++ [BelowRecommended (kr_name param) value (kr_recommended param)], false)
         else (log, false)
  | None => (log, false)
  end.

Definition check_system_settings : list entry :=
  let results := check_param <$> KERNEL_PARAMS in
  let warnings_found := existsb snd results in
  concat (fst <$> results)
  ++ check_port_range ++ check_tcp_fin_timeout ++ check_tcp_tw_reuse ++ check_fd_limit
  ++ [if negb warnings_found then Optimal else Suboptimal].
End check.
