(* ===== verification/SystemCheckSpec.v ===== *)
(** * Properties of the check of the settings of the system *)
From S2P Require Import Prelude SystemCheck.

(** The value of a parameter, when its file can be read as a number. *)
Definition value_of (read : string -> reading) (path : string) : option Z :=
  match read path with Content s => parse_uint u64_max (trim s) | _ => None end.

(** What the log says about one parameter of the kernel. *)
Lemma param_log read param :
  let '(log, found) := check_param read param in
  (found = true <-> exists v, value_of read (kr_path param) = Some v /\ v < kr_min_value param) /\
  (forall name v m, BelowMinimum name v m ∈ log <->
     name = kr_name param /\ m = kr_min_value param /\ value_of read (kr_path param) = Some v /\ v < m).
Proof.
  unfold check_param, check_kernel_param, value_of. destruct (read (kr_path param)) as [s| |e]; cbn.
  2, 3: split; [split; [done|by intros (? & ? & _)]|]; intros name v m; (split; [set_solver|by intros (_ & _ & ? & _)]).
  destruct (parse_uint u64_max (trim s)) as [v|]; cbn.
  2: { split; [split; [done|by intros (? & ? & _)]|]; intros name v m; (split; [set_solver|by intros (_ & _ & ? & _)]). }
  destruct (Z.leb_spec (kr_min_value param) v) as [H|H]; cbn.
  - destruct (v <? kr_recommended param); cbn;
      (split; [split; [done|intros (v' & [= <-] & ?); lia]|]; intros name v' m; split; [set_solver|intros (_ & -> & [= <-] & ?); lia]).
  - split; [split; [by eexists|done]|]. intros name v' m. rewrite list_elem_of_singleton. split.
    + by intros [= -> -> ->].
    + by intros (-> & -> & [= <-] & _).
Qed.

(** The other checks do not change the last line. *)
Definition other_checks (read : string -> reading) : list entry :=
  check_port_range read ++ check_tcp_fin_timeout read ++ check_tcp_tw_reuse read ++ check_fd_limit read.


Lemma other_checks_entries read e : e ∈ other_checks read ->
  match e with PortRange _ _ _ | FinTimeoutHigh _ | TwReuse _ | FdLimitLow _ => True | _ => False end.
Proof.
  unfold other_checks. rewrite !elem_of_app.
  unfold check_port_range, check_tcp_fin_timeout, check_tcp_tw_reuse, check_fd_limit.
  intros [H|[H|[H|H]]]; repeat case_match; set_solver.
Qed.

(** The report on the settings of the system.  A parameter of the kernel
    is reported below its minimum exactly when its file can be read as a number
    that is below it, and the last line says that the settings appear optimal
    exactly when no parameter of the kernel is below its minimum: the limit on
    open files, the range of ports and the two TCP settings do not count, whatever
    was reported about them. *)
Theorem system_check_correct read :
  let log := check_system_settings read in
  let low v param := value_of read (kr_path param) = Some v /\ v < kr_min_value param in
  (forall name v m, BelowMinimum name v m ∈ log <->
     exists param, param ∈ KERNEL_PARAMS /\ name = kr_name param /\ m = kr_min_value param /\ low v param) /\
  (last log = Some Optimal <-> ~ exists param v, param ∈ KERNEL_PARAMS /\ low v param) /\
  (last log = Some Suboptimal <-> exists param v, param ∈ KERNEL_PARAMS /\ low v param).
Proof.
  intros log low. subst log. unfold check_system_settings.
  set (found := existsb snd (check_param read <$> KERNEL_PARAMS)).
  assert (Hf : found = true <-> exists param v, param ∈ KERNEL_PARAMS /\ low v param).
  { subst found. rewrite existsb_elem. split.
    - intros (x & (param & -> & Hp)%list_elem_of_fmap & Hx). pose proof (param_log read param) as Hl.
      destruct (check_param read param) as [l b]. cbn in Hx. apply Hl in Hx as (v & Hv). by exists param, v.
    - intros (param & v & Hp & Hv). exists (check_param read param). split; [by apply list_elem_of_fmap_2|].
      pose proof (param_log read param) as Hl. destruct (check_param read param) as [l b]. apply Hl. by exists v. }
  set (last_line := if negb found then Optimal else Suboptimal).
  assert (Hlast : forall l, last (l ++ check_port_range read ++ check_tcp_fin_timeout read ++ check_tcp_tw_reuse read ++
    check_fd_limit read ++ [last_line]) = Some last_line) by (intros l; rewrite !app_assoc; apply last_snoc).
  rewrite Hlast. subst last_line. split.
  - intros name v m. rewrite elem_of_app, !(app_assoc _ _ [_]), (elem_of_app _ [_]). fold (other_checks read).
    split; [intros [H|[H|H]]|].
    + apply list_elem_of_In, in_concat in H as (l & Hl & He). apply list_elem_of_In, list_elem_of_fmap in Hl as (x & -> & Hx).
      apply list_elem_of_fmap in Hx as (param & -> & Hp). pose proof (param_log read param) as Hlog.
      destruct (check_param read param) as [l b]. destruct Hlog as [_ Hlog].
      apply list_elem_of_In, Hlog in He as (-> & -> & ? & ?). by exists param.
    + by apply other_checks_entries in H.
    + by destruct found; apply list_elem_of_singleton in H.
    + intros (param & Hp & -> & -> & Hv). left. apply list_elem_of_In, in_concat. exists (check_param read param).1.
      pose proof (param_log read param) as Hlog. split.
      * apply list_elem_of_In, list_elem_of_fmap_2, list_elem_of_fmap_2, Hp.
      * destruct (check_param read param) as [l b]. destruct Hlog as [_ Hlog]. apply list_elem_of_In, Hlog. by destruct Hv.
  - destruct found; cbn.
    + split; split; try done; intros H; [destruct H|]; by apply Hf.
    + assert (Hn : ~ exists param v, param ∈ KERNEL_PARAMS /\ low v param) by by intros Hx%Hf.
      split; split; done.
Qed.

(** With a limit of 1024 open files the settings appear optimal. *)
Definition few_files (path : string) : reading :=
  if bool_decide (path = "/proc/self/limits")%string
  then Content "Max open files            1024                 1048576              files"
  else NotFound.

Example few_files_optimal : check_system_settings few_files = [FdLimitLow 1024; Optimal].
Proof. vm_compute. reflexivity. Qed.
