(* ===== verification/Udp.v ===== *)
(** * The UDP relay

    src/src/server/udp.rs, with the resolution of src/src/server/resolver.rs.  The
    relay is a fold over what its [select] yields: a datagram, an error of the
    socket, the idle timeout, the shutdown signal.  What it does to the rest of the
    program, datagrams sent and calls of the session manager, is the list of its
    actions, so that others may work on the manager between any two of them. *)
From S2P Require Import Prelude Net Stream Protocol Session Auth Handler.

(** ** Which client talks to which destination *)

Record UdpSessionMap : Type := mkUdpSessionMap {
  sessions : gmap SocketAddr (SocketAddr * Z);
  reverse : gmap SocketAddr SocketAddr;
}.
Definition UdpSessionMap_new : UdpSessionMap := mkUdpSessionMap ∅ ∅.
Definition insert (client dest : SocketAddr) (session_id : Z) (m : UdpSessionMap) : UdpSessionMap :=
  mkUdpSessionMap (<[client := (dest, session_id)]> (sessions m)) (<[dest := client]> (reverse m)).
Definition get_destination (client : SocketAddr) (m : UdpSessionMap) : option (SocketAddr * Z) :=
  sessions m !! client.
Definition get_client (dest : SocketAddr) (m : UdpSessionMap) : option SocketAddr := reverse m !! dest.
Definition remove (client : SocketAddr) (m : UdpSessionMap) : UdpSessionMap :=
  match sessions m !! client with
  | Some (dest, _) => mkUdpSessionMap (delete client (sessions m)) (delete dest (reverse m))
  | None => m
  end.

(** ** What the relay does *)

Inductive action : Type :=
| ASend (to : SocketAddr) (bytes : list u8)
| AQueue (update : TrafficUpdate)
| AClose (id now : Z) (reason : string) (status : SessionStatus).

(** The resolver of a datagram's destination: literal addresses need no lookup. *)
Definition name_service : Type := string -> Z -> result ErrorKind (list SocketAddr).
Definition resolve (lookup : name_service) (address : Address) (port : Z)
    : result RustSocksError (list SocketAddr) :=
  match address with
  | IPv4 octets => order_targets [mkSocketAddr (V4 octets) port]
  | IPv6 octets => order_targets [mkSocketAddr (V6 octets) port]
  | Domain domain => targets ← map_err Io (lookup domain port); order_targets targets
  end.

(** [sent] is what the socket answers to [send_to]; [None] is a panic. *)
Definition handle_client_packet (lookup : name_service) (sent : result ErrorKind Z)
    (packet_data : list u8) (client_addr : SocketAddr) (session_id : Z) (session_map : UdpSessionMap)
    : option (result RustSocksError () * UdpSessionMap * list action) :=
  parsed ← parse_udp_packet packet_data;
  Some match parsed with
  | Err e => (Err e, session_map, [])
  | Ok packet =>
    match resolve lookup (uh_address (header packet)) (uh_port (header packet)) with
    | Err e => (Err e, session_map, [])
    | Ok [] => (Err (Stream.Protocol "No destination address resolved"), session_map, [])
    | Ok (dest_addr :: _) =>
      let session_map := insert client_addr dest_addr session_id session_map in
      let send := ASend dest_addr (data packet) in
      match sent with
      | Err e => (Err (Io e), session_map, [send])
      | Ok n => (Ok (), session_map, [send; AQueue (mkTrafficUpdate session_id n 0 1 0)])
      end
    end
  end.

Definition handle_destination_packet (sent : result ErrorKind Z) (packet_data : list u8)
    (dest_addr : SocketAddr) (session_id : Z) (session_map : UdpSessionMap)
    : result RustSocksError () * UdpSessionMap * list action :=
  match get_client dest_addr session_map with
  | None => (Err (Stream.Protocol ("No client mapping for destination " +:+ fmt_socket_addr dest_addr)),
             session_map, [])
  | Some client_addr =>
    let packet_len := Z.of_nat (length packet_data) in
    let response_packet :=
      mkUdpPacket (mkUdpHeader x00 (address_of_ip (sa_ip dest_addr)) (sa_port dest_addr)) packet_data in
    let send := ASend client_addr (serialize_udp_packet response_packet) in
    match sent with
    | Err e => (Err (Io e), session_map, [send])
    | Ok _ => (Ok (), session_map, [send; AQueue (mkTrafficUpdate session_id 0 packet_len 0 1)])
    end
  end.

(** ** The loop *)

Inductive udp_event : Type :=
| Received (packet_data : list u8) (peer_addr : SocketAddr) (lookup : name_service)
    (sent : result ErrorKind Z)
| SocketError (e : ErrorKind)
| IdleTimeout (now : Z)
| ShutdownSignal (now : Z).

(** [progress] is the result of [run_udp_relay] once it has returned. *)
Record relay : Type := mkRelay {
  session_map : UdpSessionMap;
  actions : list action;
  progress : option (result RustSocksError ());
}.
Definition relay_start : relay := mkRelay UdpSessionMap_new [] None.

Section relay.
Context {auth : AuthDeps} (client_addr : SocketAddr) (session_id : Z).

(** An error of one datagram is only traced. *)
Definition relay_packet (packet_data : list u8) (peer_addr : SocketAddr) (lookup : name_service)
    (sent : result ErrorKind Z) (s : relay) : option relay :=
  '(_, map, acts) ←
    (if decide (sa_ip peer_addr = sa_ip client_addr)
     then handle_client_packet lookup sent packet_data peer_addr session_id (session_map s)
     else Some (handle_destination_packet sent packet_data peer_addr session_id (session_map s)));
  Some (mkRelay map (actions s ++ acts) None).

Definition relay_step (ev : udp_event) (s : relay) : option relay :=
  match ev with
  | Received packet_data peer_addr lookup sent =>
    if (length packet_data =? 0)%nat then Some s
    else relay_packet packet_data peer_addr lookup sent s
  | SocketError e => Some (mkRelay (session_map s) (actions s) (Some (Err (Io e))))
  | IdleTimeout now =>
    Some (mkRelay (session_map s) (actions s ++ [AClose session_id now "UDP session timeout" Closed])
            (Some (Ok ())))
  | ShutdownSignal now =>
    Some (mkRelay (session_map s) (actions s ++ [AClose session_id now "Server shutdown" Closed])
            (Some (Ok ())))
  end.

(** The events after the loop has returned are not looked at. *)
Fixpoint run_udp_relay (events : list udp_event) (s : relay) : option relay :=
  match events, progress s with
  | ev :: events', None => s' ← relay_step ev s; run_udp_relay events' s'
  | _, _ => Some s
  end.

(** The task that [handle_udp_associate] spawns; [now] is when it closes the session of
    a relay that failed. *)
Definition relay_task (now : Z) (events : list udp_event) : option (list action) :=
  s ← run_udp_relay events relay_start;
  Some (actions s ++
    match progress s with
    | Some (Err e) =>
      [AClose session_id now ("UDP relay error: " +:+ RustSocksError_fmt e)%string Failed]
    | _ => []
    end).
End relay.
