(* ===== verification/UdpSpec.v ===== *)
(** * Properties of the UDP relay

    The relay against a specification that has no table: what it emits for a
    datagram is determined by the datagrams before it ([emits]).  Then the end of
    the relay and of its session, and what becomes of the traffic it reports, on
    the session manager of [Manager]. *)
From S2P Require Import Prelude Net Stream Protocol ProtocolSpec Acl AclEngine Session Manager.
From S2P Require Import ManagerSpec Auth Handler Udp.
From S2P Require AuthSpec.

(** ** The specification *)

Section routes.
Context (client_addr : SocketAddr) (id : Z).

(** [ev] is a datagram of [client], with [payload] for [dest]: well-formed, not a
    fragment, at least ten bytes long, and its destination resolves. *)
Inductive forwards : udp_event -> SocketAddr -> SocketAddr -> list u8 -> Prop :=
| forwards_intro buf client lookup sent a p payload dest others :
    sa_ip client = sa_ip client_addr ->
    (10 <= length buf)%nat -> wire_udp (mkUdpPacket (mkUdpHeader x00 a p) payload) buf ->
    resolve lookup a p = Ok (dest :: others) ->
    forwards (Received buf client lookup sent) client dest payload.

(** [client] is the last one that wrote to [dest]. *)
Inductive last_writer (dest client : SocketAddr) : list udp_event -> Prop :=
| last_writer_here es ev payload :
    forwards ev client dest payload -> last_writer dest client (es ++ [ev])
| last_writer_before es ev :
    last_writer dest client es -> (forall c payload, ~ forwards ev c dest payload) ->
    last_writer dest client (es ++ [ev]).

(** A datagram from elsewhere that answers [client]. *)
Inductive answers (es : list udp_event) : udp_event -> SocketAddr -> list u8 -> SocketAddr -> Prop :=
| answers_intro payload dest lookup sent client :
    sa_ip dest <> sa_ip client_addr -> payload <> [] -> last_writer dest client es ->
    answers es (Received payload dest lookup sent) dest payload client.

Definition outcome_of (ev : udp_event) : result ErrorKind Z :=
  match ev with Received _ _ _ sent => sent | _ => Ok 0 end.
Definition reported (r : result ErrorKind Z) (u : Z -> TrafficUpdate) : list action :=
  match r with Ok n => [AQueue (u n)] | Err _ => [] end.

(** The datagram that an answer of [payload] by [dest] becomes. *)
Definition enclosed (dest : SocketAddr) (payload : list u8) : UdpPacket :=
  mkUdpPacket (mkUdpHeader x00 (address_of_ip (sa_ip dest)) (sa_port dest)) payload.

Inductive emits (es : list udp_event) (ev : udp_event) : list action -> Prop :=
| emits_forward client dest payload :
    forwards ev client dest payload ->
    emits es ev (ASend dest payload ::
      reported (outcome_of ev) (fun n => mkTrafficUpdate id n 0 1 0))
| emits_answer client dest payload :
    answers es ev dest payload client ->
    emits es ev (ASend client (serialize_udp_packet (enclosed dest payload)) ::
      reported (outcome_of ev) (fun _ => mkTrafficUpdate id 0 (Z.of_nat (length payload)) 0 1))
| emits_nothing :
    (forall c d p, ~ forwards ev c d p) -> (forall d p c, ~ answers es ev d p c) -> emits es ev [].

Definition is_datagram (ev : udp_event) : Prop := match ev with Received _ _ _ _ => True | _ => False end.

(** ** The table and the datagrams before *)

Lemma forwards_ip ev c d p : forwards ev c d p -> sa_ip c = sa_ip client_addr.
Proof. by destruct 1. Qed.

Lemma forwards_det ev c d p c' d' p' :
  forwards ev c d p -> forwards ev c' d' p' -> c = c' /\ d = d' /\ p = p'.
Proof.
  destruct 1 as [buf client lookup sent a q payload dest others Hi Hl Hw Hr].
  inversion 1 as [? ? ? ? a' q' ? ? ? _ _ Hw' Hr']; subst.
  assert (Some (@Ok RustSocksError _ (mkUdpPacket (mkUdpHeader x00 a q) payload)) =
          Some (Ok (mkUdpPacket (mkUdpHeader x00 a' q') p'))) as Heq.
  { rewrite <- (proj2 (parse_udp_packet_Ok buf _) (conj Hl Hw)).
    by apply parse_udp_packet_Ok. }
  simplify_eq. rewrite Hr in Hr'. by simplify_eq.
Qed.

Lemma last_writer_nil d c : ~ last_writer d c [].
Proof. intros H. inversion H as [es ev p Hf Hn|es ev Hl Hf Hn]; by destruct es. Qed.

Lemma last_writer_snoc d c es ev :
  last_writer d c (es ++ [ev]) <->
  (exists p, forwards ev c d p) \/ (last_writer d c es /\ forall c' p, ~ forwards ev c' d p).
Proof.
  split.
  - inversion 1 as [es' ev' p Hf Hn|es' ev' Hl Hf Hn];
      apply app_inj_2 in Hn as [-> Hn]; try done; injection Hn as ->; eauto.
  - intros [[p Hf]|[Hl Hf]]; [by eapply last_writer_here|by apply last_writer_before].
Qed.

Definition tracks (es : list udp_event) (m : UdpSessionMap) : Prop :=
  forall d c, get_client d m = Some c <-> last_writer d c es.

Lemma tracks_forward es ev m c d p :
  tracks es m -> forwards ev c d p -> tracks (es ++ [ev]) (insert c d id m).
Proof.
  unfold tracks. intros Ht Hf d' c'. rewrite last_writer_snoc, <- Ht. unfold get_client, insert; cbn.
  destruct (decide (d = d')) as [<-|Hne].
  - rewrite lookup_insert_eq. split; [intros [= <-]; eauto|].
    intros [[p' Hf']|[_ Hno]]; [|by destruct (Hno c p)].
    by destruct (forwards_det _ _ _ _ _ _ _ Hf Hf') as (-> & _).
  - rewrite lookup_insert_ne by done. split.
    + intros Hl. right. split; [done|]. intros c'' p' Hf'.
      by destruct (forwards_det _ _ _ _ _ _ _ Hf Hf') as (_ & -> & _).
    + intros [[p' Hf']|[Hl _]]; [|done].
      by destruct (forwards_det _ _ _ _ _ _ _ Hf Hf') as (_ & -> & _).
Qed.

Lemma tracks_nothing es ev m :
  tracks es m -> (forall c d p, ~ forwards ev c d p) -> tracks (es ++ [ev]) m.
Proof.
  unfold tracks. intros Ht Hn d c. rewrite last_writer_snoc, <- Ht. split; [by eauto|].
  intros [[p Hf]|[Hl _]]; [by destruct (Hn c d p)|done].
Qed.

(** ** One datagram *)

Lemma forwards_iff buf client lookup sent c d payload :
  forwards (Received buf client lookup sent) c d payload <->
  c = client /\ sa_ip client = sa_ip client_addr /\
  exists packet others, parse_udp_packet buf = Some (Ok packet) /\ payload = data packet /\
    resolve lookup (uh_address (header packet)) (uh_port (header packet)) = Ok (d :: others).
Proof.
  split.
  - inversion 1 as [? ? ? ? a p ? ? others Hip Hl Hw Hr]; subst. split_and!; [done..|].
    eexists _, others. split_and!; [by apply parse_udp_packet_Ok|done..].
  - intros (-> & Hip & packet & others & Hp & -> & Hr). apply parse_udp_packet_Ok in Hp as [Hl Hw].
    pose proof Hw as Hw'. inversion Hw' as [r0 r1 a ba p q Ha Hu]; subst.
    by eapply forwards_intro.
Qed.

Lemma answers_ip es ev d p c : answers es ev d p c -> sa_ip d <> sa_ip client_addr.
Proof. by destruct 1. Qed.

Lemma client_packet_emits es buf client lookup sent m :
  tracks es m -> buf <> [] -> sa_ip client = sa_ip client_addr ->
  exists r m' acts, handle_client_packet lookup sent buf client id m = Some (r, m', acts) /\
    tracks (es ++ [Received buf client lookup sent]) m' /\
    emits es (Received buf client lookup sent) acts.
Proof.
  intros Ht Hb Hip. unfold handle_client_packet.
  destruct (parse_udp_packet_total buf) as [parsed Hp]. rewrite Hp. cbn [mbind option_bind].
  assert ((forall c d p, ~ forwards (Received buf client lookup sent) c d p) ->
    tracks (es ++ [Received buf client lookup sent]) m /\
    emits es (Received buf client lookup sent) []) as Hnone.
  { intros Hn. split; [by apply tracks_nothing|]. apply emits_nothing; [done|].
    intros d p c Ha. inversion Ha; subst. done. }
  destruct parsed as [packet|e].
  2: { eexists _, _, _. split; [done|]. apply Hnone. intros c d p.
       rewrite forwards_iff. intros (_ & _ & ? & ? & Hp' & _). congruence. }
  destruct (resolve lookup _ _) as [[|dest others]|e] eqn:Hr.
  2: { assert (forwards (Received buf client lookup sent) client dest (data packet)) as Hf.
       { apply forwards_iff. eauto 10. }
       pose proof (emits_forward es _ _ _ _ Hf) as He. pose proof (tracks_forward _ _ _ _ _ _ Ht Hf).
       destruct sent as [n|e]; by eexists _, _, _. }
  all: eexists _, _, _; split; [done|]; apply Hnone; intros c d p; rewrite forwards_iff;
    intros (_ & _ & ? & ? & Hp' & _ & Hr'); congruence.
Qed.

Lemma destination_packet_emits es buf dest lookup sent m :
  tracks es m -> buf <> [] -> sa_ip dest <> sa_ip client_addr ->
  exists r m' acts, handle_destination_packet sent buf dest id m = (r, m', acts) /\
    tracks (es ++ [Received buf dest lookup sent]) m' /\
    emits es (Received buf dest lookup sent) acts.
Proof.
  intros Ht Hb Hip. unfold handle_destination_packet.
  assert (forall c d p, ~ forwards (Received buf dest lookup sent) c d p) as Hn.
  { intros c d p Hf. pose proof Hf as Hf'. apply forwards_iff in Hf' as (-> & Hi & _). done. }
  destruct (get_client dest m) as [client|] eqn:Hc.
  - assert (answers es (Received buf dest lookup sent) dest buf client) as Ha
      by (constructor; [done..|by apply Ht]).
    pose proof (emits_answer es _ _ _ _ Ha) as He. pose proof (tracks_nothing _ _ _ Ht Hn).
    destruct sent as [n|e]; by eexists _, _, _.
  - eexists _, _, _. split; [done|]. split; [by apply tracks_nothing|].
    apply emits_nothing; [done|]. intros d p c Ha. inversion Ha as [? ? ? ? ? _ _ Hl]; subst.
    apply Ht in Hl. congruence.
Qed.

Lemma relay_step_emits es ev s :
  is_datagram ev -> progress s = None -> tracks es (session_map s) ->
  exists acts s', relay_step client_addr id ev s = Some s' /\ actions s' = actions s ++ acts /\
    progress s' = None /\ tracks (es ++ [ev]) (session_map s') /\ emits es ev acts.
Proof.
  intros Hd Hp Ht. destruct ev as [buf peer lookup sent| | |]; try done. cbn [relay_step].
  destruct (Nat.eqb_spec (length buf) 0) as [->%length_zero_iff_nil|Hb].
  - exists [], s. rewrite app_nil_r. split_and!; [done..| |].
    + apply tracks_nothing; [done|]. intros c d p Hf. inversion Hf; simpl in *; lia.
    + apply emits_nothing; [intros c d p Hf; inversion Hf; simpl in *; lia|].
      intros d p c Ha. inversion Ha; subst. done.
  - assert (buf <> []) as Hb' by (by intros ->). unfold relay_packet. case_decide as Hip.
    + destruct (client_packet_emits es buf peer lookup sent _ Ht Hb' Hip)
        as (r & m' & acts & -> & Ht' & He). cbn [mbind option_bind]. by eexists acts, _.
    + destruct (destination_packet_emits es buf peer lookup sent _ Ht Hb' Hip)
        as (r & m' & acts & -> & Ht' & He). cbn [mbind option_bind]. by eexists acts, _.
Qed.

(** The actions of a sequence of datagrams, one list for each of them. *)
Inductive emits_all : list udp_event -> list (list action) -> Prop :=
| emits_all_nil : emits_all [] []
| emits_all_snoc es ass ev acts :
    emits_all es ass -> emits es ev acts -> emits_all (es ++ [ev]) (ass ++ [acts]).

Lemma run_app es evs s :
  run_udp_relay client_addr id (es ++ evs) s =
  (s' ← run_udp_relay client_addr id es s; run_udp_relay client_addr id evs s').
Proof.
  revert s. induction es as [|e es IH]; intros s; cbn; [done|].
  destruct (progress s) eqn:E.
  - cbn. destruct evs; cbn; by rewrite ?E.
  - destruct (relay_step client_addr id e s) as [t|]; [apply IH|done].
Qed.

Lemma run_one ev s :
  progress s = None -> run_udp_relay client_addr id [ev] s = relay_step client_addr id ev s.
Proof.
  intros E. cbn. rewrite E. destruct (relay_step client_addr id ev s) as [t|]; [|done].
  cbn. by destruct (progress t).
Qed.

Lemma run_datagrams es :
  Forall is_datagram es ->
  exists s ass, run_udp_relay client_addr id es relay_start = Some s /\ progress s = None /\
    actions s = concat ass /\ emits_all es ass /\ tracks es (session_map s).
Proof.
  induction es as [|ev es IH] using rev_ind; intros Hd.
  - exists relay_start, []. split_and!; [done..|constructor|].
    intros d c. split; [done|]. by intros ?%last_writer_nil.
  - apply Forall_app in Hd as [Hd [Hev _]%Forall_cons].
    destruct (IH Hd) as (s & ass & Hr & Hp & Ha & He & Ht).
    destruct (relay_step_emits es ev s Hev Hp Ht) as (acts & s' & Hs & Ha' & Hp' & Ht' & He').
    exists s', (ass ++ [acts]). rewrite run_app, Hr. cbn [mbind option_bind]. rewrite (run_one _ _ Hp), Hs.
    split_and!; [done..| |by constructor|done].
    by rewrite Ha', Ha, concat_app; cbn; rewrite app_nil_r.
Qed.
End routes.

(** ** The relay *)

(** C17: what the relay sends and reports is, datagram by datagram, what the
    specification without a table says ([emits]): a well-formed, unfragmented
    datagram from the address of the client that opened the association is sent,
    payload only, to the first resolved address of its destination; a datagram
    from another address is enclosed, with its sender, and sent to the client
    port that wrote last to that sender, and dropped when none has; everything
    else is dropped.  The bytes sent and received are reported for the session.
    No datagram ends the relay or makes it panic. *)
Theorem udp_relay_refines client_addr id es :
  Forall is_datagram es ->
  exists s ass, run_udp_relay client_addr id es relay_start = Some s /\
    progress s = None /\ actions s = concat ass /\ emits_all client_addr id es ass.
Proof.
  intros Hd. destruct (run_datagrams client_addr id es Hd) as (s & ass & Hr & Hp & Ha & He & _).
  by exists s, ass.
Qed.

(** What the client receives for an answer is read back to its sender and its
    payload by the parser of the protocol. *)
Theorem udp_answer_readable dest payload :
  wf_ip (sa_ip dest) -> is_u16 (sa_port dest) ->
  parse_udp_packet (serialize_udp_packet (enclosed dest payload)) = Some (Ok (enclosed dest payload)).
Proof.
  intros Hip Hp. apply parse_udp_packet_Ok.
  assert (wf_address (address_of_ip (sa_ip dest)) /\ short_address (address_of_ip (sa_ip dest)))
    as [Hw Hs] by (by destruct (sa_ip dest)).
  split; [|by apply serialize_udp_wire].
  unfold serialize_udp_packet, enclosed, address_of_ip; cbn.
  destruct (sa_ip dest) as [o|o]; cbn in *; rewrite ?length_app; cbn; lia.
Qed.

(** When, why and how a relay closes its session. *)
Definition ending (now : Z) `{AuthDeps} (ev : udp_event) : Z * string * SessionStatus :=
  match ev with
  | IdleTimeout t => (t, "UDP session timeout", Closed)
  | ShutdownSignal t => (t, "Server shutdown", Closed)
  | SocketError e => (now, "UDP relay error: " +:+ RustSocksError_fmt (Io e), Failed)
  | Received _ _ _ _ => (now, "", Active)
  end%string.

(** ** The relay and the session manager *)

Section manager.
Context {auth : AuthDeps} {acl : AclDeps} {sort : UnstableSort rule_leb} {order : IterOrder}.
Context {T : Type} {sink : SessionSink T}.

(** The calls of the manager among the actions of the relay. *)
Definition manager_ops (acts : list action) : list op :=
  omap (fun a => match a with
                 | ASend _ _ => None
                 | AQueue u => Some (OQueue u)
                 | AClose id now reason st => Some (OClose id now (Some reason) st)
                 end) acts.
Definition exec_all (os : list op) (m : SessionManager T) : SessionManager T :=
  fold_left (fun m o => exec o m) os m.

Definition no_close (a : action) : Prop := match a with AClose _ _ _ _ => False | _ => True end.

Lemma reported_no_close r u : Forall no_close (reported r u).
Proof. destruct r; repeat constructor. Qed.

Lemma emits_all_no_close client_addr id es ass :
  emits_all client_addr id es ass -> Forall no_close (concat ass).
Proof.
  induction 1 as [|es ass ev acts _ IH He]; [constructor|].
  rewrite concat_app. apply Forall_app. split; [done|]. cbn. rewrite app_nil_r.
  destruct He; [constructor; [done|apply reported_no_close]..|constructor].
Qed.

Lemma exec_queue acts m :
  Forall no_close acts ->
  exists rx, exec_all (manager_ops acts) m = set_worker rx (worker_sessions m) (worker_writer m) m.
Proof.
  revert m. induction acts as [|a acts IH]; intros m Hn; [exists (traffic_rx m); by destruct m|].
  apply Forall_cons in Hn as [Ha Hn]. destruct a as [to bytes|u|id now reason st]; [by apply IH| |done].
  destruct (IH (queue_traffic_update u m) Hn) as [rx Hrx]. by exists rx.
Qed.

Lemma relay_task_ends client_addr id now es ev rest :
  Forall is_datagram es -> ~ is_datagram ev ->
  exists ass, relay_task client_addr id now (es ++ ev :: rest) =
    Some (concat ass ++ let '(t, reason, st) := ending now ev in [AClose id t reason st]) /\
    emits_all client_addr id es ass.
Proof.
  intros Hd He. destruct (run_datagrams client_addr id es Hd) as (s & ass & Hr & Hp & Ha & Hem & _).
  exists ass. split; [|done]. unfold relay_task.
  rewrite run_app, Hr. cbn [mbind option_bind]. rewrite <- Ha.
  destruct ev; [done|..]; cbn; rewrite Hp; cbn; destruct rest; cbn; by rewrite ?app_nil_r.
Qed.

Lemma manager_ops_app acts acts' : manager_ops (acts ++ acts') = manager_ops acts ++ manager_ops acts'.
Proof. apply omap_app. Qed.

(** A relay that times out, is told to stop or loses its socket closes its
    session, at that instant, with the reason and the status that say which of
    the three it was, whatever came before and whatever would have come after:
    the session leaves the active ones with its control and is kept as closed.
    Nothing else about the sessions changes. *)
Theorem udp_relay_closes client_addr id now es ev rest (m : SessionManager T) s :
  Forall is_datagram es -> ~ is_datagram ev -> active_sessions m !! id = Some s ->
  exists acts, relay_task client_addr id now (es ++ ev :: rest) = Some acts /\
    let m' := exec_all (manager_ops acts) m in
    let '(t, reason, st) := ending now ev in
    active_sessions m' = delete id (active_sessions m) /\
    session_controls m' = delete id (session_controls m) /\
    closed_sessions m' = closed_sessions m ++ [close t (Some reason) st s] /\
    rejected_sessions m' = rejected_sessions m.
Proof.
  intros Hd He Hs. destruct (relay_task_ends client_addr id now es ev rest Hd He) as (ass & Ht & Hem).
  eexists. split; [exact Ht|]. cbv zeta. destruct (ending now ev) as [[t reason] st].
  rewrite manager_ops_app. unfold exec_all. rewrite fold_left_app.
  destruct (exec_queue (concat ass) m) as [rx Hrx]; [by eapply emits_all_no_close|].
  unfold exec_all in Hrx. rewrite Hrx. cbn. unfold close_session; cbn. by rewrite Hs.
Qed.

(** The operations that report traffic of a session. *)
Definition reports (id : Z) (o : op) : Prop :=
  match o with OTraffic u | OQueue u => tu_session_id u = id | _ => False end.

Lemma manager_ops_direct acts u : OTraffic u ∉ manager_ops acts.
Proof.
  unfold manager_ops. intros (a & _ & Ha)%list_elem_of_omap. by destruct a.
Qed.

Lemma applied_nil id m os :
  (forall u, OTraffic u ∈ os -> tu_session_id u <> id) -> applied id m os = [].
Proof.
  revert m. induction os as [|o os IH]; intros m Hn; [done|]. cbn.
  rewrite IH by (intros u Hu; apply Hn; by right). rewrite app_nil_r.
  destruct o as [|u| | | | | | | | |]; cbn; try done.
  rewrite decide_False; [done|]. intros [Hid _]. by apply (Hn u); [left|].
Qed.

(** C39: no traffic of a UDP association is ever recorded.  When all that is
    reported for a session comes from its relay, in whatever order with the
    operations of everybody else, its four counters are zero for ever, whatever
    the relay carried: the updates go to the worker's own copy of the table. *)
Theorem udp_traffic_never_recorded client_addr id now es acts m0 os (m : SessionManager T) s :
  relay_task client_addr id now es = Some acts ->
  initial m0 -> runs allowed_op m0 os m ->
  (forall o, o ∈ os -> reports id o -> o ∈ manager_ops acts) ->
  current m id = Some s ->
  bytes_sent s = 0 /\ bytes_received s = 0 /\ packets_sent s = 0 /\ packets_received s = 0.
Proof.
  intros _ Hi Hr Ho Hs. pose proof (accounted_runs _ _ _ id Hi Hr) as Ha.
  rewrite Hs, applied_nil in Ha; [by destruct Ha as (-> & -> & -> & ->)|].
  intros u Hu Hid. by apply (manager_ops_direct acts u), Ho.
Qed.
End manager.

(** ** An association *)

Definition demo_client : SocketAddr := mkSocketAddr (V4 [x0a; x00; x00; x02]) 4000.
Definition demo_server : SocketAddr := mkSocketAddr (V4 [x08; x08; x08; x08]) 53.
Definition no_names : name_service := fun _ _ => Err OtherKind.
Definition demo_question : udp_event :=
  Received [x00; x00; x00; x01; x08; x08; x08; x08; x00; x35; x61; x62; x63] demo_client no_names (Ok 3).
Definition demo_events : list udp_event :=
  [demo_question; Received [x64; x65] demo_server no_names (Ok 12)].

Lemma demo_datagrams : Forall is_datagram demo_events.
Proof. by repeat constructor. Qed.

#[local] Existing Instance mem_sink.
#[local] Existing Instance map_order.
#[local] Existing Instance AclSpec.stable_unstable_sort.
#[local] Existing Instance Wildcard.demo_deps.
#[local] Existing Instance AuthSpec.demo_auth_deps.

Lemma udp_relay_refines_witness :
  exists s, run_udp_relay demo_client 2 demo_events relay_start = Some s /\
    actions s =
      [ASend demo_server [x61; x62; x63]; AQueue (mkTrafficUpdate 2 3 0 1 0);
       ASend demo_client [x00; x00; x00; x01; x08; x08; x08; x08; x00; x35; x64; x65];
       AQueue (mkTrafficUpdate 2 0 2 0 1)].
Proof.
  destruct (udp_relay_refines demo_client 2 demo_events demo_datagrams) as (s & ass & Hr & _).
  exists s. split; [exact Hr|]. apply (f_equal (fmap actions)) in Hr. injection Hr as <-.
  vm_compute. reflexivity.
Defined.

Definition udp_manager : SessionManager (list Session) := with_store [] BatchConfig_default SessionMetrics_init.
Definition udp_open : op :=
  ONew 2 12 (6 * 10 ^ 9) "alice" (mkConnectionInfo (sa_ip demo_client) 4000 "0.0.0.0" 0 Udp) "allow" None
    (Some 77).
Definition udp_actions : list action :=
  [ASend demo_server [x61; x62; x63]; AQueue (mkTrafficUpdate 2 3 0 1 0);
   ASend demo_client [x00; x00; x00; x01; x08; x08; x08; x08; x00; x35; x64; x65];
   AQueue (mkTrafficUpdate 2 0 2 0 1); AClose 2 (130 * 10 ^ 9) "UDP session timeout" Closed].
Definition udp_ops : list op :=
  [udp_open; OQueue (mkTrafficUpdate 2 3 0 1 0); OWorker; OQueue (mkTrafficUpdate 2 0 2 0 1);
   OClose 2 (130 * 10 ^ 9) (Some "UDP session timeout"%string) Closed; OWorker].

Lemma udp_relay_closes_witness :
  let m := exec udp_open udp_manager in
  exists acts, relay_task demo_client 2 0 (demo_events ++ [IdleTimeout (130 * 10 ^ 9)]) = Some acts /\
    active_sessions (exec_all (manager_ops acts) m) = delete 2 (active_sessions m) /\
    length (closed_sessions (exec_all (manager_ops acts) m)) = 1%nat.
Proof.
  intros m.
  assert (exists s, active_sessions m !! 2 = Some s) as [s Hs] by (eexists; vm_compute; reflexivity).
  destruct (udp_relay_closes demo_client 2 0 demo_events (IdleTimeout (130 * 10 ^ 9)) [] m s
    demo_datagrams (fun H => H) Hs) as (acts & Ht & Ha & _ & Hc & _).
  exists acts. split; [exact Ht|]. split; [exact Ha|]. rewrite Hc. reflexivity.
Defined.

Definition udp_after : SessionManager (list Session) :=
  fold_left (fun m o => exec o m) udp_ops udp_manager.

Lemma udp_runs : runs allowed_op udp_manager udp_ops udp_after.
Proof.
  apply (runs_impl saving_op); [by intros o m []|].
  unfold udp_after, udp_ops, udp_open. do 6 (apply runs_cons; [saving_step|]). cbn [fold_left]. apply runs_nil.
Qed.

Lemma udp_traffic_never_recorded_witness :
  relay_task demo_client 2 0 (demo_events ++ [IdleTimeout (130 * 10 ^ 9)]) = Some udp_actions /\
  exists s, current udp_after 2 = Some s /\
    status s = Closed /\ bytes_sent s = 0.
Proof.
  assert (Ht : relay_task demo_client 2 0 (demo_events ++ [IdleTimeout (130 * 10 ^ 9)]) =
    Some udp_actions) by (vm_compute; reflexivity).
  split; [exact Ht|].
  destruct (current udp_after 2) as [s|] eqn:E;
    [|vm_compute in E; discriminate E].
  exists s. split; [reflexivity|].
  split; [apply (f_equal (fmap status)) in E; vm_compute in E; by injection E|].
  apply (udp_traffic_never_recorded demo_client 2 0 _ udp_actions udp_manager udp_ops udp_after s Ht);
    [constructor|exact udp_runs| |exact E].
  intros o Ho Hr. unfold udp_ops in Ho. rewrite !elem_of_cons in Ho.
  change (manager_ops udp_actions) with
    [@OQueue _ mem_sink Wildcard.demo_deps (mkTrafficUpdate 2 3 0 1 0); OQueue (mkTrafficUpdate 2 0 2 0 1);
     OClose 2 (130 * 10 ^ 9) (Some "UDP session timeout"%string) Closed].
  destruct Ho as [->|[->|[->|[->|[->|[->|Ho]]]]]]; try by destruct Hr.
  - left.
  - right. left.
  - by apply not_elem_of_nil in Ho.
Defined.
