(* ===== verification/Server.v ===== *)
(** * The server as a whole

    The calls of a connection handler answered by the components themselves: the
    client's stream by the parsers and serializers of [Protocol.v] and the
    authentication of [Auth.v], the rest by the engine of the rules, its counters,
    the engine of the bandwidth, the session manager, the connection pool and the
    relay.  This is how [handle_client] of src/src/server/handler.rs runs when no
    other connection interferes.  What the network, the clock and the random
    generator answer is an [environment]. *)
From S2P Require Import Prelude Net Stream Protocol Acl AclEngine Qos Session Manager Auth Proxy.
From S2P Require Import Handler.
From S2P Require Pool.

(** The [n]-th call is made at [env_clock n] and takes its new identifiers from
    [env_fresh n]; [env_buffered] is how much more than the request the buffered
    reader had taken from the socket. *)
Record environment : Type := mkEnvironment {
  env_clock : nat -> Z;
  env_fresh : nat -> Z;
  env_buffered : nat;
  env_lookup : string -> Z -> result ErrorKind (list SocketAddr);
  env_connect : SocketAddr -> result ErrorKind Z;
  env_local_addr : Pool.TcpStream -> result ErrorKind SocketAddr;
  env_order : list SocketAddr;
  env_relay : list proxy_event;
  env_listen : result ErrorKind SocketAddr;
  env_accept : accepted;
  env_udp_bind : result ErrorKind SocketAddr;
  env_control : control;
}.

Section server.
Context `{AuthDeps} `{AclDeps} `{!UnstableSort rule_leb} {T : Type} `{!SessionSink T}.
Context (ctx : ClientHandlerContext) (acl_engine : AclEngine) (limits : ConnectionLimits)
  (traffic : TrafficUpdateConfig) (env : environment).

Record server : Type := mkServer {
  sv_calls : nat;
  sv_client : stream;
  sv_qos : QosState;
  sv_acl_stats : AclStats;
  sv_manager : SessionManager T;
  sv_pool : Pool.ConnectionPool;
  sv_relays : list (SocketAddr * Z * Z); (* client, session and shutdown channel *)
  sv_shutdowns : list Z;
}.

Definition set_client (x : stream) (s : server) : server :=
  mkServer (sv_calls s) x (sv_qos s) (sv_acl_stats s) (sv_manager s) (sv_pool s) (sv_relays s)
    (sv_shutdowns s).
Definition set_qos (x : QosState) (s : server) : server :=
  mkServer (sv_calls s) (sv_client s) x (sv_acl_stats s) (sv_manager s) (sv_pool s) (sv_relays s)
    (sv_shutdowns s).
Definition set_acl_stats (x : AclStats) (s : server) : server :=
  mkServer (sv_calls s) (sv_client s) (sv_qos s) x (sv_manager s) (sv_pool s) (sv_relays s)
    (sv_shutdowns s).
Definition set_manager (x : SessionManager T) (s : server) : server :=
  mkServer (sv_calls s) (sv_client s) (sv_qos s) (sv_acl_stats s) x (sv_pool s) (sv_relays s)
    (sv_shutdowns s).
Definition set_pool (x : Pool.ConnectionPool) (s : server) : server :=
  mkServer (sv_calls s) (sv_client s) (sv_qos s) (sv_acl_stats s) (sv_manager s) x (sv_relays s)
    (sv_shutdowns s).
Definition tick (s : server) : server :=
  mkServer (S (sv_calls s)) (sv_client s) (sv_qos s) (sv_acl_stats s) (sv_manager s) (sv_pool s)
    (sv_relays s) (sv_shutdowns s).
Definition now (s : server) : Z := env_clock env (sv_calls s).
Definition fresh (s : server) : Z := env_fresh env (sv_calls s).

(** What is read from and written to the client. *)
Definition client_io {A} (op : client_op A) : io A :=
  match op with
  | KVersion => read_u8
  | KGreeting version => parse_socks5_client_greeting version
  | KChoice method => send_server_choice method
  | KAuth method ip => authenticate (auth_manager ctx) method ip
  | KRequest5 => parse_socks5_request
  | KRequest4 => parse_socks4_request
  | KReply protocol reply addr port => send_socks_response protocol reply addr port
  | KBindReply reply addr => send_bind_response reply addr
  end.

(** The bytes that the buffered reader holds are lost with it. *)
Definition into_inner (s : stream) : stream :=
  mkStream (drop (env_buffered env) (inp s)) (inp_end s) (outp s) (sched s).

Definition relay (upstream : Pool.TcpStream) (id token : Z) (user : string) (s : server)
    : option (result RustSocksError (option (Pool.TcpStream * Pool.ReuseHint)) * server) :=
  let p := proxy_run (packet_interval traffic) id token user (env_relay env)
             (proxy_start (mkShared (sv_manager s) (qs_engine (sv_qos s)))) in
  r ← proxy_result upstream p;
  Some (r, set_manager (sh_manager (world p))
             (set_qos (mkQosState (sh_qos (world p)) (active_qos_users (sv_qos s))) s)).

(** The answer to a call, [None] when it never returns. *)
Definition answer {X} (c : call X) (s : server) : option (X * server) :=
  match c in call X return option (X * server) with
  | CClient op => let '(r, st) := client_io op (sv_client s) in Some (r, set_client st s)
  | CIntoInner => Some (tt, set_client (into_inner (sv_client s)) s)
  | CQosInc user =>
    let '(r, q) := check_and_inc_connection (now s) user limits (sv_qos s) in Some (r, set_qos q s)
  | CQosDec user => Some (tt, set_qos (dec_user_connection user (sv_qos s)) s)
  | CQosDrop =>
    let q := sv_qos s in
    Some (tt, set_qos (mkQosState (QosEngine_drop (qs_engine q)) (active_qos_users q)) s)
  | CEvaluate user groups dest port protocol =>
    Some (evaluate_with_groups acl_engine user groups dest port protocol, s)
  | CRecordBlock user => Some (tt, set_acl_stats (record_block user (sv_acl_stats s)) s)
  | CRecordAllow user => Some (tt, set_acl_stats (record_allow user (sv_acl_stats s)) s)
  | CRejected user conn rule =>
    let '(_, m) := track_rejected_session (fresh s) (now s) (now s) user conn rule (sv_manager s) in
    Some (tt, set_manager m s)
  | CNewSession user conn decision rule udp =>
    let '(st, m) := new_session_with_control (fresh s) (fresh s) (now s) user conn decision rule udp
                      (sv_manager s) in
    Some (st, set_manager m s)
  | CCloseSession id reason status =>
    Some (tt, set_manager (close_session id (now s) (Some reason) status (sv_manager s)) s)
  | CLookup domain port => Some (env_lookup env domain port, s)
  | CPoolGet addr =>
    let '(r, p) := Pool.get (now s) (now s) (env_connect env addr) addr (sv_pool s) in
    Some (r, set_pool p s)
  | CPoolPut addr stream hint =>
    Some (tt, set_pool (Pool.put (now s) (now s) (env_order env) addr stream hint (sv_pool s)) s)
  | CPoolRelease addr hint => Some (tt, set_pool (Pool.release addr hint (sv_pool s)) s)
  | CLocalAddr stream => Some (env_local_addr env stream, s)
  | CProxy stream id token user => relay stream id token user s
  | CListen => Some (env_listen env, s)
  | CAccept => Some (env_accept env, s)
  | CUdpChannel => Some (fresh s, s)
  | CUdpBind => Some (env_udp_bind env, s)
  | CSpawnRelay client id channel =>
    Some (tt, mkServer (sv_calls s) (sv_client s) (sv_qos s) (sv_acl_stats s) (sv_manager s)
                (sv_pool s) (sv_relays s ++ [(client, id, channel)]) (sv_shutdowns s))
  | CControl token => Some (env_control env, s)
  | CUdpShutdown channel =>
    Some (tt, mkServer (sv_calls s) (sv_client s) (sv_qos s) (sv_acl_stats s) (sv_manager s)
                (sv_pool s) (sv_relays s) (sv_shutdowns s ++ [channel]))
  end.

(** The result, [None] when a call never returns, and the last state. *)
Fixpoint run {R} (p : prog R) (s : server) : option R * server :=
  match p with
  | Ret r => (Some r, s)
  | Call c k =>
    match answer c s with
    | Some (x, s') => run (k x) (tick s')
    | None => (None, s)
    end
  end.

(** A connection of a client. *)
Definition serve (client_addr : SocketAddr) (s : server) : option (result RustSocksError ()) * server :=
  run (handle_client ctx client_addr) s.
End server.
Arguments server T : clear implicits.
