(* ===== verification/ServerSpec.v ===== *)
(** * The server as a whole: theorems

    A run of the server is an execution of its handler, and what two kinds of
    connections do from the first byte of the client to the last: one that the
    rules refuse and one that is connected, relayed and closed. *)
From S2P Require Import Prelude Net Stream Protocol ProtocolSpec Acl AclEngine Qos Session.
From S2P Require Import Manager Auth Proxy Handler HandlerSpec Server.
From S2P Require Pool Wildcard AclSpec AuthSpec ManagerSpec.

(** ** Slots *)

Definition counts_u64 (e : QosEngine) : Prop :=
  match e with
  | QosNone => True
  | QosHtb h => is_u64 (total_connections h) /\ forall u, is_u64 (get_user_connections u h)
  end.
Definition same_counts (e e' : QosEngine) : Prop :=
  qos_get_total_connections e' = qos_get_total_connections e /\
  forall u, qos_get_user_connections u e' = qos_get_user_connections u e.

Lemma inc_dec_64 n : is_u64 n -> wsub64 (wadd64 n 1) 1 = n.
Proof.
  intros Hn. unfold wadd64. rewrite wsub64_wrap. replace (n + 1 - 1) with n by lia. by apply wrap64_id.
Qed.

(** The counter of a user, when there is one. *)
Definition conns (u : string) (h : HtbQos) : option Z := active_connections <$> user_buckets h !! u.

Lemma get_conns u h : get_user_connections u h = default 0 (conns u h).
Proof. unfold get_user_connections, conns. by destruct (user_buckets h !! u). Qed.

(** No connection of any user was counted or discounted. *)
Definition counts_kept (e e' : QosEngine) : Prop :=
  match e, e' with
  | QosNone, QosNone => True
  | QosHtb h, QosHtb h' =>
    total_connections h' = total_connections h /\
    forall u, conns u h' = conns u h \/ (conns u h = None /\ conns u h' = Some 0)
  | _, _ => False
  end.

#[export] Instance counts_kept_preorder : PreOrder counts_kept.
Proof.
  split.
  - intros [|h]; cbn; eauto.
  - intros [|h1] [|h2] [|h3]; cbn; try done. intros [Ht1 Hu1] [Ht2 Hu2]. split; [congruence|].
    intros u. destruct (Hu1 u) as [E1|[E1 E1']], (Hu2 u) as [E2|[E2 E2']]; intuition congruence.
Qed.

Lemma conns_set_user u v b h :
  conns u (set_user v b h) = if decide (u = v) then Some (active_connections b) else conns u h.
Proof.
  unfold conns, set_user; cbn. case_decide; subst; [by rewrite lookup_insert_eq|].
  by rewrite lookup_insert_ne.
Qed.

Lemma get_or_create_conns now user h b h' :
  get_or_create_user_bucket now user h = (b, h') ->
  total_connections h' = total_connections h /\
  active_connections b = default 0 (conns user h) /\
  forall u, conns u h' = if decide (u = user) then Some (active_connections b) else conns u h.
Proof.
  unfold get_or_create_user_bucket. destruct (user_buckets h !! user) as [b0|] eqn:E.
  - intros Hr. injection Hr as <- <-. unfold conns. rewrite E. cbn. split_and!; try done.
    intros u. case_decide; subst; by rewrite ?E.
  - intros Hr. injection Hr as <- <-. unfold conns at 1. rewrite E. cbn. split_and!; try done.
    intros u. apply conns_set_user.
Qed.

(** Asking for bandwidth does not change the counters. *)
Lemma allocate_counts t user bytes h :
  counts_kept (QosHtb h) (QosHtb (Qos.allocate_bandwidth t user bytes h).2).
Proof.
  unfold Qos.allocate_bandwidth.
  destruct (TokenBucket.try_consume (at_global t) bytes (global_bucket h)) as [r gb].
  set (sg := match r with Ok _ => _ | Err _ => _ end). destruct sg as [[served|] gb']; [|split; [done|by left]].
  destruct (get_or_create_user_bucket (at_create t) user (set_global gb' h)) as [b h'] eqn:Hb.
  apply get_or_create_conns in Hb as (Ht & Hc & Hu).
  assert (Hk : forall b', active_connections b' = active_connections b ->
                 counts_kept (QosHtb h) (QosHtb (set_user user b' h'))).
  { intros b' Hb'. split; [done|]. intros u. rewrite conns_set_user, Hu, Hb', Hc.
    change (conns u (set_global gb' h)) with (conns u h).
    change (conns user (set_global gb' h)) with (conns user h).
    case_decide; subst; [|by left]. destruct (conns user h); cbn; auto. }
  repeat case_match; simplify_eq; by apply Hk.
Qed.

Lemma engine_allocate_counts t user bytes e : counts_kept e (engine_allocate t user bytes e).2.
Proof.
  destruct e as [|h]; cbn; [done|]. pose proof (allocate_counts t user bytes h) as Hk.
  by destruct (Qos.allocate_bandwidth t user bytes h) as [[] h'].
Qed.

(** A slot that is taken and given back leaves the counters as they were. *)
Lemma slot_roundtrip now user limits q k q1 q2 :
  counts_u64 (qs_engine q) -> check_and_inc_connection now user limits q = (Ok k, q1) ->
  counts_kept (qs_engine q1) (qs_engine q2) ->
  same_counts (qs_engine q) (QosEngine_drop (qs_engine (dec_user_connection user q2))).
Proof.
  intros Hc. unfold check_and_inc_connection. destruct (qs_engine q) as [|h] eqn:Eq.
  { intros Hr. injection Hr as _ <-. rewrite Eq. unfold dec_user_connection.
    destruct (qs_engine q2) eqn:E2; [|done]. cbn. by rewrite E2. }
  intros Hr. destruct (_ <=? _); [discriminate Hr|]. destruct (_ <=? _); [discriminate Hr|].
  unfold inc_user_connections in Hr.
  destruct (get_or_create_user_bucket now user h) as [b h1] eqn:Hb. cbn in Hr. injection Hr as _ <-.
  apply get_or_create_conns in Hb as (Ht & Hac & Hu). cbn.
  destruct q2 as [[|h2] g]; cbn; [done|]. intros [Ht2 Hu2].
  change (total_connections (set_total _ _)) with (wadd64 (total_connections h1) 1) in Ht2.
  assert (Hb2 : forall u, conns u h2 = if decide (u = user)
                  then Some (wadd64 (get_user_connections user h) 1) else conns u h2).
  { intros u. case_decide as Hd; [subst|done]. rewrite get_conns, <- Hac.
    destruct (Hu2 user) as [E|[E _]]; rewrite ?E; revert E;
      change (conns user (set_total ?n ?h)) with (conns user h); rewrite conns_set_user, decide_True; done. }
  assert (Ho2 : forall u, u <> user -> get_user_connections u h2 = get_user_connections u h).
  { intros u Hne. rewrite !get_conns. destruct (Hu2 u) as [E|[E E']]; rewrite ?E, ?E'; revert E;
      change (conns u (set_total ?n ?h)) with (conns u h);
      rewrite conns_set_user, decide_False, Hu, decide_False by done; [done|by intros ->]. }
  pose proof (Hb2 user) as Hb2u. rewrite decide_True in Hb2u by done. unfold conns in Hb2u.
  unfold dec_user_connections. destruct (user_buckets h2 !! user) as [b2|]; [|done].
  cbn in Hb2u. injection Hb2u as Hb2u. cbn. destruct Hc as [Hct Hcu].
  split; [cbn; unfold get_total_connections; rewrite Ht2, Ht; by apply inc_dec_64|].
  intros u. cbn. rewrite get_conns. unfold conns; cbn.
  destruct (decide (u = user)) as [->|Hne].
  - rewrite lookup_insert_eq. cbn. rewrite Hb2u. by apply inc_dec_64.
  - rewrite lookup_insert_ne by done. specialize (Ho2 u Hne). rewrite get_conns in Ho2. exact Ho2.
Qed.

(** ** What a relay leaves alone *)

Section relay.
Context {T : Type} `{!SessionSink T} (interval session token : Z) (usr : string).

(** Everything about a session but its traffic. *)
Definition identity (x : Session) :=
  (session_id x, Session.user x, start_time x, dest_ip x, Session.dest_port x, protocol x,
   Session.status x, acl_rule_matched x, acl_decision x).

Record relay_kept (w w' : shared T) : Prop := mkRelayKept {
  rk_closed : closed_sessions (sh_manager w') = closed_sessions (sh_manager w);
  rk_rejected : rejected_sessions (sh_manager w') = rejected_sessions (sh_manager w);
  rk_others : delete session (active_sessions (sh_manager w')) =
              delete session (active_sessions (sh_manager w));
  rk_session : identity <$> active_sessions (sh_manager w') !! session =
               identity <$> active_sessions (sh_manager w) !! session;
  rk_counts : counts_kept (sh_qos w) (sh_qos w');
}.

#[export] Instance relay_kept_preorder : PreOrder relay_kept.
Proof.
  split; [by constructor|]. intros w1 w2 w3 [] []. constructor; try congruence. by etrans.
Qed.

Lemma kept_update dn b n w :
  relay_kept w (mkShared (update_traffic (traffic_of session dn b n) (sh_manager w)) (sh_qos w)).
Proof.
  unfold update_traffic, apply_traffic_update.
  assert (Hid : tu_session_id (traffic_of session dn b n) = session) by by destruct dn.
  rewrite Hid. destruct (active_sessions (sh_manager w) !! session) as [x|] eqn:E; [|by constructor].
  constructor; cbn; try done; [by rewrite delete_insert_eq|by rewrite lookup_insert_eq, E].
Qed.

Lemma kept_flush dn v w : relay_kept w (flush_pending_now session dn v w).2.
Proof. unfold flush_pending_now. destruct (pending_p v =? 0); [done|apply kept_update]. Qed.

Lemma kept_finish dn c d v w : relay_kept w (finish session token dn c d v w).2.
Proof.
  unfold finish. pose proof (kept_flush dn v w) as Hk.
  destruct (flush_pending_now _ _ _ _) as [[v' us] w']. etrans; [exact Hk|]. by constructor.
Qed.
Lemma kept_fail dn e v w : relay_kept w (fail session dn e v w).2.
Proof.
  unfold fail. pose proof (kept_flush dn v w) as Hk.
  by destruct (flush_pending_now _ _ _ _) as [[v' us] w'].
Qed.
#[local] Hint Resolve kept_finish kept_fail kept_flush : core.

Lemma kept_round dn r v w : relay_kept w (task_round interval session token usr dn r v w).2.
Proof.
  unfold task_round. destruct (r_selected r) as [|[|b0 chunk]|e]; [done|done| |].
  2: { by destruct (is_connection_closed_error e). }
  set (n := Z.of_nat _). pose proof (engine_allocate_counts (r_clock r) usr n (sh_qos w)) as Hq.
  destruct (engine_allocate _ _ _ _) as [granted qos].
  set (w1 := mkShared _ _). assert (Hw1 : relay_kept w w1) by by constructor.
  destruct (negb granted); [done|]. destruct (r_write r) as [[k e]|]; cbv zeta.
  - destruct (is_connection_closed_error e); etrans; [exact Hw1|done|exact Hw1|done].
  - destruct (interval <=? _); [|done]. unfold enqueue_pending_update.
    set (v1 := mkTaskVars _ _ _ _ _). pose proof (kept_flush dn v1 w1) as Hk.
    destruct (flush_pending_now _ _ _ _) as [[v' us] w']. by etrans.
Qed.

Lemma kept_run evs p :
  relay_kept (world p) (world (proxy_run interval session token usr evs p)).
Proof.
  revert p. induction evs as [|[dn r] evs IH]; intros p; [done|].
  etrans; [|apply IH]. unfold proxy_step.
  destruct dn; [destruct (up p) as [v| |]|destruct (down p) as [v| |]]; try done.
  - pose proof (kept_round Upload r v (world p)) as Hk.
    by destruct (task_round _ _ _ _ Upload r v (world p)) as [[t us] w'].
  - pose proof (kept_round Download r v (world p)) as Hk.
    by destruct (task_round _ _ _ _ Download r v (world p)) as [[t us] w'].
Qed.
End relay.

Section runs.
Context `{AuthDeps} `{AclDeps} `{!UnstableSort rule_leb} {T : Type} `{!SessionSink T}.
Context (ctx : ClientHandlerContext) (acl_engine : AclEngine) (limits : ConnectionLimits)
  (traffic : TrafficUpdateConfig) (env : environment).
#[local] Abbreviation run := (Server.run (T:=T) ctx acl_engine limits traffic env).
#[local] Abbreviation answer := (Server.answer (T:=T) ctx acl_engine limits traffic env).

Lemma run_execs {R} (p : prog R) s : exists t, execs p t (run p s).1.
Proof.
  revert s. induction p as [r|X c k IH]; intros s; cbn [Server.run].
  - exists []. constructor.
  - destruct (answer c s) as [[x s']|].
    + destruct (IH x (tick s')) as [t Ht]. exists (Ob c x :: t). by constructor.
    + exists []. constructor.
Qed.

Lemma run_call {X R} (c : call X) (k : X -> prog R) s x s' :
  answer c s = Some (x, s') -> run (Call c k) s = run (k x) (tick s').
Proof. cbn. by intros ->. Qed.

Lemma run_client {A R} (op : client_op A) (k : _ -> prog R) s r st :
  client_io ctx op (sv_client s) = (r, st) ->
  run (Call (CClient op) k) s = run (k r) (tick (set_client st s)).
Proof. intros Hc. apply run_call. cbn. by rewrite Hc. Qed.

Lemma run_pbind {R S} (p : prog R) (f : R -> prog S) s :
  run (pbind p f) s =
  match run p s with (Some r, s') => run (f r) s' | (None, s') => (None, s') end.
Proof.
  revert s. induction p as [r|X c k IH]; intros s; cbn; [done|].
  destruct (answer c s) as [[x s']|]; [apply IH|done].
Qed.

(** A parser that accepts what comes next. *)
Lemma parses_next {A} (m : io A) wire a bs rest e o sc :
  parses m wire -> wire a bs -> m (mkStream (bs ++ rest) e o sc) = (Ok a, mkStream rest e o sc).
Proof. intros Hp Hw. apply Hp. by exists bs. Qed.

(** ** A SOCKS5 connection *)

(** One call to the client, answered by [tac], or any other one. *)
Ltac unwrap := cbn [mbind M_bind mret M_ret raise pbind Handler.client attempt attempt_io map_err do_call refuse].
Ltac settle := cbv beta iota delta [tick set_client set_qos set_acl_stats set_manager set_pool sv_calls sv_client
  sv_qos sv_acl_stats sv_manager sv_pool sv_relays sv_shutdowns inp inp_end outp sched Nat.add Server.now fresh].
Tactic Notation "ask" tactic3(tac) := unwrap; erewrite run_client; [|tac]; settle; unwrap.
Tactic Notation "call" tactic3(tac) := unwrap; erewrite run_call; [|tac]; settle; unwrap.

(** From the version byte to the slot of the user: the method of the server is
    among those that the client offers, and the authentication succeeds. *)
Lemma socks5_accepted addr g greet i who i1 e1 o1 n e o q st m p rl sd k q1 :
  let am := auth_manager ctx in
  let ug := match who with Some (user, groups) => (user, groups) | None => (anonymous_user ctx, []) end in
  authenticate_client am (sa_ip addr) = Ok () ->
  wire_greeting g greet -> get_method am ∈ methods g ->
  authenticate am (get_method am) (sa_ip addr)
    (mkStream i e (o ++ [x05; AuthMethod_to_u8 (get_method am)]) []) = (Ok who, mkStream i1 e1 o1 []) ->
  check_and_inc_connection (env_clock env (4 + n)) ug.1 limits q = (Ok k, q1) ->
  run (handle_client ctx addr) (mkServer n (mkStream (SOCKS_VERSION :: greet ++ i) e o []) q st m p rl sd) =
  run (guarded ug.1 (socks5_request ctx addr ug.1 ug.2)) (mkServer (5 + n) (mkStream i1 e1 o1 []) q1 st m p rl sd).
Proof.
  intros am ug Hc Hg Hm Ha Hq. unfold handle_client. fold am. rewrite Hc.
  ask reflexivity. rewrite decide_True by done. unfold handle_socks5. fold am.
  ask (eapply parses_next; [apply greeting_parses|exact Hg]).
  rewrite bool_decide_true by done.
  ask reflexivity.
  ask (exact Ha). fold ug. destruct ug as [user groups]. cbn [fst snd] in *.
  call (cbn; unfold Server.now; cbn; cbn in Hq; rewrite Hq; reflexivity).
  reflexivity.
Qed.

(** From the version byte to the slot of the anonymous user. *)
Lemma socks5_handshake addr g greet rest n e o q st m p rl sd k q1 :
  client_backend (auth_manager ctx) = BackendNone -> socks_backend (auth_manager ctx) = BackendNone ->
  wire_greeting g greet -> NoAuth ∈ methods g ->
  check_and_inc_connection (env_clock env (4 + n)) (anonymous_user ctx) limits q = (Ok k, q1) ->
  run (handle_client ctx addr)
    (mkServer n (mkStream (SOCKS_VERSION :: greet ++ rest) e o []) q st m p rl sd) =
  run (guarded (anonymous_user ctx) (socks5_request ctx addr (anonymous_user ctx) []))
    (mkServer (5 + n) (mkStream rest e (o ++ [x05; x00]) []) q1 st m p rl sd).
Proof.
  intros Hc Hs Hg Hna Hq.
  assert (Hgm : get_method (auth_manager ctx) = NoAuth) by (unfold get_method; by rewrite Hs).
  apply (socks5_accepted addr g greet rest None rest e (o ++ [x05; x00]) n e o q st m p rl sd k q1);
    [unfold authenticate_client; by rewrite Hc|done|by rewrite Hgm| |done].
  unfold authenticate. by rewrite Hgm, Hs.
Qed.

(** C4: A SOCKS5 request that the rules block.  The client reads the choice of
    no authentication and the refusal, and nothing else; its request is on
    record as one rejected session of that user, destination and rule, and in
    the counters of the rules; no connection is made, no session is opened, and
    the slot is given back. *)
Theorem blocked_request addr g greet q req rest (s : server T) k qs1 rule :
  client_backend (auth_manager ctx) = BackendNone -> socks_backend (auth_manager ctx) = BackendNone ->
  acl_enabled ctx = true ->
  wire_greeting g greet -> NoAuth ∈ methods g -> wire_socks5_request q req ->
  inp (sv_client s) = SOCKS_VERSION :: greet ++ req ++ rest -> sched (sv_client s) = [] ->
  counts_u64 (qs_engine (sv_qos s)) ->
  check_and_inc_connection (env_clock env (4 + sv_calls s)) (anonymous_user ctx) limits (sv_qos s) =
    (Ok k, qs1) ->
  evaluate_with_groups acl_engine (anonymous_user ctx) [] (s5_address q) (s5_port q)
    (match s5_command q with UdpAssociate => Acl.Udp | _ => Acl.Tcp end) = (DecisionBlock, rule) ->
  exists s', serve ctx acl_engine limits traffic env addr s = (Some (Ok ()), s') /\
    outp (sv_client s') = outp (sv_client s) ++
      [x05; x00] ++ [x05; x02; x00; x01; x00; x00; x00; x00; x00; x00] /\
    inp (sv_client s') = rest /\
    sv_pool s' = sv_pool s /\ active_sessions (sv_manager s') = active_sessions (sv_manager s) /\
    (exists x, rejected_sessions (sv_manager s') = rejected_sessions (sv_manager s) ++ [x] /\
       Session.user x = anonymous_user ctx /\ Session.dest_ip x = Address_fmt (s5_address q) /\
       Session.dest_port x = s5_port q /\ status x = RejectedByAcl /\ acl_rule_matched x = rule) /\
    sv_acl_stats s' = record_block (anonymous_user ctx) (sv_acl_stats s) /\
    same_counts (qs_engine (sv_qos s)) (qs_engine (sv_qos s')).
Proof.
  intros Hc Hs Hon Hg Hna Hr Hi Hsc Hcnt Hq He.
  destruct s as [n [i e o sc] qs st m p rl sd]; cbn in Hi, Hsc, Hcnt, Hq; subst.
  eexists. split.
  { unfold serve. erewrite socks5_handshake by eassumption.
    unfold guarded, socks5_request.
    ask (eapply parses_next; [apply socks5_request_parses|exact Hr]).
    unfold enforce. rewrite Hon. call reflexivity. rewrite He. unwrap.
    call reflexivity. call reflexivity. ask reflexivity.
    call reflexivity. call reflexivity. reflexivity. }
  cbn [sv_client sv_qos sv_acl_stats sv_manager sv_pool inp outp qs_engine].
  split_and!; try done; [by rewrite <- (assoc_L (++))| |by eapply slot_roundtrip].
  eexists. split; [reflexivity|]. done.
Qed.

(** The address and the port in a SOCKS5 reply. *)
Definition wire_local (la : SocketAddr) : list u8 :=
  (match sa_ip la with V4 o => x01 :: o | V6 o => x04 :: o end) ++ to_be_bytes (sa_port la).

Lemma close_session_some id now reason st x (m : SessionManager T) :
  active_sessions m !! id = Some x ->
  let m' := close_session id now reason st m in
  active_sessions m' = delete id (active_sessions m) /\
  rejected_sessions m' = rejected_sessions m /\
  closed_sessions m' = closed_sessions m ++ [close now reason st x].
Proof. intros Hx. unfold close_session. cbn. by rewrite Hx. Qed.

(** A session that is opened, relayed and closed is one new entry of the record. *)
Lemma opened_closed id now t user conn decision rule (m : SessionManager T) e w' reason how :
  active_sessions m !! id = None ->
  relay_kept id (mkShared (new_session_with_control id id t user conn decision rule None m).2 e) w' ->
  let m' := close_session id now (Some reason) how (sh_manager w') in
  active_sessions m' = active_sessions m /\ rejected_sessions m' = rejected_sessions m /\
  exists x, closed_sessions m' = closed_sessions m ++ [x] /\
    Session.user x = user /\ Session.dest_ip x = ci_dest_ip conn /\
    Session.dest_port x = ci_dest_port conn /\ Session.status x = how /\ close_reason x = Some reason /\
    acl_decision x = decision /\ acl_rule_matched x = rule.
Proof.
  intros Hid [Hkc Hkr Hko Hks _]. cbn [sh_manager] in *.
  change (active_sessions (new_session_with_control id id t user conn decision rule None m).2) with
    (<[id := set_status Active (Session_new id t user conn decision rule)]> (active_sessions m)) in Hko, Hks.
  rewrite lookup_insert_eq in Hks. apply fmap_Some in Hks as (x & Hx & Hid').
  rewrite delete_insert_eq, (delete_id (active_sessions m)) in Hko by done.
  destruct (close_session_some id now (Some reason) how x (sh_manager w') Hx) as (Hac & Hrj & Hcl).
  injection Hid' as Hx1 Hx2 Hx3 Hx4 Hx5 Hx6 Hx7 Hx8 Hx9.
  split; [by etrans|]. split; [by etrans|].
  eexists. split; [etrans; [exact Hcl|]; by rewrite Hkc|]. cbn. by split_and!.
Qed.

Lemma send_local la i e o :
  client_io ctx (KReply SocksV5 Succeeded (address_of_ip (sa_ip la)) (sa_port la)) (mkStream i e o []) =
  (Ok (), mkStream i e (o ++ [x05; x00; x00] ++ wire_local la) []).
Proof. unfold wire_local. by destruct (sa_ip la). Qed.

(** ** A connection that is served *)

(** The candidates of a destination. *)
Definition candidates (dest : Address) (port : Z) (cs : list SocketAddr) : Prop :=
  match dest with
  | IPv4 octets => cs = [mkSocketAddr (V4 octets) port]
  | IPv6 octets => cs = [mkSocketAddr (V6 octets) port]
  | Domain domain => exists found, env_lookup env domain port = Ok found /\ cs = sort_by family_leb found
  end.

(** From call [n] on, the pool connects to the first of the candidates that it
    can, by call [n']. *)
Inductive connects : nat -> list SocketAddr -> Pool.ConnectionPool ->
    Pool.TcpStream -> SocketAddr -> Pool.ConnectionPool -> nat -> Prop :=
| connects_here n target cs pool up pool' :
    Pool.get (env_clock env n) (env_clock env n) (env_connect env target) target pool = (Ok up, pool') ->
    connects n (target :: cs) pool up target pool' (S n)
| connects_later n target cs pool e pool1 up addr pool' n' :
    Pool.get (env_clock env n) (env_clock env n) (env_connect env target) target pool = (Err e, pool1) ->
    connects (S n) cs pool1 up addr pool' n' -> connects n (target :: cs) pool up addr pool' n'.

Lemma run_connect_first n cs pool up target pool' n' last c q st m rl sd :
  connects n cs pool up target pool' n' ->
  exists last', run (connect_first cs last) (mkServer n c q st m pool rl sd) =
    (Some (Some (up, target), last'), mkServer n' c q st m pool' rl sd).
Proof.
  intros Hc. revert last. induction Hc as [n target cs pool up pool' Hg|n target cs pool e pool1 up addr pool' n' Hg _ IH];
    intros last; cbn [connect_first].
  - exists last.
    call (cbn [Server.answer]; unfold Server.now; cbn [sv_calls sv_pool]; rewrite Hg; reflexivity). reflexivity.
  - destruct (IH (Some e)) as [last' Hl]. exists last'.
    call (cbn [Server.answer]; unfold Server.now; cbn [sv_calls sv_pool]; rewrite Hg; reflexivity). exact Hl.
Qed.

(** The calls that a lookup takes. *)
Definition lookups (dest : Address) : nat := match dest with Domain _ => 1 | _ => 0 end.

Lemma run_resolve dest port cs n c q st m p rl sd :
  candidates dest port cs -> cs <> [] ->
  run (resolve_address dest port) (mkServer n c q st m p rl sd) =
    (Some (Ok cs), mkServer (lookups dest + n) c q st m p rl sd).
Proof.
  intros Hc Hne. destruct dest as [o|o|d]; cbn [candidates] in Hc; [by subst cs..|].
  destruct Hc as (found & Hf & ->). unfold resolve_address.
  call (cbn [Server.answer]; rewrite Hf; reflexivity).
  cbn [Server.run]. unfold order_targets. by destruct (sort_by _ _).
Qed.

(** How a relay that has returned [r] ends a connection: what the session is
    closed with and what the handler returns. *)
Definition ending {A} (r : result RustSocksError A) : string * SessionStatus * result RustSocksError () :=
  match r with
  | Ok _ => ("Connection closed normally"%string, Closed, Ok ())
  | Err ConnectionClosed => ("Connection closed by client"%string, Closed, Ok ())
  | Err e => (("Proxy error: " +:+ RustSocksError_fmt e)%string, Failed, Err e)
  end.
Definition give_back (now : Z) (target : SocketAddr)
    (r : result RustSocksError (option (Pool.TcpStream * Pool.ReuseHint))) : Pool.ConnectionPool -> Pool.ConnectionPool :=
  match r with
  | Ok (Some (stream, hint)) => Pool.put now now (env_order env) target stream hint
  | _ => Pool.release target Pool.Refresh
  end.

(** From the upstream connection to the end of the session. *)
Lemma run_serve dest port sctx up target la r n i e o q st m pool rl sd :
  let id := env_fresh env n in
  let opened := new_session_with_control id id (env_clock env n) (sc_user sctx)
    (connection_info (sc_client_addr sctx) (dest_host dest) port (sc_protocol sctx))
    (sc_acl_decision sctx) (sc_acl_rule sctx) None m in
  let p := proxy_run (packet_interval traffic) id id (sc_user sctx) (env_relay env)
             (proxy_start (mkShared opened.2 (qs_engine q))) in
  env_local_addr env up = Ok la -> proxy_result up p = Some r ->
  run (serve_connection SocksV5 dest port sctx up target) (mkServer n (mkStream i e o []) q st m pool rl sd) =
    (Some (ending r).2,
     mkServer (6 + n) (mkStream i e (o ++ [x05; x00; x00] ++ wire_local la) [])
       (mkQosState (sh_qos (world p)) (active_qos_users q)) st
       (close_session id (env_clock env (5 + n)) (Some (ending r).1.1) (ending r).1.2 (sh_manager (world p)))
       (give_back (env_clock env (4 + n)) target r pool) rl sd).
Proof.
  intros id opened p Hla Hres. unfold serve_connection.
  call (exact (eq_refl (Some ((id, id), set_manager opened.2 _)))).
  call (cbn [Server.answer]; rewrite Hla; reflexivity).
  rewrite (bool_decide_false (SocksV5 = SocksV4)) by done. cbn [andb].
  ask (apply send_local).
  assert (Hrel : forall sv, sv_manager sv = opened.2 -> sv_qos sv = q ->
            answer (CProxy up id id (sc_user sctx)) sv =
            Some (r, set_manager (sh_manager (world p))
                       (set_qos (mkQosState (sh_qos (world p)) (active_qos_users q)) sv))).
  { intros sv Hm Hqs. cbn [Server.answer]. unfold relay. rewrite Hm, Hqs. fold p. by rewrite Hres. }
  call (apply Hrel; reflexivity). clear Hrel Hres. generalize (world p). clear p. intros w.
  destruct r as [[[stream hint]|]|err]; [..|destruct err]; call reflexivity; unfold do_call;
    call reflexivity; reflexivity.
Qed.

(** The calls of [enforce]. *)
Definition asked : nat := if acl_enabled ctx then 2 else 0.

(** A CONNECT that is let through and connected. *)
Lemma run_connect addr user groups dest port req rest cs up target pool' n' n e o q st m pool rl sd rule :
  let sctx := mkSessionContext user addr "allow" rule Tcp in
  wire_socks5_request (mkSocks5Request Connect dest port) req ->
  (if acl_enabled ctx
   then evaluate_with_groups acl_engine user groups dest port Acl.Tcp = (DecisionAllow, rule) else rule = None) ->
  candidates dest port cs -> connects (lookups dest + (2 + asked + n)) cs pool up target pool' n' ->
  run (socks5_request ctx addr user groups) (mkServer n (mkStream (req ++ rest) e o []) q st m pool rl sd) =
  run (serve_connection SocksV5 dest port sctx up target)
    (mkServer n' (mkStream (drop (env_buffered env) rest) e o []) q
       (if acl_enabled ctx then record_allow user st else st) m pool' rl sd).
Proof.
  intros sctx Hr Hrule Hc Hcon. unfold socks5_request.
  ask (eapply parses_next; [apply socks5_request_parses|exact Hr]).
  cbn [s5_address s5_port s5_command]. unfold enforce.
  assert (Hrest : forall n0 st0, connects (lookups dest + S n0) cs pool up target pool' n' ->
    run (Call CIntoInner (fun _ => handle_connect SocksV5 dest port sctx))
      (mkServer n0 (mkStream rest e o []) q st0 m pool rl sd) =
    run (serve_connection SocksV5 dest port sctx up target)
      (mkServer n' (mkStream (drop (env_buffered env) rest) e o []) q st0 m pool' rl sd)).
  { intros n0 st0 Hcn. call reflexivity. unfold handle_connect.
    rewrite run_pbind, (run_resolve dest port cs) by (done || by inversion Hcn).
    rewrite (bool_decide_false (SocksV5 = SocksV4)) by done. cbn [andb].
    rewrite run_pbind.
    destruct (run_connect_first _ _ _ _ _ _ _ None (mkStream (drop (env_buffered env) rest) e o []) q st0 m rl sd Hcn)
      as [last' Hl].
    unfold into_inner; cbn [inp inp_end outp sched]. rewrite Hl. reflexivity. }
  unfold asked in Hcon. destruct (acl_enabled ctx).
  - call reflexivity. rewrite Hrule. unwrap. call reflexivity. by apply Hrest.
  - subst rule. by apply Hrest.
Qed.

(** C3: A SOCKS5 CONNECT that is served, from the first byte of the client to the
    end of its session: the client offers the method of the server and passes its
    authentication, its user gets a slot, the rules allow the destination or are
    off, and one of the addresses of the destination answers (the first that does
    is taken).  The client, whose socket takes every write, reads what the
    authentication wrote and then the success with the local address of the
    upstream connection, and the relay runs.  However it ends, one session was
    added to the record, of that user, destination and rule, no other session
    changed, none is open that was not, and the slot is given back.  After a relay
    without error the session is closed and the connection returned as the relay
    says; after a cancellation, or an error of a peer that closed, it is closed "by
    client" and the connection released; after any other error it is marked failed
    with that error, which the handler returns, and the connection released. *)
Theorem served_request addr g greet i who e1 o1 dest port req rest (s : server T) k qs1 rule
    cs up target pool1 n' la r :
  let am := auth_manager ctx in
  let user := match who with Some (name, _) => name | None => anonymous_user ctx end in
  let groups := match who with Some (_, groups) => groups | None => [] end in
  let id := env_fresh env n' in
  let opened := new_session_with_control id id (env_clock env n') user
    (connection_info addr (dest_host dest) port Tcp) "allow" rule None (sv_manager s) in
  let p := proxy_run (packet_interval traffic) id id user (env_relay env)
             (proxy_start (mkShared opened.2 (qs_engine qs1))) in
  inp (sv_client s) = SOCKS_VERSION :: greet ++ i -> sched (sv_client s) = [] ->
  authenticate_client am (sa_ip addr) = Ok () -> wire_greeting g greet -> get_method am ∈ methods g ->
  authenticate am (get_method am) (sa_ip addr)
    (mkStream i (inp_end (sv_client s)) (outp (sv_client s) ++ [x05; AuthMethod_to_u8 (get_method am)]) []) =
    (Ok who, mkStream (req ++ rest) e1 o1 []) ->
  check_and_inc_connection (env_clock env (4 + sv_calls s)) user limits (sv_qos s) = (Ok k, qs1) ->
  counts_u64 (qs_engine (sv_qos s)) -> active_sessions (sv_manager s) !! id = None ->
  wire_socks5_request (mkSocks5Request Connect dest port) req ->
  (if acl_enabled ctx
   then evaluate_with_groups acl_engine user groups dest port Acl.Tcp = (DecisionAllow, rule) else rule = None) ->
  candidates dest port cs ->
  connects (lookups dest + (2 + asked + (5 + sv_calls s))) cs (sv_pool s) up target pool1 n' ->
  env_local_addr env up = Ok la -> proxy_result up p = Some r ->
  exists s', serve ctx acl_engine limits traffic env addr s = (Some (ending r).2, s') /\
    outp (sv_client s') = o1 ++ [x05; x00; x00] ++ wire_local la /\
    inp (sv_client s') = drop (env_buffered env) rest /\
    active_sessions (sv_manager s') = active_sessions (sv_manager s) /\
    rejected_sessions (sv_manager s') = rejected_sessions (sv_manager s) /\
    (exists x, closed_sessions (sv_manager s') = closed_sessions (sv_manager s) ++ [x] /\
       Session.user x = user /\ Session.dest_ip x = dest_host dest /\
       Session.dest_port x = port /\ Session.status x = (ending r).1.2 /\
       close_reason x = Some (ending r).1.1 /\
       acl_decision x = "allow"%string /\ acl_rule_matched x = rule) /\
    (exists now, sv_pool s' = give_back now target r pool1) /\
    sv_acl_stats s' = (if acl_enabled ctx then record_allow user (sv_acl_stats s) else sv_acl_stats s) /\
    same_counts (qs_engine (sv_qos s)) (qs_engine (sv_qos s')).
Proof.
  destruct s as [n [i0 e o sc] qs stt m pl rl sd].
  intros am user groups id opened p Hi Hsc Hc Hg Hm Ha Hq Hcnt Hid Hr Hrule Hcand Hcon Hla Hres.
  cbn [sv_calls sv_client sv_qos sv_manager sv_pool sv_acl_stats inp sched outp inp_end] in *. subst i0 sc.
  pose proof (kept_run (packet_interval traffic) id id user (env_relay env)
    (proxy_start (mkShared opened.2 (qs_engine qs1)))) as Hk. change (world (proxy_run _ _ _ _ _ _)) with (world p) in Hk.
  eexists. split.
  { unfold serve. rewrite (socks5_accepted addr g greet i who (req ++ rest) e1 o1 _ _ _ _ _ _ _ _ _ k qs1)
      by (done || by destruct who as [[]|]).
    replace (match who with Some (u, gs) => (u, gs) | None => (anonymous_user ctx, []) end) with (user, groups)
      by (by unfold user, groups; destruct who as [[]|]).
    cbn [fst snd]. unfold guarded. rewrite run_pbind.
    erewrite run_connect by eassumption. erewrite run_serve by eassumption.
    call reflexivity. call reflexivity. reflexivity. }
  cbn [sv_client sv_qos sv_acl_stats sv_manager sv_pool inp outp qs_engine].
  destruct (opened_closed _ (env_clock env (5 + n')) _ _ _ _ _ _ _ _ (ending r).1.1 (ending r).1.2 Hid Hk)
    as (Hac & Hrj & Hcl).
  split_and!; [done|done|exact Hac|exact Hrj|exact Hcl|by eexists|done|].
  apply rk_counts in Hk. by eapply (slot_roundtrip _ _ _ _ _ _ (mkQosState _ _)).
Qed.
End runs.

(** ** Concrete connections *)

#[local] Existing Instance Wildcard.demo_deps.
#[local] Existing Instance AclSpec.stable_unstable_sort.
#[local] Existing Instance AuthSpec.demo_auth_deps.
#[local] Existing Instance ManagerSpec.mem_sink.

(** An engine without rules, that answers by its default policy. *)
Definition demo_acl (policy : Action) : AclEngine :=
  mkAclEngine (mkCompiledAclConfig (mkGlobalAclConfig policy) ∅ ∅ ∅).

(** The client sends three bytes through the relay and closes. *)
Definition demo_relay : list proxy_event :=
  let sending bs := mkRound (SelRead bs) (mkAllocClock 0 [] 0 0 0 0 []) None in
  [(Upload, sending [x01; x02; x03]); (Upload, sending []); (Download, sending [])].
Definition demo_env : environment := mkEnvironment (fun n => Z.of_nat n) (fun n => Z.of_nat n) 1
  (fun _ _ => Err OtherKind) (fun _ => Ok 3) (fun _ => Ok demo_client_addr) [] demo_relay
  (Err OtherKind) AcceptTimeout (Err OtherKind) ControlClosed.

Definition demo_greeting : list u8 := [x02; x02; x00].
Definition demo_request : list u8 := [x05; x01; x00; x01; x0a; x00; x00; x01] ++ to_be_bytes 443.
Definition demo_limits : ConnectionLimits := mkConnectionLimits 20 100.
Definition demo_server (qos : QosState) : server (list Session) :=
  mkServer 0 (Stream.client (SOCKS_VERSION :: demo_greeting ++ demo_request ++ [x61; x62])) qos AclStats_new
    (SessionManager_new SessionMetrics_init) (Pool.ConnectionPool_new Pool.PoolConfig_default) [] [].
Definition demo_qos : QosState := mkQosState (QosHtb (HtbQos_new 0 HtbConfig_default)) 0.

Lemma demo_greeting_wire : wire_greeting (mkClientGreeting [UserPass; NoAuth]) demo_greeting.
Proof. apply (wire_greeting_intro x02 [x02; x00]); done. Qed.
Lemma demo_request_wire :
  wire_socks5_request (mkSocks5Request Connect (IPv4 [x0a; x00; x00; x01]) 443) demo_request.
Proof. apply (wire_socks5_request_intro Connect _ 443 x00 [x01; x0a; x00; x00; x01]); [by constructor|done]. Qed.
Lemma demo_counts : counts_u64 (qs_engine demo_qos).
Proof. split; [vm_compute; by split|]. intros u. unfold get_user_connections. cbn. by rewrite lookup_empty. Qed.

Lemma blocked_request_witness :
  exists s', serve demo_ctx (demo_acl Block) demo_limits TrafficUpdateConfig_default demo_env
      demo_client_addr (demo_server demo_qos) = (Some (Ok ()), s') /\
    outp (sv_client s') = [x05; x00; x05; x02; x00; x01; x00; x00; x00; x00; x00; x00] /\
    same_counts (qs_engine demo_qos) (qs_engine (sv_qos s')).
Proof.
  destruct (blocked_request demo_ctx (demo_acl Block) demo_limits TrafficUpdateConfig_default demo_env
    demo_client_addr (mkClientGreeting [UserPass; NoAuth]) demo_greeting
    (mkSocks5Request Connect (IPv4 [x0a; x00; x00; x01]) 443) demo_request [x61; x62]
    (demo_server demo_qos) 1
    (check_and_inc_connection 4 "anonymous" demo_limits demo_qos).2
    (Some "Default policy (no matching groups)"%string))
    as (s' & Hs & Ho & _ & _ & _ & _ & _ & Hc).
  - reflexivity.
  - reflexivity.
  - reflexivity.
  - exact demo_greeting_wire.
  - right; left.
  - exact demo_request_wire.
  - reflexivity.
  - reflexivity.
  - exact demo_counts.
  - reflexivity.
  - vm_compute; reflexivity.
  - exists s'. split; [exact Hs|]. split; [exact Ho|exact Hc].
Defined.

(** "alice" asks for a name that stands for two addresses.  The first does not
    answer, and the second fails while it is read. *)
Definition demo_failing : environment :=
  let round sel := mkRound sel (mkAllocClock 0 [] 0 0 0 0 []) None in
  mkEnvironment (fun n => Z.of_nat n) (fun n => Z.of_nat n) 1
  (fun _ _ => Ok [mkSocketAddr (V4 [x0a; x00; x00; x09]) 443; demo_target])
  (fun a => if decide (a = demo_target) then Ok 3 else Err OtherKind) (fun _ => Ok demo_client_addr) []
  [(Upload, round (SelRead [x01; x02; x03])); (Upload, round (SelRead [])); (Download, round (SelReadErr OtherKind))]
  (Err OtherKind) AcceptTimeout (Err OtherKind) ControlClosed.
Definition demo_alice : ClientHandlerContext :=
  mkContext _ (mkAuthManager BackendNone (BackendUserPass {["alice"%string := "secret"%string]})) true "anonymous".
Definition demo_named : list u8 := [x05; x01; x00; x03; x02; x64; x62] ++ to_be_bytes 443.
Definition demo_input : list u8 := AuthSpec.demo_credentials ++ demo_named ++ [x61; x62].
Definition demo_client_server : server (list Session) :=
  mkServer 0 (Stream.client (SOCKS_VERSION :: demo_greeting ++ demo_input)) demo_qos AclStats_new
    (SessionManager_new SessionMetrics_init) (Pool.ConnectionPool_new Pool.PoolConfig_default) [] [].

Lemma demo_named_wire : wire_socks5_request (mkSocks5Request Connect (Domain "db") 443) demo_named.
Proof.
  apply (wire_socks5_request_intro Connect (Domain "db") 443 x00 [x03; x02; x64; x62]); [|done].
  constructor. apply (wire_pstring_intro "db"); done.
Qed.

Lemma served_request_witness :
  exists s', serve demo_alice (demo_acl Allow) demo_limits TrafficUpdateConfig_default demo_failing
      demo_client_addr demo_client_server = (Some (Err (Io OtherKind)), s') /\
    outp (sv_client s') = [x05; x02; x01; x00] ++ [x05; x00; x00] ++ wire_local demo_client_addr /\
    (exists x, closed_sessions (sv_manager s') = [x] /\ Session.user x = "alice"%string /\
       Session.status x = Failed) /\
    same_counts (qs_engine demo_qos) (qs_engine (sv_qos s')).
Proof.
  destruct (served_request demo_alice (demo_acl Allow) demo_limits TrafficUpdateConfig_default demo_failing
    demo_client_addr (mkClientGreeting [UserPass; NoAuth]) demo_greeting demo_input
    (Some ("alice"%string, [])) UnexpectedEof [x05; x02; x01; x00]
    (Domain "db") 443 demo_named [x61; x62] demo_client_server 1
    (check_and_inc_connection 4 "alice" demo_limits demo_qos).2
    (Some "Default policy (no matching groups)"%string)
    [mkSocketAddr (V4 [x0a; x00; x00; x09]) 443; demo_target]
    (Pool.mkTcpStream 3 demo_target) demo_target
    (Pool.get 11 11 (Ok 3) demo_target
       (Pool.get 10 10 (Err OtherKind) (mkSocketAddr (V4 [x0a; x00; x00; x09]) 443)
          (Pool.ConnectionPool_new Pool.PoolConfig_default)).2).2
    12 demo_client_addr (Err (Io OtherKind)))
    as (s' & Hs & Ho & _ & _ & _ & (x & Hx & Hu & _ & _ & Hst & _) & _ & _ & Hc).
  - reflexivity.
  - reflexivity.
  - reflexivity.
  - exact demo_greeting_wire.
  - left.
  - vm_compute; reflexivity.
  - reflexivity.
  - exact demo_counts.
  - reflexivity.
  - exact demo_named_wire.
  - vm_compute; reflexivity.
  - eexists. split; reflexivity.
  - eapply connects_later; [vm_compute; reflexivity|]. apply connects_here. vm_compute; reflexivity.
  - reflexivity.
  - vm_compute; reflexivity.
  - exists s'. split; [exact Hs|]. split; [exact Ho|]. split; [|exact Hc].
    exists x. split; [exact Hx|]. split; [exact Hu|exact Hst].
Defined.
